(* ===== verification/_CoqProject ===== *)
-Q . S2P
Prelude.v
Tasks.v
Usize.v
Errors.v
Bitmap.v
BitmapRange.v
BitmapSpec.v
BitmapConc.v
BitmapClaims.v
Geometry.v
SlotSpec.v
Metrics.v
Memory.v
Config.v
Dealloc.v
Buffer.v
FixedArena.v
FixedProps.v
FixedConc.v
FixedConcSeq.v
BuddyTiling.v
Buddy.v
BuddyCore.v
BuddyArena.v
BuddyProps.v
BuddyConc.v
ArenaRef.v
BufferOps.v
BufferProps.v
BufferClaims.v
Lifecycle.v
LifecycleProps.v
Async.v
AsyncArena.v
AsyncProps.v
AsyncRegs.v
AsyncScore.v
AsyncClaims.v
AsyncSystem.v
AsyncFixed.v
AsyncFixedProps.v
AsyncNotify.v
AsyncFixedConc.v
AsyncFixedConcProps.v
AsyncFixedConcRace.v
AsyncConc.v
AsyncConcInv.v
AsyncConcSteps.v
AsyncConcClaims.v
AsyncConcRace.v
AsyncConcSeq.v
Treiber.v
TreiberConc.v
TreiberConcProps.v
Lifetime.v
LifetimeProps.v
Examples.v
