(* ===== verification/Prelude.v ===== *)
(** * A verified model of arena-alligator

    arena-alligator hands out byte buffers from one preallocated region.  A
    [FixedArena] cuts the region into equal slots, a [BuddyArena] into blocks of
    power-of-two sizes that split and merge; both keep their free space in
    atomic bitmaps.  A [Buffer] is filled through [BufMut], may spill to the
    heap, and is frozen into [Bytes] that give the allocation back when the last
    of them is dropped; a [RawRegion] is the same without the bookkeeping.  The
    backing memory goes when the last reference does.  Async arenas let a task
    wait for room.

    This library models that code as executable definitions and proves what
    makes it correct.  Names are those of the source; a definition's doc comment
    says where it departs from the obvious reading.

    ** Conventions

    - A call is a value of [outcome]: [Ret], [Panic], or [OutOfFuel] for a loop
      that ran out of the iterations it was given.  Theorems that a call returns
      exclude the last.  Reading uninitialised or freed memory, following a
      dangling reference and a null result of the global allocator are [Panic]
      too: the code never recovers from them.
    - [usize] is 64 bits: a [Z] below [2^64], with [usz_add] and the like doing
      what a cargo profile makes of an overflow ([Profile]: [dev] panics,
      [release] wraps).
    - Memory is a map from addresses to bytes; [World] holds it with the log of
      wake-up calls.
    - Code outside the repository is a parameter with a class of laws: the
      [bytes] crate ([BytesLib]), the global allocator ([GlobalAlloc]),
      [sysconf] ([Platform]), tokio's oneshot channel ([OneshotLib]) and
      [Notify] ([NotifyLib]).  Each has an instance the witnesses use.  A call of
      [bytes] that allocates may fail; [BytesLaws] has it return only up to a size
      the heap serves, [BytesMut_limit], and theorems about buffers that spill
      say how far below it they hold.
    - A size above [2^63] cannot be rounded to a power of two.  Theorems about
      requests and hints either say what happens then or are stated for sizes up
      to that.
    - Atomics are sequentially consistent, but for loads that only guide a
      search, which may return anything.  An operation of an arena or of the
      waiters is one step, except in [BitmapConc], [FixedConc], [BuddyConc],
      [AsyncConc], [AsyncFixedConc] and [TreiberConc], where a step is one access
      to shared state.

    ** Files

    - [Prelude], [Tasks], [Usize]: outcomes and their notation, maps of tasks,
      machine integers.
    - [Errors]: [error.rs] and the error of [hazmat/raw_region.rs].
    - [Bitmap], [BitmapRange], [BitmapSpec], [BitmapConc], [BitmapClaims]:
      [bitmap.rs].  Word scans, range masks, the bitmap as a set of free slots
      (a refinement), and [try_alloc], [free] and [try_claim_exact] one atomic
      access at a time under every interleaving, with stale scan loads.
    - [Geometry], [SlotSpec]: [geometry.rs] and [spec.rs], the arithmetic that
      turns a request into a layout.
    - [Metrics], [Memory], [Config], [Dealloc]: [metrics.rs]; zeroing and
      prefaulting, page sizes and build configuration of [arena.rs];
      [dealloc.rs] over a store of boxes.
    - [FixedArena], [FixedProps]: the fixed arena of [arena.rs] and its branch
      of [allocation.rs].  [fixed_inv] ties the bitmaps, the memory and the
      metrics to the list of slots outstanding.
    - [FixedConc]: [allocate] and [release] of the fixed arena as sequences of
      accesses to the bitmap, the scrub record, the bytes and the counters, between
      threads that also write to what they hold.  [FixedConcSeq]: without
      interruption they are the operations of [FixedArena].
    - [BuddyTiling], [Buddy], [BuddyCore], [BuddyArena], [BuddyProps]:
      [buddy.rs].  The free and the outstanding blocks tile the region
      ([BuddyTiling]); [buddy_inv] says the bitmaps and the summary word are
      such a tiling.
    - [BuddyConc]: [allocate] and [release_block] of [buddy.rs] as sequences of
      accesses to bitmaps and summary, interleaved between threads.
    - [Buffer], [ArenaRef], [BufferOps], [BufferProps], [BufferClaims]:
      [buffer.rs], [handle.rs], [ext.rs], [allocation.rs] and [RawRegion], over
      the interface [ArenaOps] with [ArenaLaws], which both arenas discharge.
    - [Lifecycle], [LifecycleProps]: any number of buffers, raw regions and
      frozen bytes over one arena, refined to a map from objects to contents.
    - [Lifetime], [LifetimeProps]: the reference count of the arena, its drop
      and the deallocation of its backing.
    - [Async], [AsyncArena], [AsyncProps], [AsyncRegs], [AsyncScore],
      [AsyncClaims], [AsyncSystem]: the buddy half of [async_alloc.rs].
      [Async] has the entries, queues, scoring and registrations, [AsyncArena]
      the allocation loop and its tasks.  [waiters_inv] ties counters and head
      timestamps to the live entries of the queues; [async_inv] composes it with
      [buddy_inv].
    - [AsyncFixed], [AsyncFixedProps], [AsyncNotify]: its fixed half.
      [WaiterOps] and [WaiterLaws] are the traits [Waiter] and
      [WaitRegistration] and what the arena needs of them; the client theorem is
      proved against the laws, and the [Notify]-based waiters provide them.
    - [AsyncFixedConc], [AsyncFixedConcProps], [AsyncFixedConcRace]: the same tasks
      and waiters one access at a time over [FixedConc].  The invariant follows
      which words the scan of a waiting task has found empty.
    - [AsyncConc]: [prepare], [revoke], [Drop] and [buddy_wake] of the buddy
      waiters as sequences of accesses, with the lock of each queue.
      [AsyncConcInv] gives every registration a place (new, queued, in the hands
      of a wake, done) and ties queues, counters, locks and senders to it;
      [AsyncConcSteps] preserves that step by step; [AsyncConcClaims],
      [AsyncConcRace] and [AsyncConcSeq] draw the consequences.
    - [Treiber]: the waiter of [examples/treiber_waker.rs], another instance of
      the traits, which keeps its own promises and not those laws.
      [TreiberConc] and [TreiberConcProps]: its stack as linked nodes under
      contention, with deferred destruction and reuse of their addresses.
    - [Examples]: the other programs of [examples/], run.

    ** What is proved

    - Bitmaps: refinement to a set, no slot held twice under any interleaving,
      a lost race means another thread's progress, a double free is caught or
      absorbed.
    - Layouts: geometries and slot specifications are the best that fit and
      their errors are exact; the loops end.
    - Builders: the arena built satisfies its invariant and lies where it
      should, the errors are exact, unfaulted builds agree with faulted ones.
    - Allocation and release: disjoint, aligned, zeroed when asked, smallest
      fit, full and too-large reported exactly (up to [2^63] bytes, beyond which a
      dev build panics), a released block merged as far as its surroundings are
      free and its waiters told that size, complete merging once all is returned;
      under concurrency every unit is in exactly one place, while buddies
      released at the same time may stay unmerged (a run shows it).  Threads that
      share a fixed arena never see each other's bytes, find their slots zeroed
      when asked although the scrub record may be read late, and leave exact
      counters.
    - Buffers: exact contents through writing, spilling and freezing; one
      release per allocation on every path; whole-system refinement and
      exclusivity, for every run that returns, with the conditions under which
      it does; the backing is freed once, last, with its own layout.
    - Waiting, call by call: no waiter is lost track of, scoring offers a block to the right
      orders, a wake reaches the first live waiter within its bound, tasks hold
      disjoint buffers, and on a fixed arena a free slot and a parked task
      always mean a task that is ready.  Concrete runs show what does not hold:
      a buddy waiter behind eight settled entries and one behind a cancelled
      task are not woken ([AsyncSystem]), tasks on a full fixed arena can wake
      each other without end ([AsyncNotify]), and the Treiber waiter misses a
      wake before its first poll ([Treiber]).
    - Waiting, access by access: nothing panics, a sender is taken once, the
      counters are exact up to the decrements in flight, an armed registration
      is queued, held by a wake or told, and an operation that is not
      interrupted is the single step of [Async].  A waiter that arms between the
      exchange and the decrement of another one's [revoke] can stay invisible to
      every later wake ([AsyncConcRace]).
    - Waiting for a slot, access by access: slots are exclusive and the counter of
      waiters exact under every interleaving.  On runs in which no load of a
      waiting task finds a word empty that is not ([run_sees]), no wake-up is lost,
      and when nothing is under way a free slot and a parked task mean a task that
      is ready and can get a slot.  The relaxed loads of the code do not exclude
      other runs, and one of those strands its task ([AsyncFixedConcRace]).
    - The Treiber stack, access by access: no access to a destroyed node, a list
      that changes only at won exchanges, no entry or wake lost, and a drop that
      frees every node once.

    ** Fuel

    Splitting and merging run at most once per order and are given
    [ORDER_FUEL] = 65 iterations; the order search of [BuddyHint] is given
    [RESOLVE_FUEL] = 64, one per bit; a claim of a bitmap word retries at most
    [CLAIM_FUEL] = 64 times sequentially, once per bit; prefaulting is given one
    iteration per page of the region ([prefault_fuel]), the drop of the Treiber
    stack ([stack_drop]) one per node.  Each is shown to be enough.
    Other recursion is structural.

    ** Not modelled

    Interleaving of the metrics and of the scrubbing of a buddy arena; calls into
    tokio's [Notify], which are one access each; weak memory orderings beyond
    loads that may be stale where a file says so; unwinding after a panic; the
    abort on overflow of a reference count and the failure to allocate the words
    of a bitmap; the benchmarks; [Debug] output, log lines, re-exports and
    the loom shim, which hold no logic.  The wrappers each builder mode has around
    one builder are that builder, and accessors are projections. *)

From stdpp Require Import prelude numbers list gmap.
Local Open Scope Z_scope.

(** ** Build profile

    A cargo profile fixes two switches that the code observes: whether
    [debug_assert!] is compiled in, and whether integer overflow panics or
    wraps.  Both default to the same value ([dev]: on, [release]: off), so one
    flag models them. *)
Class Profile := debug_assertions : bool.

Definition dev : Profile := true.
Definition release : Profile := false.

(** ** Outcomes

    What a call does: return, panic, or (for a loop run with a bounded number
    of iterations) exhaust its fuel.  [OutOfFuel] is never a behaviour of the
    code: a theorem that a call returns excludes it. *)
Inductive outcome (A : Type) : Type :=
| Ret (a : A)
| Panic
| OutOfFuel.
Arguments Ret {_} _.
Arguments Panic {_}.
Arguments OutOfFuel {_}.

Definition obind {A B} (m : outcome A) (k : A → outcome B) : outcome B :=
  match m with
  | Ret a => k a
  | Panic => Panic
  | OutOfFuel => OutOfFuel
  end.

Declare Scope outcome_scope.
Delimit Scope outcome_scope with outcome.

Notation "'let!' x ':=' m 'in' k" := (obind m (λ x, k))
  (at level 10, x strict pattern, m at level 200, k at level 200,
   format "'[v' 'let!'  x  ':='  m  'in' '/' k ']'") : outcome_scope.
Notation "m ';;!' k" := (obind m (λ _, k))
  (at level 199, k at level 200, right associativity) : outcome_scope.

Open Scope outcome_scope.

(** [assert!] panics in every profile, [debug_assert!] only in [dev]. *)
Definition assert_ (b : bool) : outcome unit := if b then Ret () else Panic.

Definition debug_assert {P : Profile} (b : bool) : outcome unit :=
  if debug_assertions then assert_ b else Ret ().

(** Rust's [Result<T, E>], with the error on the left. *)
Abbreviation result E T := (E + T)%type.
Abbreviation Err e := (inl e).
Abbreviation Ok x := (inr x).

(** Rust's [?] inside a function that returns a [Result], and [ok_or]. *)
Definition rbind {E A B} (m : outcome (result E A)) (k : A → outcome (result E B))
    : outcome (result E B) :=
  obind m (λ r, match r with Err e => Ret (Err e) | Ok a => k a end).

Notation "'let?' x ':=' m 'in' k" := (rbind m (λ x, k))
  (at level 10, x strict pattern, m at level 200, k at level 200,
   format "'[v' 'let?'  x  ':='  m  'in' '/' k ']'") : outcome_scope.

Definition ok_or {E A} (o : option A) (e : E) : result E A :=
  match o with Some a => Ok a | None => Err e end.

(** Slice indexing [v[i]] panics out of range; [set_index] is the store. *)
Definition index {A} (l : list A) (i : Z) : outcome A :=
  match l !! Z.to_nat i with
  | Some x => Ret x
  | None => Panic
  end.

Definition set_index {A} (l : list A) (i : Z) (x : A) : list A :=
  <[Z.to_nat i := x]> l.

(** [for x in l { v.push(f(x)?) }] and [for x in l { s = f(s, x)?; }]. *)
Fixpoint omapM {A B} (f : A → outcome B) (l : list A) : outcome (list B) :=
  match l with
  | [] => Ret []
  | x :: l' =>
      let! y := f x in
      let! ys := omapM f l' in
      Ret (y :: ys)
  end.

Fixpoint ofoldM {A S} (f : S → A → outcome S) (s : S) (l : list A) : outcome S :=
  match l with
  | [] => Ret s
  | x :: l' =>
      let! s' := f s x in
      ofoldM f s' l'
  end.

(** Remove the first occurrence of an element. *)
Fixpoint remove_one {A} `{EqDecision A} (x : A) (l : list A) : option (list A) :=
  match l with
  | [] => None
  | y :: l' => if decide (x = y) then Some l' else cons y <$> remove_one x l'
  end.

(** ** Generic lemmas *)

Lemma obind_ret {A B} (a : A) (k : A → outcome B) : obind (Ret a) k = k a.
Proof. reflexivity. Qed.

Lemma obind_Ret_inv {A B} (m : outcome A) (k : A → outcome B) b :
  obind m k = Ret b → ∃ a, m = Ret a ∧ k a = Ret b.
Proof. destruct m; naive_solver. Qed.

Lemma rbind_Ret_inv {E A B} (m : outcome (result E A)) (k : A → outcome (result E B)) b :
  rbind m k = Ret (Ok b) → ∃ a, m = Ret (Ok a) ∧ k a = Ret (Ok b).
Proof. unfold rbind. destruct m as [[e|a]| |]; simpl; try done. by exists a. Qed.

Lemma obind_assoc {A B C} (m : outcome A) (k : A → outcome B) (h : B → outcome C) :
  obind (obind m k) h = obind m (λ a, obind (k a) h).
Proof. by destruct m. Qed.

Lemma assert_true b : b = true → assert_ b = Ret ().
Proof. by intros ->. Qed.

Lemma debug_assert_true {P : Profile} b : b = true → debug_assert b = Ret ().
Proof. intros ->. by destruct P. Qed.

Lemma index_Some {A} (l : list A) i x :
  l !! Z.to_nat i = Some x → index l i = Ret x.
Proof. by unfold index; intros ->. Qed.

Lemma index_Ret_inv {A} (l : list A) i x :
  index l i = Ret x → l !! Z.to_nat i = Some x.
Proof. unfold index. by case_match; intros [= ->]. Qed.

Lemma length_set_index {A} (l : list A) i x : length (set_index l i x) = length l.
Proof. apply length_insert. Qed.

Lemma lookup_set_index {A} (l : list A) i j x :
  0 ≤ i < Z.of_nat (length l) → 0 ≤ j →
  set_index l i x !! Z.to_nat j = if decide (i = j) then Some x else l !! Z.to_nat j.
Proof.
  intros Hi Hj. unfold set_index. case_decide as Hij.
  - subst. apply list_lookup_insert_eq. lia.
  - apply list_lookup_insert_ne. lia.
Qed.

Lemma omapM_Ret {A B} (f : A → outcome B) (g : A → B) (l : list A) :
  (∀ x, x ∈ l → f x = Ret (g x)) → omapM f l = Ret (g <$> l).
Proof.
  induction l as [|x l IH]; intros Hf; [done|]. simpl.
  rewrite Hf by set_solver. simpl. rewrite IH by set_solver. done.
Qed.

Lemma omapM_Forall2 {A B} (f : A → outcome B) (R : A → B → Prop) (l : list A) :
  (∀ x, x ∈ l → ∃ y, f x = Ret y ∧ R x y) → ∃ ys, omapM f l = Ret ys ∧ Forall2 R l ys.
Proof.
  induction l as [|x l IH]; intros Hf; [by exists []|].
  destruct (Hf x) as (y & Hy & ?); [by left|].
  destruct IH as (ys & Hys & ?); [intros z Hz; apply Hf; by right|].
  exists (y :: ys). simpl. rewrite Hy. simpl. rewrite Hys. by split; [|constructor].
Qed.

Lemma ofoldM_Ret {A S} (f : S → A → outcome S) (g : S → A → S) (I : S → Prop) s (l : list A) :
  I s → (∀ s x, I s → x ∈ l → f s x = Ret (g s x) ∧ I (g s x)) →
  ofoldM f s l = Ret (foldl g s l) ∧ I (foldl g s l).
Proof.
  revert s. induction l as [|x l IH]; intros s Hs Hf; [done|]. simpl.
  destruct (Hf s x) as [-> ?]; [done|by left|]. simpl.
  apply IH; [done|]. intros s' y ??. apply Hf; [done|by right].
Qed.

Lemma remove_one_perm `{EqDecision A} (x : A) l l' : remove_one x l = Some l' → l ≡ₚ x :: l'.
Proof.
  revert l'. induction l as [|y l IH]; intros l' Hl; [done|]. simpl in Hl.
  case_decide; [by simplify_eq|]. apply fmap_Some in Hl as (l'' & Hl & ->).
  rewrite (IH _ Hl). by rewrite Permutation_swap.
Qed.

Lemma remove_one_Some `{EqDecision A} (x : A) l : x ∈ l → ∃ l', remove_one x l = Some l'.
Proof.
  induction l as [|y l IH]; intros Hx; [by apply not_elem_of_nil in Hx|]. simpl.
  case_decide as Hxy; [by eexists|]. apply elem_of_cons in Hx as [?|Hx]; [done|].
  destruct (IH Hx) as [l' ->]. by eexists.
Qed.

Lemma lookup_Z_lt_is_Some {A} (l : list A) i :
  0 ≤ i < Z.of_nat (length l) → ∃ x, l !! Z.to_nat i = Some x.
Proof. intros. apply lookup_lt_is_Some_2. lia. Qed.

(** ** Automation *)

(** Let [lia] reason about division and remainder by constants. *)
#[global] Ltac Zify.zify_post_hook ::= Z.to_euclidean_division_equations.

Create Rewrite HintDb outcomedb.
#[export] Hint Rewrite @obind_ret @obind_assoc @length_set_index : outcomedb.

(** Reduce a monadic computation as far as rewriting allows. *)
Ltac osimpl := autorewrite with outcomedb; cbn [obind].

(** Take a computation known to return apart into its steps. *)
Ltac outcome_inv :=
  repeat match goal with
  | H : obind _ _ = Ret _ |- _ =>
      let a := fresh "v" in let H1 := fresh "Hs" in
      apply obind_Ret_inv in H as (a & H1 & H)
  | H : Ret _ = Ret _ |- _ => injection H as H; subst
  | H : Panic = Ret _ |- _ => discriminate H
  | H : OutOfFuel = Ret _ |- _ => discriminate H
  | H : assert_ ?b = Ret _ |- _ => destruct b eqn:?; [clear H | discriminate H]
  end; simplify_eq.
