(* ===== verification/Tasks.v ===== *)
(** * What a map of tasks holds

    Tasks are kept by name; a task may hold a resource ([held]: the blocks or
    slots it has out) or a registration ([parts]), and shared counters count the
    tasks in some phase ([count_in]). *)

From stdpp Require Import prelude numbers list gmap.

Section held.
Context {A C : Type} (f : A → option C).
Implicit Types m : gmap nat A.

Definition held m : list C := omap (λ p, f p.2) (map_to_list m).

Definition parts m : gmap nat C := omap f m.

Lemma held_insert m id t : m !! id = None → held (<[id := t]> m) ≡ₚ option_list (f t) ++ held m.
Proof. intros Hid. unfold held. rewrite map_to_list_insert by done. simpl. by destruct (f t). Qed.

Lemma held_delete m id t : m !! id = Some t → held m ≡ₚ option_list (f t) ++ held (delete id m).
Proof. intros Hid. rewrite <- held_insert by apply lookup_delete_eq. by rewrite insert_delete_id. Qed.

Lemma parts_insert m id t :
  m !! id = None →
  parts (<[id := t]> m) = match f t with Some r => <[id := r]> (parts m) | None => parts m end.
Proof.
  intros Hid. unfold parts. rewrite omap_insert. destruct (f t); [done|].
  apply delete_id. by rewrite lookup_omap, Hid.
Qed.

(** A task changes, not what it holds. *)
Lemma held_update m id t t' : m !! id = Some t → f t' = f t → held (<[id := t']> m) ≡ₚ held m.
Proof.
  intros Hid Hf. rewrite <- insert_delete_eq, held_insert by apply lookup_delete_eq.
  by rewrite Hf, <- held_delete.
Qed.

Lemma parts_update m id t r : f t = Some r → parts (<[id := t]> m) = <[id := r]> (parts m).
Proof. intros Hf. unfold parts. by rewrite omap_insert, Hf. Qed.

Lemma parts_delete m id : parts (delete id m) = delete id (parts m).
Proof. apply omap_delete. Qed.

Lemma parts_lookup m id t : m !! id = Some t → parts m !! id = f t.
Proof. intros Hid. unfold parts. by rewrite lookup_omap, Hid. Qed.

Lemma parts_none m id : m !! id = None → parts m !! id = None.
Proof. intros Hid. unfold parts. by rewrite lookup_omap, Hid. Qed.

Lemma parts_Some m id r : parts m !! id = Some r → ∃ t, m !! id = Some t ∧ f t = Some r.
Proof. unfold parts. rewrite lookup_omap. by intros (t & ? & ?)%bind_Some; exists t. Qed.

Lemma parts_size m : size (parts m) ≤ size m.
Proof.
  rewrite <- !size_dom. apply subseteq_size. intros id. rewrite !elem_of_dom.
  intros [r (t & Hm & _)%parts_Some]. by eexists.
Qed.
End held.

(** How many entries of a map satisfy [f]. *)
Section count.
Context `{Countable K} {A : Type} (f : A → bool).
Implicit Types (m : gmap K A) (p : option A).
Local Open Scope Z_scope.

Definition count_in m : Z := Z.of_nat (size (filter (λ kp, f kp.2 = true) m)).

Definition one_if p : Z := if from_option f false p then 1 else 0.

Lemma count_delete m x : count_in m = count_in (delete x m) + one_if (m !! x).
Proof.
  unfold count_in, one_if. destruct (m !! x) as [p|] eqn:E; simpl.
  - rewrite <- (insert_delete_id m x p E) at 1. rewrite map_filter_insert, delete_delete_eq. simpl.
    destruct (f p); simpl; [|lia]. rewrite map_size_insert_None; [lia|].
    apply map_lookup_filter_None. left. apply lookup_delete_eq.
  - rewrite delete_id by done. lia.
Qed.

Lemma count_alter m x p' :
  count_in (partial_alter (λ _, p') x m) = count_in m + one_if p' - one_if (m !! x).
Proof.
  rewrite (count_delete _ x), (count_delete m x), lookup_partial_alter_eq.
  assert (delete x (partial_alter (λ _, p') x m) = delete x m) as ->; [|lia].
  apply map_eq. intros y. rewrite !lookup_delete, lookup_partial_alter. by repeat case_decide.
Qed.

Lemma count_insert m x a : count_in (<[x := a]> m) = count_in m + one_if (Some a) - one_if (m !! x).
Proof. apply (count_alter m x (Some a)). Qed.

Lemma count_size m : 0 ≤ count_in m ≤ Z.of_nat (size m).
Proof.
  unfold count_in. split; [lia|]. apply inj_le. rewrite <- !size_dom. apply subseteq_size.
  intros x. rewrite !elem_of_dom. by intros [p [? _]%map_lookup_filter_Some]; exists p.
Qed.

Lemma count_zero m x a : count_in m = 0 → m !! x = Some a → f a = false.
Proof.
  intros Hc Hx. rewrite (count_delete m x), Hx in Hc. pose proof (count_size (delete x m)).
  unfold one_if in Hc. simpl in Hc. destruct (f a); [lia|done].
Qed.
End count.
