(* ===== verification/Usize.v ===== *)
(** * Machine integers

    [usize] at width 64: values are [Z] in [0, 2^64), every operation the
    crate uses is written with its overflow behaviour.  Operators ([+], [*],
    [-], [<<]) panic on overflow under [dev] and wrap under [release];
    [checked_*], [wrapping_*] and the atomic [fetch_*] operations behave the
    same in both profiles. *)

From stdpp Require Import prelude numbers list.
From S2P Require Import Prelude.
Local Open Scope Z_scope.

Definition usize_BITS : Z := 64.
Definition usize_MAX : Z := 18446744073709551615.

Definition is_usize (x : Z) : Prop := 0 ≤ x ≤ usize_MAX.

(** Reduction modulo [2^64]. *)
Definition wrap (x : Z) : Z := x mod 2 ^ 64.

Section operators.
Context {P : Profile}.

(** The value of an operator whose mathematical result is [r]. *)
Definition overflowing (r : Z) : outcome Z :=
  if (0 <=? r) && (r <=? usize_MAX) then Ret r
  else if debug_assertions then Panic else Ret (wrap r).

Definition usz_add (a b : Z) : outcome Z := overflowing (a + b).
Definition usz_sub (a b : Z) : outcome Z := overflowing (a - b).
Definition usz_mul (a b : Z) : outcome Z := overflowing (a * b).

(** [a << n]: only the shift amount is checked; bits shifted out are lost. *)
Definition usz_shl (a n : Z) : outcome Z :=
  if n <? usize_BITS then Ret (wrap (Z.shiftl a n))
  else if debug_assertions then Panic else Ret (wrap (Z.shiftl a (n mod usize_BITS))).
End operators.

Definition wrapping_shl (a n : Z) : Z := wrap (Z.shiftl a (n mod usize_BITS)).
Definition unot (x : Z) : Z := Z.lxor x usize_MAX.
Definition checked_add (a b : Z) : option Z :=
  if a + b <=? usize_MAX then Some (a + b) else None.
Definition checked_mul (a b : Z) : option Z :=
  if a * b <=? usize_MAX then Some (a * b) else None.

(** [a.div_ceil(b)] for [b <> 0]. *)
Definition div_ceil (a b : Z) : Z :=
  if a mod b =? 0 then a / b else a / b + 1.

Fixpoint pos_trailing_zeros (p : positive) : Z :=
  match p with
  | xO q => 1 + pos_trailing_zeros q
  | _ => 0
  end.

Definition trailing_zeros (x : Z) : Z :=
  match x with
  | Zpos p => pos_trailing_zeros p
  | _ => usize_BITS
  end.

Definition leading_zeros (x : Z) : Z :=
  if x =? 0 then usize_BITS else usize_BITS - 1 - Z.log2 x.

Fixpoint pos_count_ones (p : positive) : Z :=
  match p with
  | xH => 1
  | xO q => pos_count_ones q
  | xI q => 1 + pos_count_ones q
  end.

Definition count_ones (x : Z) : Z :=
  match x with
  | Zpos p => pos_count_ones p
  | _ => 0
  end.

Definition is_power_of_two (x : Z) : bool := count_ones x =? 1.

(** The least power of two that is at least [x], unbounded. *)
Definition ceil_pow2 (x : Z) : Z := if x <=? 1 then 1 else 2 ^ Z.log2_up x.

Definition checked_next_power_of_two (x : Z) : option Z :=
  if ceil_pow2 x <=? usize_MAX then Some (ceil_pow2 x) else None.

(** [x.next_power_of_two()] panics on overflow under [dev] and returns 0
    under [release]. *)
Definition next_power_of_two {P : Profile} (x : Z) : outcome Z :=
  overflowing (ceil_pow2 x).

(** ** Lemmas *)

Lemma usize_MAX_ones : usize_MAX = Z.ones 64.
Proof. reflexivity. Qed.

Ltac ulia := unfold is_usize, usize_MAX, usize_BITS in *; lia.

Section operator_lemmas.
Context {P : Profile}.

Lemma overflowing_ok r : is_usize r → overflowing r = Ret r.
Proof.
  intros ?. unfold overflowing.
  destruct (Z.leb_spec 0 r), (Z.leb_spec r usize_MAX); simpl; ulia || done.
Qed.

Lemma usz_add_ok a b : is_usize (a + b) → usz_add a b = Ret (a + b).
Proof. apply overflowing_ok. Qed.
Lemma usz_sub_ok a b : is_usize (a - b) → usz_sub a b = Ret (a - b).
Proof. apply overflowing_ok. Qed.
Lemma usz_mul_ok a b : is_usize (a * b) → usz_mul a b = Ret (a * b).
Proof. apply overflowing_ok. Qed.

Lemma wrap_small x : is_usize x → wrap x = x.
Proof. intros ?. apply Z.mod_small. ulia. Qed.

Lemma wrap_range x : is_usize (wrap x).
Proof. pose proof (Z.mod_pos_bound x (2 ^ 64) ltac:(done)). unfold wrap. ulia. Qed.

Lemma usz_shl_ok a n :
  0 ≤ n < 64 → is_usize (a * 2 ^ n) → usz_shl a n = Ret (a * 2 ^ n).
Proof.
  intros ??. unfold usz_shl, usize_BITS. destruct (Z.ltb_spec n 64); [|lia].
  by rewrite Z.shiftl_mul_pow2, wrap_small by ulia.
Qed.

Lemma pow2_is_usize n : 0 ≤ n < 64 → is_usize (2 ^ n).
Proof.
  intros. assert (2 ^ n < 2 ^ 64) by (apply Z.pow_lt_mono_r; lia).
  assert (0 < 2 ^ n) by (apply Z.pow_pos_nonneg; lia). ulia.
Qed.

Lemma usz_shl_1 n : 0 ≤ n < 64 → usz_shl 1 n = Ret (2 ^ n).
Proof.
  intros. rewrite usz_shl_ok, Z.mul_1_l; [done|lia|].
  rewrite Z.mul_1_l. by apply pow2_is_usize.
Qed.

Lemma wrapping_shl_1 n : 0 ≤ n < 64 → wrapping_shl 1 n = 2 ^ n.
Proof.
  intros. unfold wrapping_shl, usize_BITS.
  rewrite Z.mod_small, Z.shiftl_mul_pow2, Z.mul_1_l by lia.
  by apply wrap_small, pow2_is_usize.
Qed.
End operator_lemmas.

(** *** Bits *)

Lemma testbit_high x i : is_usize x → 64 ≤ i → Z.testbit x i = false.
Proof.
  intros Hx ?. destruct (decide (x = 0)) as [->|]; [apply Z.bits_0|].
  apply Z.bits_above_log2; [ulia|].
  apply Z.lt_le_trans with 64; [|done]. apply Z.log2_lt_pow2; ulia.
Qed.

Lemma testbit_usize_MAX i : 0 ≤ i → Z.testbit usize_MAX i = bool_decide (i < 64).
Proof.
  intros. rewrite usize_MAX_ones, Z.ones_spec by lia. apply bool_decide_ext. lia.
Qed.

Lemma testbit_pow2 b i : 0 ≤ b → Z.testbit (2 ^ b) i = bool_decide (b = i).
Proof.
  intros. rewrite Z.pow2_bits_eqb by done.
  case_bool_decide; [by apply Z.eqb_eq|by apply Z.eqb_neq].
Qed.

Lemma testbit_unot x i : 0 ≤ i < 64 → Z.testbit (unot x) i = negb (Z.testbit x i).
Proof.
  intros. unfold unot. rewrite Z.lxor_spec, testbit_usize_MAX, bool_decide_true by lia.
  by destruct (Z.testbit x i).
Qed.

Lemma usize_bits_bound x : 0 ≤ x → (∀ i, 64 ≤ i → Z.testbit x i = false) → is_usize x.
Proof.
  intros Hx Hbits. split; [done|]. destruct (decide (x = 0)) as [->|]; [ulia|].
  assert (Z.log2 x < 64).
  { destruct (decide (Z.log2 x < 64)) as [|Hge]; [done|].
    pose proof (Hbits (Z.log2 x) ltac:(lia)) as Hb. rewrite Z.bit_log2 in Hb by lia. done. }
  assert (x < 2 ^ 64) by (apply Z.log2_lt_pow2; lia). ulia.
Qed.

Lemma unot_range x : is_usize x → is_usize (unot x).
Proof.
  intros Hx. apply usize_bits_bound.
  - apply Z.lxor_nonneg. ulia.
  - intros i Hi. unfold unot. rewrite Z.lxor_spec, testbit_usize_MAX, bool_decide_false by lia.
    by rewrite testbit_high.
Qed.

Lemma land_range x y : is_usize x → is_usize y → is_usize (Z.land x y).
Proof.
  intros Hx Hy. apply usize_bits_bound; [apply Z.land_nonneg; ulia|].
  intros. by rewrite Z.land_spec, testbit_high.
Qed.

Lemma lor_range x y : is_usize x → is_usize y → is_usize (Z.lor x y).
Proof.
  intros Hx Hy. apply usize_bits_bound; [apply Z.lor_nonneg; ulia|].
  intros. by rewrite Z.lor_spec, !testbit_high.
Qed.

Lemma usize_bits_inj x y :
  is_usize x → is_usize y →
  (∀ i, 0 ≤ i < 64 → Z.testbit x i = Z.testbit y i) → x = y.
Proof.
  intros Hx Hy Hb. apply Z.bits_inj'. intros i Hi.
  destruct (decide (i < 64)); [by apply Hb|]. by rewrite !testbit_high by (done || lia).
Qed.

(** Clearing and setting one bit, as [fetch_and] and [fetch_or] do. *)
Lemma testbit_clear x b i :
  0 ≤ b < 64 → 0 ≤ i < 64 →
  Z.testbit (Z.land x (unot (2 ^ b))) i = Z.testbit x i && negb (bool_decide (b = i)).
Proof. intros. by rewrite Z.land_spec, testbit_unot, testbit_pow2 by lia. Qed.

Lemma testbit_set x b i :
  0 ≤ b → Z.testbit (Z.lor x (2 ^ b)) i = Z.testbit x i || bool_decide (b = i).
Proof. intros. by rewrite Z.lor_spec, testbit_pow2. Qed.

Lemma land_pow2_eqb x b : 0 ≤ b → (Z.land x (2 ^ b) =? 0) = negb (Z.testbit x b).
Proof.
  intros Hb. destruct (Z.testbit x b) eqn:E; simpl.
  - apply Z.eqb_neq. intros H0. assert (Z.testbit (Z.land x (2 ^ b)) b = false) as Hf
      by (rewrite H0; apply Z.bits_0).
    by rewrite Z.land_spec, E, Z.pow2_bits_true in Hf.
  - apply Z.eqb_eq, Z.bits_inj_0. intros i. rewrite Z.land_spec, testbit_pow2 by done.
    case_bool_decide; [subst; by rewrite E|apply andb_false_r].
Qed.

Lemma usize_nonzero_bit x :
  is_usize x → x ≠ 0 → ∃ i, 0 ≤ i < 64 ∧ Z.testbit x i = true.
Proof.
  intros Hx Hne. exists (Z.log2 x). split; [|apply Z.bit_log2; ulia].
  split; [apply Z.log2_nonneg|]. apply Z.log2_lt_pow2; ulia.
Qed.

(** *** Powers of two *)

Lemma testbit_ones_low n i : 0 ≤ n → 0 ≤ i → Z.testbit (2 ^ n - 1) i = bool_decide (i < n).
Proof.
  intros. replace (2 ^ n - 1) with (Z.ones n) by (rewrite Z.ones_equiv; lia).
  rewrite Z.ones_spec by lia. apply bool_decide_ext. lia.
Qed.

Lemma pow2_mono a b : 0 ≤ a ≤ b → 2 ^ a ≤ 2 ^ b.
Proof. intros. apply Z.pow_le_mono_r; lia. Qed.

Lemma pow2_lt_mono a b : 0 ≤ a < b → 2 ^ a < 2 ^ b.
Proof. intros. apply Z.pow_lt_mono_r; lia. Qed.

Lemma pow2_is_usize_inv k : 0 ≤ k → 2 ^ k ≤ usize_MAX → k < 64.
Proof.
  intros ? Hk. destruct (decide (k < 64)); [done|].
  pose proof (pow2_mono 64 k ltac:(lia)). ulia.
Qed.

Lemma trailing_zeros_testbit x : 0 < x → Z.testbit x (trailing_zeros x) = true.
Proof.
  destruct x as [|p|]; [lia| |lia]. intros _. simpl.
  induction p as [p IH|p IH|]; [done| |done]. cbn [pos_trailing_zeros].
  rewrite Pos2Z.inj_xO, Z.add_1_l, Z.double_bits_succ. done.
Qed.

Lemma pos_trailing_zeros_nonneg p : 0 ≤ pos_trailing_zeros p.
Proof. induction p; cbn [pos_trailing_zeros]; lia. Qed.

Lemma trailing_zeros_bound x : is_usize x → x ≠ 0 → 0 ≤ trailing_zeros x < 64.
Proof.
  intros Hx Hne. assert (0 < x) by ulia.
  assert (0 ≤ trailing_zeros x).
  { destruct x; [lia| |lia]. apply pos_trailing_zeros_nonneg. }
  split; [done|]. destruct (decide (trailing_zeros x < 64)); [done|].
  pose proof (trailing_zeros_testbit x ltac:(done)) as Hb.
  by rewrite testbit_high in Hb by (done || lia).
Qed.

Lemma trailing_zeros_pow2 k : 0 ≤ k → trailing_zeros (2 ^ k) = k.
Proof.
  intros Hk. pattern k. apply natlike_ind; [done| |done].
  intros n Hn IH. rewrite Z.pow_succ_r by done.
  assert (0 < 2 ^ n) by lia. destruct (2 ^ n) as [|p|]; [lia| |lia].
  change (1 + trailing_zeros (Zpos p) = Z.succ n). lia.
Qed.

Lemma count_ones_nonneg x : 0 ≤ count_ones x.
Proof. destruct x as [|p|]; simpl; [lia| |lia]. induction p; cbn [pos_count_ones]; lia. Qed.

Lemma pos_count_ones_pos p : 1 ≤ pos_count_ones p.
Proof. induction p; cbn [pos_count_ones]; lia. Qed.

Lemma count_ones_pow2 k : 0 ≤ k → count_ones (2 ^ k) = 1.
Proof.
  intros Hk. pattern k. apply natlike_ind; [done| |done].
  intros n Hn IH. rewrite Z.pow_succ_r by done.
  assert (0 < 2 ^ n) by lia. by destruct (2 ^ n) as [|p|]; [lia| |lia].
Qed.

Lemma pos_count_ones_1 p : pos_count_ones p = 1 → ∃ k, 0 ≤ k ∧ Zpos p = 2 ^ k.
Proof.
  induction p as [p IH|p IH|]; cbn [pos_count_ones]; intros Hp.
  - pose proof (pos_count_ones_pos p). lia.
  - destruct IH as (k & ? & Hk); [done|]. exists (Z.succ k). split; [lia|].
    rewrite Z.pow_succ_r by done. lia.
  - by exists 0.
Qed.

Lemma is_power_of_two_spec x : is_power_of_two x = true ↔ ∃ k, 0 ≤ k ∧ x = 2 ^ k.
Proof.
  unfold is_power_of_two. rewrite Z.eqb_eq. split.
  - destruct x as [|p|]; [done| |done]. apply pos_count_ones_1.
  - intros (k & ? & ->). by apply count_ones_pow2.
Qed.

(** [ceil_pow2] is the least power of two above its argument. *)
Lemma ceil_pow2_spec x :
  ∃ k, 0 ≤ k ∧ ceil_pow2 x = 2 ^ k ∧ x ≤ 2 ^ k ∧ (∀ j, 0 ≤ j → x ≤ 2 ^ j → k ≤ j).
Proof.
  unfold ceil_pow2. destruct (Z.leb_spec x 1).
  - exists 0. repeat split; lia || done.
  - exists (Z.log2_up x). pose proof (Z.log2_up_nonneg x). pose proof (Z.log2_up_spec x).
    repeat split; [done|lia|]. intros j Hj Hle.
    rewrite <- (Z.log2_up_pow2 j) by done. by apply Z.log2_up_le_mono.
Qed.

Lemma ceil_pow2_pow2 k : 0 ≤ k → ceil_pow2 (2 ^ k) = 2 ^ k.
Proof.
  intros Hk. destruct (ceil_pow2_spec (2 ^ k)) as (j & Hj & -> & Hle & Hmin).
  specialize (Hmin k Hk ltac:(done)). pose proof (pow2_mono j k ltac:(lia)). lia.
Qed.
