(* ===== verification/Errors.v ===== *)
(** * [src/error.rs]: the error types and their messages *)

From stdpp Require Import prelude numbers strings pretty.
From S2P Require Import Prelude.
Local Open Scope Z_scope.

Inductive AllocError :=
| ArenaFull
| RequestTooLarge.

Inductive BuildError :=
| SizeOverflow
| InvalidAlignment
| InvalidGeometry
| SlotSizeExceedsBacking
| ZeroUsableSlots
| NullPointer.

Record BufferFullError := mkBufferFullError {
  remaining : Z;
  requested : Z;
}.

(** [hazmat::RawFreezeError]. *)
Record RawFreezeError := mkRawFreezeError {
  range_start : Z;
  range_end : Z;
  rfe_capacity : Z;
}.

#[global] Instance AllocError_eq_dec : EqDecision AllocError.
Proof. solve_decision. Defined.
#[global] Instance BuildError_eq_dec : EqDecision BuildError.
Proof. solve_decision. Defined.
#[global] Instance BufferFullError_eq_dec : EqDecision BufferFullError.
Proof. solve_decision. Defined.

Definition AllocError_fmt (e : AllocError) : string :=
  match e with
  | ArenaFull => "arena is full"
  | RequestTooLarge => "request exceeds total arena capacity"
  end.

Definition BuildError_fmt (e : BuildError) : string :=
  match e with
  | SizeOverflow => "total arena size overflows usize"
  | InvalidAlignment => "alignment must be a power of 2"
  | InvalidGeometry =>
      "buddy arena geometry must be a power-of-two multiple of min block size"
  | SlotSizeExceedsBacking => "requested slot size exceeds backing memory length"
  | ZeroUsableSlots => "no usable slots fit in the provided backing memory"
  | NullPointer => "null pointer provided to from_raw"
  end.

Definition BufferFullError_fmt (e : BufferFullError) : string :=
  "buffer full: " +:+ pretty (requested e) +:+ " bytes requested, "
    +:+ pretty (remaining e) +:+ " bytes remaining".

Definition RawFreezeError_fmt (e : RawFreezeError) : string :=
  if range_end e <? range_start e then
    "invalid freeze range: " +:+ pretty (range_start e) +:+ ".." +:+ pretty (range_end e) +:+ " (start > end)"
  else
    "freeze range " +:+ pretty (range_start e) +:+ ".." +:+ pretty (range_end e) +:+ " exceeds capacity "
      +:+ pretty (rfe_capacity e).

(** The messages the unit tests of the file expect. *)
Example BufferFullError_fmt_test :
  BufferFullError_fmt (mkBufferFullError 10 50) =
    "buffer full: 50 bytes requested, 10 bytes remaining".
Proof. reflexivity. Qed.

Example RawFreezeError_fmt_test :
  RawFreezeError_fmt (mkRawFreezeError 0 300 256) = "freeze range 0..300 exceeds capacity 256" ∧
  RawFreezeError_fmt (mkRawFreezeError 9 3 256) = "invalid freeze range: 9..3 (start > end)".
Proof. split; reflexivity. Qed.

(** No two builder errors read the same. *)
#[global] Instance BuildError_fmt_inj : Inj (=) (=) BuildError_fmt.
Proof. intros [] [] H; (reflexivity || discriminate H). Qed.
