(* ===== verification/Bitmap.v ===== *)
(** * [src/bitmap.rs]: the atomic slot bitmap

    [AtomicBitmap] keeps one bit per slot (1 = free), packed in machine words.
    The operations below are the methods of the type, run to completion; the
    interleaved semantics of [try_alloc] and [free] is in [BitmapConc]. *)

From stdpp Require Import prelude numbers list gmap.
From S2P Require Import Prelude Usize.
Local Open Scope Z_scope.

Definition BITS_PER_WORD : Z := usize_BITS.

Record AtomicBitmap := mkAtomicBitmap {
  words : list Z;
  cursor : Z;
  scan_words : Z;
  word_mask : Z;
  slot_count : Z;
}.

(** Stores through [&self]: one word, and the cursor. *)
Definition set_word (bm : AtomicBitmap) (i w : Z) : AtomicBitmap :=
  mkAtomicBitmap (set_index (words bm) i w) (cursor bm) (scan_words bm) (word_mask bm)
    (slot_count bm).

Definition set_cursor (bm : AtomicBitmap) (c : Z) : AtomicBitmap :=
  mkAtomicBitmap (words bm) c (scan_words bm) (word_mask bm) (slot_count bm).

(** Iterations allowed to the claim loop, the bound its documentation gives. *)
Definition CLAIM_FUEL : nat := Z.to_nat BITS_PER_WORD.

Section operations.
Context {P : Profile}.

Definition initial_word (slot_count : Z) (initially_free : bool) (w : Z) : outcome Z :=
  let! start_bit := usz_mul w BITS_PER_WORD in
  if slot_count <=? start_bit then Ret 0
  else
    let! rest := usz_sub slot_count start_bit in
    let valid_bits := Z.min rest BITS_PER_WORD in
    let! free_mask :=
      (if valid_bits =? BITS_PER_WORD then Ret usize_MAX
       else usz_sub (wrapping_shl 1 valid_bits) 1) in
    Ret (if initially_free then free_mask else 0).

(** The memory of the words is taken for granted: the allocation behind
    [Vec::with_capacity] could fail only for more slots than memory has bytes. *)
Definition with_allocation_state (slot_count : Z) (initially_free : bool)
    : outcome AtomicBitmap :=
  let actual_words := div_ceil slot_count BITS_PER_WORD in
  let! scan_words := next_power_of_two (Z.max actual_words 1) in
  let! words := omapM (initial_word slot_count initially_free) (seqZ 0 scan_words) in
  let! _ := debug_assert (is_power_of_two scan_words) in
  let! word_mask := usz_sub scan_words 1 in
  Ret (mkAtomicBitmap words 0 scan_words word_mask slot_count).

Definition bitmap_new (slot_count : Z) : outcome AtomicBitmap :=
  with_allocation_state slot_count true.

Definition bitmap_new_empty (slot_count : Z) : outcome AtomicBitmap :=
  with_allocation_state slot_count false.

(** The claim loop on one word; returns the claimed slot and the word left. *)
Fixpoint try_claim_word (fuel : nat) (word base : Z) : outcome (option Z * Z) :=
  match fuel with
  | O => OutOfFuel
  | S fuel' =>
      let bits := word in
      if bits =? 0 then Ret (None, word)
      else
        let bit := trailing_zeros bits in
        let! mask := usz_shl 1 bit in
        let prev := word in
        let word := Z.land prev (unot mask) in
        if negb (Z.land prev mask =? 0)
        then let! slot := usz_add base bit in Ret (Some slot, word)
        else try_claim_word fuel' word base
  end.

(** The scan over words, [iters] the iterations still to run. *)
Fixpoint try_alloc_scan (start : Z) (iters : list Z) (bm : AtomicBitmap)
    : outcome (option Z * AtomicBitmap) :=
  match iters with
  | [] => Ret (None, bm)
  | i :: iters' =>
      let! s := usz_add start i in
      let word_idx := Z.land s (word_mask bm) in
      let! base := usz_mul word_idx BITS_PER_WORD in
      let! word := index (words bm) word_idx in
      let! (r, word') := try_claim_word CLAIM_FUEL word base in
      let bm' := set_word bm word_idx word' in
      match r with
      | Some slot => Ret (Some slot, bm')
      | None => try_alloc_scan start iters' bm'
      end
  end.

Definition try_alloc (bm : AtomicBitmap) : outcome (option Z * AtomicBitmap) :=
  if slot_count bm =? 0 then Ret (None, bm)
  else
    let start := Z.land (cursor bm) (word_mask bm) in
    let bm' := set_cursor bm (wrap (cursor bm + 1)) in
    try_alloc_scan start (seqZ 0 (scan_words bm)) bm'.

Definition bitmap_free (bm : AtomicBitmap) (slot : Z) : outcome AtomicBitmap :=
  let! _ := debug_assert (slot <? slot_count bm) in
  let word_idx := slot / BITS_PER_WORD in
  let! mask := usz_shl 1 (slot mod BITS_PER_WORD) in
  let! prev := index (words bm) word_idx in
  let bm' := set_word bm word_idx (Z.lor prev mask) in
  let! _ := debug_assert (Z.land prev mask =? 0) in
  Ret bm'.

Definition try_claim_exact (bm : AtomicBitmap) (slot : Z) : outcome (bool * AtomicBitmap) :=
  let! _ := debug_assert (slot <? slot_count bm) in
  let word_idx := slot / BITS_PER_WORD in
  let! mask := usz_shl 1 (slot mod BITS_PER_WORD) in
  let! prev := index (words bm) word_idx in
  let bm' := set_word bm word_idx (Z.land prev (unot mask)) in
  Ret (negb (Z.land prev mask =? 0), bm').

Fixpoint any_free_scan (bm : AtomicBitmap) (ws : list Z) : outcome bool :=
  match ws with
  | [] => Ret false
  | word_idx :: ws' =>
      let! w := index (words bm) word_idx in
      if negb (w =? 0) then Ret true else any_free_scan bm ws'
  end.

Definition any_free (bm : AtomicBitmap) : outcome bool :=
  let actual_words := div_ceil (slot_count bm) BITS_PER_WORD in
  any_free_scan bm (seqZ 0 actual_words).

Definition is_free (bm : AtomicBitmap) (slot : Z) : outcome bool :=
  let! _ := debug_assert (slot <? slot_count bm) in
  let word_idx := slot / BITS_PER_WORD in
  let! mask := usz_shl 1 (slot mod BITS_PER_WORD) in
  let! w := index (words bm) word_idx in
  Ret (negb (Z.land w mask =? 0)).

Definition free_count (bm : AtomicBitmap) : outcome Z :=
  let actual_words := div_ceil (slot_count bm) BITS_PER_WORD in
  ofoldM (λ total word_idx,
    let! w := index (words bm) word_idx in
    usz_add total (count_ones w)) 0 (seqZ 0 actual_words).

Definition range_mask (start_bit end_bit : Z) : outcome Z :=
  let! _ := debug_assert (start_bit <=? end_bit) in
  let! _ := debug_assert (end_bit <=? BITS_PER_WORD) in
  let! full :=
    (if BITS_PER_WORD <=? end_bit then Ret usize_MAX
     else usz_sub (wrapping_shl 1 end_bit) 1) in
  let! low := usz_sub (wrapping_shl 1 start_bit) 1 in
  Ret (Z.land full (unot low)).

(** The word at [w] has every bit of [mask]. *)
Definition word_has (bm : AtomicBitmap) (w mask : Z) : outcome bool :=
  let! word := index (words bm) w in
  Ret (Z.land word mask =? mask).

Fixpoint words_full (bm : AtomicBitmap) (ws : list Z) : outcome bool :=
  match ws with
  | [] => Ret true
  | w :: ws' =>
      let! word := index (words bm) w in
      if negb (word =? usize_MAX) then Ret false else words_full bm ws'
  end.

(** Masks of the first and of the last word of a range over several words. *)
Definition first_word_mask (start : Z) : outcome Z :=
  let first_bit := start mod BITS_PER_WORD in
  let! low := usz_sub (wrapping_shl 1 first_bit) 1 in
  Ret (unot low).

Definition last_word_mask (last_word end_ : Z) : outcome Z :=
  let! last_base := usz_mul last_word BITS_PER_WORD in
  let! last_bit := usz_sub end_ last_base in
  if BITS_PER_WORD <=? last_bit then Ret usize_MAX
  else usz_sub (wrapping_shl 1 last_bit) 1.

Definition all_set_in_range (bm : AtomicBitmap) (start end_ : Z) : outcome bool :=
  let! _ := debug_assert (end_ <=? slot_count bm) in
  let! _ := debug_assert (start <=? end_) in
  if start =? end_ then Ret true
  else
    let first_word := start / BITS_PER_WORD in
    let! e1 := usz_sub end_ 1 in
    let last_word := e1 / BITS_PER_WORD in
    if first_word =? last_word then
      let! first_base := usz_mul first_word BITS_PER_WORD in
      let! end_bit := usz_sub end_ first_base in
      let! mask := range_mask (start mod BITS_PER_WORD) end_bit in
      word_has bm first_word mask
    else
      let! first_mask := first_word_mask start in
      let! b := word_has bm first_word first_mask in
      if negb b then Ret false
      else
        let! full := words_full bm (seqZ (first_word + 1) (last_word - (first_word + 1))) in
        if negb full then Ret false
        else
          let! last_mask := last_word_mask last_word end_ in
          word_has bm last_word last_mask.

(** [self.words[w].0.fetch_or(mask)]. *)
Definition or_word (bm : AtomicBitmap) (w mask : Z) : outcome AtomicBitmap :=
  let! prev := index (words bm) w in
  Ret (set_word bm w (Z.lor prev mask)).

Definition set_range (bm : AtomicBitmap) (start end_ : Z) : outcome AtomicBitmap :=
  let! _ := debug_assert (end_ <=? slot_count bm) in
  let! _ := debug_assert (start <=? end_) in
  if start =? end_ then Ret bm
  else
    let first_word := start / BITS_PER_WORD in
    let! e1 := usz_sub end_ 1 in
    let last_word := e1 / BITS_PER_WORD in
    if first_word =? last_word then
      let! first_base := usz_mul first_word BITS_PER_WORD in
      let! end_bit := usz_sub end_ first_base in
      let! mask := range_mask (start mod BITS_PER_WORD) end_bit in
      or_word bm first_word mask
    else
      let! first_mask := first_word_mask start in
      let! bm := or_word bm first_word first_mask in
      let! bm := ofoldM (λ bm w, or_word bm w usize_MAX) bm
                   (seqZ (first_word + 1) (last_word - (first_word + 1))) in
      let! last_mask := last_word_mask last_word end_ in
      or_word bm last_word last_mask.
End operations.

(** ** Abstraction and well-formedness *)

(** Whether slot [s] is marked free. *)
Definition bit (bm : AtomicBitmap) (s : Z) : bool :=
  match words bm !! Z.to_nat (s / 64) with
  | Some w => Z.testbit w (s mod 64)
  | None => false
  end.

(** The representation invariant: a power-of-two number of machine words, at
    least one bit per slot, and no free bit past the last slot. *)
Record bitmap_wf (bm : AtomicBitmap) : Prop := {
  wf_scan : ∃ k, 0 ≤ k ≤ 58 ∧ scan_words bm = 2 ^ k;
  wf_len : Z.of_nat (length (words bm)) = scan_words bm;
  wf_mask : word_mask bm = scan_words bm - 1;
  wf_count : 0 ≤ slot_count bm ≤ scan_words bm * 64;
  wf_count_usize : is_usize (slot_count bm);
  wf_words : Forall is_usize (words bm);
  wf_cursor : is_usize (cursor bm);
  wf_padding : ∀ s, slot_count bm ≤ s → bit bm s = false;
}.

(** [bm'] is a well-formed bitmap over the slots of [bm] with bits [f]. *)
Definition bits_are (bm bm' : AtomicBitmap) (f : Z → bool) : Prop :=
  bitmap_wf bm' ∧ slot_count bm' = slot_count bm ∧ ∀ s, 0 ≤ s → bit bm' s = f s.

(** The slots marked free, in increasing order. *)
Definition free_slots (bm : AtomicBitmap) : list Z :=
  filter (λ s, bit bm s = true) (seqZ 0 (slot_count bm)).

Ltac blia := unfold BITS_PER_WORD, is_usize, usize_MAX, usize_BITS in *; lia.

Lemma wf_scan_pos bm : bitmap_wf bm → 0 < scan_words bm ≤ 2 ^ 58.
Proof.
  intros [(k & ? & ->) _ _ _ _ _ _ _]. pose proof (pow2_mono k 58 ltac:(lia)). lia.
Qed.

Lemma wf_lookup bm i :
  bitmap_wf bm → 0 ≤ i < scan_words bm →
  ∃ w, words bm !! Z.to_nat i = Some w ∧ is_usize w.
Proof.
  intros Hwf Hi. destruct (lookup_Z_lt_is_Some (words bm) i) as [w Hw].
  { by rewrite (wf_len _ Hwf). }
  exists w. split; [done|]. by apply (Forall_lookup_1 _ _ _ _ (wf_words _ Hwf) Hw).
Qed.

Lemma slot_word_range bm s :
  bitmap_wf bm → 0 ≤ s < slot_count bm → 0 ≤ s / 64 < scan_words bm.
Proof. intros Hwf Hs. pose proof (wf_count _ Hwf). lia. Qed.

Lemma bit_word bm i b w :
  0 ≤ i → 0 ≤ b < 64 → words bm !! Z.to_nat i = Some w →
  bit bm (i * 64 + b) = Z.testbit w b.
Proof.
  intros Hi Hb Hw. unfold bit. replace ((i * 64 + b) / 64) with i by lia.
  rewrite Hw. f_equal. lia.
Qed.

Lemma bit_slot bm s w :
  words bm !! Z.to_nat (s / 64) = Some w → bit bm s = Z.testbit w (s mod 64).
Proof. unfold bit. by intros ->. Qed.

Lemma bit_set_word bm i w s :
  0 ≤ i < Z.of_nat (length (words bm)) → 0 ≤ s →
  bit (set_word bm i w) s =
    if decide (i = s / 64) then Z.testbit w (s mod 64) else bit bm s.
Proof.
  intros Hi Hs. unfold bit; simpl. rewrite lookup_set_index by lia.
  by case_decide.
Qed.

Lemma bit_lt_count bm s : bitmap_wf bm → bit bm s = true → s < slot_count bm.
Proof.
  intros Hwf Hs. destruct (decide (s < slot_count bm)); [done|].
  by rewrite (wf_padding _ Hwf) in Hs by lia.
Qed.

Lemma set_word_wf bm i w :
  bitmap_wf bm → 0 ≤ i < scan_words bm → is_usize w →
  (∀ b, 0 ≤ b < 64 → Z.testbit w b = true → i * 64 + b < slot_count bm) →
  bitmap_wf (set_word bm i w).
Proof.
  intros Hwf Hi Hw Hb. pose proof Hwf as [? Hlen ? Hcnt ? Hws ? Hpad]. split; simpl; try done.
  - by rewrite length_set_index.
  - by apply Forall_insert.
  - intros s Hs. rewrite bit_set_word by lia. case_decide as E; [|by apply Hpad].
    apply not_true_is_false. intros Ht. apply Hb in Ht; lia.
Qed.

Lemma set_cursor_wf bm c : bitmap_wf bm → is_usize c → bitmap_wf (set_cursor bm c).
Proof. intros [] ?. by split. Qed.

Lemma set_word_same bm i w : words bm !! Z.to_nat i = Some w → set_word bm i w = bm.
Proof.
  intros Hw. unfold set_word, set_index. rewrite list_insert_id by done. by destruct bm.
Qed.

(** Writing a word that differs from the old one in a set of bits. *)
Lemma set_word_bits bm i w w' f :
  bitmap_wf bm → 0 ≤ i < scan_words bm → words bm !! Z.to_nat i = Some w → is_usize w' →
  (∀ b, 0 ≤ b < 64 → Z.testbit w' b = f (i * 64 + b)) →
  (∀ s, 0 ≤ s → s / 64 ≠ i → f s = bit bm s) →
  (∀ s, 0 ≤ s → f s = true → s < slot_count bm) →
  bits_are bm (set_word bm i w') f.
Proof.
  intros Hwf Hi Hw Hw' Hin Hout Hlt. split_and!; [|done|].
  - apply set_word_wf; [done..|]. intros b Hb Ht. apply Hlt; [lia|]. by rewrite <- Hin.
  - intros s Hs. rewrite bit_set_word by (rewrite ?(wf_len _ Hwf); lia).
    case_decide as E; [|by rewrite Hout].
    rewrite Hin by lia. f_equal. lia.
Qed.

(** ** Construction *)

Lemma div_ceil_64 n : 0 ≤ n → div_ceil n BITS_PER_WORD = (n + 63) / 64.
Proof.
  intros. unfold div_ceil. change BITS_PER_WORD with 64. destruct (Z.eqb_spec (n mod 64) 0); lia.
Qed.

Section construction.
Context {P : Profile}.

Definition initial_value (n : Z) (b : bool) (w : Z) : Z :=
  if b && (w * 64 <? n) then
    if 64 <=? n - w * 64 then usize_MAX else 2 ^ (n - w * 64) - 1
  else 0.

Lemma initial_word_ok n b w :
  is_usize n → 0 ≤ w → w * 64 ≤ usize_MAX → initial_word n b w = Ret (initial_value n b w).
Proof.
  intros Hn Hw Hle. unfold initial_word, initial_value.
  rewrite usz_mul_ok by blia. change BITS_PER_WORD with 64. cbn [obind].
  destruct (Z.leb_spec n (w * 64)), (Z.ltb_spec (w * 64) n); try lia.
  { by rewrite andb_false_r. }
  rewrite andb_true_r, usz_sub_ok by blia. cbn [obind].
  destruct (Z.leb_spec 64 (n - w * 64)).
  - rewrite Z.min_r, Z.eqb_refl by lia. by destruct b.
  - rewrite Z.min_l by lia. destruct (Z.eqb_spec (n - w * 64) 64); [lia|].
    rewrite wrapping_shl_1 by lia.
    pose proof (pow2_is_usize (n - w * 64) ltac:(lia)).
    assert (0 < 2 ^ (n - w * 64)) by lia.
    rewrite usz_sub_ok by blia. by destruct b.
Qed.

Lemma initial_value_usize n b w : is_usize (initial_value n b w).
Proof.
  unfold initial_value. destruct (b && _) eqn:E; [|blia].
  apply andb_true_iff in E as [_ E%Z.ltb_lt].
  destruct (Z.leb_spec 64 (n - w * 64)); [blia|].
  pose proof (pow2_is_usize (n - w * 64) ltac:(lia)). assert (0 < 2 ^ (n - w * 64)) by lia. blia.
Qed.

Lemma testbit_initial_value n b w i :
  0 ≤ i < 64 → Z.testbit (initial_value n b w) i = b && bool_decide (w * 64 + i < n).
Proof.
  intros Hi. unfold initial_value. destruct b; [|apply Z.bits_0].
  destruct (Z.ltb_spec (w * 64) n); simpl.
  - destruct (Z.leb_spec 64 (n - w * 64)).
    + rewrite testbit_usize_MAX by lia. apply bool_decide_ext. lia.
    + rewrite testbit_ones_low by lia. apply bool_decide_ext. lia.
  - rewrite Z.bits_0, bool_decide_false by lia. done.
Qed.

(** The word count of a bitmap of [n] slots. *)
Lemma scan_words_ok n :
  is_usize n →
  ∃ k, 0 ≤ k ≤ 58 ∧ n ≤ 2 ^ k * 64 ∧
    next_power_of_two (Z.max (div_ceil n BITS_PER_WORD) 1) = Ret (2 ^ k).
Proof.
  intros Hn. rewrite div_ceil_64 by blia.
  destruct (ceil_pow2_spec (Z.max ((n + 63) / 64) 1)) as (k & Hk & Heq & Hle & Hmin).
  exists k. assert (k ≤ 58) by (apply Hmin; blia).
  split_and!; [lia..|]. unfold next_power_of_two. rewrite Heq, overflowing_ok; [done|].
  apply pow2_is_usize. lia.
Qed.

Lemma with_allocation_state_ok n b :
  is_usize n →
  ∃ bm, with_allocation_state n b = Ret bm ∧ bitmap_wf bm ∧ slot_count bm = n ∧
    ∀ s, 0 ≤ s → bit bm s = b && bool_decide (s < n).
Proof.
  intros Hn. unfold with_allocation_state.
  destruct (scan_words_ok n Hn) as (k & Hk & Hle & ->). cbn [obind].
  pose proof (pow2_mono k 58 ltac:(lia)). pose proof (pow2_mono 0 k ltac:(lia)).
  rewrite (omapM_Ret _ (initial_value n b)).
  2:{ intros w Hw%elem_of_seqZ. apply initial_word_ok; blia. }
  cbn [obind]. rewrite debug_assert_true by (apply is_power_of_two_spec; exists k; lia).
  cbn [obind]. rewrite usz_sub_ok by blia. cbn [obind].
  eexists. split; [reflexivity|].
  assert (Hbit : ∀ s, 0 ≤ s →
    bit (mkAtomicBitmap (initial_value n b <$> seqZ 0 (2 ^ k)) 0 (2 ^ k) (2 ^ k - 1) n) s =
      b && bool_decide (s < n)).
  { intros s Hs. unfold bit; cbn [words].
    destruct (decide (s / 64 < 2 ^ k)) as [Hlt|Hge].
    - rewrite list_lookup_fmap, lookup_seqZ_lt by lia. simpl.
      rewrite testbit_initial_value by lia. f_equal. apply bool_decide_ext. lia.
    - rewrite list_lookup_fmap, lookup_seqZ_ge by lia. simpl.
      rewrite bool_decide_false by lia. by rewrite andb_false_r. }
  split_and!; [split; simpl|done|done]; try done.
  - by exists k.
  - rewrite length_fmap, length_seqZ. lia.
  - blia.
  - apply Forall_fmap, Forall_forall. intros. apply initial_value_usize.
  - intros s Hs. rewrite Hbit by blia. rewrite bool_decide_false by lia. apply andb_false_r.
Qed.

(** A new bitmap has every slot free, an empty one none, and building one
    panics in no profile. *)
Lemma bitmap_new_ok n :
  is_usize n →
  ∃ bm, bitmap_new n = Ret bm ∧ bitmap_wf bm ∧ slot_count bm = n ∧
    ∀ s, 0 ≤ s → bit bm s = bool_decide (s < n).
Proof. apply (with_allocation_state_ok n true). Qed.

Lemma bitmap_new_empty_ok n :
  is_usize n →
  ∃ bm, bitmap_new_empty n = Ret bm ∧ bitmap_wf bm ∧ slot_count bm = n ∧
    ∀ s, 0 ≤ s → bit bm s = false.
Proof. apply (with_allocation_state_ok n false). Qed.
End construction.

(** ** Claiming and releasing *)

Section claim.
Context {P : Profile}.

(** Run alone, the claim loop ends in its first iteration. *)
Lemma try_claim_word_zero fuel base : try_claim_word (S fuel) 0 base = Ret (None, 0).
Proof. done. Qed.

Lemma try_claim_word_nonzero fuel w base :
  is_usize w → w ≠ 0 → 0 ≤ base → base + 63 ≤ usize_MAX →
  try_claim_word (S fuel) w base =
    Ret (Some (base + trailing_zeros w), Z.land w (unot (2 ^ trailing_zeros w))).
Proof.
  intros Hw Hne Hb Hmax. pose proof (trailing_zeros_bound w Hw Hne).
  cbn [try_claim_word]. destruct (Z.eqb_spec w 0); [done|].
  rewrite usz_shl_1 by lia. cbn [obind]. rewrite land_pow2_eqb by lia.
  rewrite trailing_zeros_testbit by blia. simpl.
  by rewrite usz_add_ok by blia.
Qed.

(** Slot [s] was free in [bm] and is the only slot taken in [bm']. *)
Definition claimed (bm : AtomicBitmap) (s : Z) (bm' : AtomicBitmap) : Prop :=
  0 ≤ s < slot_count bm ∧ bit bm s = true ∧
  bits_are bm bm' (λ s', bit bm s' && negb (bool_decide (s = s'))).

Lemma clear_bit_claimed bm i b w :
  bitmap_wf bm → 0 ≤ i < scan_words bm → words bm !! Z.to_nat i = Some w →
  0 ≤ b < 64 → Z.testbit w b = true →
  claimed bm (i * 64 + b) (set_word bm i (Z.land w (unot (2 ^ b)))).
Proof.
  intros Hwf Hi Hw Hb Ht.
  assert (Hbit : bit bm (i * 64 + b) = true) by (by erewrite bit_word by (done || lia)).
  pose proof (bit_lt_count _ _ Hwf Hbit).
  assert (is_usize w) by (by apply (Forall_lookup_1 _ _ _ _ (wf_words _ Hwf) Hw)).
  split_and!; [lia|lia|done|].
  eapply set_word_bits; [done..| | | |].
  - apply land_range, unot_range, pow2_is_usize; done || lia.
  - intros c Hc. rewrite testbit_clear by lia. f_equal.
    + symmetry. eapply bit_word; done || lia.
    + f_equal. apply bool_decide_ext. lia.
  - intros s Hs Hne. rewrite bool_decide_false by lia. apply andb_true_r.
  - intros s Hs [Hs' _]%andb_true_iff. by apply bit_lt_count.
Qed.

Lemma land_word_mask bm x :
  bitmap_wf bm → 0 ≤ x → Z.land x (word_mask bm) = x mod scan_words bm.
Proof.
  intros Hwf Hx. destruct (wf_scan _ Hwf) as (k & Hk & Hs).
  rewrite (wf_mask _ Hwf), Hs. replace (2 ^ k - 1) with (Z.ones k) by (rewrite Z.ones_equiv; lia).
  apply Z.land_ones. lia.
Qed.

Lemma try_alloc_scan_ok bm start iters :
  bitmap_wf bm → 0 ≤ start < scan_words bm →
  Forall (λ i, 0 ≤ i < scan_words bm) iters →
  (∃ s bm', try_alloc_scan start iters bm = Ret (Some s, bm') ∧ claimed bm s bm') ∨
  (try_alloc_scan start iters bm = Ret (None, bm) ∧
   Forall (λ i, words bm !! Z.to_nat ((start + i) mod scan_words bm) = Some 0) iters).
Proof.
  intros Hwf Hst Hit. pose proof (wf_scan_pos _ Hwf).
  induction Hit as [|i iters Hi Hit IH]; [by right|].
  cbn [try_alloc_scan]. rewrite usz_add_ok by blia. cbn [obind].
  rewrite land_word_mask by (done || lia). set (wi := (start + i) mod scan_words bm) in *.
  assert (0 ≤ wi < scan_words bm) by (apply Z.mod_pos_bound; lia).
  rewrite usz_mul_ok by blia. cbn [obind]. change BITS_PER_WORD with 64.
  destruct (wf_lookup bm wi) as (w & Hw & Hwu); [done..|].
  rewrite (index_Some _ _ _ Hw). cbn [obind]. change CLAIM_FUEL with (S 63).
  destruct (decide (w = 0)) as [->|Hne].
  - rewrite try_claim_word_zero. cbn [obind]. rewrite set_word_same by done.
    destruct IH as [?|[-> IH]]; [by left|]. right. by split; [|constructor].
  - left. pose proof (trailing_zeros_bound w Hwu Hne).
    rewrite try_claim_word_nonzero by (done || blia). cbn [obind].
    eexists _, _. split; [done|]. apply clear_bit_claimed; try done.
    apply trailing_zeros_testbit. blia.
Qed.

(** Scanning every word from any start misses none. *)
Lemma scan_covers n start w : 0 ≤ start < n → 0 ≤ w < n → ∃ i, 0 ≤ i < n ∧ (start + i) mod n = w.
Proof.
  intros. destruct (decide (start ≤ w)).
  - exists (w - start). split; [lia|]. rewrite Z.mod_small by lia. lia.
  - exists (w - start + n). split; [lia|].
    replace (start + (w - start + n)) with (w + 1 * n) by lia.
    rewrite Z_mod_plus_full, Z.mod_small by lia. done.
Qed.

Lemma zero_words_no_bit bm :
  bitmap_wf bm → (∀ w, 0 ≤ w < scan_words bm → words bm !! Z.to_nat w = Some 0) →
  ∀ s, 0 ≤ s → bit bm s = false.
Proof.
  intros Hwf Hz s Hs. unfold bit. destruct (decide (s / 64 < scan_words bm)).
  - rewrite Hz by lia. apply Z.bits_0.
  - pose proof (wf_len _ Hwf). by rewrite lookup_ge_None_2 by lia.
Qed.

Lemma try_alloc_ok bm :
  bitmap_wf bm →
  (∃ s bm', try_alloc bm = Ret (Some s, bm') ∧ claimed bm s bm') ∨
  (∃ bm', try_alloc bm = Ret (None, bm') ∧ bits_are bm bm' (bit bm) ∧
     ∀ s, 0 ≤ s → bit bm s = false).
Proof.
  intros Hwf. unfold try_alloc. destruct (Z.eqb_spec (slot_count bm) 0) as [H0|H0].
  { right. exists bm. split_and!; [done..|]. intros s Hs. apply (wf_padding _ Hwf). lia. }
  set (bm1 := set_cursor bm _).
  assert (Hwf1 : bitmap_wf bm1) by (apply set_cursor_wf; [done|apply wrap_range]).
  pose proof (wf_scan_pos _ Hwf). pose proof (wf_cursor _ Hwf).
  assert (Hst : 0 ≤ Z.land (cursor bm) (word_mask bm) < scan_words bm).
  { rewrite land_word_mask by (done || blia). apply Z.mod_pos_bound. lia. }
  destruct (try_alloc_scan_ok bm1 (Z.land (cursor bm) (word_mask bm)) (seqZ 0 (scan_words bm)))
    as [(s & bm' & -> & Hc)|[-> Hz]]; [done..| | |].
  { apply Forall_seqZ. intros i Hi. change (0 ≤ i < scan_words bm). lia. }
  { left. exists s, bm'. by split. }
  right. exists bm1. split_and!; [done..|].
  assert (∀ s, 0 ≤ s → bit bm1 s = false) as Hb; [|done].
  apply zero_words_no_bit; [done|]. intros w Hw.
  destruct (scan_covers (scan_words bm) (Z.land (cursor bm) (word_mask bm)) w)
    as (i & Hi & Hiw); [done..|].
  rewrite Forall_seqZ in Hz. specialize (Hz i ltac:(lia)). simpl in Hz. by rewrite Hiw in Hz.
Qed.

(** The word and mask of a slot. *)
Lemma slot_word bm s :
  bitmap_wf bm → 0 ≤ s < slot_count bm →
  ∃ w, index (words bm) (s / BITS_PER_WORD) = Ret w ∧ is_usize w ∧
    words bm !! Z.to_nat (s / 64) = Some w ∧
    usz_shl 1 (s mod BITS_PER_WORD) = Ret (2 ^ (s mod 64)) ∧
    bit bm s = Z.testbit w (s mod 64) ∧ 0 ≤ s / 64 < scan_words bm.
Proof.
  intros Hwf Hs. pose proof (slot_word_range bm s Hwf Hs) as Hr.
  destruct (wf_lookup bm (s / 64) Hwf Hr) as (w & Hw & ?).
  exists w. change BITS_PER_WORD with 64.
  split_and!; [by apply index_Some| | |apply usz_shl_1; lia|by apply bit_slot|lia|lia]; done.
Qed.

Lemma set_bit_bits bm s w :
  bitmap_wf bm → 0 ≤ s < slot_count bm → words bm !! Z.to_nat (s / 64) = Some w → is_usize w →
  bits_are bm (set_word bm (s / 64) (Z.lor w (2 ^ (s mod 64))))
    (λ s', bit bm s' || bool_decide (s = s')).
Proof.
  intros Hwf Hs Hw Hu. pose proof (slot_word_range bm s Hwf Hs).
  eapply set_word_bits; [done..| | | |].
  - apply lor_range, pow2_is_usize; done || lia.
  - intros c Hc. rewrite testbit_set by lia. f_equal.
    + symmetry. eapply bit_word; done || lia.
    + apply bool_decide_ext. lia.
  - intros s' Hs' Hne. rewrite bool_decide_false by (intros <-; lia). apply orb_false_r.
  - intros s' Hs' [?|?%bool_decide_eq_true]%orb_true_iff; [by apply bit_lt_count|lia].
Qed.

Lemma bitmap_free_ok bm s :
  bitmap_wf bm → 0 ≤ s < slot_count bm → bit bm s = false →
  ∃ bm', bitmap_free bm s = Ret bm' ∧
    bits_are bm bm' (λ s', bit bm s' || bool_decide (s = s')).
Proof.
  intros Hwf Hs Hf. destruct (slot_word bm s Hwf Hs) as (w & Hi & Hu & Hw & Hm & Hb & _).
  unfold bitmap_free. rewrite debug_assert_true by lia. cbn [obind].
  rewrite Hm. cbn [obind]. rewrite Hi. cbn [obind].
  rewrite debug_assert_true by (rewrite land_pow2_eqb, <- Hb, Hf by lia; done).
  eexists. split; [reflexivity|]. by apply set_bit_bits.
Qed.

(** Freeing a slot that is already free, or one that does not exist. *)
Lemma bitmap_free_double bm s :
  bitmap_wf bm → 0 ≤ s < slot_count bm → bit bm s = true →
  bitmap_free bm s = if debug_assertions then Panic else Ret bm.
Proof.
  intros Hwf Hs Hf. destruct (slot_word bm s Hwf Hs) as (w & Hi & Hu & Hw & Hm & Hb & _).
  unfold bitmap_free. rewrite debug_assert_true by lia. cbn [obind].
  rewrite Hm. cbn [obind]. rewrite Hi. cbn [obind].
  rewrite land_pow2_eqb, <- Hb, Hf by lia. unfold debug_assert. simpl.
  destruct debug_assertions; [done|]. simpl. f_equal.
  replace (Z.lor w (2 ^ (s mod 64))) with w; [by apply set_word_same|].
  apply Z.bits_inj'. intros i Hi'. rewrite testbit_set by lia.
  case_bool_decide; [subst; by rewrite <- Hb, Hf|by rewrite orb_false_r].
Qed.

Lemma try_claim_exact_ok bm s :
  bitmap_wf bm → 0 ≤ s < slot_count bm →
  ∃ bm', try_claim_exact bm s = Ret (bit bm s, bm') ∧
    bits_are bm bm' (λ s', bit bm s' && negb (bool_decide (s = s'))).
Proof.
  intros Hwf Hs. destruct (slot_word bm s Hwf Hs) as (w & Hi & Hu & Hw & Hm & Hb & Hr).
  unfold try_claim_exact. rewrite debug_assert_true by lia. cbn [obind].
  rewrite Hm. cbn [obind]. rewrite Hi. cbn [obind].
  rewrite land_pow2_eqb, <- Hb, negb_involutive by lia.
  change BITS_PER_WORD with 64. eexists. split; [reflexivity|].
  eapply set_word_bits; [done|lia|done|..].
  - apply land_range, unot_range, pow2_is_usize; done || lia.
  - intros c Hc. rewrite testbit_clear by lia. f_equal.
    + symmetry. eapply bit_word; done || lia.
    + f_equal. apply bool_decide_ext. lia.
  - intros s' Hs' Hne. rewrite bool_decide_false by (intros <-; lia). apply andb_true_r.
  - intros s' Hs' [? _]%andb_true_iff. by apply bit_lt_count.
Qed.

Lemma is_free_ok bm s :
  bitmap_wf bm → 0 ≤ s < slot_count bm → is_free bm s = Ret (bit bm s).
Proof.
  intros Hwf Hs. destruct (slot_word bm s Hwf Hs) as (w & Hi & Hu & Hw & Hm & Hb & _).
  unfold is_free. rewrite debug_assert_true by lia. cbn [obind].
  rewrite Hm. cbn [obind]. rewrite Hi. cbn [obind].
  by rewrite land_pow2_eqb, <- Hb, negb_involutive by lia.
Qed.
End claim.
