(* ===== verification/BitmapRange.v ===== *)
(** * [src/bitmap.rs]: queries and range operations

    Correctness of the read-only scans ([any_free], [free_count]) and of the
    word-at-a-time range operations ([all_set_in_range], [set_range]) against
    their slot-at-a-time meaning. *)

From stdpp Require Import prelude numbers list gmap.
From S2P Require Import Prelude Usize Bitmap.
Local Open Scope Z_scope.

(** ** Counting *)

Lemma ofoldM_app {A S} (f : S → A → outcome S) s (l1 l2 : list A) :
  ofoldM f s (l1 ++ l2) = obind (ofoldM f s l1) (λ s', ofoldM f s' l2).
Proof.
  revert s. induction l1 as [|x l1 IH]; intros s; [done|]. simpl.
  destruct (f s x); simpl; [apply IH|done|done].
Qed.

Lemma count_ones_double x : 0 ≤ x → count_ones x = count_ones (x / 2) + x mod 2.
Proof.
  intros Hx. destruct x as [|[p|p|]|]; [done| | |done|lia].
  - replace (Zpos p~1 / 2) with (Zpos p) by lia. replace (Zpos p~1 mod 2) with 1 by lia.
    change (1 + pos_count_ones p = pos_count_ones p + 1). lia.
  - replace (Zpos p~0 / 2) with (Zpos p) by lia. replace (Zpos p~0 mod 2) with 0 by lia.
    change (pos_count_ones p = pos_count_ones p + 0). lia.
Qed.

(** How many elements of a list satisfy a test. *)
Definition countb {A} (f : A → bool) (l : list A) : Z :=
  foldr (λ x n, Z.b2z (f x) + n) 0 l.

Lemma countb_app {A} (f : A → bool) l1 l2 : countb f (l1 ++ l2) = countb f l1 + countb f l2.
Proof. unfold countb. induction l1 as [|x l1 IH]; simpl in *; lia. Qed.

Lemma countb_ext {A} (f g : A → bool) l : (∀ x, x ∈ l → f x = g x) → countb f l = countb g l.
Proof.
  intros Hfg. induction l as [|x l IH]; [done|]. simpl.
  rewrite (Hfg x) by (by left). f_equal. apply IH. intros y Hy. apply Hfg. by right.
Qed.

Lemma countb_false {A} (f : A → bool) l : (∀ x, x ∈ l → f x = false) → countb f l = 0.
Proof.
  intros Hf. rewrite (countb_ext f (λ _, false)) by done.
  induction l as [|x l IH]; [done|]. simpl. rewrite IH; [done|]. intros. apply Hf. by right.
Qed.

Lemma countb_bound {A} (f : A → bool) l : 0 ≤ countb f l ≤ Z.of_nat (length l).
Proof. induction l as [|x l IH]; simpl; [lia|]. destruct (f x); simpl; lia. Qed.

Lemma countb_filter {A} (f : A → bool) l :
  countb f l = Z.of_nat (length (filter (λ x, f x = true) l)).
Proof.
  induction l as [|x l IH]; [done|]. simpl. rewrite IH, filter_cons.
  destruct (f x); [rewrite decide_True by done|rewrite decide_False by done]; simpl; lia.
Qed.

Lemma countb_seqZ_shift (f : Z → bool) m n : countb f (seqZ m n) = countb (λ i, f (m + i)) (seqZ 0 n).
Proof.
  replace (seqZ m n) with (Z.add m <$> seqZ 0 n) by (rewrite fmap_add_seqZ; f_equal; lia).
  induction (seqZ 0 n) as [|x l IH]; [done|]. unfold countb in *. cbn. f_equal. exact IH.
Qed.

(** [count_ones] counts the positions of one bits. *)
Lemma count_ones_countb (n : nat) x :
  0 ≤ x < 2 ^ Z.of_nat n → count_ones x = countb (Z.testbit x) (seqZ 0 (Z.of_nat n)).
Proof.
  revert x. induction n as [|n IH]; intros x Hx.
  { change (2 ^ Z.of_nat 0) with 1 in Hx. by replace x with 0 by lia. }
  rewrite Nat2Z.inj_succ, Z.pow_succ_r in Hx by lia.
  rewrite count_ones_double by lia. rewrite (IH (x / 2)) by lia.
  rewrite (seqZ_cons 0 (Z.of_nat (S n))) by lia.
  replace (Z.pred (Z.of_nat (S n))) with (Z.of_nat n) by lia.
  change (countb _ (0 :: ?l)) with (Z.b2z (Z.testbit x 0) + countb (Z.testbit x) l).
  rewrite (countb_seqZ_shift _ (Z.succ 0)), <- Z.bit0_mod.
  rewrite (countb_ext (Z.testbit (x / 2)) (λ i, Z.testbit x (Z.succ 0 + i))); [lia|].
  intros i Hi%elem_of_seqZ. rewrite Z.div2_bits by lia. f_equal. lia.
Qed.

Section queries.
Context {P : Profile}.

Lemma actual_words_le bm :
  bitmap_wf bm → 0 ≤ div_ceil (slot_count bm) BITS_PER_WORD ≤ scan_words bm ∧
    slot_count bm ≤ div_ceil (slot_count bm) BITS_PER_WORD * 64.
Proof.
  intros Hwf. pose proof (wf_count _ Hwf). rewrite div_ceil_64 by lia.
  split; lia.
Qed.

Lemma word_zero_bits bm i w :
  bitmap_wf bm → 0 ≤ i < scan_words bm → words bm !! Z.to_nat i = Some w →
  (w = 0 ↔ ∀ c, 0 ≤ c < 64 → bit bm (i * 64 + c) = false).
Proof.
  intros Hwf Hi Hw.
  assert (is_usize w) by (by apply (Forall_lookup_1 _ _ _ _ (wf_words _ Hwf) Hw)).
  split.
  - intros -> c Hc. erewrite bit_word by (done || lia). apply Z.bits_0.
  - intros Hz. apply usize_bits_inj; [done|blia|]. intros c Hc. rewrite Z.bits_0, <- (Hz c) by done.
    symmetry. eapply bit_word; done || lia.
Qed.

Lemma any_free_scan_ok bm ws :
  bitmap_wf bm → Forall (λ i, 0 ≤ i < scan_words bm) ws →
  ∃ b, any_free_scan bm ws = Ret b ∧
    (b = true ↔ ∃ i c, i ∈ ws ∧ 0 ≤ c < 64 ∧ bit bm (i * 64 + c) = true).
Proof.
  intros Hwf Hws. induction Hws as [|i ws Hi Hws (b & IH & Hb)]; cbn [any_free_scan].
  { exists false. split; [done|]. split; [done|]. by intros (? & ? & ?%not_elem_of_nil & _). }
  destruct (wf_lookup bm i Hwf Hi) as (w & Hw & Hu). rewrite (index_Some _ _ _ Hw). cbn [obind].
  destruct (Z.eqb_spec w 0) as [->|Hne]; simpl.
  - exists b. split; [done|]. rewrite Hb. split.
    + intros (j & c & ? & ?). exists j, c. split; [by right|done].
    + intros (j & c & [->|?]%elem_of_cons & Hc & Hbit); [|by exists j, c].
      by rewrite (proj1 (word_zero_bits bm i 0 Hwf Hi Hw)) in Hbit.
  - exists true. split; [done|]. split; [intros _|done].
    destruct (usize_nonzero_bit w Hu Hne) as (c & Hc & Ht).
    exists i, c. split_and!; [by left|lia|lia|]. by erewrite bit_word by (done || lia).
Qed.

(** [any_free] holds exactly when some slot is free. *)
Lemma any_free_ok bm :
  bitmap_wf bm →
  ∃ b, any_free bm = Ret b ∧ (b = true ↔ ∃ s, 0 ≤ s < slot_count bm ∧ bit bm s = true).
Proof.
  intros Hwf. destruct (actual_words_le bm Hwf) as [Ha Hc]. unfold any_free.
  destruct (any_free_scan_ok bm (seqZ 0 (div_ceil (slot_count bm) BITS_PER_WORD)) Hwf)
    as (b & -> & Hb); [apply Forall_seqZ; lia|].
  exists b. split; [done|]. rewrite Hb. split.
  - intros (i & c & Hi%elem_of_seqZ & Hc' & Ht). exists (i * 64 + c).
    pose proof (bit_lt_count _ _ Hwf Ht). split; [lia|done].
  - intros (s & Hs & Ht). exists (s / 64), (s mod 64). rewrite elem_of_seqZ.
    replace (s / 64 * 64 + s mod 64) with s by lia. split_and!; try lia. done.
Qed.

Lemma countb_bit_count bm n :
  bitmap_wf bm → 0 ≤ countb (bit bm) (seqZ 0 n) ≤ slot_count bm.
Proof.
  intros Hwf. pose proof (wf_count _ Hwf). pose proof (countb_bound (bit bm) (seqZ 0 n)) as Hb.
  split; [lia|]. destruct (decide (n ≤ slot_count bm)).
  { rewrite length_seqZ in Hb. lia. }
  replace n with (slot_count bm + (n - slot_count bm)) by lia.
  rewrite seqZ_app, countb_app by lia. rewrite (countb_false _ (seqZ (0 + _) _)).
  - pose proof (countb_bound (bit bm) (seqZ 0 (slot_count bm))) as Hb'.
    rewrite length_seqZ in Hb'. lia.
  - intros s Hs%elem_of_seqZ. apply (wf_padding _ Hwf). lia.
Qed.

Lemma free_count_words bm (k : nat) :
  bitmap_wf bm → Z.of_nat k ≤ scan_words bm →
  ofoldM (λ total word_idx,
    let! w := index (words bm) word_idx in
    usz_add total (count_ones w)) 0 (seqZ 0 (Z.of_nat k))
  = Ret (countb (bit bm) (seqZ 0 (Z.of_nat k * 64))).
Proof.
  intros Hwf Hk. pose proof (wf_scan_pos _ Hwf). induction k as [|k IH]; [done|].
  rewrite seqZ_S, ofoldM_app, IH by lia. cbn [obind ofoldM].
  destruct (wf_lookup bm (0 + Z.of_nat k)) as (w & Hw & Hu); [done|lia|].
  rewrite (index_Some _ _ _ Hw). cbn [obind].
  replace (Z.of_nat (S k) * 64) with (Z.of_nat k * 64 + 64) by lia.
  pose proof (countb_bit_count bm (Z.of_nat k * 64 + 64) Hwf) as Hb. revert Hb.
  rewrite seqZ_app, countb_app, (countb_seqZ_shift _ (0 + Z.of_nat k * 64)) by lia.
  rewrite (count_ones_countb 64) by (change (2 ^ Z.of_nat 64) with (2 ^ 64); blia).
  rewrite (countb_ext (λ i, bit bm (0 + Z.of_nat k * 64 + i)) (Z.testbit w)).
  2:{ intros c Hc%elem_of_seqZ. rewrite Z.add_0_l. eapply bit_word; done || lia. }
  change (Z.of_nat 64) with 64. intros Hb. pose proof (wf_count_usize _ Hwf).
  by rewrite usz_add_ok by blia.
Qed.

(** [free_count] is the number of free slots. *)
Lemma free_count_ok bm :
  bitmap_wf bm → free_count bm = Ret (Z.of_nat (length (free_slots bm))).
Proof.
  intros Hwf. destruct (actual_words_le bm Hwf) as [Ha Hc]. pose proof (wf_count _ Hwf).
  unfold free_count. rewrite <- (Z2Nat.id (div_ceil _ _)) by lia.
  rewrite free_count_words by (done || lia). f_equal. rewrite Z2Nat.id by lia.
  unfold free_slots. rewrite <- (countb_filter (bit bm)).
  set (n := div_ceil _ _) in *.
  replace (n * 64) with (slot_count bm + (n * 64 - slot_count bm)) by lia.
  rewrite seqZ_app, countb_app by lia. rewrite (countb_false _ (seqZ (0 + _) _)); [lia|].
  intros s Hs%elem_of_seqZ. apply (wf_padding _ Hwf). lia.
Qed.
End queries.

(** ** Ranges *)

(** A machine word [m] whose bits are exactly the positions [a, b). *)
Definition is_mask (m a b : Z) : Prop :=
  is_usize m ∧ ∀ c, 0 ≤ c < 64 → Z.testbit m c = bool_decide (a ≤ c < b).

Lemma is_mask_low_complement a : 0 ≤ a < 64 → is_mask (unot (2 ^ a - 1)) a 64.
Proof.
  intros Ha. pose proof (pow2_is_usize a ltac:(lia)). assert (0 < 2 ^ a) by lia. split.
  - apply unot_range. blia.
  - intros c Hc. rewrite testbit_unot, testbit_ones_low by lia.
    rewrite <- bool_decide_not. apply bool_decide_ext. lia.
Qed.

Lemma is_mask_low b : 0 ≤ b < 64 → is_mask (2 ^ b - 1) 0 b.
Proof.
  intros Hb. pose proof (pow2_is_usize b ltac:(lia)). assert (0 < 2 ^ b) by lia. split; [blia|].
  intros c Hc. rewrite testbit_ones_low by lia. apply bool_decide_ext. lia.
Qed.

Lemma is_mask_full : is_mask usize_MAX 0 64.
Proof.
  split; [blia|]. intros c Hc. rewrite testbit_usize_MAX by lia. apply bool_decide_ext. lia.
Qed.

Lemma is_mask_land m1 m2 a b : is_mask m1 0 b → is_mask m2 a 64 → 0 ≤ a → b ≤ 64 →
  is_mask (Z.land m1 m2) a b.
Proof.
  intros [? H1] [? H2] ??. split; [by apply land_range|].
  intros c Hc. rewrite Z.land_spec, H1, H2 by done. rewrite <- bool_decide_and.
  apply bool_decide_ext. lia.
Qed.

Lemma land_eqb_mask w m a b :
  is_usize w → is_mask m a b → 0 ≤ a → b ≤ 64 →
  (Z.land w m =? m) = true ↔ ∀ c, a ≤ c < b → Z.testbit w c = true.
Proof.
  intros Hw [Hm Hbits] Ha Hb. rewrite Z.eqb_eq. split.
  - intros Heq c Hc. apply (f_equal (λ x, Z.testbit x c)) in Heq.
    rewrite Z.land_spec, Hbits, bool_decide_true, andb_true_r in Heq by lia. done.
  - intros Hall. apply usize_bits_inj; [by apply land_range|done|]. intros c Hc.
    rewrite Z.land_spec, Hbits by done. case_bool_decide; [|apply andb_false_r].
    by rewrite Hall.
Qed.

Section ranges.
Context {P : Profile}.

Lemma low_mask_ok a : 0 ≤ a < 64 → usz_sub (wrapping_shl 1 a) 1 = Ret (2 ^ a - 1).
Proof.
  intros. rewrite wrapping_shl_1 by lia. apply usz_sub_ok.
  pose proof (pow2_is_usize a ltac:(lia)). assert (0 < 2 ^ a) by lia. blia.
Qed.

(** The mask of bit positions below [b], for [b] up to a whole word. *)
Lemma below_mask_ok b :
  0 ≤ b ≤ 64 →
  ∃ m, (if BITS_PER_WORD <=? b then Ret usize_MAX else usz_sub (wrapping_shl 1 b) 1) = Ret m ∧
    is_mask m 0 b.
Proof.
  intros Hb. change BITS_PER_WORD with 64. destruct (Z.leb_spec 64 b).
  - replace b with 64 by lia. exists usize_MAX. split; [done|apply is_mask_full].
  - exists (2 ^ b - 1). split; [apply low_mask_ok; lia|apply is_mask_low; lia].
Qed.

Lemma range_mask_ok a b :
  0 ≤ a < 64 → a ≤ b ≤ 64 → ∃ m, range_mask a b = Ret m ∧ is_mask m a b.
Proof.
  intros Ha Hb. unfold range_mask. rewrite !debug_assert_true by blia. cbn [obind].
  destruct (below_mask_ok b) as (m & -> & Hm); [lia|]. cbn [obind].
  rewrite low_mask_ok by lia. cbn [obind]. eexists. split; [done|].
  apply is_mask_land; [done|apply is_mask_low_complement; lia|lia..].
Qed.

Lemma first_word_mask_ok s :
  0 ≤ s → ∃ m, first_word_mask s = Ret m ∧ is_mask m (s mod 64) 64.
Proof.
  intros. unfold first_word_mask. change BITS_PER_WORD with 64.
  rewrite low_mask_ok by lia. cbn [obind]. eexists. split; [done|].
  apply is_mask_low_complement. lia.
Qed.

Lemma last_word_mask_ok l e :
  is_usize e → 0 ≤ l → l * 64 ≤ e ≤ l * 64 + 64 →
  ∃ m, last_word_mask l e = Ret m ∧ is_mask m 0 (e - l * 64).
Proof.
  intros. unfold last_word_mask. rewrite usz_mul_ok by blia. cbn [obind].
  rewrite usz_sub_ok by blia. cbn [obind].
  change (l * BITS_PER_WORD) with (l * 64). apply below_mask_ok. lia.
Qed.

Lemma word_has_ok bm i m a b :
  bitmap_wf bm → 0 ≤ i < scan_words bm → is_mask m a b → 0 ≤ a → b ≤ 64 →
  ∃ r, word_has bm i m = Ret r ∧
    (r = true ↔ ∀ s, i * 64 + a ≤ s < i * 64 + b → bit bm s = true).
Proof.
  intros Hwf Hi Hm Ha Hb. destruct (wf_lookup bm i Hwf Hi) as (w & Hw & Hu).
  unfold word_has. rewrite (index_Some _ _ _ Hw). cbn [obind]. eexists. split; [done|].
  rewrite (land_eqb_mask w m a b) by done. split.
  - intros Hall s Hs. replace s with (i * 64 + (s - i * 64)) by lia.
    erewrite bit_word by (done || lia). apply Hall. lia.
  - intros Hall c Hc. rewrite <- (bit_word bm i c w) by (done || lia). apply Hall. lia.
Qed.

Lemma words_full_ok bm ws :
  bitmap_wf bm → Forall (λ i, 0 ≤ i < scan_words bm) ws →
  ∃ r, words_full bm ws = Ret r ∧ (r = true ↔ ∀ s, 0 ≤ s → s / 64 ∈ ws → bit bm s = true).
Proof.
  intros Hwf Hws. induction Hws as [|i ws Hi Hws (r & IH & Hr)]; cbn [words_full].
  { exists true. split; [done|]. split; [by intros _ s _ ?%not_elem_of_nil|done]. }
  destruct (wf_lookup bm i Hwf Hi) as (w & Hw & Hu). rewrite (index_Some _ _ _ Hw). cbn [obind].
  destruct (Z.eqb_spec w usize_MAX) as [->|Hne]; simpl.
  - exists r. split; [done|]. rewrite Hr. split; intros Hall s Hs Hin.
    + apply elem_of_cons in Hin as [Hin|Hin]; [|by apply Hall].
      rewrite (bit_slot bm s usize_MAX) by (by rewrite Hin).
      rewrite testbit_usize_MAX by lia. apply bool_decide_true. lia.
    + apply Hall; [done|by right].
  - exists false. split; [done|]. split; [done|]. intros Hall. exfalso. apply Hne.
    apply usize_bits_inj; [done|blia|]. intros c Hc. rewrite testbit_usize_MAX, bool_decide_true by lia.
    rewrite <- (bit_word bm i c w) by (done || lia). apply Hall; [lia|].
    replace ((i * 64 + c) / 64) with i by lia. by left.
Qed.

(** The first and the last word of a non-empty range. *)
Lemma range_words bm s e :
  bitmap_wf bm → 0 ≤ s < e → e ≤ slot_count bm →
  usz_sub e 1 = Ret (e - 1) ∧ 0 ≤ s / 64 ≤ (e - 1) / 64 ∧ (e - 1) / 64 < scan_words bm ∧ is_usize e.
Proof.
  intros Hwf Hs He. pose proof (wf_count _ Hwf). pose proof (wf_count_usize _ Hwf).
  split_and!; [apply usz_sub_ok; blia|lia..|blia|blia].
Qed.

Lemma all_set_in_range_ok bm s e :
  bitmap_wf bm → 0 ≤ s ≤ e → e ≤ slot_count bm →
  ∃ r, all_set_in_range bm s e = Ret r ∧ (r = true ↔ ∀ x, s ≤ x < e → bit bm x = true).
Proof.
  intros Hwf Hs He. unfold all_set_in_range. rewrite !debug_assert_true by lia. cbn [obind].
  destruct (Z.eqb_spec s e) as [->|Hne].
  { exists true. split; [done|]. split; [intros _ x; lia|done]. }
  destruct (range_words bm s e) as (-> & Hr & Hl & Hu); [done|lia..|].
  cbn [obind]. change BITS_PER_WORD with 64. pose proof (wf_scan_pos _ Hwf).
  destruct (Z.eqb_spec (s / 64) ((e - 1) / 64)) as [Heq|Hneq].
  - rewrite usz_mul_ok by blia. cbn [obind]. rewrite usz_sub_ok by blia. cbn [obind].
    destruct (range_mask_ok (s mod 64) (e - s / 64 * 64)) as (m & -> & Hm); [lia..|].
    cbn [obind]. destruct (word_has_ok bm (s / 64) m _ _ Hwf ltac:(lia) Hm) as (r & -> & Hr'); [lia..|].
    exists r. split; [done|]. rewrite Hr'. by apply forall_proper; intros x; split; intros Hx ?; apply Hx; lia.
  - destruct (first_word_mask_ok s) as (m & -> & Hm); [lia|]. cbn [obind].
    destruct (word_has_ok bm (s / 64) m _ _ Hwf ltac:(lia) Hm) as (r1 & -> & Hr1); [lia..|].
    cbn [obind]. destruct (words_full_ok bm (seqZ (s / 64 + 1) ((e - 1) / 64 - (s / 64 + 1))) Hwf)
      as (r2 & Heq2 & Hr2); [apply Forall_seqZ; lia|].
    destruct (last_word_mask_ok ((e - 1) / 64) e Hu) as (m' & Heq3 & Hm'); [lia..|].
    destruct (word_has_ok bm ((e - 1) / 64) m' _ _ Hwf ltac:(lia) Hm') as (r3 & Heq4 & Hr3); [lia..|].
    exists (r1 && r2 && r3). rewrite Heq2, Heq3. cbn [obind]. rewrite Heq4.
    split; [by destruct r1, r2|]. rewrite !andb_true_iff, Hr1, Hr2, Hr3. split.
    + intros [[H1 H2] H3] x Hx. destruct (decide (x / 64 = s / 64)); [apply H1; lia|].
      destruct (decide (x / 64 = (e - 1) / 64)); [apply H3; lia|].
      apply H2; [lia|]. apply elem_of_seqZ. lia.
    + intros Hall. split_and!; intros x; [|intros ? ?%elem_of_seqZ|]; intros; apply Hall; lia.
Qed.

Lemma or_word_ok bm i m a b :
  bitmap_wf bm → 0 ≤ i < scan_words bm → is_mask m a b → 0 ≤ a → b ≤ 64 →
  i * 64 + b ≤ slot_count bm →
  ∃ bm', or_word bm i m = Ret bm' ∧
    bits_are bm bm' (λ s, bit bm s || bool_decide (i * 64 + a ≤ s < i * 64 + b)).
Proof.
  intros Hwf Hi [Hmu Hm] Ha Hb Hcnt. destruct (wf_lookup bm i Hwf Hi) as (w & Hw & Hu).
  unfold or_word. rewrite (index_Some _ _ _ Hw). cbn [obind]. eexists. split; [done|].
  eapply set_word_bits; [done..| | | |].
  - by apply lor_range.
  - intros c Hc. rewrite Z.lor_spec, Hm by done. f_equal.
    + symmetry. eapply bit_word; done || lia.
    + apply bool_decide_ext. lia.
  - intros s Hs Hne. rewrite bool_decide_false by lia. apply orb_false_r.
  - intros s Hs [?|?%bool_decide_eq_true]%orb_true_iff; [by apply bit_lt_count|lia].
Qed.
End ranges.

Section set_range.
Context {P : Profile}.

Lemma bits_are_trans bm bm1 bm2 f g :
  bits_are bm bm1 f → bits_are bm1 bm2 (λ s, bit bm1 s || g s) →
  bits_are bm bm2 (λ s, f s || g s).
Proof.
  intros (? & Hc1 & Hb1) (? & Hc2 & Hb2). split_and!; [done|by rewrite Hc2|].
  intros s Hs. by rewrite Hb2, Hb1.
Qed.

Lemma bits_are_ext bm bm' f g :
  (∀ s, 0 ≤ s → f s = g s) → bits_are bm bm' f → bits_are bm bm' g.
Proof. intros Hfg (? & ? & Hb). split_and!; [done..|]. intros. by rewrite Hb, Hfg. Qed.

(** A bitmap has as many words as its slots need. *)
Lemma bits_are_word_range bm bm' f i :
  bits_are bm bm' f → 0 ≤ i → (i + 1) * 64 ≤ slot_count bm → 0 ≤ i < scan_words bm'.
Proof. intros (Hwf & Hc & _) Hi Hcnt. pose proof (wf_count _ Hwf). lia. Qed.

Lemma or_full_words_ok bm ws :
  bitmap_wf bm → Forall (λ i, 0 ≤ i ∧ (i + 1) * 64 ≤ slot_count bm) ws →
  ∃ bm', ofoldM (λ bm w, or_word bm w usize_MAX) bm ws = Ret bm' ∧
    bits_are bm bm' (λ s, bit bm s || bool_decide (s / 64 ∈ ws)).
Proof.
  intros Hwf Hws. revert bm Hwf Hws. induction ws as [|i ws IH]; intros bm Hwf Hws.
  { exists bm. split; [done|]. split_and!; [done..|]. intros s Hs.
    rewrite bool_decide_false by apply not_elem_of_nil. by rewrite orb_false_r. }
  apply Forall_cons in Hws as [[Hi Hcnt] Hws]. pose proof (wf_count _ Hwf). cbn [ofoldM].
  destruct (or_word_ok bm i usize_MAX 0 64 Hwf) as (bm1 & -> & Hb1);
    [lia|apply is_mask_full|lia..|]. cbn [obind].
  pose proof Hb1 as (Hwf1 & Hc1 & _).
  destruct (IH bm1 Hwf1) as (bm2 & -> & Hb2); [by rewrite Hc1|].
  exists bm2. split; [done|]. eapply bits_are_ext; [|eapply bits_are_trans; [exact Hb1|exact Hb2]].
  intros s Hs. simpl. rewrite <- orb_assoc. f_equal. rewrite <- bool_decide_or.
  apply bool_decide_ext. rewrite elem_of_cons. by assert (i * 64 + 0 ≤ s < i * 64 + 64 ↔ s / 64 = i) as -> by lia.
Qed.

Lemma set_range_ok bm s e :
  bitmap_wf bm → 0 ≤ s ≤ e → e ≤ slot_count bm →
  ∃ bm', set_range bm s e = Ret bm' ∧
    bits_are bm bm' (λ x, bit bm x || bool_decide (s ≤ x < e)).
Proof.
  intros Hwf Hs He. unfold set_range. rewrite !debug_assert_true by lia. cbn [obind].
  destruct (Z.eqb_spec s e) as [->|Hne].
  { exists bm. split; [done|]. split_and!; [done..|]. intros x Hx.
    rewrite bool_decide_false by lia. by rewrite orb_false_r. }
  destruct (range_words bm s e) as (-> & Hr & Hl & Hu); [done|lia..|].
  cbn [obind]. change BITS_PER_WORD with 64. pose proof (wf_scan_pos _ Hwf).
  destruct (Z.eqb_spec (s / 64) ((e - 1) / 64)) as [Heq|Hneq].
  - rewrite usz_mul_ok by blia. cbn [obind]. rewrite usz_sub_ok by blia. cbn [obind].
    destruct (range_mask_ok (s mod 64) (e - s / 64 * 64)) as (m & -> & Hm); [lia..|].
    cbn [obind]. destruct (or_word_ok bm (s / 64) m _ _ Hwf ltac:(lia) Hm) as (bm' & -> & Hb); [lia..|].
    exists bm'. split; [done|]. eapply bits_are_ext, Hb.
    intros x Hx. simpl. f_equal. apply bool_decide_ext. lia.
  - destruct (first_word_mask_ok s) as (m & -> & Hm); [lia|]. cbn [obind].
    destruct (or_word_ok bm (s / 64) m _ _ Hwf ltac:(lia) Hm) as (bm1 & -> & Hb1); [lia..|].
    cbn [obind]. pose proof Hb1 as (Hwf1 & Hc1 & _).
    destruct (or_full_words_ok bm1 (seqZ (s / 64 + 1) ((e - 1) / 64 - (s / 64 + 1))) Hwf1)
      as (bm2 & -> & Hb2); [apply Forall_seqZ; rewrite Hc1; lia|].
    cbn [obind]. pose proof (bits_are_trans _ _ _ _ _ Hb1 Hb2) as Hb12. clear Hb1 Hb2.
    destruct (last_word_mask_ok ((e - 1) / 64) e Hu) as (m' & -> & Hm'); [lia..|]. cbn [obind].
    pose proof Hb12 as (Hwf2 & Hc2 & _). pose proof (wf_count _ Hwf2).
    destruct (or_word_ok bm2 ((e - 1) / 64) m' _ _ Hwf2 ltac:(lia) Hm') as (bm3 & -> & Hb3); [lia..|].
    exists bm3. split; [done|]. eapply bits_are_ext; [|eapply bits_are_trans; [exact Hb12|exact Hb3]].
    intros x Hx. simpl. rewrite <- !orb_assoc. f_equal. rewrite <- !bool_decide_or.
    apply bool_decide_ext. rewrite elem_of_seqZ. lia.
Qed.
End set_range.
