(* ===== verification/BitmapSpec.v ===== *)
(** * [src/bitmap.rs]: the contract of [AtomicBitmap]

    What the arenas rely on: a finite set of free slots.  Each method is an
    abstract operation on that set; the concrete methods refine it, over any
    sequence of calls whose arguments respect the documented preconditions. *)

From stdpp Require Import prelude numbers list gmap.
From S2P Require Import Prelude Usize Bitmap BitmapRange.
Local Open Scope Z_scope.

Inductive bitmap_op :=
| OpTryAlloc
| OpFree (s : Z)
| OpTryClaimExact (s : Z)
| OpIsFree (s : Z)
| OpAnyFree
| OpFreeCount
| OpAllSetInRange (a b : Z)
| OpSetRange (a b : Z).

Inductive bitmap_res :=
| RSlot (r : option Z)
| RUnit
| RBool (b : bool)
| RCount (n : Z).

(** ** Abstract operations on the set of free slots *)

Inductive slots_step (n : Z) (F : gset Z) : bitmap_op → bitmap_res → gset Z → Prop :=
| S_alloc_some s :
    s ∈ F → slots_step n F OpTryAlloc (RSlot (Some s)) (F ∖ {[s]})
| S_alloc_none :
    F = ∅ → slots_step n F OpTryAlloc (RSlot None) ∅
| S_free s :
    slots_step n F (OpFree s) RUnit ({[s]} ∪ F)
| S_claim s :
    slots_step n F (OpTryClaimExact s) (RBool (bool_decide (s ∈ F))) (F ∖ {[s]})
| S_is_free s :
    slots_step n F (OpIsFree s) (RBool (bool_decide (s ∈ F))) F
| S_any_free :
    slots_step n F OpAnyFree (RBool (bool_decide (F ≠ ∅))) F
| S_count :
    slots_step n F OpFreeCount (RCount (Z.of_nat (size F))) F
| S_all_set a b r :
    (r = true ↔ ∀ s, a ≤ s < b → s ∈ F) → slots_step n F (OpAllSetInRange a b) (RBool r) F
| S_set_range a b :
    slots_step n F (OpSetRange a b) RUnit (F ∪ list_to_set (seqZ a (b - a))).

(** The callers' obligations: arguments in range, and no double free. *)
Definition op_pre (n : Z) (F : gset Z) (op : bitmap_op) : Prop :=
  match op with
  | OpTryAlloc | OpAnyFree | OpFreeCount => True
  | OpFree s => 0 ≤ s < n ∧ s ∉ F
  | OpTryClaimExact s | OpIsFree s => 0 ≤ s < n
  | OpAllSetInRange a b | OpSetRange a b => 0 ≤ a ≤ b ∧ b ≤ n
  end.

(** ** The concrete methods, dispatched *)

Definition exec_op {P : Profile} (bm : AtomicBitmap) (op : bitmap_op)
    : outcome (bitmap_res * AtomicBitmap) :=
  match op with
  | OpTryAlloc => let! (r, bm') := try_alloc bm in Ret (RSlot r, bm')
  | OpFree s => let! bm' := bitmap_free bm s in Ret (RUnit, bm')
  | OpTryClaimExact s => let! (b, bm') := try_claim_exact bm s in Ret (RBool b, bm')
  | OpIsFree s => let! b := is_free bm s in Ret (RBool b, bm)
  | OpAnyFree => let! b := any_free bm in Ret (RBool b, bm)
  | OpFreeCount => let! n := free_count bm in Ret (RCount n, bm)
  | OpAllSetInRange a b => let! r := all_set_in_range bm a b in Ret (RBool r, bm)
  | OpSetRange a b => let! bm' := set_range bm a b in Ret (RUnit, bm')
  end.

(** The set a bitmap stands for. *)
Definition free_set (bm : AtomicBitmap) : gset Z := list_to_set (free_slots bm).

(** ** Refinement *)

Lemma elem_of_free_set bm s : s ∈ free_set bm ↔ 0 ≤ s < slot_count bm ∧ bit bm s = true.
Proof.
  unfold free_set, free_slots. rewrite elem_of_list_to_set, list_elem_of_filter, elem_of_seqZ.
  rewrite Z.add_0_l. tauto.
Qed.

Lemma size_free_set bm : size (free_set bm) = length (free_slots bm).
Proof.
  unfold free_set. rewrite size_list_to_set; [done|]. apply NoDup_filter, NoDup_seqZ.
Qed.

(** Two bitmaps related by [bits_are] stand for sets related slot by slot. *)
Lemma free_set_bits bm bm' f F :
  bitmap_wf bm → bits_are bm bm' f →
  (∀ s, 0 ≤ s < slot_count bm → f s = true ↔ s ∈ F) → (∀ s, s ∈ F → 0 ≤ s < slot_count bm) →
  free_set bm' = F.
Proof.
  intros Hwf (Hwf' & Hc & Hb) Hf HF. apply set_eq. intros s.
  rewrite elem_of_free_set, Hc. split.
  - intros [Hs Hbit]. rewrite Hb in Hbit by lia. by apply Hf.
  - intros Hs. pose proof (HF s Hs). split; [done|]. rewrite Hb by lia. by apply Hf.
Qed.

Lemma not_elem_of_free_set bm s :
  bitmap_wf bm → 0 ≤ s < slot_count bm → s ∉ free_set bm → bit bm s = false.
Proof.
  intros Hwf Hs Hni. apply not_true_is_false. intros Ht. apply Hni.
  by apply elem_of_free_set.
Qed.

Lemma bit_free_set bm s :
  bitmap_wf bm → 0 ≤ s < slot_count bm → bit bm s = bool_decide (s ∈ free_set bm).
Proof.
  intros Hwf Hs. apply eq_true_iff_eq. rewrite bool_decide_eq_true, elem_of_free_set. tauto.
Qed.

Section refinement.
Context {P : Profile}.

(** The call of [op] on [bm] returns, and its effect is an abstract step. *)
Definition op_refines (bm : AtomicBitmap) (op : bitmap_op) : Prop :=
  ∃ r bm', exec_op bm op = Ret (r, bm') ∧ bitmap_wf bm' ∧ slot_count bm' = slot_count bm ∧
    slots_step (slot_count bm) (free_set bm) op r (free_set bm').

Lemma op_refines_intro bm op r bm' f F :
  bitmap_wf bm → exec_op bm op = Ret (r, bm') → bits_are bm bm' f →
  (∀ s, 0 ≤ s < slot_count bm → f s = true ↔ s ∈ F) → (∀ s, s ∈ F → 0 ≤ s < slot_count bm) →
  slots_step (slot_count bm) (free_set bm) op r F → op_refines bm op.
Proof.
  intros Hwf Hex Hb Hf HF Hstep. exists r, bm'. pose proof Hb as (? & ? & _).
  split_and!; [done..|]. by rewrite (free_set_bits bm bm' f F).
Qed.

Lemma op_refines_query bm op r :
  bitmap_wf bm → exec_op bm op = Ret (r, bm) →
  slots_step (slot_count bm) (free_set bm) op r (free_set bm) → op_refines bm op.
Proof. intros Hwf Hex Hstep. exists r, bm. by split_and!. Qed.

(** The bits left by a claim of [s] stand for the set without [s]. *)
Lemma claim_bits_set bm s s' :
  0 ≤ s' < slot_count bm →
  bit bm s' && negb (bool_decide (s = s')) = true ↔ s' ∈ free_set bm ∖ {[s]}.
Proof.
  intros Hs'. rewrite andb_true_iff, negb_true_iff, bool_decide_eq_false.
  rewrite elem_of_difference, elem_of_free_set, elem_of_singleton. intuition congruence.
Qed.

Lemma free_set_subset_range bm X s : s ∈ free_set bm ∖ X → 0 ≤ s < slot_count bm.
Proof. intros [Hs _]%elem_of_difference. by apply elem_of_free_set in Hs as []. Qed.

Lemma no_free_set bm : (∀ s, 0 ≤ s → bit bm s = false) → free_set bm = ∅.
Proof.
  intros Hnone. apply set_eq. intros s. rewrite elem_of_free_set.
  split; [|by intros ?%elem_of_empty]. intros [? Ht]. rewrite Hnone in Ht by lia. done.
Qed.

Lemma try_alloc_refines bm : bitmap_wf bm → op_refines bm OpTryAlloc.
Proof.
  intros Hwf.
  destruct (try_alloc_ok bm Hwf) as [(s & bm' & Hex & Hs & Hbit & Hb)|(bm' & Hex & Hb & Hnone)].
  - eapply (op_refines_intro _ _ (RSlot (Some s)) bm' _ (free_set bm ∖ {[s]})); [done| |exact Hb|..].
    + simpl. by rewrite Hex.
    + intros. by apply claim_bits_set.
    + intros ?. apply free_set_subset_range.
    + constructor. by apply elem_of_free_set.
  - eapply (op_refines_intro _ _ (RSlot None) bm' _ ∅); [done| |exact Hb|..].
    + simpl. by rewrite Hex.
    + intros s Hs. rewrite Hnone by lia. split; [done|by intros ?%elem_of_empty].
    + by intros ? ?%elem_of_empty.
    + constructor. by apply no_free_set.
Qed.

Lemma free_refines bm s :
  bitmap_wf bm → 0 ≤ s < slot_count bm → s ∉ free_set bm → op_refines bm (OpFree s).
Proof.
  intros Hwf Hs Hni.
  destruct (bitmap_free_ok bm s Hwf Hs) as (bm' & Hex & Hb); [by apply not_elem_of_free_set|].
  eapply (op_refines_intro _ _ RUnit bm' _ ({[s]} ∪ free_set bm)); [done| |exact Hb|..|constructor].
  - simpl. by rewrite Hex.
  - intros s' Hs'. rewrite orb_true_iff, bool_decide_eq_true, elem_of_union, elem_of_free_set,
      elem_of_singleton. intuition congruence.
  - intros s' [->%elem_of_singleton|[? _]%elem_of_free_set]%elem_of_union; done.
Qed.

Lemma claim_exact_refines bm s :
  bitmap_wf bm → 0 ≤ s < slot_count bm → op_refines bm (OpTryClaimExact s).
Proof.
  intros Hwf Hs. destruct (try_claim_exact_ok bm s Hwf Hs) as (bm' & Hex & Hb).
  eapply (op_refines_intro _ _ _ bm' _ (free_set bm ∖ {[s]})); [done| |exact Hb|..|constructor].
  - simpl. rewrite Hex. by rewrite (bit_free_set bm s).
  - intros. by apply claim_bits_set.
  - intros ?. apply free_set_subset_range.
Qed.

Lemma any_free_refines bm : bitmap_wf bm → op_refines bm OpAnyFree.
Proof.
  intros Hwf. destruct (any_free_ok bm Hwf) as (b & Hex & Hb).
  apply (op_refines_query _ _ (RBool (bool_decide (free_set bm ≠ ∅)))); [done| |constructor].
  simpl. rewrite Hex. cbn [obind]. do 3 f_equal.
  apply eq_true_iff_eq. rewrite bool_decide_eq_true, Hb. split.
  - intros (s & Hs) HF. apply elem_of_free_set in Hs. rewrite HF in Hs. by apply elem_of_empty in Hs.
  - intros (s & Hs)%set_choose_L. exists s. by apply elem_of_free_set.
Qed.

Lemma all_set_refines bm a b :
  bitmap_wf bm → 0 ≤ a ≤ b → b ≤ slot_count bm → op_refines bm (OpAllSetInRange a b).
Proof.
  intros Hwf ??. destruct (all_set_in_range_ok bm a b Hwf) as (r & Hex & Hr); [lia..|].
  apply (op_refines_query _ _ (RBool r)); [done|simpl; by rewrite Hex|].
  constructor. rewrite Hr.
  split; intros Hall s Hs; [apply elem_of_free_set; split; [lia|]|apply elem_of_free_set]; by apply Hall.
Qed.

Lemma set_range_refines bm a b :
  bitmap_wf bm → 0 ≤ a ≤ b → b ≤ slot_count bm → op_refines bm (OpSetRange a b).
Proof.
  intros Hwf ??. destruct (set_range_ok bm a b Hwf) as (bm' & Hex & Hb); [lia..|].
  eapply (op_refines_intro _ _ RUnit bm' _ (free_set bm ∪ list_to_set (seqZ a (b - a))));
    [done| |exact Hb|..|constructor].
  - simpl. by rewrite Hex.
  - intros s Hs. rewrite orb_true_iff, bool_decide_eq_true, elem_of_union, elem_of_free_set,
      elem_of_list_to_set, elem_of_seqZ. split; [intros [|]; [by left|right; lia]|].
    intros [[]|]; [by left|right; lia].
  - intros s [[? _]%elem_of_free_set|Hs]%elem_of_union; [done|].
    rewrite elem_of_list_to_set, elem_of_seqZ in Hs. lia.
Qed.

Lemma exec_op_refines bm op :
  bitmap_wf bm → op_pre (slot_count bm) (free_set bm) op → op_refines bm op.
Proof.
  intros Hwf Hpre. destruct op as [|s|s|s| | |a b|a b]; simpl in Hpre.
  - by apply try_alloc_refines.
  - destruct Hpre. by apply free_refines.
  - by apply claim_exact_refines.
  - apply (op_refines_query _ _ (RBool (bool_decide (s ∈ free_set bm)))); [done| |constructor].
    simpl. by rewrite is_free_ok, (bit_free_set bm s).
  - by apply any_free_refines.
  - apply (op_refines_query _ _ (RCount (Z.of_nat (size (free_set bm))))); [done| |constructor].
    simpl. rewrite size_free_set. by rewrite free_count_ok.
  - destruct Hpre. by apply all_set_refines.
  - destruct Hpre. by apply set_range_refines.
Qed.
End refinement.
