(* ===== verification/BitmapConc.v ===== *)
(** * [src/bitmap.rs]: concurrent claims and releases

    [try_alloc], [try_claim_exact] and [free] as sequences of atomic accesses,
    interleaved at will between any number of threads.  One event is one
    atomic access (with the thread-local code up to the next one).  The
    [Relaxed] scan load may return a stale value: the event carries the value
    read and nothing ties it to the current word, so what is proved here does
    not depend on the load being fresh.  Read-modify-write accesses act on the
    latest value, as the memory model guarantees for every ordering. *)

From stdpp Require Import prelude numbers list gmap.
From S2P Require Import Prelude Usize Bitmap BitmapRange.
Local Open Scope Z_scope.

(** Where a thread is inside [try_alloc]: outside; at the load of iteration
    [i] of the scan; between a load that returned [bits] and its [fetch_and]. *)
Inductive thread_pc :=
| Idle
| AtLoad (start i : Z)
| AtFetchAnd (start i bits : Z).

(** [held] lists the slots handed out and not yet given back; nothing in the
    semantics stops a slot from being listed twice. *)
Record conc := mkConc {
  shared : AtomicBitmap;
  threads : gmap nat thread_pc;
  held : list Z;
}.

Inductive event :=
| BeginAlloc (t : nat)
| ScanLoad (t : nat) (bits : Z)
| ScanEnd (t : nat)
| FetchAnd (t : nat)
| FreeSlot (s : Z)
| ClaimExact (s : Z).

Definition pc_of (c : conc) (t : nat) : thread_pc := default Idle (threads c !! t).

Definition goto (c : conc) (t : nat) (pc : thread_pc) : conc :=
  mkConc (shared c) (<[t := pc]> (threads c)) (held c).

(** One event: [Ret None] when the event is not enabled, [Panic] when the code
    panics. *)
Definition exec_event {P : Profile} (c : conc) (e : event) : outcome (option conc) :=
  let bm := shared c in
  match e with
  | BeginAlloc t =>
      match pc_of c t with
      | Idle =>
          if slot_count bm =? 0 then Ret (Some c)
          else
            let start := Z.land (cursor bm) (word_mask bm) in
            Ret (Some (mkConc (set_cursor bm (wrap (cursor bm + 1)))
                         (<[t := AtLoad start 0]> (threads c)) (held c)))
      | _ => Ret None
      end
  | ScanLoad t bits =>
      match pc_of c t with
      | AtLoad start i =>
          if (i <? scan_words bm) && (0 <=? bits) && (bits <=? usize_MAX) then
            let! s := usz_add start i in
            let word_idx := Z.land s (word_mask bm) in
            let! _ := usz_mul word_idx BITS_PER_WORD in
            let! _ := index (words bm) word_idx in
            Ret (Some (goto c t (if bits =? 0 then AtLoad start (i + 1)
                                 else AtFetchAnd start i bits)))
          else Ret None
      | _ => Ret None
      end
  | ScanEnd t =>
      match pc_of c t with
      | AtLoad start i => Ret (if scan_words bm <=? i then Some (goto c t Idle) else None)
      | _ => Ret None
      end
  | FetchAnd t =>
      match pc_of c t with
      | AtFetchAnd start i bits =>
          let! s := usz_add start i in
          let word_idx := Z.land s (word_mask bm) in
          let! base := usz_mul word_idx BITS_PER_WORD in
          let bit := trailing_zeros bits in
          let! mask := usz_shl 1 bit in
          let! prev := index (words bm) word_idx in
          let bm' := set_word bm word_idx (Z.land prev (unot mask)) in
          if negb (Z.land prev mask =? 0) then
            let! slot := usz_add base bit in
            Ret (Some (mkConc bm' (<[t := Idle]> (threads c)) (slot :: held c)))
          else Ret (Some (mkConc bm' (<[t := AtLoad start i]> (threads c)) (held c)))
      | _ => Ret None
      end
  | FreeSlot s =>
      match remove_one s (held c) with
      | Some held' =>
          let! bm' := bitmap_free bm s in
          Ret (Some (mkConc bm' (threads c) held'))
      | None => Ret None
      end
  | ClaimExact s =>
      if (0 <=? s) && (s <? slot_count bm) then
        let! (b, bm') := try_claim_exact bm s in
        Ret (Some (mkConc bm' (threads c) (if b then s :: held c else held c)))
      else Ret None
  end.

Definition conc_step {P : Profile} (c c' : conc) : Prop :=
  ∃ e, exec_event c e = Ret (Some c').

(** A run of a list of events, [None] when some event is not enabled. *)
Fixpoint exec_events {P : Profile} (c : conc) (es : list event) : outcome (option conc) :=
  match es with
  | [] => Ret (Some c)
  | e :: es' =>
      let! r := exec_event c e in
      match r with
      | Some c' => exec_events c' es'
      | None => Ret None
      end
  end.

Definition conc_init {P : Profile} (n : Z) : outcome conc :=
  let! bm := bitmap_new n in
  Ret (mkConc bm ∅ []).

(** ** Invariant *)

Definition pc_ok (n : Z) (pc : thread_pc) : Prop :=
  match pc with
  | Idle => True
  | AtLoad start i => 0 ≤ start < n ∧ 0 ≤ i ≤ n
  | AtFetchAnd start i bits => 0 ≤ start < n ∧ 0 ≤ i < n ∧ is_usize bits ∧ bits ≠ 0
  end.

Record conc_inv (n : Z) (c : conc) : Prop := {
  ci_wf : bitmap_wf (shared c);
  ci_count : slot_count (shared c) = n;
  ci_nodup : NoDup (held c);
  ci_range : Forall (λ s, 0 ≤ s < n) (held c);
  ci_exact : ∀ s, 0 ≤ s < n → bit (shared c) s = true ↔ s ∉ held c;
  ci_pcs : map_Forall (λ _ pc, pc_ok (scan_words (shared c)) pc) (threads c);
}.

Lemma pc_of_ok n c t : conc_inv n c → pc_ok (scan_words (shared c)) (pc_of c t).
Proof.
  intros Hinv. unfold pc_of. destruct (threads c !! t) eqn:E; simpl; [|done].
  by apply (ci_pcs _ _ Hinv) in E.
Qed.

Section steps.
Context {P : Profile}.

Lemma bitmap_free_scan_words bm s bm' :
  bitmap_free bm s = Ret bm' → scan_words bm' = scan_words bm.
Proof. unfold bitmap_free. intros. by outcome_inv. Qed.

Lemma try_claim_exact_scan_words bm s b bm' :
  try_claim_exact bm s = Ret (b, bm') → scan_words bm' = scan_words bm.
Proof. unfold try_claim_exact. intros. by outcome_inv. Qed.

(** Taking slot [s]: a claim adds to [held] a slot that was not there. *)
Lemma claim_inv n c s bm' ts :
  conc_inv n c → claimed (shared c) s bm' → scan_words bm' = scan_words (shared c) →
  map_Forall (λ _ pc, pc_ok (scan_words (shared c)) pc) ts →
  conc_inv n (mkConc bm' ts (s :: held c)).
Proof.
  intros [Hwf Hc Hnd Hr Hex _] (Hs & Hbit & Hwf' & Hc' & Hb') Hsw Hts.
  rewrite Hc in Hs. split; simpl.
  - done.
  - by rewrite Hc'.
  - constructor; [by apply Hex|done].
  - by constructor.
  - intros s' Hs'. rewrite Hb', andb_true_iff, Hex, not_elem_of_cons by lia.
    rewrite negb_true_iff, bool_decide_eq_false. intuition congruence.
  - by rewrite Hsw.
Qed.

(** An access that leaves every bit as it was. *)
Lemma same_bits_inv n c bm' ts :
  conc_inv n c → bitmap_wf bm' → slot_count bm' = n → scan_words bm' = scan_words (shared c) →
  (∀ s, 0 ≤ s → bit bm' s = bit (shared c) s) →
  map_Forall (λ _ pc, pc_ok (scan_words (shared c)) pc) ts →
  conc_inv n (mkConc bm' ts (held c)).
Proof.
  intros [Hwf Hc Hnd Hr Hex _] Hwf' Hc' Hsw Hb' Hts. split; simpl; try done.
  - intros s Hs. rewrite Hb' by lia. by apply Hex.
  - by rewrite Hsw.
Qed.

(** The word and masks that iteration [i] of a scan works on. *)
Lemma scan_word n c start i :
  conc_inv n c → 0 ≤ start < scan_words (shared c) → 0 ≤ i < scan_words (shared c) →
  let idx := (start + i) mod scan_words (shared c) in
  usz_add start i = Ret (start + i) ∧ Z.land (start + i) (word_mask (shared c)) = idx ∧
  usz_mul idx BITS_PER_WORD = Ret (idx * 64) ∧ 0 ≤ idx < scan_words (shared c) ∧
  ∃ w, index (words (shared c)) idx = Ret w ∧ words (shared c) !! Z.to_nat idx = Some w ∧ is_usize w.
Proof.
  intros Hinv Hst Hi idx. pose proof (ci_wf _ _ Hinv) as Hwf. pose proof (wf_scan_pos _ Hwf).
  assert (0 ≤ idx < scan_words (shared c)) by (apply Z.mod_pos_bound; lia).
  destruct (wf_lookup _ idx Hwf ltac:(done)) as (w & Hw & Hu).
  split_and!; [apply usz_add_ok; blia|apply land_word_mask; done || lia
    |apply usz_mul_ok; blia|lia|lia|].
  exists w. split; [by apply index_Some|by split].
Qed.

(** Every event either is not enabled or runs without panicking to a state
    that satisfies the invariant. *)
Lemma begin_alloc_inv n c t :
  conc_inv n c → ∃ r, exec_event c (BeginAlloc t) = Ret r ∧ ∀ c', r = Some c' → conc_inv n c'.
Proof.
  intros Hinv. pose proof (ci_wf _ _ Hinv) as Hwf. simpl.
  destruct (pc_of c t); [|by eexists..].
  destruct (Z.eqb_spec (slot_count (shared c)) 0); [eexists; split; [done|]; by intros ? [= <-]|].
  eexists. split; [done|]. intros c' [= <-]. pose proof (wf_scan_pos _ Hwf).
  apply same_bits_inv; try done.
  - apply set_cursor_wf; [done|apply wrap_range].
  - by rewrite <- (ci_count _ _ Hinv).
  - apply map_Forall_insert_2, (ci_pcs _ _ Hinv). simpl.
    pose proof (wf_cursor _ Hwf). rewrite land_word_mask by (done || blia).
    split; [apply Z.mod_pos_bound|]; lia.
Qed.

Lemma goto_inv n c t pc :
  conc_inv n c → pc_ok (scan_words (shared c)) pc → conc_inv n (goto c t pc).
Proof.
  intros Hinv Hpc. apply same_bits_inv; try done; [apply (ci_wf _ _ Hinv)|apply (ci_count _ _ Hinv)|].
  apply map_Forall_insert_2; [done|apply (ci_pcs _ _ Hinv)].
Qed.

Lemma scan_load_inv n c t bits :
  conc_inv n c → ∃ r, exec_event c (ScanLoad t bits) = Ret r ∧ ∀ c', r = Some c' → conc_inv n c'.
Proof.
  intros Hinv. pose proof (pc_of_ok n c t Hinv) as Hpc. simpl.
  destruct (pc_of c t) as [|start i|]; simpl in Hpc; [by eexists| |by eexists].
  destruct (_ && _) eqn:E; [|by eexists].
  rewrite !andb_true_iff, Z.ltb_lt, !Z.leb_le in E. destruct E as [[Hi ?] ?].
  destruct (scan_word n c start i Hinv) as (-> & Hidx & Hmul & Hr & w & Hw & _); [lia..|].
  cbn [obind]. rewrite Hidx, Hmul. cbn [obind]. rewrite Hw. cbn [obind].
  eexists. split; [done|]. intros c' [= <-]. apply goto_inv; [done|].
  destruct (Z.eqb_spec bits 0); simpl; [lia|]. split_and!; blia.
Qed.

Lemma scan_end_inv n c t :
  conc_inv n c → ∃ r, exec_event c (ScanEnd t) = Ret r ∧ ∀ c', r = Some c' → conc_inv n c'.
Proof.
  intros Hinv. simpl. destruct (pc_of c t); [by eexists| |by eexists].
  eexists. split; [done|]. intros c' Hc'. case_match; simplify_eq. by apply goto_inv.
Qed.

Lemma fetch_and_inv n c t :
  conc_inv n c → ∃ r, exec_event c (FetchAnd t) = Ret r ∧ ∀ c', r = Some c' → conc_inv n c'.
Proof.
  intros Hinv. pose proof (pc_of_ok n c t Hinv) as Hpc. simpl.
  destruct (pc_of c t) as [| |start i bits]; simpl in Hpc; [by eexists..|].
  destruct Hpc as (Hst & Hi & Hbu & Hb0). pose proof (ci_wf _ _ Hinv) as Hwf.
  pose proof (trailing_zeros_bound bits Hbu Hb0). pose proof (wf_scan_pos _ Hwf).
  destruct (scan_word n c start i Hinv Hst Hi) as (-> & Hidx & Hmul & Hr & w & Hw & Hlk & Hu).
  cbn [obind]. rewrite Hidx, Hmul. cbn [obind]. rewrite usz_shl_1 by lia. cbn [obind].
  rewrite Hw. cbn [obind]. rewrite land_pow2_eqb, negb_involutive by lia.
  set (idx := _ mod _) in *. destruct (Z.testbit w (trailing_zeros bits)) eqn:Ht.
  - rewrite usz_add_ok by blia. cbn [obind]. eexists. split; [done|]. intros c' [= <-].
    apply claim_inv; [done|by apply clear_bit_claimed|done|].
    by apply map_Forall_insert_2, (ci_pcs _ _ Hinv).
  - eexists. split; [done|]. intros c' [= <-].
    replace (Z.land w (unot (2 ^ trailing_zeros bits))) with w.
    { rewrite set_word_same by done. change (conc_inv n (goto c t (AtLoad start i))).
      apply goto_inv; [done|]. simpl. lia. }
    apply usize_bits_inj; [done|apply land_range, unot_range, pow2_is_usize; done|].
    intros b Hb. rewrite testbit_clear by lia.
    case_bool_decide; [subst; by rewrite Ht|by rewrite andb_true_r].
Qed.

Lemma free_slot_inv n c s :
  conc_inv n c → ∃ r, exec_event c (FreeSlot s) = Ret r ∧ ∀ c', r = Some c' → conc_inv n c'.
Proof.
  intros Hinv. simpl. destruct (remove_one s (held c)) as [h'|] eqn:E; [|by eexists].
  apply remove_one_perm in E. pose proof Hinv as [Hwf Hc Hnd Hr Hex Hpcs].
  rewrite E in Hnd, Hr. apply NoDup_cons in Hnd as [Hni Hnd]. apply Forall_cons in Hr as [Hs Hr].
  destruct (bitmap_free_ok (shared c) s Hwf) as (bm' & Hfree & Hwf' & Hc' & Hb').
  { by rewrite Hc. }
  { apply not_true_is_false. rewrite Hex by done. rewrite E. intros Hn. apply Hn. by left. }
  rewrite Hfree. cbn [obind]. eexists. split; [done|]. intros c' [= <-].
  apply bitmap_free_scan_words in Hfree. split; simpl; try done.
  - by rewrite Hc'.
  - intros s' Hs'. rewrite Hb', orb_true_iff, Hex, E, not_elem_of_cons, bool_decide_eq_true by lia.
    destruct (decide (s = s')) as [->|]; intuition congruence.
  - by rewrite Hfree.
Qed.

Lemma claim_exact_inv n c s :
  conc_inv n c → ∃ r, exec_event c (ClaimExact s) = Ret r ∧ ∀ c', r = Some c' → conc_inv n c'.
Proof.
  intros Hinv. simpl. destruct (_ && _) eqn:E; [|by eexists].
  rewrite andb_true_iff, Z.leb_le, Z.ltb_lt in E. pose proof (ci_wf _ _ Hinv) as Hwf.
  destruct (try_claim_exact_ok (shared c) s Hwf E) as (bm' & Hex & Hb).
  rewrite Hex. cbn [obind]. eexists. split; [done|]. intros c' [= <-].
  apply try_claim_exact_scan_words in Hex.
  destruct (bit (shared c) s) eqn:Hbit.
  - apply claim_inv; [done|by split_and!; [lia|lia| |]|done|apply (ci_pcs _ _ Hinv)].
  - destruct Hb as (Hwf' & Hc' & Hb'). apply same_bits_inv; try done.
    + by rewrite Hc', (ci_count _ _ Hinv).
    + intros s' Hs'. rewrite Hb' by done.
      case_bool_decide; [subst; by rewrite Hbit|by rewrite andb_true_r].
    + apply (ci_pcs _ _ Hinv).
Qed.

Lemma exec_event_inv n c e :
  conc_inv n c → ∃ r, exec_event c e = Ret r ∧ ∀ c', r = Some c' → conc_inv n c'.
Proof.
  destruct e; eauto using begin_alloc_inv, scan_load_inv, scan_end_inv, fetch_and_inv,
    free_slot_inv, claim_exact_inv.
Qed.

Lemma conc_init_inv n : is_usize n → ∃ c, conc_init n = Ret c ∧ conc_inv n c.
Proof.
  intros Hn. unfold conc_init. destruct (bitmap_new_ok n Hn) as (bm & -> & Hwf & Hc & Hb).
  cbn [obind]. eexists. split; [done|]. split; simpl; try done.
  - constructor.
  - intros s Hs. rewrite Hb, bool_decide_eq_true by lia. split; [intros _ []%not_elem_of_nil|lia].
Qed.

Lemma exec_events_inv n c es :
  conc_inv n c → ∃ r, exec_events c es = Ret r ∧ ∀ c', r = Some c' → conc_inv n c'.
Proof.
  revert c. induction es as [|e es IH]; intros c Hinv; simpl.
  { eexists. split; [done|]. by intros c' [= <-]. }
  destruct (exec_event_inv n c e Hinv) as ([c'|] & -> & Hc'); simpl; [|by eexists].
  by apply IH, Hc'.
Qed.

(** Free and held slots partition the slots. *)
Lemma conc_conservation n c :
  conc_inv n c → free_count (shared c) = Ret (n - Z.of_nat (length (held c))).
Proof.
  intros [Hwf Hc Hnd Hr Hex _]. rewrite free_count_ok by done. f_equal.
  assert (free_slots (shared c) ++ held c ≡ₚ seqZ 0 n) as Hp.
  { apply NoDup_Permutation.
    - apply NoDup_app. split_and!; [apply NoDup_filter, NoDup_seqZ| |done].
      intros s [Hb Hs]%list_elem_of_filter. rewrite Hc, elem_of_seqZ in Hs.
      apply Hex; [lia|done].
    - apply NoDup_seqZ.
    - intros s. unfold free_slots. rewrite elem_of_app, list_elem_of_filter, Hc, elem_of_seqZ.
      rewrite Forall_forall in Hr. split; [intros [[_ ?]|Hs]; [done|apply Hr in Hs; lia]|].
      intros Hs. destruct (decide (s ∈ held c)); [by right|left].
      split; [|done]. apply Hex; [lia|done]. }
  apply Permutation_length in Hp. rewrite length_app, length_seqZ in Hp.
  pose proof (wf_count _ Hwf). lia.
Qed.
End steps.

(** ** Properties *)

(** A run of the given events from a new bitmap of [n] slots. *)
Definition conc_run {P : Profile} (n : Z) (es : list event) : outcome (option conc) :=
  let! c := conc_init n in
  exec_events c es.

Lemma conc_run_inv {P : Profile} n es :
  is_usize n → ∃ r, conc_run n es = Ret r ∧ ∀ c, r = Some c → conc_inv n c.
Proof.
  intros Hn. unfold conc_run. destruct (conc_init_inv n Hn) as (c & -> & Hc). simpl.
  by apply exec_events_inv.
Qed.

Lemma conc_run_reach {P : Profile} n es c :
  is_usize n → conc_run n es = Ret (Some c) → conc_inv n c.
Proof.
  intros Hn Hrun. destruct (conc_run_inv n es Hn) as (r & Hr & Hinv). apply Hinv. congruence.
Qed.

Lemma exec_event_scan_words {P : Profile} c e c' :
  exec_event c e = Ret (Some c') → scan_words (shared c') = scan_words (shared c).
Proof.
  intros He.
  destruct e; simpl in He; repeat first [progress outcome_inv | case_match]; simpl;
    eauto using bitmap_free_scan_words, try_claim_exact_scan_words.
Qed.

Lemma exec_events_scan_words {P : Profile} c es c' :
  exec_events c es = Ret (Some c') → scan_words (shared c') = scan_words (shared c).
Proof.
  revert c. induction es as [|e es IH]; intros c He; simpl in He; outcome_inv; [done|].
  case_match; simplify_eq. rewrite (IH _ He). by eapply exec_event_scan_words.
Qed.

(** A free slot that is no longer free was claimed by an event in between. *)
Lemma lost_bit_claimed {P : Profile} n c es c' s :
  conc_inv n c → exec_events c es = Ret (Some c') → 0 ≤ s < n →
  bit (shared c) s = true → bit (shared c') s = false →
  ∃ es1 e es2 c1 c2, es = es1 ++ (e :: es2) ∧ exec_events c es1 = Ret (Some c1) ∧
    exec_event c1 e = Ret (Some c2) ∧ s ∉ held c1 ∧ s ∈ held c2.
Proof.
  revert c. induction es as [|e es IH]; intros c Hinv He Hs Hb Hb'; simpl in He; outcome_inv.
  { congruence. }
  destruct v as [c1|]; [|done].
  destruct (exec_event_inv n c e Hinv) as (r & Hr & Hinv1). rewrite Hs0 in Hr. simplify_eq.
  specialize (Hinv1 c1 eq_refl). destruct (bit (shared c1) s) eqn:Hb1.
  - destruct (IH c1) as (es1 & e' & es2 & d1 & d2 & -> & Hrun & Hrest); [done..|].
    exists (e :: es1), e', es2, d1, d2. split; [done|]. split; [|done].
    simpl. by rewrite Hs0.
  - exists [], e, es, c, c1. split_and!; [done..| |].
    + by apply (ci_exact _ _ Hinv).
    + destruct (decide (s ∈ held c1)) as [|Hni]; [done|].
      apply (ci_exact _ _ Hinv1) in Hni; [congruence|done].
Qed.
