(* ===== verification/BitmapClaims.v ===== *)
(** * What the arenas rely on of [AtomicBitmap] *)

From stdpp Require Import prelude numbers list gmap.
From S2P Require Import Prelude Usize Bitmap BitmapRange BitmapSpec BitmapConc.
Local Open Scope Z_scope.

#[export] Instance op_pre_dec n F op : Decision (op_pre n F op).
Proof. destruct op; simpl; apply _. Defined.

(** A sequence of calls; a call outside its documented preconditions is not
    made. *)
Fixpoint exec_ops {P : Profile} (bm : AtomicBitmap) (ops : list bitmap_op)
    : outcome (list (bitmap_op * bitmap_res) * AtomicBitmap) :=
  match ops with
  | [] => Ret ([], bm)
  | op :: ops' =>
      if decide (op_pre (slot_count bm) (free_set bm) op) then
        let! (r, bm1) := exec_op bm op in
        let! (tr, bm2) := exec_ops bm1 ops' in
        Ret ((op, r) :: tr, bm2)
      else exec_ops bm ops'
  end.

(** The traces of the abstract slot set. *)
Inductive slots_trace (n : Z) : gset Z → list (bitmap_op * bitmap_res) → gset Z → Prop :=
| StNil F : slots_trace n F [] F
| StCons F op r F1 tr F2 :
    slots_step n F op r F1 → slots_trace n F1 tr F2 → slots_trace n F ((op, r) :: tr) F2.

Lemma exec_ops_refines {P : Profile} bm ops :
  bitmap_wf bm →
  ∃ tr bm', exec_ops bm ops = Ret (tr, bm') ∧ bitmap_wf bm' ∧
    slots_trace (slot_count bm) (free_set bm) tr (free_set bm').
Proof.
  revert bm. induction ops as [|op ops IH]; intros bm Hwf; simpl.
  { exists [], bm. split_and!; [done|done|constructor]. }
  case_decide as Hpre; [|by apply IH].
  destruct (exec_op_refines bm op Hwf Hpre) as (r & bm1 & -> & Hwf1 & Hc & Hst). cbn [obind].
  destruct (IH bm1 Hwf1) as (tr & bm' & -> & Hwf' & Htr). cbn [obind].
  exists ((op, r) :: tr), bm'. split_and!; [done|done|]. rewrite Hc in Htr. by econstructor.
Qed.

Lemma free_set_init {P : Profile} n init :
  is_usize n →
  ∃ bm, with_allocation_state n init = Ret bm ∧ bitmap_wf bm ∧ slot_count bm = n ∧
    free_set bm = if init then list_to_set (seqZ 0 n) else ∅.
Proof.
  intros Hn. destruct init.
  - destruct (bitmap_new_ok n Hn) as (bm & Hex & Hwf & Hc & Hb). exists bm. split_and!; try done.
    apply set_eq. intros s. rewrite elem_of_free_set, elem_of_list_to_set, elem_of_seqZ, Hc. split; [lia|].
    intros Hs. rewrite Hb, bool_decide_true by lia. split; [lia|done].
  - destruct (bitmap_new_empty_ok n Hn) as (bm & Hex & Hwf & Hc & Hb). exists bm. split_and!; try done.
    apply no_free_set. done.
Qed.

(** C11: the slot bitmap is a set of free slots.  Built full or empty for any
    slot count, and under any sequence of calls within their preconditions, no
    call panics or runs past its loop bound, and every answer is that of the
    abstract set: [try_alloc] hands out a free slot and fails only when there
    is none, [try_claim_exact] succeeds exactly on a free slot, the queries and
    the range operations over word boundaries answer for the set. *)
Theorem bitmap_refines_set {P : Profile} n init ops :
  is_usize n →
  ∃ bm tr bm', with_allocation_state n init = Ret bm ∧ exec_ops bm ops = Ret (tr, bm') ∧
    slots_trace n (if init then list_to_set (seqZ 0 n) else ∅) tr (free_set bm').
Proof.
  intros Hn. destruct (free_set_init n init Hn) as (bm & Hex & Hwf & Hc & HF).
  destruct (exec_ops_refines bm ops Hwf) as (tr & bm' & Hrun & _ & Htr).
  exists bm, tr, bm'. rewrite Hc, HF in Htr. by split_and!.
Qed.

Lemma bitmap_refines_set_witness :
  ∃ bm tr bm', @with_allocation_state dev 130 true = Ret bm ∧
    @exec_ops dev bm [OpTryAlloc; OpFree 0; OpSetRange 60 70; OpAllSetInRange 0 130; OpFreeCount] =
      Ret (tr, bm') ∧
    slots_trace 130 (list_to_set (seqZ 0 130)) tr (free_set bm').
Proof.
  exact (@bitmap_refines_set dev 130 true
    [OpTryAlloc; OpFree 0; OpSetRange 60 70; OpAllSetInRange 0 130; OpFreeCount] ltac:(ulia)).
Defined.

(** Freeing a slot twice.  With debug assertions the second [free]
    panics; without, it is absorbed: the bitmap does not change. *)
Theorem bitmap_double_free {P : Profile} n s bm bm1 :
  is_usize n → 0 ≤ s < n → bitmap_new_empty n = Ret bm → bitmap_free bm s = Ret bm1 →
  bitmap_free bm1 s = if debug_assertions then Panic else Ret bm1.
Proof.
  intros Hn Hs Hbm Hfree. destruct (bitmap_new_empty_ok n Hn) as (bm0 & Hbm' & Hwf & Hc & Hb).
  rewrite Hbm in Hbm'. injection Hbm' as <-.
  destruct (bitmap_free_ok bm s Hwf) as (bm1' & Hf & Hwf1 & Hc1 & Hb1); [by rewrite Hc|by apply Hb; lia|].
  rewrite Hfree in Hf. injection Hf as <-.
  apply bitmap_free_double; [done|by rewrite Hc1, Hc|]. rewrite Hb1 by lia.
  by rewrite bool_decide_true, orb_true_r.
Qed.

Lemma bitmap_double_free_witness :
  ∃ bm bm1, @bitmap_new_empty dev 100 = Ret bm ∧ @bitmap_free dev bm 70 = Ret bm1 ∧
    @bitmap_free dev bm1 70 = Panic.
Proof.
  assert (E : ∃ bm bm1, @bitmap_new_empty dev 100 = Ret bm ∧ @bitmap_free dev bm 70 = Ret bm1).
  { eexists. eexists. split; vm_compute; reflexivity. }
  destruct E as (bm & bm1 & H1 & H2). exists bm, bm1. split; [exact H1|]. split; [exact H2|].
  exact (@bitmap_double_free dev 100 70 bm bm1 ltac:(ulia) ltac:(lia) H1 H2).
Defined.

(** ** Concurrent use *)

(** C10: under every interleaving of any number of threads running [try_alloc],
    [try_claim_exact] and [free] on what they hold, with scan loads that may be
    arbitrarily stale, no thread panics, no slot is ever held twice, every held
    slot exists, and free and held slots always add up. *)
Theorem conc_claims_exclusive {P : Profile} n es :
  is_usize n →
  ∃ x, conc_run n es = Ret x ∧
    ∀ c, x = Some c →
      NoDup (BitmapConc.held c) ∧ (∀ s, s ∈ BitmapConc.held c → 0 ≤ s < n) ∧
      free_count (shared c) = Ret (n - Z.of_nat (length (BitmapConc.held c))).
Proof.
  intros Hn. destruct (conc_run_inv n es Hn) as (x & Hx & Hinv). exists x. split; [done|].
  intros c ->. specialize (Hinv c eq_refl). split_and!.
  - apply (ci_nodup _ _ Hinv).
  - apply Forall_forall, (ci_range _ _ Hinv).
  - by apply conc_conservation.
Qed.

Lemma conc_claims_exclusive_witness :
  ∃ x, @conc_run dev 70
         [BeginAlloc 0; BeginAlloc 1; ScanLoad 0 1; ScanLoad 1 1; FetchAnd 0; FetchAnd 1] = Ret x ∧
    ∀ c, x = Some c → NoDup (BitmapConc.held c).
Proof.
  destruct (@conc_claims_exclusive dev 70
    [BeginAlloc 0; BeginAlloc 1; ScanLoad 0 1; ScanLoad 1 1; FetchAnd 0; FetchAnd 1] ltac:(ulia))
    as (x & H1 & H2).
  exists x. split; [exact H1|]. intros c Hc. exact (proj1 (H2 c Hc)).
Defined.

(** A claim is lost only to another claim.  If a slot is free at one
    point of a run and no longer free at a later one, some thread took it in
    between, so a [fetch_and] that misses the bit its load saw means progress
    elsewhere. *)
Theorem conc_lost_claim {P : Profile} n es0 c es c' s :
  is_usize n → conc_run n es0 = Ret (Some c) → exec_events c es = Ret (Some c') → 0 ≤ s < n →
  bit (shared c) s = true → bit (shared c') s = false →
  ∃ es1 e es2 c1 c2, es = es1 ++ (e :: es2) ∧ exec_events c es1 = Ret (Some c1) ∧
    exec_event c1 e = Ret (Some c2) ∧ s ∉ BitmapConc.held c1 ∧ s ∈ BitmapConc.held c2.
Proof.
  intros Hn Hrun He Hs Hb Hb'. apply (lost_bit_claimed n c es c'); try done. by eapply conc_run_reach.
Qed.

Lemma conc_lost_claim_witness :
  ∃ c c', @conc_run dev 70 [BeginAlloc 0; ScanLoad 0 1] = Ret (Some c) ∧
    @exec_events dev c [ClaimExact 0; FetchAnd 0] = Ret (Some c') ∧
    ∃ es1 e es2 c1 c2, [ClaimExact 0; FetchAnd 0] = es1 ++ (e :: es2) ∧
      @exec_event dev c1 e = Ret (Some c2) ∧ 0 ∉ BitmapConc.held c1 ∧ 0 ∈ BitmapConc.held c2.
Proof.
  assert (E : match @conc_run dev 70 [BeginAlloc 0; ScanLoad 0 1] with
              | Ret (Some c) =>
                  match @exec_events dev c [ClaimExact 0; FetchAnd 0] with
                  | Ret (Some c') => bit (shared c) 0 && negb (bit (shared c') 0)
                  | _ => false
                  end
              | _ => false
              end = true) by (vm_compute; reflexivity).
  destruct (conc_run 70 [BeginAlloc 0; ScanLoad 0 1]) as [[c|]| |] eqn:H1;
    [|discriminate E|discriminate E|discriminate E].
  destruct (exec_events c [ClaimExact 0; FetchAnd 0]) as [[c'|]| |] eqn:H2;
    [|discriminate E|discriminate E|discriminate E].
  apply andb_true_iff in E as [H3 H4%negb_true_iff].
  exists c, c'. split; [reflexivity|]. split; [exact H2|].
  destruct (@conc_lost_claim dev 70 _ c _ c' 0 ltac:(ulia) H1 H2 ltac:(lia) H3 H4)
    as (es1 & e & es2 & c1 & c2 & K1 & _ & K3 & K4 & K5).
  exists es1, e, es2, c1, c2. split; [exact K1|]. split; [exact K3|]. split; [exact K4|exact K5].
Defined.
