(* ===== verification/Geometry.v ===== *)
(** * [src/geometry.rs]: validated buddy geometry *)

From stdpp Require Import prelude numbers.
From S2P Require Import Prelude Usize Errors.
Local Open Scope Z_scope.

Record BuddyGeometry := mkBuddyGeometry {
  total_size : Z;
  min_block_size : Z;
  max_order : Z;
  alignment : Z;
  cap_capacity : bool;
}.

Definition validate_buddy_geometry (total_size min_block_size : Z) : option Z :=
  if negb (is_power_of_two min_block_size) then None
  else if total_size <? min_block_size then None
  else if negb (total_size mod min_block_size =? 0) then None
  else
    let blocks := total_size / min_block_size in
    if negb (is_power_of_two blocks) then None
    else
      let max_order := trailing_zeros blocks in
      if usize_BITS <=? max_order then None else Some max_order.

Definition exact (total min_block : Z) : result BuildError BuddyGeometry :=
  match validate_buddy_geometry total min_block with
  | None => Err InvalidGeometry
  | Some max_order => Ok (mkBuddyGeometry total min_block max_order 1 false)
  end.

Section operations.
Context {P : Profile}.

Definition snap_to_valid_geometry (total_hint min_block : Z)
    : outcome (result BuildError (Z * Z)) :=
  let t := Z.max total_hint min_block in
  let! m1 := usz_sub min_block 1 in
  let? sum := Ret (ok_or (checked_add t m1) SizeOverflow) in
  let blocks := sum / min_block in
  let? pow2_blocks := Ret (ok_or (checked_next_power_of_two blocks) SizeOverflow) in
  let? total := Ret (ok_or (checked_mul pow2_blocks min_block) SizeOverflow) in
  let max_order := trailing_zeros pow2_blocks in
  Ret (Ok (total, max_order)).

Definition nearest (total_size min_block_size : Z)
    : outcome (result BuildError BuddyGeometry) :=
  let? min_block := Ret (ok_or (checked_next_power_of_two min_block_size) SizeOverflow) in
  let? (total, max_order) := snap_to_valid_geometry total_size min_block in
  Ret (Ok (mkBuddyGeometry total min_block max_order 1 true)).

Definition with_alignment (g : BuddyGeometry) (a : Z)
    : outcome (result BuildError BuddyGeometry) :=
  if negb (is_power_of_two a) then Ret (Err InvalidAlignment)
  else if a <=? min_block_size g then
    Ret (Ok (mkBuddyGeometry (total_size g) (min_block_size g) (max_order g) a (cap_capacity g)))
  else if negb (cap_capacity g) then Ret (Err InvalidGeometry)
  else
    let min_block := a in
    let? (total, max_order) := snap_to_valid_geometry (total_size g) min_block in
    Ret (Ok (mkBuddyGeometry total min_block max_order a (cap_capacity g))).
End operations.

(** ** Validity *)

(** A geometry an arena can be built on: [2^m] blocks of [2^k] bytes that fit
    the address space, aligned to a power of two no larger than a block. *)
Definition geometry_valid (g : BuddyGeometry) : Prop :=
  ∃ k a, 0 ≤ k ∧ 0 ≤ a ≤ k ∧ 0 ≤ max_order g ∧ k + max_order g < 64 ∧
    min_block_size g = 2 ^ k ∧ total_size g = 2 ^ (k + max_order g) ∧ alignment g = 2 ^ a.

Lemma validate_buddy_geometry_Some t m o :
  0 < m → is_usize t → 
  validate_buddy_geometry t m = Some o ↔
    ∃ k, 0 ≤ k ∧ m = 2 ^ k ∧ 0 ≤ o ∧ t = 2 ^ (k + o).
Proof.
  intros Hm Ht. unfold validate_buddy_geometry. split.
  - destruct (is_power_of_two m) eqn:Em; [|done]. apply is_power_of_two_spec in Em as (k & Hk & ->).
    cbn [negb]. destruct (Z.ltb_spec t (2 ^ k)); [done|].
    destruct (Z.eqb_spec (t mod 2 ^ k) 0) as [Hmod|]; [|done]. cbn [negb].
    destruct (is_power_of_two _) eqn:Eb; [|done].
    apply is_power_of_two_spec in Eb as (j & Hj & Hb). cbn [negb].
    rewrite Hb, trailing_zeros_pow2 by done.
    destruct (Z.leb_spec usize_BITS j); [done|]. intros [= <-].
    exists k. split_and!; [done..|]. rewrite Z.pow_add_r, <- Hb by done.
    rewrite <- Z.div_exact in Hmod by lia. lia.
  - intros (k & Hk & -> & Ho & ->).
    assert (is_power_of_two (2 ^ k) = true) as -> by (apply is_power_of_two_spec; eauto).
    rewrite Z.pow_add_r in * by done. cbn [negb].
    assert (0 < 2 ^ o) by lia.
    destruct (Z.ltb_spec (2 ^ k * 2 ^ o) (2 ^ k)); [nia|].
    rewrite Z.mul_comm, Z_mod_mult, Z.div_mul by lia. simpl.
    assert (is_power_of_two (2 ^ o) = true) as -> by (apply is_power_of_two_spec; eauto).
    rewrite trailing_zeros_pow2 by done. cbn [negb].
    assert (o < 64) by (apply pow2_is_usize_inv; [done|]; unfold is_usize in *; nia).
    destruct (Z.leb_spec usize_BITS o); [ulia|done].
Qed.

(** What [snap_to_valid_geometry] computes: the least [m * 2^o] that covers
    [max t m], if it is a [usize]. *)
Lemma snap_ok {P : Profile} t k :
  is_usize t → 0 ≤ k < 64 →
  ∃ o, 0 ≤ o ∧ Z.max t (2 ^ k) ≤ 2 ^ (k + o) ∧
    (∀ j, 0 ≤ j → t ≤ 2 ^ (k + j) → o ≤ j) ∧
    snap_to_valid_geometry t (2 ^ k) =
      Ret (if 2 ^ (k + o) <=? usize_MAX then Ok (2 ^ (k + o), o) else Err SizeOverflow).
Proof.
  intros Ht Hk. pose proof (pow2_is_usize k Hk) as Hku. assert (Hpos : 0 < 2 ^ k) by lia.
  set (T := Z.max t (2 ^ k)). set (b := (T + (2 ^ k - 1)) / 2 ^ k).
  assert (HTb : ∀ x, T ≤ x * 2 ^ k ↔ b ≤ x).
  { intros x. unfold b. split; intros Hx.
    - apply Z.lt_succ_r, Z.div_lt_upper_bound; nia.
    - pose proof (Z.mod_pos_bound (T + (2 ^ k - 1)) (2 ^ k) Hpos).
      pose proof (Z.div_mod (T + (2 ^ k - 1)) (2 ^ k) ltac:(lia)). nia. }
  destruct (ceil_pow2_spec b) as (o & Ho & Heq & Hle & Hmin).
  assert (Hoj : ∀ j, 0 ≤ j → t ≤ 2 ^ (k + j) → o ≤ j).
  { intros j Hj Htj. apply Hmin; [done|]. apply HTb. rewrite Z.mul_comm, <- Z.pow_add_r by lia.
    pose proof (pow2_mono k (k + j) ltac:(lia)). lia. }
  assert (HT : T ≤ 2 ^ (k + o)). { rewrite Z.pow_add_r, Z.mul_comm by lia. by apply HTb. }
  exists o. split_and!; [done..|]. unfold snap_to_valid_geometry. fold T.
  rewrite usz_sub_ok by ulia. cbn [obind]. unfold checked_add.
  destruct (Z.leb_spec (T + (2 ^ k - 1)) usize_MAX) as [Hsum|Hsum]; cbn [ok_or rbind obind].
  - fold b. unfold checked_next_power_of_two. rewrite Heq.
    destruct (Z.leb_spec (2 ^ o) usize_MAX) as [Ho'|Ho']; cbn [ok_or rbind obind].
    + unfold checked_mul. rewrite <- Z.pow_add_r, (Z.add_comm o k) by lia.
      destruct (Z.leb_spec (2 ^ (k + o)) usize_MAX); cbn [ok_or rbind obind]; [|done].
      by rewrite trailing_zeros_pow2.
    + pose proof (pow2_mono o (k + o) ltac:(lia)). by destruct (Z.leb_spec (2 ^ (k + o)) usize_MAX); [lia|].
  - destruct (Z.leb_spec (2 ^ (k + o)) usize_MAX) as [Hf|]; [|done]. exfalso.
    apply pow2_is_usize_inv in Hf; [|lia].
    pose proof (pow2_mono (k + o) 63 ltac:(lia)).
    destruct (decide (o = 0)) as [->|].
    + rewrite Z.add_0_r in *. ulia.
    + assert (k ≤ 62) by lia. pose proof (pow2_mono k 62 ltac:(lia)). ulia.
Qed.

(** ** Properties *)

Lemma geometry_valid_intro k o a c :
  0 ≤ k → 0 ≤ o → k + o < 64 → 0 ≤ a ≤ k →
  geometry_valid (mkBuddyGeometry (2 ^ (k + o)) (2 ^ k) o (2 ^ a) c).
Proof. intros. exists k, a. simpl. split_and!; lia || done. Qed.

Lemma geometry_valid_usize g : geometry_valid g → is_usize (total_size g) ∧ is_usize (min_block_size g).
Proof.
  intros (k & a & ? & ? & ? & ? & -> & -> & _). split; apply pow2_is_usize; lia.
Qed.

(** [BuddyGeometry::exact] accepts a total and a block size exactly when the
    block size is a power of two and the total a power-of-two multiple of it;
    what it accepts is a valid geometry with the sizes asked for, and every
    refusal is [InvalidGeometry]. *)
Theorem exact_correct t m :
  0 < t ≤ usize_MAX → 0 < m ≤ usize_MAX →
  match exact t m with
  | Ok g => geometry_valid g ∧ total_size g = t ∧ min_block_size g = m ∧
      alignment g = 1 ∧ cap_capacity g = false
  | Err e => e = InvalidGeometry ∧ ¬ ∃ k o, 0 ≤ k ∧ 0 ≤ o ∧ m = 2 ^ k ∧ t = 2 ^ (k + o)
  end.
Proof.
  intros Ht Hm. unfold exact. destruct (validate_buddy_geometry t m) as [o|] eqn:E.
  - apply validate_buddy_geometry_Some in E as (k & Hk & -> & Ho & ->); [|ulia..].
    simpl. split_and!; [|done..]. apply (geometry_valid_intro k o 0); try lia.
    apply pow2_is_usize_inv; ulia.
  - split; [done|]. intros (k & o & ? & ? & Hm' & Ht').
    assert (validate_buddy_geometry t m = Some o) as E'; [|by rewrite E in E'].
    apply validate_buddy_geometry_Some; [lia|ulia|]. eauto.
Qed.

Lemma exact_correct_witness :
  (0 < 4096 ≤ usize_MAX ∧ 0 < 512 ≤ usize_MAX) ∧
  (geometry_valid (mkBuddyGeometry 4096 512 3 1 false) ∧ 4096 = 4096 ∧ 512 = 512 ∧ 1 = 1 ∧ false = false).
Proof.
  assert (H1 : 0 < 4096 ≤ usize_MAX) by ulia. assert (H2 : 0 < 512 ≤ usize_MAX) by ulia.
  split; [done|]. exact (exact_correct 4096 512 H1 H2).
Defined.

(** C35: [BuddyGeometry::nearest] returns the smallest valid geometry that covers
    the requested total and block size, in both components at once; it fails
    only with [SizeOverflow], and only when no valid geometry covers the
    request. *)
Theorem nearest_correct {P : Profile} t m :
  0 < t ≤ usize_MAX → 0 < m ≤ usize_MAX →
  match nearest t m with
  | Ret (Ok g) =>
      geometry_valid g ∧ cap_capacity g = true ∧ m ≤ min_block_size g ∧ t ≤ total_size g ∧
      ∀ g', geometry_valid g' → m ≤ min_block_size g' → t ≤ total_size g' →
        min_block_size g ≤ min_block_size g' ∧ total_size g ≤ total_size g'
  | Ret (Err e) =>
      e = SizeOverflow ∧
      ¬ ∃ g', geometry_valid g' ∧ m ≤ min_block_size g' ∧ t ≤ total_size g'
  | _ => False
  end.
Proof.
  intros Ht Hm. unfold nearest, checked_next_power_of_two.
  destruct (ceil_pow2_spec m) as (k & Hk & -> & Hle & Hmin).
  destruct (Z.leb_spec (2 ^ k) usize_MAX) as [Hku|Hku]; cbn [ok_or rbind obind].
  2:{ split; [done|]. intros (g' & Hv & Hm' & _).
      pose proof (geometry_valid_usize g' Hv). destruct Hv as (k' & _ & Hk' & _ & _ & _ & Hmin' & _).
      rewrite Hmin' in *. specialize (Hmin k' Hk' Hm'). pose proof (pow2_mono k k' ltac:(lia)). ulia. }
  apply pow2_is_usize_inv in Hku; [|done].
  destruct (snap_ok t k) as (o & Ho & HT & Hmino & ->); [ulia|lia|].
  assert (Hleast : ∀ g', geometry_valid g' → m ≤ min_block_size g' → t ≤ total_size g' →
    2 ^ k ≤ min_block_size g' ∧ 2 ^ (k + o) ≤ total_size g').
  { intros g' (k' & a & Hk' & _ & Ho' & _ & -> & -> & _) Hm' Ht'.
    specialize (Hmin k' Hk' Hm'). split; [apply pow2_mono; lia|].
    apply pow2_mono. specialize (Hmino (k' + max_order g' - k) ltac:(lia)).
    replace (k + (k' + max_order g' - k)) with (k' + max_order g') in Hmino by lia.
    specialize (Hmino Ht'). lia. }
  destruct (Z.leb_spec (2 ^ (k + o)) usize_MAX) as [Hu|Hu]; cbn [rbind obind].
  - apply pow2_is_usize_inv in Hu; [|lia]. simpl. split_and!; try done; [|lia].
    apply (geometry_valid_intro k o 0); lia.
  - split; [done|]. intros (g' & Hv & Hm' & Ht'). pose proof (geometry_valid_usize g' Hv).
    destruct (Hleast g' Hv Hm' Ht'). ulia.
Qed.

Lemma nearest_correct_witness :
  (0 < 6000 ≤ usize_MAX ∧ 0 < 768 ≤ usize_MAX) ∧
  geometry_valid (mkBuddyGeometry 8192 1024 3 1 true).
Proof.
  assert (H1 : 0 < 6000 ≤ usize_MAX) by ulia. assert (H2 : 0 < 768 ≤ usize_MAX) by ulia.
  split; [done|]. exact (proj1 (@nearest_correct dev 6000 768 H1 H2)).
Defined.

(** C36: [with_alignment] on a valid geometry keeps it valid with the requested
    alignment: a small alignment changes nothing else, a larger one is refused
    on exact geometry and otherwise becomes the block size, with the least
    total that covers the old one.  It never overflows and never panics. *)
Theorem with_alignment_correct {P : Profile} g a :
  geometry_valid g → 0 < a ≤ usize_MAX →
  match with_alignment g a with
  | Ret (Ok g') =>
      geometry_valid g' ∧ alignment g' = a ∧ cap_capacity g' = cap_capacity g ∧
      (a ≤ min_block_size g → total_size g' = total_size g ∧ min_block_size g' = min_block_size g) ∧
      (min_block_size g < a → cap_capacity g = true ∧ min_block_size g' = a ∧
         total_size g' = Z.max a (total_size g))
  | Ret (Err e) =>
      (e = InvalidAlignment ∧ is_power_of_two a = false) ∨
      (e = InvalidGeometry ∧ is_power_of_two a = true ∧ min_block_size g < a ∧ cap_capacity g = false)
  | _ => False
  end.
Proof.
  intros Hv Ha. unfold with_alignment. destruct (is_power_of_two a) eqn:Ea; simpl; [|by left].
  apply is_power_of_two_spec in Ea as Hpow. destruct Hpow as (j & Hj & ->).
  destruct Hv as (k & a0 & Hk & Ha0 & Ho & Hko & Hmin & Htot & Hal).
  assert (Hj64 : j < 64) by (apply pow2_is_usize_inv; lia).
  destruct (Z.leb_spec (2 ^ j) (min_block_size g)) as [Hle|Hgt].
  { simpl. split_and!; try done; [|lia]. exists k, j. simpl. rewrite Hmin in Hle.
    apply Z.pow_le_mono_r_iff in Hle; [|lia..]. split_and!; done || lia. }
  destruct (cap_capacity g) eqn:Ec; simpl; [|by right].
  destruct (snap_ok (total_size g) j) as (o & Ho' & HT & Hmino & ->); [|lia|].
  { rewrite Htot. apply pow2_is_usize. lia. }
  rewrite Hmin in Hgt. apply Z.pow_lt_mono_r_iff in Hgt; [|lia..].
  assert (Heq : 2 ^ (j + o) = Z.max (2 ^ j) (total_size g)).
  { rewrite Htot in *. destruct (decide (k + max_order g ≤ j)).
    - assert (o = 0) as -> by (specialize (Hmino 0 ltac:(lia));
        rewrite Z.add_0_r in Hmino; specialize (Hmino ltac:(apply pow2_mono; lia)); lia).
      rewrite Z.add_0_r, Z.max_l; [done|]. apply pow2_mono. lia.
    - assert (o ≤ k + max_order g - j).
      { apply Hmino; [lia|]. apply pow2_mono. lia. }
      pose proof (pow2_mono (j + o) (k + max_order g) ltac:(lia)).
      pose proof (pow2_mono j (k + max_order g) ltac:(lia)). lia. }
  assert (Hu : is_usize (2 ^ (j + o))).
  { rewrite Heq, Htot. pose proof (pow2_is_usize j ltac:(lia)).
    pose proof (pow2_is_usize (k + max_order g) ltac:(lia)). ulia. }
  destruct (Z.leb_spec (2 ^ (j + o)) usize_MAX); [|ulia]. cbn [rbind obind].
  split_and!; try done.
  - apply (geometry_valid_intro j o j); try lia. apply pow2_is_usize_inv; ulia.
  - intros Hle. rewrite Hmin in Hle. apply Z.pow_le_mono_r_iff in Hle; lia.
Qed.

Lemma with_alignment_correct_witness :
  geometry_valid (mkBuddyGeometry 4096 512 3 1 true) ∧ 0 < 1024 ≤ usize_MAX ∧
  geometry_valid (mkBuddyGeometry 4096 1024 2 1024 true).
Proof.
  assert (H1 : geometry_valid (mkBuddyGeometry 4096 512 3 1 true))
    by (exists 9, 0; vm_compute; intuition discriminate).
  assert (H2 : 0 < 1024 ≤ usize_MAX) by ulia.
  split; [done|]. split; [done|].
  exact (proj1 (@with_alignment_correct dev _ 1024 H1 H2)).
Defined.
