(* ===== verification/SlotSpec.v ===== *)
(** * [src/spec.rs]: geometry derived from caller-provided memory

    [SlotSpec] slices a region into fixed slots, [BuddyHint] derives a buddy
    geometry from one.  [align_up] of [src/arena.rs] is here with [align_down],
    its counterpart. *)

From stdpp Require Import prelude numbers.
From S2P Require Import Prelude Usize Errors.
Local Open Scope Z_scope.

Inductive SlotSpec :=
| Count (count : Z)
| Size (size : Z).

Inductive BuddyHint :=
| MinAlloc (size : Z).

Definition min_alloc (size : Z) : BuddyHint := MinAlloc size.

Section operations.
Context {P : Profile}.

Definition align_down (val align : Z) : outcome Z :=
  let! a1 := usz_sub align 1 in
  Ret (Z.land val (unot a1)).

(** [src/arena.rs] *)
Definition align_up (value alignment : Z) : outcome (option Z) :=
  let! a1 := usz_sub alignment 1 in
  match checked_add value a1 with
  | None => Ret None
  | Some rounded => Ret (Some (Z.land rounded (unot a1)))
  end.

Definition SlotSpec_resolve (spec : SlotSpec) (block_len alignment : Z)
    : outcome (result BuildError (Z * Z)) :=
  match spec with
  | Count count =>
      let raw_size := block_len / count in
      let! aligned_size := align_down raw_size alignment in
      if aligned_size =? 0 then Ret (Err ZeroUsableSlots)
      else Ret (Ok (count, aligned_size))
  | Size size =>
      let! aligned_size := align_down size alignment in
      if aligned_size =? 0 then Ret (Err ZeroUsableSlots)
      else if block_len <? aligned_size then Ret (Err SlotSizeExceedsBacking)
      else
        let count := block_len / aligned_size in
        if count =? 0 then Ret (Err ZeroUsableSlots)
        else Ret (Ok (count, aligned_size))
  end.

Definition prev_power_of_two (n : Z) : outcome Z :=
  if n =? 0 then Ret 0
  else
    let! e1 := usz_sub usize_BITS 1 in
    let! e := usz_sub e1 (leading_zeros n) in
    usz_shl 1 e.

(** [while min_block << (max_order + 1) <= block_len { max_order += 1 }] *)
Fixpoint grow_order (fuel : nat) (min_block block_len max_order : Z) : outcome Z :=
  match fuel with
  | O => OutOfFuel
  | S fuel' =>
      let! next := usz_add max_order 1 in
      let! size := usz_shl min_block next in
      if size <=? block_len then
        let! max_order' := usz_add max_order 1 in
        grow_order fuel' min_block block_len max_order'
      else Ret max_order
  end.

Definition BuddyHint_resolve (fuel : nat) (hint : BuddyHint) (block_len : Z)
    : outcome (result BuildError (Z * Z)) :=
  match hint with
  | MinAlloc min =>
      let! min_block := next_power_of_two min in
      let? min_block :=
        (if block_len <? min_block then
           let! down := prev_power_of_two min in
           if (down =? 0) || (block_len <? down) then Ret (Err ZeroUsableSlots)
           else Ret (Ok down)
         else Ret (Ok min_block)) in
      let! max_order := grow_order fuel min_block block_len 0 in
      let! total_usable := usz_shl min_block max_order in
      if total_usable =? 0 then Ret (Err ZeroUsableSlots)
      else Ret (Ok (min_block, max_order))
  end.
End operations.

(** Iterations that suffice for [grow_order]: one per bit of a [usize]. *)
Definition RESOLVE_FUEL : nat := 64.

(** No Rust allocation is larger than [isize::MAX] bytes. *)
Definition isize_MAX : Z := 9223372036854775807.

(** ** Alignment *)

Lemma land_unot_low v k :
  is_usize v → 0 ≤ k < 64 → Z.land v (unot (2 ^ k - 1)) = v / 2 ^ k * 2 ^ k.
Proof.
  intros Hv Hk. rewrite <- Z.shiftr_div_pow2, <- Z.shiftl_mul_pow2, <- Z.ldiff_ones_r by lia.
  replace (Z.ones k) with (2 ^ k - 1) by (rewrite Z.ones_equiv; lia).
  pose proof (pow2_is_usize k Hk). assert (0 < 2 ^ k) by lia.
  apply Z.bits_inj'. intros i Hi. rewrite Z.land_spec, Z.ldiff_spec.
  destruct (decide (i < 64)); [by rewrite testbit_unot by lia|].
  by rewrite (testbit_high v) by (done || lia).
Qed.

Section alignment.
Context {P : Profile}.

Lemma align_down_ok v k :
  is_usize v → 0 ≤ k < 64 → align_down v (2 ^ k) = Ret (v / 2 ^ k * 2 ^ k).
Proof.
  intros Hv Hk. unfold align_down. pose proof (pow2_is_usize k Hk). assert (0 < 2 ^ k) by lia.
  rewrite usz_sub_ok by ulia. cbn [obind]. by rewrite land_unot_low.
Qed.

Lemma align_up_ok v k :
  is_usize v → 0 ≤ k < 64 →
  align_up v (2 ^ k) =
    Ret (if v + (2 ^ k - 1) <=? usize_MAX then Some ((v + (2 ^ k - 1)) / 2 ^ k * 2 ^ k) else None).
Proof.
  intros Hv Hk. unfold align_up. pose proof (pow2_is_usize k Hk). assert (0 < 2 ^ k) by lia.
  rewrite usz_sub_ok by ulia. cbn [obind]. unfold checked_add.
  destruct (Z.leb_spec (v + (2 ^ k - 1)) usize_MAX); [|done].
  by rewrite land_unot_low by ulia.
Qed.
End alignment.

Lemma div_mul_floor v d x : 0 < d → (d | x) → x ≤ v ↔ x ≤ v / d * d.
Proof.
  intros Hd [q ->]. split; intros Hx.
  - apply Z.mul_le_mono_nonneg_r; [lia|]. apply Z.div_le_lower_bound; lia.
  - pose proof (Z.mul_div_le v d Hd). lia.
Qed.

(** ** Properties *)

(** [align_up] is the least multiple of the alignment that is at least the
    value, and [None] exactly when that multiple is not a [usize]. *)
Theorem align_up_correct {P : Profile} v a :
  is_usize v → is_power_of_two a = true → a ≤ usize_MAX →
  match align_up v a with
  | Ret (Some r) => v ≤ r ∧ (a | r) ∧ is_usize r ∧ ∀ x, v ≤ x → (a | x) → r ≤ x
  | Ret None => ∀ x, v ≤ x → (a | x) → usize_MAX < x
  | _ => False
  end.
Proof.
  intros Hv (k & Hk & ->)%is_power_of_two_spec Ha. apply pow2_is_usize_inv in Ha; [|done].
  rewrite align_up_ok by (done || lia). pose proof (pow2_is_usize k ltac:(lia)).
  assert (0 < 2 ^ k) by lia.
  assert (Hx : ∀ x, v ≤ x → (2 ^ k | x) → (v + (2 ^ k - 1)) / 2 ^ k * 2 ^ k ≤ x).
  { intros x Hvx [q ->]. apply Z.mul_le_mono_nonneg_r; [lia|].
    apply Z.lt_succ_r, Z.div_lt_upper_bound; lia. }
  pose proof (Z.mod_pos_bound (v + (2 ^ k - 1)) (2 ^ k) ltac:(lia)).
  pose proof (Z.div_mod (v + (2 ^ k - 1)) (2 ^ k) ltac:(lia)).
  set (q := (v + (2 ^ k - 1)) / 2 ^ k) in *. set (r := (v + (2 ^ k - 1)) mod 2 ^ k) in *.
  clearbody q r. destruct (Z.leb_spec (v + (2 ^ k - 1)) usize_MAX) as [Hle|Hgt].
  - split_and!; [lia|by eexists|ulia|done].
  - intros x Hvx Hd. specialize (Hx x Hvx Hd).
    destruct (decide (usize_MAX < x)); [done|exfalso].
    assert (Hdm : (2 ^ k | 2 ^ 64)) by (exists (2 ^ (64 - k)); rewrite <- Z.pow_add_r by lia; f_equal; lia).
    destruct Hd as [c ->], Hdm as [d Hr]. assert (c < d) by (unfold usize_MAX in *; nia).
    unfold usize_MAX in *. nia.
Qed.

Lemma align_up_correct_witness :
  is_usize 100 ∧ is_power_of_two 64 = true ∧ 64 ≤ usize_MAX ∧ 100 ≤ 128 ∧ (64 | 128).
Proof.
  assert (H1 : is_usize 100) by ulia. assert (H2 : is_power_of_two 64 = true) by reflexivity.
  assert (H3 : 64 ≤ usize_MAX) by ulia.
  pose proof (@align_up_correct dev 100 64 H1 H2 H3) as H. split_and!; [done..| |].
  - exact (proj1 H).
  - exact (proj1 (proj2 H)).
Defined.

Lemma SlotSpec_resolve_spec {P : Profile} spec len a :
  is_usize len → is_power_of_two a = true → a ≤ usize_MAX →
  match spec with Count n => 0 < n ≤ usize_MAX | Size n => 0 < n ≤ usize_MAX end →
  match SlotSpec_resolve spec len a with
  | Ret (Ok (count, size)) =>
      0 < count ∧ 0 < size ∧ (a | size) ∧ count * size ≤ len ∧
      match spec with
      | Count n => count = n ∧ ∀ s, (a | s) → n * s ≤ len → s ≤ size
      | Size n => size ≤ n ∧ (∀ s, (a | s) → s ≤ n → s ≤ size) ∧ len < (count + 1) * size
      end
  | Ret (Err e) =>
      match spec with
      | Count n => e = ZeroUsableSlots ∧ len < n * a
      | Size n => (e = ZeroUsableSlots ∧ n < a) ∨
          (e = SlotSizeExceedsBacking ∧ a ≤ n ∧ ∃ s, (a | s) ∧ 0 < s ≤ n ∧ len < s)
      end
  | _ => False
  end.
Proof.
  intros Hl (k & Hk & ->)%is_power_of_two_spec Ha Hspec. apply pow2_is_usize_inv in Ha; [|done].
  assert (Hp : 0 < 2 ^ k) by lia. destruct spec as [n|n]; unfold SlotSpec_resolve.
  - assert (0 ≤ len / n) by (apply Z.div_pos; ulia).
    assert (len / n ≤ len) by (apply Z.div_le_upper_bound; unfold is_usize in *; nia).
    rewrite align_down_ok by (ulia || lia). cbn [obind].
    pose proof (Z.mul_div_le len n ltac:(lia)).
    pose proof (Z.mul_div_le (len / n) (2 ^ k) Hp).
    pose proof (Z.div_pos (len / n) (2 ^ k) ltac:(lia) Hp).
    destruct (Z.eqb_spec (len / n / 2 ^ k * 2 ^ k) 0) as [Hzero|Hnz].
    + split; [done|]. destruct (decide (2 ^ k ≤ len / n)) as [Hge|Hlt].
      { apply (Z.div_le_mono _ _ (2 ^ k)) in Hge; [|lia]. rewrite Z.div_same in Hge by lia. nia. }
      apply Z.nle_gt. intros Hle. apply Hlt. apply Z.div_le_lower_bound; lia.
    + split_and!; [lia|lia|by eexists|nia|done|].
      intros s Hs Hle. apply div_mul_floor; [done..|]. apply Z.div_le_lower_bound; lia.
  - rewrite align_down_ok by (ulia || lia). cbn [obind].
    pose proof (Z.mul_div_le n (2 ^ k) Hp). pose proof (Z.div_pos n (2 ^ k) ltac:(lia) Hp).
    destruct (Z.eqb_spec (n / 2 ^ k * 2 ^ k) 0) as [Hzero|Hnz].
    + left. split; [done|]. apply Z.nle_gt. intros Hle.
      apply (Z.div_le_mono _ _ (2 ^ k)) in Hle; [|lia]. rewrite Z.div_same in Hle by lia. nia.
    + set (sz := n / 2 ^ k * 2 ^ k) in *. assert (0 < sz) by nia.
      destruct (Z.ltb_spec len sz) as [Hlt|Hge].
      { right. split_and!; [done| |].
        - assert (1 ≤ n / 2 ^ k) by nia. nia.
        - exists sz. split_and!; [by eexists|lia..]. }
      pose proof (Z.mul_div_le len sz ltac:(lia)).
      pose proof (Z.mul_succ_div_gt len sz ltac:(lia)).
      destruct (Z.eqb_spec (len / sz) 0) as [Hz|Hz].
      { exfalso. apply Z.div_small_iff in Hz; lia. }
      pose proof (Z.div_pos len sz ltac:(ulia) ltac:(lia)).
      split_and!; [lia|lia|by eexists|lia|lia| |lia].
      intros s Hs Hle. by apply div_mul_floor.
Qed.

(** C37: [SlotSpec::resolve] yields positive, aligned slots that fit the region.
    [Count] keeps the count and takes the largest aligned size for it; [Size]
    takes the largest aligned size not above the request and as many slots as
    fit.  The errors are returned exactly when no such slot exists. *)
Theorem SlotSpec_resolve_correct {P : Profile} spec len a :
  is_usize len → is_power_of_two a = true → a ≤ usize_MAX →
  match spec with Count n => 0 < n ≤ usize_MAX | Size n => 0 < n ≤ usize_MAX end →
  match SlotSpec_resolve spec len a with
  | Ret (Ok (count, size)) =>
      0 < count ∧ 0 < size ∧ (a | size) ∧ count * size ≤ len ∧
      match spec with
      | Count n => count = n ∧ ∀ s, (a | s) → n * s ≤ len → s ≤ size
      | Size n => size ≤ n ∧ (∀ s, (a | s) → s ≤ n → s ≤ size) ∧ len < (count + 1) * size
      end
  | Ret (Err e) =>
      match spec with
      | Count n => e = ZeroUsableSlots ∧ len < n * a
      | Size n => (e = ZeroUsableSlots ∧ n < a) ∨
          (e = SlotSizeExceedsBacking ∧ a ≤ n ∧ ∃ s, (a | s) ∧ 0 < s ≤ n ∧ len < s)
      end
  | _ => False
  end.
Proof. apply SlotSpec_resolve_spec. Qed.

Lemma SlotSpec_resolve_correct_witness :
  is_usize 1024 ∧ is_power_of_two 64 = true ∧ 64 ≤ usize_MAX ∧ 0 < 300 ≤ usize_MAX ∧ 4 * 256 ≤ 1024.
Proof.
  assert (H1 : is_usize 1024) by ulia. assert (H2 : is_power_of_two 64 = true) by reflexivity.
  assert (H3 : 64 ≤ usize_MAX) by ulia. assert (H4 : 0 < 300 ≤ usize_MAX) by ulia.
  pose proof (@SlotSpec_resolve_correct dev (Size 300) 1024 64 H1 H2 H3 H4) as H.
  do 4 (split; [done|]). exact (proj1 (proj2 (proj2 (proj2 H)))).
Defined.

(** ** Buddy hints *)

Section hints.
Context {P : Profile}.

Lemma prev_power_of_two_ok n :
  0 < n ≤ usize_MAX → prev_power_of_two n = Ret (2 ^ Z.log2 n) ∧ 0 ≤ Z.log2 n < 64.
Proof.
  intros Hn. assert (Hlog : 0 ≤ Z.log2 n < 64).
  { split; [apply Z.log2_nonneg|]. apply Z.log2_lt_pow2; ulia. }
  split; [|done]. unfold prev_power_of_two, leading_zeros.
  destruct (Z.eqb_spec n 0); [lia|]. rewrite usz_sub_ok by ulia. cbn [obind].
  rewrite usz_sub_ok by ulia. cbn [obind]. unfold usize_BITS.
  replace (64 - 1 - (64 - 1 - Z.log2 n)) with (Z.log2 n) by lia. by apply usz_shl_1.
Qed.

(** On a region that can exist, the loop finds the largest order that fits,
    within one iteration per bit. *)
Lemma grow_order_ok k len o fuel :
  0 ≤ k → 0 ≤ o → 2 ^ (k + o) ≤ len → len ≤ isize_MAX → 63 - (k + o) < Z.of_nat fuel →
  ∃ o', grow_order fuel (2 ^ k) len o = Ret o' ∧ o ≤ o' ∧ k + o' < 63 ∧
    2 ^ (k + o') ≤ len < 2 ^ (k + o' + 1).
Proof.
  intros Hk. revert o. induction fuel as [|fuel IH]; intros o Ho Hle Hlen Hf.
  { assert (2 ^ 63 ≤ 2 ^ (k + o)) by (apply pow2_mono; lia). unfold isize_MAX in *. lia. }
  assert (k + o < 63).
  { destruct (decide (k + o < 63)); [done|].
    assert (2 ^ 63 ≤ 2 ^ (k + o)) by (apply pow2_mono; lia). unfold isize_MAX in *. lia. }
  cbn [grow_order]. rewrite usz_add_ok by ulia. cbn [obind].
  rewrite usz_shl_ok by (rewrite <- ?Z.pow_add_r by lia; try apply pow2_is_usize; lia).
  cbn [obind]. rewrite <- Z.pow_add_r by lia.
  destruct (Z.leb_spec (2 ^ (k + (o + 1))) len) as [Hn|Hn].
  - destruct (IH (o + 1)) as (o' & -> & ? & ? & ?); [lia..|]. exists o'. split_and!; done || lia.
  - exists o. replace (k + o + 1) with (k + (o + 1)) by lia. split_and!; done || lia.
Qed.

Lemma resolve_block len k :
  0 ≤ k → 2 ^ k ≤ len ≤ isize_MAX →
  ∃ o, (let! max_order := grow_order RESOLVE_FUEL (2 ^ k) len 0 in
        let! total_usable := usz_shl (2 ^ k) max_order in
        if total_usable =? 0 then Ret (Err ZeroUsableSlots) else Ret (Ok (2 ^ k, max_order)))
       = Ret (Ok (2 ^ k, o)) ∧ 0 ≤ o ∧ k + o < 63 ∧ 2 ^ (k + o) ≤ len < 2 ^ (k + o + 1).
Proof.
  intros Hk Hlen.
  destruct (grow_order_ok k len 0 RESOLVE_FUEL) as (o & -> & ? & ? & ?);
    [lia|lia|rewrite Z.add_0_r; lia|lia|unfold RESOLVE_FUEL; lia|].
  cbn [obind]. rewrite usz_shl_ok by (rewrite <- ?Z.pow_add_r by lia; try apply pow2_is_usize; lia).
  cbn [obind]. rewrite <- Z.pow_add_r by lia.
  destruct (Z.eqb_spec (2 ^ (k + o)) 0); [lia|]. exists o. split_and!; done || lia.
Qed.
End hints.

Lemma BuddyHint_resolve_spec {P : Profile} min len :
  0 < min ≤ 2 ^ 63 → 0 ≤ len ≤ isize_MAX →
  match BuddyHint_resolve RESOLVE_FUEL (MinAlloc min) len with
  | Ret (Ok (b, o)) =>
      (∃ k, 0 ≤ k ∧ b = 2 ^ k ∧ k + o < 63) ∧ 0 ≤ o ∧
      b = (if decide (ceil_pow2 min ≤ len) then ceil_pow2 min else 2 ^ Z.log2 min) ∧
      b * 2 ^ o ≤ len < b * 2 ^ (o + 1)
  | Ret (Err e) => e = ZeroUsableSlots ∧ len < 2 ^ Z.log2 min
  | _ => False
  end.
Proof.
  intros Hmin Hlen. unfold BuddyHint_resolve, next_power_of_two.
  destruct (ceil_pow2_spec min) as (k & Hk & -> & Hle & Hleast).
  assert (k ≤ 63) by (apply Hleast; lia).
  rewrite overflowing_ok by (apply pow2_is_usize; lia). cbn [obind].
  destruct (prev_power_of_two_ok min) as [-> Hlog]; [ulia|]. cbn [obind].
  assert (0 < 2 ^ Z.log2 min) by lia.
  destruct (Z.ltb_spec len (2 ^ k)) as [Hlt|Hge].
  - destruct (decide (2 ^ k ≤ len)); [lia|].
    destruct (Z.eqb_spec (2 ^ Z.log2 min) 0); [lia|]. cbn [orb].
    destruct (Z.ltb_spec len (2 ^ Z.log2 min)); cbn [rbind obind]; [done|].
    destruct (resolve_block len (Z.log2 min)) as (o & -> & Ho & Hko & Hr); [lia..|].
    rewrite <- !Z.pow_add_r, Z.add_assoc by lia. split_and!; try done || lia.
    exists (Z.log2 min). split_and!; done || lia.
  - destruct (decide (2 ^ k ≤ len)); [|lia]. cbn [rbind obind].
    destruct (resolve_block len k) as (o & -> & Ho & Hko & Hr); [lia..|].
    rewrite <- !Z.pow_add_r, Z.add_assoc by lia. split_and!; try done || lia.
    exists k. split_and!; done || lia.
Qed.

(** A hint above [2^63] rounds up to 0 where overflow is not checked, and then
    the loop has no end. *)
Lemma BuddyHint_resolve_huge {P : Profile} min len fuel :
  2 ^ 63 < min ≤ usize_MAX → 0 ≤ len ≤ usize_MAX →
  BuddyHint_resolve fuel (MinAlloc min) len = if debug_assertions then Panic else OutOfFuel.
Proof.
  intros Hmin Hlen. destruct (ceil_pow2_spec min) as (k & Hk & Hceil & Hle & Hleast).
  assert (k = 64) as ->.
  { assert (k ≤ 64) by (apply Hleast; [lia|ulia]).
    destruct (decide (k ≤ 63)); [|lia]. pose proof (pow2_mono k 63 ltac:(lia)). lia. }
  unfold BuddyHint_resolve, next_power_of_two. rewrite Hceil.
  change (overflowing (2 ^ 64)) with (if debug_assertions then Panic else @Ret Z 0).
  destruct debug_assertions eqn:Ed; cbn [obind]; [done|].
  assert (Hloop : ∀ o, grow_order fuel 0 len o = OutOfFuel).
  { induction fuel as [|f IH]; intros o; [done|]. cbn [grow_order].
    assert (Hadd : ∃ o', usz_add o 1 = Ret o') by
      (unfold usz_add, overflowing; rewrite Ed; case_match; eexists; reflexivity).
    destruct Hadd as [o' ->]. cbn [obind].
    assert (Hshl : usz_shl 0 o' = Ret 0) by
      (unfold usz_shl; rewrite Ed, !Z.shiftl_0_l; case_match; reflexivity).
    rewrite Hshl. cbn [obind]. destruct (Z.leb_spec 0 len); [apply IH|lia]. }
  destruct (Z.ltb_spec len 0); [lia|]. cbn [rbind obind]. by rewrite Hloop.
Qed.

(** C38: [BuddyHint::resolve] for a hint of at most [2^63] bytes (the
    others are below), on a region that can exist, returns a power-of-two block
    size, the hint rounded up or, when that exceeds the region, rounded
    down, with the largest order whose total fits the region; it refuses with
    [ZeroUsableSlots] exactly when neither rounding fits.  The loop needs no
    more than 64 iterations. *)
Theorem BuddyHint_resolve_correct {P : Profile} min len :
  0 < min ≤ 2 ^ 63 → 0 ≤ len ≤ isize_MAX →
  match BuddyHint_resolve RESOLVE_FUEL (MinAlloc min) len with
  | Ret (Ok (b, o)) =>
      (∃ k, 0 ≤ k ∧ b = 2 ^ k ∧ k + o < 63) ∧ 0 ≤ o ∧
      b = (if decide (ceil_pow2 min ≤ len) then ceil_pow2 min else 2 ^ Z.log2 min) ∧
      b * 2 ^ o ≤ len < b * 2 ^ (o + 1)
  | Ret (Err e) => e = ZeroUsableSlots ∧ len < 2 ^ Z.log2 min
  | _ => False
  end.
Proof. apply BuddyHint_resolve_spec. Qed.

Lemma BuddyHint_resolve_correct_witness :
  0 < 500 ≤ 2 ^ 63 ∧ 0 ≤ 5000 ≤ isize_MAX ∧ 512 * 2 ^ 3 ≤ 5000 < 512 * 2 ^ 4.
Proof.
  assert (H1 : 0 < 500 ≤ 2 ^ 63) by lia. assert (H2 : 0 ≤ 5000 ≤ isize_MAX) by (unfold isize_MAX; lia).
  pose proof (@BuddyHint_resolve_correct dev 500 5000 H1 H2) as H.
  split; [done|]. split; [done|]. exact (proj2 (proj2 (proj2 H))).
Defined.

(** C40: A minimum allocation above [2^63] has no representable power of two
    above it.  [BuddyHint::resolve] then panics in a build with overflow
    checks, and in a release build its loop never ends, whatever the region:
    the rounded size is 0 and 0 shifted never exceeds the region. *)
Theorem BuddyHint_resolve_overflow min len :
  2 ^ 63 < min ≤ usize_MAX → 0 ≤ len ≤ usize_MAX →
  (∀ fuel, BuddyHint_resolve (P := dev) fuel (MinAlloc min) len = Panic) ∧
  (∀ fuel, BuddyHint_resolve (P := release) fuel (MinAlloc min) len = OutOfFuel).
Proof.
  intros Hmin Hlen. split; intros fuel; by rewrite BuddyHint_resolve_huge.
Qed.

Lemma BuddyHint_resolve_overflow_witness :
  2 ^ 63 < usize_MAX ≤ usize_MAX ∧ 0 ≤ 4096 ≤ usize_MAX ∧
  (∀ fuel, BuddyHint_resolve (P := release) fuel (MinAlloc usize_MAX) 4096 = OutOfFuel).
Proof.
  assert (H1 : 2 ^ 63 < usize_MAX ≤ usize_MAX) by ulia. assert (H2 : 0 ≤ 4096 ≤ usize_MAX) by ulia.
  split; [done|]. split; [done|]. exact (proj2 (BuddyHint_resolve_overflow usize_MAX 4096 H1 H2)).
Defined.
