(* ===== verification/Metrics.v ===== *)
(** * [src/metrics.rs]: allocator counters

    Every counter is an [AtomicUsize] updated with [fetch_add]/[fetch_sub],
    which wrap in every profile. *)

From stdpp Require Import prelude numbers.
From S2P Require Import Prelude Usize.
Local Open Scope Z_scope.

Record MetricsState := mkMetricsState {
  allocations_ok : Z;
  allocations_failed : Z;
  frees : Z;
  frozen : Z;
  spills : Z;
  splits : Z;
  coalesces : Z;
  bytes_reserved : Z;
  bytes_live : Z;
}.

Definition metrics_new (bytes_reserved : Z) : MetricsState :=
  mkMetricsState 0 0 0 0 0 0 0 bytes_reserved 0.

Definition record_alloc_success (m : MetricsState) (capacity : Z) : MetricsState :=
  mkMetricsState (wrap (allocations_ok m + 1)) (allocations_failed m) (frees m) (frozen m)
    (spills m) (splits m) (coalesces m) (bytes_reserved m) (wrap (bytes_live m + capacity)).

Definition record_alloc_failure (m : MetricsState) : MetricsState :=
  mkMetricsState (allocations_ok m) (wrap (allocations_failed m + 1)) (frees m) (frozen m)
    (spills m) (splits m) (coalesces m) (bytes_reserved m) (bytes_live m).

Definition record_free (m : MetricsState) (capacity : Z) : MetricsState :=
  mkMetricsState (allocations_ok m) (allocations_failed m) (wrap (frees m + 1)) (frozen m)
    (spills m) (splits m) (coalesces m) (bytes_reserved m) (wrap (bytes_live m - capacity)).

Definition record_frozen (m : MetricsState) : MetricsState :=
  mkMetricsState (allocations_ok m) (allocations_failed m) (frees m) (wrap (frozen m + 1))
    (spills m) (splits m) (coalesces m) (bytes_reserved m) (bytes_live m).

Definition record_spill (m : MetricsState) : MetricsState :=
  mkMetricsState (allocations_ok m) (allocations_failed m) (frees m) (frozen m)
    (wrap (spills m + 1)) (splits m) (coalesces m) (bytes_reserved m) (bytes_live m).

Definition record_splits (m : MetricsState) (count : Z) : MetricsState :=
  mkMetricsState (allocations_ok m) (allocations_failed m) (frees m) (frozen m)
    (spills m) (wrap (splits m + count)) (coalesces m) (bytes_reserved m) (bytes_live m).

Definition record_coalesce (m : MetricsState) : MetricsState :=
  mkMetricsState (allocations_ok m) (allocations_failed m) (frees m) (frozen m)
    (spills m) (splits m) (wrap (coalesces m + 1)) (bytes_reserved m) (bytes_live m).

(** Snapshots.  A [usize] counter read as [u64] keeps its value. *)
Record FixedArenaMetrics := mkFixedArenaMetrics {
  fm_allocations_ok : Z;
  fm_allocations_failed : Z;
  fm_frees : Z;
  fm_frozen : Z;
  fm_spills : Z;
  fm_bytes_reserved : Z;
  fm_bytes_live : Z;
}.

Record BuddyArenaMetrics := mkBuddyArenaMetrics {
  bm_allocations_ok : Z;
  bm_allocations_failed : Z;
  bm_frees : Z;
  bm_frozen : Z;
  bm_spills : Z;
  bm_bytes_reserved : Z;
  bm_bytes_live : Z;
  bm_splits : Z;
  bm_coalesces : Z;
  bm_largest_free_block : Z;
}.

Definition fixed_snapshot (m : MetricsState) : FixedArenaMetrics :=
  mkFixedArenaMetrics (allocations_ok m) (allocations_failed m) (frees m) (frozen m) (spills m)
    (bytes_reserved m) (bytes_live m).

Definition buddy_snapshot (m : MetricsState) (largest_free_block : Z) : BuddyArenaMetrics :=
  mkBuddyArenaMetrics (allocations_ok m) (allocations_failed m) (frees m) (frozen m) (spills m)
    (bytes_reserved m) (bytes_live m) (splits m) (coalesces m) largest_free_block.

(** ** Accounting invariant

    [live] bytes are outstanding in [count] allocations: the live-bytes counter
    is exact, and the success and free counters differ by the number of
    outstanding allocations modulo [2^64]. *)
Record metrics_ok (m : MetricsState) (count live : Z) : Prop := {
  mo_live : bytes_live m = live;
  mo_range : 0 ≤ live ≤ usize_MAX;
  mo_count : (allocations_ok m - frees m - count) mod 2 ^ 64 = 0;
}.

Lemma metrics_new_ok r : metrics_ok (metrics_new r) 0 0.
Proof. split; [done|ulia|done]. Qed.

Lemma mod_congr_add a b c : (a - b) mod c = 0 → c ≠ 0 → (a mod c - b) mod c = 0.
Proof. intros H Hc. by rewrite Zminus_mod_idemp_l. Qed.

Lemma record_alloc_success_ok m count live c :
  metrics_ok m count live → 0 ≤ c → live + c ≤ usize_MAX →
  metrics_ok (record_alloc_success m c) (count + 1) (live + c).
Proof.
  intros [Hl Hr Hc] ??. split; simpl; [rewrite Hl; apply wrap_small; ulia|lia|].
  unfold wrap. rewrite <- Z.sub_add_distr, Zminus_mod_idemp_l, <- Hc. f_equal. lia.
Qed.

Lemma record_free_ok m count live c :
  metrics_ok m count live → 0 ≤ c ≤ live →
  metrics_ok (record_free m c) (count - 1) (live - c).
Proof.
  intros [Hl Hr Hc] ?. split; simpl; [rewrite Hl; apply wrap_small; ulia|ulia|].
  unfold wrap. rewrite <- Zminus_mod_idemp_l, Zminus_mod_idemp_r, Zminus_mod_idemp_l, <- Hc.
  f_equal. lia.
Qed.

Lemma metrics_ok_same m m' count live :
  metrics_ok m count live → bytes_live m' = bytes_live m → allocations_ok m' = allocations_ok m →
  frees m' = frees m → metrics_ok m' count live.
Proof. intros [] ? Ha Hf. split; [congruence|done|]. by rewrite Ha, Hf. Qed.
