(* ===== verification/Memory.v ===== *)
(** * Backing memory

    A byte store addressed by machine addresses; an absent address is
    uninitialised or not mapped.  [zeroize_region] and [prefault_region] of
    [src/arena.rs] are the only bulk writes of the crate itself. *)

From stdpp Require Import prelude numbers list gmap.
From S2P Require Import Prelude Usize.
Local Open Scope Z_scope.

(** [ptr.add(i).write(b)] for the bytes of a slice, in order. *)
Fixpoint write_bytes (m : gmap Z Z) (addr : Z) (bs : list Z) : gmap Z Z :=
  match bs with
  | [] => m
  | b :: bs' => write_bytes (<[addr := b]> m) (addr + 1) bs'
  end.

(** [slice::from_raw_parts(ptr, len)]: the bytes of a region, when all are
    initialised. *)
Definition read_bytes (m : gmap Z Z) (addr len : Z) : option (list Z) :=
  mapM (λ i, m !! (addr + i)) (seqZ 0 len).

Definition zeroize_region (m : gmap Z Z) (ptr len : Z) : gmap Z Z :=
  write_bytes m ptr (replicate (Z.to_nat len) 0).

(** [while offset < len { ptr.add(offset).write(0); offset += page_size }] *)
Fixpoint prefault_loop {P : Profile} (fuel : nat) (m : gmap Z Z) (ptr len page_size offset : Z)
    : outcome (gmap Z Z) :=
  match fuel with
  | O => OutOfFuel
  | S fuel' =>
      if offset <? len then
        let m' := <[ptr + offset := 0]> m in
        let! offset' := usz_add offset page_size in
        prefault_loop fuel' m' ptr len page_size offset'
      else Ret m
  end.

(** One iteration per page, and one to leave the loop. *)
Definition prefault_fuel (len page_size : Z) : nat := S (Z.to_nat (div_ceil len page_size)).

Definition prefault_region {P : Profile} (m : gmap Z Z) (ptr len page_size : Z)
    : outcome (gmap Z Z) :=
  prefault_loop (prefault_fuel len page_size) m ptr len page_size 0.

(** ** Regions *)

(** Every byte of a region is initialised to zero. *)
Definition all_zero (m : gmap Z Z) (addr len : Z) : Prop :=
  ∀ x, addr ≤ x < addr + len → m !! x = Some 0.

Lemma lookup_write_bytes m addr bs x :
  write_bytes m addr bs !! x =
    if decide (addr ≤ x < addr + Z.of_nat (length bs)) then bs !! Z.to_nat (x - addr) else m !! x.
Proof.
  revert m addr. induction bs as [|b bs IH]; intros m addr; simpl.
  { by rewrite decide_False by lia. }
  rewrite IH. destruct (decide (x = addr)) as [->|Hne].
  - rewrite decide_False, decide_True by lia. rewrite lookup_insert_eq.
    by replace (Z.to_nat (addr - addr)) with 0%nat by lia.
  - rewrite lookup_insert_ne by done.
    destruct (decide (addr ≤ x < addr + Z.of_nat (S (length bs)))).
    + rewrite decide_True by lia.
      by replace (Z.to_nat (x - addr)) with (S (Z.to_nat (x - (addr + 1)))) by lia.
    + by rewrite decide_False by lia.
Qed.

Lemma lookup_write_bytes_out m addr bs x :
  ¬ (addr ≤ x < addr + Z.of_nat (length bs)) → write_bytes m addr bs !! x = m !! x.
Proof. intros. by rewrite lookup_write_bytes, decide_False. Qed.

Lemma lookup_zeroize m ptr len x :
  zeroize_region m ptr len !! x = if decide (ptr ≤ x < ptr + len) then Some 0 else m !! x.
Proof.
  unfold zeroize_region. rewrite lookup_write_bytes, length_replicate.
  destruct (decide (ptr ≤ x < ptr + len)).
  - rewrite decide_True by lia. apply lookup_replicate_2. lia.
  - by rewrite decide_False by lia.
Qed.

Lemma zeroize_all_zero m ptr len : all_zero (zeroize_region m ptr len) ptr len.
Proof. intros x Hx. by rewrite lookup_zeroize, decide_True. Qed.

(** Two address ranges have no byte in common. *)
Definition disjoint_ranges (a la b lb : Z) : Prop := a + la ≤ b ∨ b + lb ≤ a ∨ la ≤ 0 ∨ lb ≤ 0.

Lemma zeroize_frame m ptr len addr n :
  disjoint_ranges ptr len addr n → all_zero m addr n → all_zero (zeroize_region m ptr len) addr n.
Proof.
  intros Hd Hz x Hx. rewrite lookup_zeroize, decide_False; [by apply Hz|].
  unfold disjoint_ranges in Hd. lia.
Qed.

Lemma zeroize_mono m ptr len addr n :
  all_zero m addr n → all_zero (zeroize_region m ptr len) addr n.
Proof. intros Hz x Hx. rewrite lookup_zeroize. case_decide; [done|by apply Hz]. Qed.

Lemma all_zero_sub m a n b k : all_zero m a n → a ≤ b → b + k ≤ a + n → all_zero m b k.
Proof. intros Hz ?? x Hx. apply Hz. lia. Qed.

Lemma write_frame m addr bs a n :
  disjoint_ranges addr (Z.of_nat (length bs)) a n → all_zero m a n → all_zero (write_bytes m addr bs) a n.
Proof.
  intros Hd Hz x Hx. rewrite lookup_write_bytes_out; [by apply Hz|].
  unfold disjoint_ranges in Hd. lia.
Qed.

Lemma mapM_lookup_ext (m m' : gmap Z Z) addr l :
  (∀ i, i ∈ l → m' !! (addr + i) = m !! (addr + i)) →
  mapM (λ i, m' !! (addr + i)) l = mapM (λ i, m !! (addr + i)) l.
Proof.
  intros Hext. induction l as [|i l IH]; [done|]. simpl.
  rewrite Hext by (by left). rewrite IH; [done|]. intros. apply Hext. by right.
Qed.

Lemma read_bytes_ext m m' addr len :
  (∀ x, addr ≤ x < addr + len → m' !! x = m !! x) → read_bytes m' addr len = read_bytes m addr len.
Proof. intros Hext. apply mapM_lookup_ext. intros i Hi%elem_of_seqZ. apply Hext. lia. Qed.

(** A successful read, byte by byte. *)
Lemma read_bytes_Some m addr len bs :
  0 ≤ len →
  read_bytes m addr len = Some bs ↔
  Z.of_nat (length bs) = len ∧ ∀ i b, bs !! i = Some b → m !! (addr + Z.of_nat i) = Some b.
Proof.
  intros Hlen. unfold read_bytes. rewrite mapM_Some, Forall2_same_length_lookup, length_seqZ. split.
  - intros [Hl Hb]. split; [lia|]. intros i b Hi. pose proof (lookup_lt_Some _ _ _ Hi).
    rewrite <- (Hb i (Z.of_nat i) b); [done| |done]. apply lookup_seqZ. lia.
  - intros [<- Hb]. split; [lia|]. intros i j b [-> ?]%lookup_seqZ Hi. rewrite Z.add_0_l. by apply Hb.
Qed.

(** Reading back what was written. *)
Lemma read_write_bytes m addr bs :
  read_bytes (write_bytes m addr bs) addr (Z.of_nat (length bs)) = Some bs.
Proof.
  unfold read_bytes. apply mapM_Some, Forall2_same_length_lookup. 
  rewrite length_seqZ, Nat2Z.id. split; [done|].
  intros i j b Hi Hb. apply lookup_seqZ in Hi as [-> Hi].
  rewrite lookup_write_bytes, decide_True by lia.
  by replace (Z.to_nat (addr + (0 + Z.of_nat i) - addr)) with i by lia.
Qed.

(** ** Prefaulting *)


Lemma div_ceil_lt len d i : 0 < d → 0 ≤ len → i * d < len ↔ i < div_ceil len d.
Proof.
  intros Hd Hl. unfold div_ceil. pose proof (Z.div_mod len d ltac:(lia)) as Hdm.
  pose proof (Z.mod_pos_bound len d Hd). set (q := len / d) in *. set (r := len mod d) in *.
  clearbody q r. destruct (Z.eqb_spec r 0); split; intros; nia.
Qed.

(** The address of page [j] of a region, and what a pass over the pages from
    page [i] on leaves behind. *)
Definition prefaulted (m m' : gmap Z Z) (ptr len ps i : Z) : Prop :=
  (∀ j, i ≤ j → j * ps < len → m' !! (ptr + j * ps) = Some 0) ∧
  (∀ x, (∀ j, i ≤ j → j * ps < len → x ≠ ptr + j * ps) → m' !! x = m !! x).

Lemma prefault_loop_ok {P : Profile} fuel m ptr len ps i :
  0 < ps ≤ usize_MAX → 0 ≤ len ≤ 2 ^ 63 - 1 → 0 ≤ i → div_ceil len ps - i < Z.of_nat fuel →
  (i = 0 ∨ (i - 1) * ps < len) →
  ∃ m', prefault_loop fuel m ptr len ps (i * ps) = Ret m' ∧ prefaulted m m' ptr len ps i.
Proof.
  intros Hps Hlen. revert m i. induction fuel as [|fuel IH]; intros m i Hi Hf Hprev.
  { exfalso. destruct Hprev as [->|Hp].
    - pose proof (div_ceil_lt len ps (-1) ltac:(lia) ltac:(lia)). nia.
    - apply div_ceil_lt in Hp; lia. }
  cbn [prefault_loop]. destruct (Z.ltb_spec (i * ps) len) as [Hlt|Hge].
  - assert (is_usize (i * ps + ps)).
    { destruct (decide (i = 0)) as [->|]; [ulia|]. assert (ps ≤ i * ps) by nia. ulia. }
    rewrite usz_add_ok by done. cbn [obind]. replace (i * ps + ps) with ((i + 1) * ps) by lia.
    destruct (IH (<[ptr + i * ps := 0]> m) (i + 1)) as (m' & -> & Hin & Hout);
      [lia|lia|right; by replace (i + 1 - 1) with i by lia|].
    exists m'. split; [done|]. split.
    + intros j Hj Hjl. destruct (decide (i = j)) as [<-|]; [|apply Hin; lia].
      rewrite Hout; [apply lookup_insert_eq|]. intros j Hj' _ Heq. nia.
    + intros x Hx. rewrite Hout by (intros; apply Hx; lia).
      apply lookup_insert_ne. intros <-. by apply (Hx i).
  - exists m. split; [done|]. split; [|done]. intros j Hj Hjl. nia.
Qed.

(** Prefaulting a region that can exist terminates without panicking, writes
    a zero to the first byte of every page and touches nothing else. *)
Theorem prefault_region_correct {P : Profile} m ptr len ps :
  0 < ps ≤ usize_MAX → 0 ≤ len ≤ 2 ^ 63 - 1 →
  ∃ m', prefault_region m ptr len ps = Ret m' ∧
    (∀ j, 0 ≤ j → j * ps < len → m' !! (ptr + j * ps) = Some 0) ∧
    (∀ x, (∀ j, 0 ≤ j → j * ps < len → x ≠ ptr + j * ps) → m' !! x = m !! x).
Proof.
  intros Hps Hlen. unfold prefault_region.
  destruct (prefault_loop_ok (prefault_fuel len ps) m ptr len ps 0) as (m' & Heq & Hm');
    [done|done|lia|unfold prefault_fuel; lia|by left|].
  exists m'. split; [exact Heq|done].
Qed.

Lemma prefault_region_correct_witness :
  0 < 4096 ≤ usize_MAX ∧ 0 ≤ 10000 ≤ 2 ^ 63 - 1 ∧
  ∃ m', prefault_region (P := dev) ∅ 65536 10000 4096 = Ret m' ∧
    (∀ j, 0 ≤ j → j * 4096 < 10000 → m' !! (65536 + j * 4096) = Some 0).
Proof.
  assert (H1 : 0 < 4096 ≤ usize_MAX) by ulia. assert (H2 : 0 ≤ 10000 ≤ 2 ^ 63 - 1) by lia.
  split; [done|]. split; [done|].
  destruct (@prefault_region_correct dev ∅ 65536 10000 4096 H1 H2) as (m' & Hm & Hz & _).
  by exists m'.
Defined.
