(* ===== verification/Config.v ===== *)
(** * Shared by both arenas

    From [src/arena.rs] the build configuration ([PageSize], [InitPolicy],
    [BuildConfig], [Unfaulted]); from [src/allocation.rs] [AllocationKind].
    [World] is what an arena operation reaches besides the arena: the memory,
    and the calls made on the waiters' wake handles, oldest first. *)

From stdpp Require Import prelude numbers list gmap.
From S2P Require Import Prelude Usize Errors SlotSpec Memory.
Local Open Scope Z_scope.

(** The platform: whether the crate is compiled for Unix with the [libc]
    feature, and what [sysconf(_SC_PAGESIZE)] returns there. *)
Class Platform := {
  unix_libc : bool;
  sysconf_PAGESIZE : Z;
}.

(** [sysconf(_SC_PAGESIZE)] is documented to return a positive value. *)
Class PlatformLaws (PF : Platform) : Prop :=
  sysconf_positive : 0 < sysconf_PAGESIZE ≤ isize_MAX.

Inductive PageSize :=
| Unknown
| Auto
| PSize (n : Z).

Inductive InitPolicy :=
| Uninit
| Zero.

#[export] Instance InitPolicy_eq_dec : EqDecision InitPolicy.
Proof. solve_decision. Defined.

Inductive AllocationKind :=
| KFixed (slot_idx : Z)
| KBuddy (order block_idx : Z).

#[export] Instance AllocationKind_eq_dec : EqDecision AllocationKind.
Proof. solve_decision. Defined.

Inductive wake_call :=
| WakeFixed
| WakeBuddy (order : Z).

Record World := mkWorld {
  w_mem : gmap Z Z;
  w_wakes : list wake_call;
}.

Definition set_mem (w : World) (m : gmap Z Z) : World := mkWorld m (w_wakes w).
Definition log_wake (w : World) (c : wake_call) : World := mkWorld (w_mem w) (w_wakes w ++ [c]).

Record BuildConfig := mkBuildConfig {
  bc_alignment : Z;
  bc_auto_spill : bool;
  bc_init_policy : InitPolicy;
  bc_page_size : PageSize;
}.

(** The deallocators an arena is built with: the global allocator with the
    layout of the allocation, none, or a value of the caller's own type, known
    here by a name only. *)
Inductive DeallocKind :=
| HeapDealloc (size align : Z)
| NoDealloc
| UserDealloc (name : nat).

(** The typestate of a builder. *)
Inductive Mode := Standard | AutoSpill | HazmatRaw.

Section operations.
Context {P : Profile} {PF : Platform}.

(** [ps as usize] of an [i64]. *)
Definition os_page_size : outcome Z :=
  let ps := sysconf_PAGESIZE in
  let! _ := debug_assert (0 <? ps) in
  Ret (wrap ps).

Definition PageSize_resolve (p : PageSize) : outcome (option Z) :=
  match p with
  | Unknown => Ret None
  | Auto => let! ps := os_page_size in Ret (Some ps)
  | PSize n => Ret (Some n)
  end.

Definition BuildConfig_new : BuildConfig :=
  mkBuildConfig 1 false Uninit (if unix_libc then Auto else Unknown).

Definition BuildConfig_new_raw_backed : BuildConfig :=
  let config := BuildConfig_new in
  mkBuildConfig (bc_alignment config) (bc_auto_spill config) (bc_init_policy config) Unknown.

Definition validate_alignment (c : BuildConfig) : result BuildError unit :=
  if negb (is_power_of_two (bc_alignment c)) then Err InvalidAlignment else Ok ().

(** [if let Some(ps) = page_size { prefault_region(ptr, len, ps) }]. *)
Definition prefault_if (page_size : option Z) (w : World) (ptr len : Z) : outcome World :=
  match page_size with
  | Some ps => let! m := prefault_region (w_mem w) ptr len ps in Ret (set_mem w m)
  | None => Ret w
  end.
End operations.

Definition set_alignment (c : BuildConfig) (n : Z) : BuildConfig :=
  mkBuildConfig n (bc_auto_spill c) (bc_init_policy c) (bc_page_size c).
Definition set_auto_spill (c : BuildConfig) : BuildConfig :=
  mkBuildConfig (bc_alignment c) true (bc_init_policy c) (bc_page_size c).
Definition set_init_policy (c : BuildConfig) (p : InitPolicy) : BuildConfig :=
  mkBuildConfig (bc_alignment c) (bc_auto_spill c) p (bc_page_size c).
Definition set_page_size (c : BuildConfig) (p : PageSize) : BuildConfig :=
  mkBuildConfig (bc_alignment c) (bc_auto_spill c) (bc_init_policy c) p.

(** [Layout::from_size_align(size, align).is_ok()]: a power-of-two alignment
    whose rounded-up size does not exceed [isize::MAX]. *)
Definition layout_ok (size align : Z) : bool :=
  is_power_of_two align && (size <=? isize_MAX - (align - 1)).

(** The global allocator, [alloc::alloc::alloc]: its answer to the request for
    a size and an alignment, 0 for null. *)
Class GlobalAlloc := global_alloc : Z → Z → Z.

(** It returns null or an aligned block of the address space. *)
Class GlobalAllocLaws (GA : GlobalAlloc) : Prop :=
  global_alloc_block size align :
    0 < size → layout_ok size align = true →
    global_alloc size align = 0 ∨
    (0 < global_alloc size align ∧ (align | global_alloc size align) ∧
     global_alloc size align + size ≤ usize_MAX + 1).

Record Unfaulted (A : Type) := mkUnfaulted {
  u_ptr : Z;
  u_total_size : Z;
  u_page_size : option Z;
  u_inner : A;
}.
Arguments mkUnfaulted {_} _ _ _ _.
Arguments u_ptr {_} _.
Arguments u_total_size {_} _.
Arguments u_page_size {_} _.
Arguments u_inner {_} _.

Definition fault_pages {P : Profile} {A} (u : Unfaulted A) (w : World) : outcome (A * World) :=
  let! w' := prefault_if (u_page_size u) w (u_ptr u) (u_total_size u) in
  Ret (u_inner u, w').

Definition into_inner {A} (u : Unfaulted A) : A := u_inner u.

(** ** Lemmas *)

Lemma layout_ok_spec size align :
  layout_ok size align = true ↔
  ∃ k, 0 ≤ k ∧ align = 2 ^ k ∧ size ≤ isize_MAX - (2 ^ k - 1).
Proof.
  unfold layout_ok. rewrite andb_true_iff, is_power_of_two_spec, Z.leb_le. naive_solver.
Qed.

(** Memory outside a region is the same in two worlds. *)
Definition same_outside (w w' : World) (addr len : Z) : Prop :=
  ∀ x, ¬ (addr ≤ x < addr + len) → w_mem w' !! x = w_mem w !! x.

Lemma same_outside_refl w addr len : same_outside w w addr len.
Proof. by intros x _. Qed.

Lemma same_outside_zeroize w addr len :
  same_outside w (set_mem w (zeroize_region (w_mem w) addr len)) addr len.
Proof. intros x Hx. simpl. by rewrite lookup_zeroize, decide_False. Qed.

Lemma same_outside_log w w' c addr len :
  same_outside w w' addr len → same_outside w (log_wake w' c) addr len.
Proof. done. Qed.

Lemma same_outside_all_zero w w' addr len a n :
  same_outside w w' addr len → disjoint_ranges addr len a n →
  all_zero (w_mem w) a n → all_zero (w_mem w') a n.
Proof.
  intros Hs Hd Hz x Hx. rewrite Hs; [by apply Hz|]. unfold disjoint_ranges in Hd. lia.
Qed.

Lemma same_outside_read w w' addr len a n :
  same_outside w w' addr len → disjoint_ranges addr len a n →
  read_bytes (w_mem w') a n = read_bytes (w_mem w) a n.
Proof.
  intros Hs Hd. apply read_bytes_ext. intros x Hx. apply Hs. unfold disjoint_ranges in Hd. lia.
Qed.

Section lemmas.
Context {P : Profile} {PF : Platform}.

(** A page size the loop can advance by. *)
Definition page_ok (ps : option Z) : Prop :=
  match ps with Some n => 0 < n ≤ usize_MAX | None => True end.

Lemma PageSize_resolve_ok {L : PlatformLaws PF} p :
  match p with PSize n => 0 < n ≤ usize_MAX | _ => True end →
  ∃ ps, PageSize_resolve p = Ret ps ∧ page_ok ps ∧ (p = Unknown → ps = None).
Proof.
  intros Hp. destruct p as [| |n]; simpl; [by eexists| |by eexists].
  unfold os_page_size. pose proof sysconf_positive as Hps.
  rewrite debug_assert_true by lia. simpl. eexists. split; [done|]. simpl.
  unfold isize_MAX in *. rewrite wrap_small by ulia. split; [ulia|done].
Qed.

(** Prefaulting stays inside its region. *)
Lemma prefault_if_ok ps w ptr len :
  page_ok ps → 0 ≤ len ≤ isize_MAX →
  ∃ w', prefault_if ps w ptr len = Ret w' ∧ same_outside w w' ptr len ∧ w_wakes w' = w_wakes w.
Proof.
  intros Hps Hlen. destruct ps as [n|]; simpl; [|by exists w].
  destruct (prefault_loop_ok (prefault_fuel len n) (w_mem w) ptr len n 0) as (m' & Heq & _ & Hm');
    [done|unfold isize_MAX in *; lia|lia|unfold prefault_fuel; lia|by left|].
  unfold prefault_region. rewrite Z.mul_0_l in Heq. rewrite Heq. cbn [obind].
  eexists. split; [done|]. split; [|done].
  intros x Hx. simpl. apply Hm'. intros j Hj Hjl ->. simpl in Hps.
  assert (0 ≤ j * n) by nia. lia.
Qed.
End lemmas.

(** ** A concrete platform and allocator, for examples *)

Definition demo_platform : Platform := {| unix_libc := true; sysconf_PAGESIZE := 4096 |}.

Definition demo_alloc : GlobalAlloc := λ size align,
  if (align <=? 2 ^ 40) && (size <=? 2 ^ 40) then 4096 * align else 0.

Lemma demo_platform_laws : PlatformLaws demo_platform.
Proof. unfold PlatformLaws, isize_MAX. simpl. lia. Qed.

Lemma demo_alloc_laws : GlobalAllocLaws demo_alloc.
Proof.
  intros size align Hs (k & Hk & -> & _)%layout_ok_spec. unfold global_alloc, demo_alloc.
  destruct (Z.leb_spec (2 ^ k) (2 ^ 40)), (Z.leb_spec size (2 ^ 40)); simpl; try by left.
  right. assert (0 < 2 ^ k) by lia. split_and!; [lia|by eexists|ulia].
Qed.
