(* ===== verification/Dealloc.v ===== *)
(** * Giving the backing memory back ([src/dealloc.rs])

    The deallocator of an arena is boxed and its type erased when the arena is
    built; the drop of the arena takes it out, leaving a sentinel, and runs it.
    Boxes are modelled as a store of their own, so that a box freed twice, used
    after it was freed, or leaked shows. *)

From stdpp Require Import prelude numbers list gmap.
From S2P Require Import Prelude Usize Config.
Local Open Scope Z_scope.

(** What a deallocator does to the outside. *)
Inductive dealloc_event :=
| GlobalDealloc (ptr size align : Z)
| UserDeallocCall (name : nat) (ptr len : Z).

(** The boxes that are live, by address, and what was deallocated so far. *)
Record Boxes := mkBoxes {
  bx_live : gmap Z DeallocKind;
  bx_next : Z;
  bx_log : list dealloc_event;
}.

(** [Dealloc::dealloc] of each implementation. *)
Definition dealloc_events (d : DeallocKind) (ptr len : Z) : list dealloc_event :=
  match d with
  | HeapDealloc size align => [GlobalDealloc ptr size align]
  | NoDealloc => []
  | UserDealloc name => [UserDeallocCall name ptr len]
  end.

Definition log_dealloc (bx : Boxes) (evs : list dealloc_event) : Boxes :=
  mkBoxes (bx_live bx) (bx_next bx) (bx_log bx ++ evs).

(** [Box::into_raw(Box::new(d))]; a fresh address is not null. *)
Definition box_new (d : DeallocKind) (bx : Boxes) : Z * Boxes :=
  (bx_next bx, mkBoxes (<[bx_next bx := d]> (bx_live bx)) (bx_next bx + 1) (bx_log bx)).

(** [*Box::from_raw(data)]: reclaiming what is not a live box is undefined
    behaviour, [Panic] here. *)
Definition box_from_raw (data : Z) (bx : Boxes) : outcome (DeallocKind * Boxes) :=
  match bx_live bx !! data with
  | Some d => Ret (d, mkBoxes (delete data (bx_live bx)) (bx_next bx) (bx_log bx))
  | None => Panic
  end.

(** The function pointers: those made for the boxed type, and the sentinel's. *)
Inductive erased_fn := FnD | FnNoop.

Record ErasedDealloc := mkErasedDealloc {
  ed_data : Z;
  ed_drop_fn : erased_fn;
  ed_free_fn : erased_fn;
}.

Section operations.
Context {P : Profile}.

(** [drop_fn::<D>] and [noop_fn]. *)
Definition drop_fn (f : erased_fn) (data ptr len : Z) (bx : Boxes) : outcome Boxes :=
  match f with
  | FnD =>
      let! _ := debug_assert (negb (data =? 0)) in
      let! (dealloc, bx) := box_from_raw data bx in
      Ret (log_dealloc bx (dealloc_events dealloc ptr len))
  | FnNoop => Ret bx
  end.

(** [free_fn::<D>] and [noop_free]. *)
Definition free_fn (f : erased_fn) (data : Z) (bx : Boxes) : outcome Boxes :=
  match f with
  | FnD =>
      if negb (data =? 0) then let! (_, bx) := box_from_raw data bx in Ret bx else Ret bx
  | FnNoop => Ret bx
  end.

Definition ErasedDealloc_new (d : DeallocKind) (bx : Boxes) : ErasedDealloc * Boxes :=
  let '(data, bx) := box_new d bx in (mkErasedDealloc data FnD FnD, bx).

Definition ErasedDealloc_noop : ErasedDealloc := mkErasedDealloc 0 FnNoop FnNoop.

Definition ErasedDealloc_drop (e : ErasedDealloc) (bx : Boxes) : outcome Boxes :=
  free_fn (ed_free_fn e) (ed_data e) bx.

(** The data pointer is nulled first, so that the drop of [self] at the end
    finds nothing to free. *)
Definition ErasedDealloc_dealloc (e : ErasedDealloc) (ptr len : Z) (bx : Boxes) : outcome Boxes :=
  let data := ed_data e in
  let self := mkErasedDealloc 0 (ed_drop_fn e) (ed_free_fn e) in
  let! bx := drop_fn (ed_drop_fn self) data ptr len bx in
  ErasedDealloc_drop self bx.

(** [Drop] of [ArenaInner] and [BuddyArenaInner]: replace the deallocator by
    the sentinel, run it, then the drop of the field itself. *)
Definition inner_drop (field : ErasedDealloc) (ptr len : Z) (bx : Boxes) : outcome Boxes :=
  let dealloc := field in
  let field := ErasedDealloc_noop in
  let! bx := ErasedDealloc_dealloc dealloc ptr len bx in
  ErasedDealloc_drop field bx.
End operations.

(** Every live box has an address handed out before. *)
Definition boxes_wf (bx : Boxes) : Prop :=
  0 < bx_next bx ∧ ∀ a, a ∈ dom (bx_live bx) → 0 < a < bx_next bx.

Lemma boxes_fresh bx : boxes_wf bx → bx_live bx !! bx_next bx = None.
Proof.
  intros [_ Hw]. apply not_elem_of_dom. intros Hin. specialize (Hw _ Hin). lia.
Qed.

(** A boxed deallocator, and the store with it taken out again. *)
Definition boxed (e : ErasedDealloc) (d : DeallocKind) (bx : Boxes) : Prop :=
  e = mkErasedDealloc (ed_data e) FnD FnD ∧ 0 < ed_data e ∧ bx_live bx !! ed_data e = Some d.

Definition unboxed (e : ErasedDealloc) (bx : Boxes) : Boxes :=
  mkBoxes (delete (ed_data e) (bx_live bx)) (bx_next bx) (bx_log bx).

Lemma boxed_new d bx :
  boxes_wf bx → boxed (ErasedDealloc_new d bx).1 d (ErasedDealloc_new d bx).2.
Proof. intros [Hn _]. split_and!; [done..|]. simpl. by rewrite lookup_insert_eq. Qed.

Lemma unboxed_new d bx :
  boxes_wf bx → bx_live (unboxed (ErasedDealloc_new d bx).1 (ErasedDealloc_new d bx).2) = bx_live bx.
Proof. intros Hw. simpl. rewrite delete_insert_id; [done|]. by apply boxes_fresh. Qed.

Lemma inner_drop_ok {P : Profile} e d ptr len bx :
  boxed e d bx → inner_drop e ptr len bx = Ret (log_dealloc (unboxed e bx) (dealloc_events d ptr len)).
Proof.
  intros (-> & Hpos & Hl). unfold inner_drop, ErasedDealloc_dealloc, ErasedDealloc_drop. simpl in *.
  rewrite debug_assert_true by (apply negb_true_iff, Z.eqb_neq; lia). cbn [obind].
  unfold box_from_raw. by rewrite Hl.
Qed.

(** A box that is dropped without having been run is freed, and nothing else. *)
Lemma ErasedDealloc_drop_ok {P : Profile} e d bx :
  boxed e d bx → ErasedDealloc_drop e bx = Ret (unboxed e bx).
Proof.
  intros (-> & Hpos & Hl). unfold ErasedDealloc_drop. simpl in *.
  rewrite (proj2 (Z.eqb_neq _ _)) by lia. cbn [negb]. unfold box_from_raw. by rewrite Hl.
Qed.
