(* ===== verification/Buffer.v ===== *)
(** * [src/buffer.rs]: the writable buffer, its data

    [Buffer] with its constructors and the accessors that do not reach the
    arena.  [BytesMut] belongs to the [bytes] crate: [BytesLib] is what the
    code calls of it and [BytesLaws] what that crate documents.  A call that
    allocates may panic or abort, so it is an [outcome].  The owning arena
    reference of a buffer is the arena state the operations of [BufferOps] are
    given. *)

From stdpp Require Import prelude numbers list gmap.
From S2P Require Import Prelude Usize Errors SlotSpec Memory Config.
Local Open Scope Z_scope.

Class BytesLib := {
  BytesMut : Type;
  BytesMut_with_capacity : Z → outcome BytesMut;
  BytesMut_from : list Z → outcome BytesMut;
  BytesMut_extend_from_slice : BytesMut → list Z → outcome BytesMut;
  BytesMut_len : BytesMut → Z;
  BytesMut_is_empty : BytesMut → bool;
  BytesMut_remaining_mut : BytesMut → Z;
  (** The buffer after the call, and the length of the chunk returned. *)
  BytesMut_chunk_mut : BytesMut → outcome (BytesMut * Z);
  (** A write to the front of the chunk last returned. *)
  BytesMut_write : BytesMut → list Z → BytesMut;
  BytesMut_advance_mut : BytesMut → Z → outcome BytesMut;
  BytesMut_freeze : BytesMut → list Z;
}.

(** [BytesMut] is a growable byte vector: [view] is its contents.  The first
    group of laws is what a call that returns has done.  The second is the
    growth the crate documents ("implicitly grow its buffer as necessary",
    [remaining_mut] being what can still be written and [chunk_mut] empty only
    when that is nothing), for as much memory as there is: [BytesMut_limit] is a
    size up to which the heap serves a buffer, whatever it is on the platform.
    Past it nothing is said: the call may panic, abort or return. *)
Class BytesLaws (B : BytesLib) := {
  view : BytesMut → list Z;
  view_with_capacity n b : BytesMut_with_capacity n = Ret b → view b = [];
  view_from bs b : BytesMut_from bs = Ret b → view b = bs;
  view_extend b bs b' : BytesMut_extend_from_slice b bs = Ret b' → view b' = view b ++ bs;
  BytesMut_len_view b : BytesMut_len b = Z.of_nat (length (view b));
  BytesMut_is_empty_view b : BytesMut_is_empty b = bool_decide (view b = []);
  view_chunk b b' n : BytesMut_chunk_mut b = Ret (b', n) → view b' = view b ∧ 0 ≤ n;
  view_advance b b' n bs :
    BytesMut_chunk_mut b = Ret (b', n) → Z.of_nat (length bs) ≤ n →
    ∃ b'', BytesMut_advance_mut (BytesMut_write b' bs) (Z.of_nat (length bs)) = Ret b'' ∧
      view b'' = view b ++ bs;
  view_freeze b : BytesMut_freeze b = view b;

  BytesMut_limit : Z;
  with_capacity_grows n : 0 ≤ n ≤ BytesMut_limit → ∃ b, BytesMut_with_capacity n = Ret b;
  from_grows bs : Z.of_nat (length bs) ≤ BytesMut_limit → ∃ b, BytesMut_from bs = Ret b;
  extend_grows b bs :
    Z.of_nat (length (view b ++ bs)) ≤ BytesMut_limit → ∃ b', BytesMut_extend_from_slice b bs = Ret b';
  chunk_grows b :
    Z.of_nat (length (view b)) < BytesMut_limit → ∃ b' n, BytesMut_chunk_mut b = Ret (b', n) ∧ 0 < n;
  remaining_grows b : BytesMut_limit ≤ Z.of_nat (length (view b)) + BytesMut_remaining_mut b;
}.

Section buffer.
Context {B : BytesLib}.

Record Buffer := mkBuffer {
  b_allocation : AllocationKind;
  b_ptr : Z;
  b_auto_spill : bool;
  b_offset : Z;
  b_capacity : Z;
  b_len : Z;
  b_released : bool;
  b_spilled : option BytesMut;
}.

Definition new_fixed (ptr : Z) (auto_spill : bool) (slot_idx offset capacity : Z) : Buffer :=
  mkBuffer (KFixed slot_idx) ptr auto_spill offset capacity 0 false None.

Definition new_buddy (ptr : Z) (auto_spill : bool) (order block_idx offset capacity : Z)
    : Buffer :=
  mkBuffer (KBuddy order block_idx) ptr auto_spill offset capacity 0 false None.

Definition buffer_capacity (b : Buffer) : Z := b_capacity b.

Definition buffer_len (b : Buffer) : Z :=
  match b_spilled b with
  | Some buf => BytesMut_len buf
  | None => b_len b
  end.

Definition buffer_is_empty (b : Buffer) : bool :=
  match b_spilled b with
  | Some buf => BytesMut_is_empty buf
  | None => b_len b =? 0
  end.

Definition is_spilled (b : Buffer) : bool :=
  match b_spilled b with Some _ => true | None => false end.

Context {P : Profile}.

Definition remaining_mut (b : Buffer) : outcome Z :=
  match b_spilled b with
  | Some buf => Ret (BytesMut_remaining_mut buf)
  | None =>
      if b_auto_spill b then Ret usize_MAX
      else usz_sub (b_capacity b) (b_len b)
  end.

Definition will_fit (b : Buffer) (len : Z) : outcome bool :=
  let! r := remaining_mut b in Ret (len <=? r).

Definition advance_mut (b : Buffer) (cnt : Z) : outcome Buffer :=
  match b_spilled b with
  | Some buf =>
      let! buf' := BytesMut_advance_mut buf cnt in
      Ret (mkBuffer (b_allocation b) (b_ptr b) (b_auto_spill b) (b_offset b) (b_capacity b)
             (b_len b) (b_released b) (Some buf'))
  | None =>
      let! n := usz_add (b_len b) cnt in
      let! _ := assert_ (n <=? b_capacity b) in
      let! len := usz_add (b_len b) cnt in
      Ret (mkBuffer (b_allocation b) (b_ptr b) (b_auto_spill b) (b_offset b) (b_capacity b)
             len (b_released b) None)
  end.
End buffer.

(** ** A concrete [BytesMut], for examples: contents, and the spare capacity's
    bytes written since the last [advance_mut].  No allocation is larger than
    [isize::MAX], and a chunk is 64 bytes where there is room for them. *)

Definition list_room (n : Z) : outcome () := assert_ (n <=? isize_MAX).

Definition list_bytes : BytesLib := {|
  BytesMut := list Z * list Z;
  BytesMut_with_capacity n := let! _ := list_room n in Ret ([], []);
  BytesMut_from bs := let! _ := list_room (Z.of_nat (length bs)) in Ret (bs, []);
  BytesMut_extend_from_slice b bs :=
    let! _ := list_room (Z.of_nat (length (b.1 ++ bs))) in Ret (b.1 ++ bs, []);
  BytesMut_len b := Z.of_nat (length b.1);
  BytesMut_is_empty b := bool_decide (b.1 = []);
  BytesMut_remaining_mut b := isize_MAX - Z.of_nat (length b.1);
  BytesMut_chunk_mut b :=
    Ret ((b.1, []), Z.max 0 (Z.min 64 (isize_MAX - Z.of_nat (length b.1))));
  BytesMut_write b bs := (b.1, bs);
  BytesMut_advance_mut b n := Ret (b.1 ++ take (Z.to_nat n) b.2, []);
  BytesMut_freeze b := b.1;
|}.

Lemma list_room_ok n : n ≤ isize_MAX → list_room n = Ret ().
Proof. intros Hn. unfold list_room. by rewrite (proj2 (Z.leb_le _ _)). Qed.

Definition list_bytes_laws : BytesLaws list_bytes.
Proof.
  refine {| view := fst : @BytesMut list_bytes → list Z; BytesMut_limit := isize_MAX |}; simpl; try done.
  - intros n b (_ & _ & [= <-])%obind_Ret_inv. done.
  - intros bs b (_ & _ & [= <-])%obind_Ret_inv. done.
  - intros b bs b' (_ & _ & [= <-])%obind_Ret_inv. done.
  - intros b b' n [= <- <-]. split; [done|lia].
  - intros b b' n bs [= <- <-] _. eexists. split; [reflexivity|]. simpl.
    by rewrite Nat2Z.id, take_ge by done.
  - intros n Hn. rewrite list_room_ok by lia. by eexists.
  - intros bs Hn. rewrite list_room_ok by done. by eexists.
  - intros b bs Hn. rewrite list_room_ok by done. by eexists.
  - intros b Hn. do 2 eexists. split; [reflexivity|lia].
  - intros b. lia.
Defined.
