(* ===== verification/FixedArena.v ===== *)
(** * [src/arena.rs]: the fixed-slot arena

    [ArenaInner] behind the [Arc], its builders, [allocate], the fixed branch
    of [ArenaRef::release] ([src/allocation.rs]) and [raw_alloc]
    ([src/hazmat/raw_region.rs]).  An operation takes and returns the arena
    and the [World].  The builders ask the global allocator
    ([GlobalAlloc]) for the backing memory. *)

From stdpp Require Import prelude numbers list gmap.
From S2P Require Import Prelude Usize Errors Bitmap BitmapRange SlotSpec Metrics Memory Config.
From S2P Require Import Buffer.
Local Open Scope Z_scope.

Record ArenaInner := mkArenaInner {
  a_ptr : Z;
  a_total_size : Z;
  a_slot_capacity : Z;
  a_slot_count : Z;
  a_bitmap : AtomicBitmap;
  a_auto_spill : bool;
  a_init_policy : InitPolicy;
  a_metrics : MetricsState;
  a_zeroed_bitmap : option AtomicBitmap;
  a_dealloc : DeallocKind;
  a_wake_handle : bool;
}.

(** Updates through the shared reference. *)
Definition a_set (a : ArenaInner) (bm : AtomicBitmap) (m : MetricsState)
    (z : option AtomicBitmap) : ArenaInner :=
  mkArenaInner (a_ptr a) (a_total_size a) (a_slot_capacity a) (a_slot_count a) bm
    (a_auto_spill a) (a_init_policy a) m z (a_dealloc a) (a_wake_handle a).

Definition a_set_metrics (a : ArenaInner) (m : MetricsState) : ArenaInner :=
  a_set a (a_bitmap a) m (a_zeroed_bitmap a).

(** The builders. *)
Record FixedArenaBuilder (mode : Mode) := mkFixedArenaBuilder {
  fb_slot_count : Z;
  fb_slot_capacity : Z;
  fb_config : BuildConfig;
}.
Arguments fb_slot_count {_} _.
Arguments fb_slot_capacity {_} _.
Arguments fb_config {_} _.

Record RawBackedFixedArenaBuilder := mkRawBackedFixedArenaBuilder {
  rfb_ptr : Z;
  rfb_len : Z;
  rfb_spec : SlotSpec;
  rfb_dealloc : DeallocKind;
  rfb_config : BuildConfig;
}.

Section builders.
Context {P : Profile} {PF : Platform} {GA : GlobalAlloc}.

Definition with_slot_capacity (slot_count slot_capacity : Z) : FixedArenaBuilder Standard :=
  mkFixedArenaBuilder Standard slot_count slot_capacity BuildConfig_new.

(** [NonZeroUsize::new(per_slot).unwrap()] panics on zero. *)
Definition with_arena_capacity (slot_count arena_capacity : Z)
    : outcome (FixedArenaBuilder Standard) :=
  let per_slot := div_ceil arena_capacity slot_count in
  let! _ := assert_ (negb (per_slot =? 0)) in
  Ret (mkFixedArenaBuilder Standard slot_count per_slot BuildConfig_new).

Definition fixed_from_raw (ptr len : Z) (spec : SlotSpec) (dealloc : DeallocKind)
    : RawBackedFixedArenaBuilder :=
  mkRawBackedFixedArenaBuilder ptr len spec dealloc BuildConfig_new_raw_backed.

(** [buf] is the address and the length of the slice. *)
Definition fixed_from_static (buf : Z * Z) (spec : SlotSpec) : RawBackedFixedArenaBuilder :=
  fixed_from_raw buf.1 buf.2 spec NoDealloc.

Definition fixed_alignment {m} (b : FixedArenaBuilder m) (n : Z) : FixedArenaBuilder m :=
  mkFixedArenaBuilder m (fb_slot_count b) (fb_slot_capacity b) (set_alignment (fb_config b) n).
Definition fixed_init_policy {m} (b : FixedArenaBuilder m) (p : InitPolicy)
    : FixedArenaBuilder m :=
  mkFixedArenaBuilder m (fb_slot_count b) (fb_slot_capacity b) (set_init_policy (fb_config b) p).
Definition fixed_page_size {m} (b : FixedArenaBuilder m) (p : PageSize) : FixedArenaBuilder m :=
  mkFixedArenaBuilder m (fb_slot_count b) (fb_slot_capacity b) (set_page_size (fb_config b) p).
Definition fixed_auto_spill (b : FixedArenaBuilder Standard) : FixedArenaBuilder AutoSpill :=
  mkFixedArenaBuilder AutoSpill (fb_slot_count b) (fb_slot_capacity b)
    (set_auto_spill (fb_config b)).
Definition fixed_hazmat_raw_access (b : FixedArenaBuilder Standard)
    : FixedArenaBuilder HazmatRaw :=
  mkFixedArenaBuilder HazmatRaw (fb_slot_count b) (fb_slot_capacity b) (fb_config b).

Definition raw_fixed_init_policy (b : RawBackedFixedArenaBuilder) (p : InitPolicy) :=
  mkRawBackedFixedArenaBuilder (rfb_ptr b) (rfb_len b) (rfb_spec b) (rfb_dealloc b)
    (set_init_policy (rfb_config b) p).
Definition raw_fixed_alignment (b : RawBackedFixedArenaBuilder) (n : Z) :=
  mkRawBackedFixedArenaBuilder (rfb_ptr b) (rfb_len b) (rfb_spec b) (rfb_dealloc b)
    (set_alignment (rfb_config b) n).

(** [match init_policy { Zero => Some(new_empty(n)), Uninit => None }]. *)
Definition new_zeroed_bitmap (p : InitPolicy) (n : Z) : outcome (option AtomicBitmap) :=
  match p with
  | Zero => let! z := bitmap_new_empty n in Ret (Some z)
  | Uninit => Ret None
  end.

Definition build_inner {m} (b : FixedArenaBuilder m) (wake_handle : bool)
    : outcome (result BuildError ArenaInner) :=
  let c := fb_config b in
  let? _ := Ret (validate_alignment c) in
  let slot_count := fb_slot_count b in
  let slot_capacity := fb_slot_capacity b in
  let! up := align_up slot_capacity (bc_alignment c) in
  let? aligned_capacity := Ret (ok_or up SizeOverflow) in
  let? total_size := Ret (ok_or (checked_mul slot_count aligned_capacity) SizeOverflow) in
  if negb (layout_ok total_size (bc_alignment c)) then Ret (Err SizeOverflow)
  else
    let ptr := global_alloc total_size (bc_alignment c) in
    let! _ := assert_ (negb (ptr =? 0)) in
    let! zeroed_bitmap := new_zeroed_bitmap (bc_init_policy c) slot_count in
    let! bitmap := bitmap_new slot_count in
    Ret (Ok (mkArenaInner ptr total_size aligned_capacity slot_count bitmap (bc_auto_spill c)
               (bc_init_policy c) (metrics_new total_size) zeroed_bitmap
               (HeapDealloc total_size (bc_alignment c)) wake_handle)).

(** The prefault step shared by the builders; the length is only computed
    when there is a page size. *)
Definition prefault_slots (page_size : option Z) (w : World) (a : ArenaInner) : outcome World :=
  match page_size with
  | Some ps =>
      let! len := usz_mul (a_slot_count a) (a_slot_capacity a) in
      prefault_if (Some ps) w (a_ptr a) len
  | None => Ret w
  end.

Definition build_fixed {m} (b : FixedArenaBuilder m) (wake_handle : bool) (w : World)
    : outcome (result BuildError (ArenaInner * World)) :=
  let! page_size := PageSize_resolve (bc_page_size (fb_config b)) in
  let? arena := build_inner b wake_handle in
  let! w' := prefault_slots page_size w arena in
  Ret (Ok (arena, w')).

Definition build_fixed_unfaulted {m} (b : FixedArenaBuilder m)
    : outcome (result BuildError (Unfaulted ArenaInner)) :=
  let! page_size := PageSize_resolve (bc_page_size (fb_config b)) in
  let? arena := build_inner b false in
  let! total_size := usz_mul (a_slot_count arena) (a_slot_capacity arena) in
  Ret (Ok (mkUnfaulted (a_ptr arena) total_size page_size arena)).

Definition raw_fixed_build (b : RawBackedFixedArenaBuilder) (w : World)
    : outcome (result BuildError (ArenaInner * World)) :=
  let c := rfb_config b in
  if rfb_ptr b =? 0 then Ret (Err NullPointer)
  else
    let? _ := Ret (validate_alignment c) in
    let! page_size := PageSize_resolve (bc_page_size c) in
    let? (slot_count, slot_capacity) := SlotSpec_resolve (rfb_spec b) (rfb_len b) (bc_alignment c) in
    let! zeroed_bitmap := new_zeroed_bitmap (bc_init_policy c) slot_count in
    let! bitmap := bitmap_new slot_count in
    let! reserved := usz_mul slot_count slot_capacity in
    let arena := mkArenaInner (rfb_ptr b) (rfb_len b) slot_capacity slot_count bitmap false
                   (bc_init_policy c) (metrics_new reserved) zeroed_bitmap (rfb_dealloc b)
                   false in
    let! w' := prefault_slots page_size w arena in
    Ret (Ok (arena, w')).
End builders.

Section operations.
Context {P : Profile} {B : BytesLib}.

Definition fixed_metrics (a : ArenaInner) : FixedArenaMetrics := fixed_snapshot (a_metrics a).

(** Zero a claimed slot unless it was scrubbed when it was last returned. *)
Definition fixed_zero_cold (a : ArenaInner) (w : World) (slot_idx offset : Z) : outcome World :=
  match a_init_policy a with
  | Zero =>
      match a_zeroed_bitmap a with
      | Some zeroed_bm =>
          let! e := usz_add slot_idx 1 in
          let! warm := all_set_in_range zeroed_bm slot_idx e in
          if negb warm then
            Ret (set_mem w (zeroize_region (w_mem w) (a_ptr a + offset) (a_slot_capacity a)))
          else Ret w
      | None => Ret w
      end
  | Uninit => Ret w
  end.

(** The body shared by [allocate] and [raw_alloc]: the slot and its offset. *)
Definition fixed_claim (a : ArenaInner) (w : World)
    : outcome (result AllocError (Z * Z) * ArenaInner * World) :=
  let! (r, bm) := try_alloc (a_bitmap a) in
  match r with
  | None =>
      Ret (Err ArenaFull, a_set a bm (record_alloc_failure (a_metrics a)) (a_zeroed_bitmap a), w)
  | Some slot_idx =>
      let! offset := usz_mul slot_idx (a_slot_capacity a) in
      let! w' := fixed_zero_cold a w slot_idx offset in
      Ret (Ok (slot_idx, offset),
           a_set a bm (record_alloc_success (a_metrics a) (a_slot_capacity a)) (a_zeroed_bitmap a),
           w')
  end.

Definition fixed_allocate (a : ArenaInner) (w : World)
    : outcome (result AllocError Buffer * ArenaInner * World) :=
  let! (r, a', w') := fixed_claim a w in
  match r with
  | Err e => Ret (Err e, a', w')
  | Ok (slot_idx, offset) =>
      Ret (Ok (new_fixed (a_ptr a) (a_auto_spill a) slot_idx offset (a_slot_capacity a)), a', w')
  end.

(** [Unfaulted::<FixedArena>::allocate]. *)
Definition unfaulted_allocate (u : Unfaulted ArenaInner) (w : World)
    : outcome (result AllocError (ArenaInner * Buffer) * World) :=
  let arena := into_inner u in
  let! (r, arena', w') := fixed_allocate arena w in
  match r with
  | Err e => Ret (Err e, w')
  | Ok buf => Ret (Ok (arena', buf), w')
  end.

(** The fixed branch of [ArenaRef::release]. *)
Definition fixed_release (a : ArenaInner) (w : World) (slot_idx : Z)
    : outcome (ArenaInner * World) :=
  let! (z, w1) :=
    (match a_init_policy a with
     | Zero =>
         let! offset := usz_mul slot_idx (a_slot_capacity a) in
         let w1 := set_mem w (zeroize_region (w_mem w) (a_ptr a + offset) (a_slot_capacity a)) in
         match a_zeroed_bitmap a with
         | Some zeroed_bm =>
             let! e := usz_add slot_idx 1 in
             let! z := set_range zeroed_bm slot_idx e in
             Ret (Some z, w1)
         | None => Ret (None, w1)
         end
     | Uninit => Ret (a_zeroed_bitmap a, w)
     end) in
  let! bm := bitmap_free (a_bitmap a) slot_idx in
  let a' := a_set a bm (record_free (a_metrics a) (a_slot_capacity a)) z in
  Ret (a', if a_wake_handle a then log_wake w1 WakeFixed else w1).
End operations.

(** ** Invariant *)

Definition slot_addr (a : ArenaInner) (s : Z) : Z := a_ptr a + s * a_slot_capacity a.

(** The geometry: whole slots inside a region of the address space. *)
Record fixed_geo (a : ArenaInner) : Prop := {
  fg_cap : 0 < a_slot_capacity a;
  fg_count : 0 < a_slot_count a;
  fg_total : a_slot_count a * a_slot_capacity a ≤ a_total_size a ≤ isize_MAX;
  fg_ptr : 0 < a_ptr a ∧ a_ptr a + a_total_size a ≤ usize_MAX + 1;
}.

(** The scrub record: present exactly under [Zero]; a free slot marked
    scrubbed is all zero. *)
Definition zeroed_ok (a : ArenaInner) (w : World) (slots : list Z) : Prop :=
  match a_init_policy a, a_zeroed_bitmap a with
  | Uninit, None => True
  | Zero, Some z =>
      bitmap_wf z ∧ slot_count z = a_slot_count a ∧
      ∀ s, 0 ≤ s < a_slot_count a → s ∉ slots → bit z s = true →
        all_zero (w_mem w) (slot_addr a s) (a_slot_capacity a)
  | _, _ => False
  end.

(** [slots] are the slots handed out and not yet released. *)
Record fixed_inv (a : ArenaInner) (w : World) (slots : list Z) : Prop := {
  fi_geo : fixed_geo a;
  fi_wf : bitmap_wf (a_bitmap a);
  fi_count : slot_count (a_bitmap a) = a_slot_count a;
  fi_nodup : NoDup slots;
  fi_range : Forall (λ s, 0 ≤ s < a_slot_count a) slots;
  fi_exact : ∀ s, 0 ≤ s < a_slot_count a → (bit (a_bitmap a) s = true ↔ s ∉ slots);
  fi_zeroed : zeroed_ok a w slots;
  fi_metrics : metrics_ok (a_metrics a) (Z.of_nat (length slots))
                 (Z.of_nat (length slots) * a_slot_capacity a);
  fi_reserved : bytes_reserved (a_metrics a) = a_slot_count a * a_slot_capacity a;
}.

(** What allocation and release leave alone. *)
Definition a_same (a a' : ArenaInner) : Prop :=
  a_ptr a' = a_ptr a ∧ a_total_size a' = a_total_size a ∧
  a_slot_capacity a' = a_slot_capacity a ∧ a_slot_count a' = a_slot_count a ∧
  a_auto_spill a' = a_auto_spill a ∧ a_init_policy a' = a_init_policy a ∧
  a_dealloc a' = a_dealloc a ∧ a_wake_handle a' = a_wake_handle a.

Lemma slot_disjoint a s s' :
  fixed_geo a → s ≠ s' →
  disjoint_ranges (slot_addr a s) (a_slot_capacity a) (slot_addr a s') (a_slot_capacity a).
Proof. intros [] ?. unfold disjoint_ranges, slot_addr. nia. Qed.

Lemma slot_in_region a s :
  fixed_geo a → 0 ≤ s < a_slot_count a →
  a_ptr a ≤ slot_addr a s ∧ slot_addr a s + a_slot_capacity a ≤ a_ptr a + a_total_size a.
Proof. intros [] ?. unfold slot_addr. nia. Qed.

Lemma slot_offset_ok {P : Profile} a s :
  fixed_geo a → 0 ≤ s < a_slot_count a →
  usz_mul s (a_slot_capacity a) = Ret (s * a_slot_capacity a).
Proof.
  intros [] ?. apply usz_mul_ok. assert (s * a_slot_capacity a ≤ a_slot_count a * a_slot_capacity a) by nia.
  unfold isize_MAX in *. split; [nia|ulia].
Qed.

(** Outstanding slots cannot outnumber the arena's. *)
Lemma slots_length a w slots :
  fixed_inv a w slots → Z.of_nat (length slots) ≤ a_slot_count a.
Proof.
  intros Hi. destruct (fi_geo _ _ _ Hi).
  assert (length slots ≤ length (seqZ 0 (a_slot_count a)))%nat as Hl.
  { apply submseteq_length, NoDup_submseteq; [apply (fi_nodup _ _ _ Hi)|].
    intros s Hs. apply elem_of_seqZ. pose proof (fi_range _ _ _ Hi) as Hr.
    rewrite Forall_forall in Hr. apply Hr in Hs. lia. }
  rewrite length_seqZ in Hl. lia.
Qed.

Lemma slots_length_lt a w slots s :
  fixed_inv a w slots → 0 ≤ s < a_slot_count a → s ∉ slots →
  Z.of_nat (length slots) < a_slot_count a.
Proof.
  intros Hi Hs Hn. destruct (fi_geo _ _ _ Hi).
  assert (length (s :: slots) ≤ length (seqZ 0 (a_slot_count a)))%nat as Hl.
  { apply submseteq_length, NoDup_submseteq; [constructor; [done|apply (fi_nodup _ _ _ Hi)]|].
    intros s' Hs'. apply elem_of_seqZ. pose proof (fi_range _ _ _ Hi) as Hr.
    rewrite Forall_forall in Hr. apply elem_of_cons in Hs' as [->|Hs']; [lia|]. apply Hr in Hs'. lia. }
  rewrite length_seqZ in Hl. simpl in Hl. lia.
Qed.

(** Every slot is out when the bitmap has no free bit. *)
Lemma slots_all_out a w slots :
  fixed_inv a w slots → (∀ s, 0 ≤ s → bit (a_bitmap a) s = false) →
  Z.of_nat (length slots) = a_slot_count a.
Proof.
  intros Hi Hnone. pose proof (slots_length _ _ _ Hi). destruct (fi_geo _ _ _ Hi).
  assert (length (seqZ 0 (a_slot_count a)) ≤ length slots)%nat as Hl.
  { apply submseteq_length, NoDup_submseteq; [apply NoDup_seqZ|].
    intros s Hs%elem_of_seqZ. destruct (decide (s ∈ slots)) as [|Hn]; [done|].
    apply (fi_exact _ _ _ Hi) in Hn; [|lia]. rewrite Hnone in Hn by lia. done. }
  rewrite length_seqZ in Hl. lia.
Qed.

Section proofs.
Context {P : Profile} {B : BytesLib}.

(** Claiming a slot under [Zero] leaves it all zero. *)
Lemma fixed_zero_cold_ok a w slots s :
  fixed_inv a w slots → 0 ≤ s < a_slot_count a → s ∉ slots →
  ∃ w', fixed_zero_cold a w s (s * a_slot_capacity a) = Ret w' ∧ w_wakes w' = w_wakes w ∧
    same_outside w w' (slot_addr a s) (a_slot_capacity a) ∧
    (a_init_policy a = Zero → all_zero (w_mem w') (slot_addr a s) (a_slot_capacity a)) ∧
    (a_init_policy a = Uninit → w' = w).
Proof.
  intros Hi Hs Hn. pose proof (fi_zeroed _ _ _ Hi) as Hz. unfold zeroed_ok in Hz.
  destruct (fi_geo _ _ _ Hi) as [Hcap Hcnt Htot _]. unfold fixed_zero_cold.
  assert (a_slot_count a ≤ isize_MAX) by nia. unfold isize_MAX in *.
  destruct (a_init_policy a) eqn:Ep, (a_zeroed_bitmap a) as [z|]; try done.
  { by exists w. }
  destruct Hz as (Hwf & Hc & Hz). rewrite usz_add_ok by ulia. cbn [obind].
  destruct (all_set_in_range_ok z s (s + 1) Hwf) as (b & -> & Hb); [lia..|]. cbn [obind].
  destruct b; cbn [negb]; eexists; (split; [reflexivity|]); split_and!; try done.
  - intros _. apply Hz; [done..|]. apply Hb; [done|lia].
  - apply same_outside_zeroize.
  - intros _. apply zeroize_all_zero.
Qed.

Lemma zeroed_ok_frame a a' w w' slots s :
  zeroed_ok a w slots → fixed_geo a → a_same a a' → a_zeroed_bitmap a' = a_zeroed_bitmap a →
  same_outside w w' (slot_addr a s) (a_slot_capacity a) → zeroed_ok a' w' (s :: slots).
Proof.
  unfold zeroed_ok. intros Hz Hg (Hp & _ & Hcap & Hcnt & _ & Hpol & _) -> Hso. rewrite Hpol, Hcnt.
  destruct (a_init_policy a), (a_zeroed_bitmap a) as [z|]; try done.
  destruct Hz as (? & ? & Hz). split_and!; [done..|]. unfold slot_addr in *. rewrite Hp, Hcap.
  intros s' Hs' Hn Hb. apply not_elem_of_cons in Hn as [Hne Hn].
  eapply same_outside_all_zero; [done| |by apply Hz]. by apply (slot_disjoint a s s').
Qed.

Lemma bytes_fit a w slots s :
  fixed_inv a w slots → 0 ≤ s < a_slot_count a → s ∉ slots →
  Z.of_nat (length slots) * a_slot_capacity a + a_slot_capacity a ≤ usize_MAX.
Proof.
  intros Hi Hs Hn. pose proof (slots_length_lt _ _ _ _ Hi Hs Hn).
  destruct (fi_geo _ _ _ Hi) as [? ? Ht _]. unfold isize_MAX in Ht.
  assert ((Z.of_nat (length slots) + 1) * a_slot_capacity a ≤ a_slot_count a * a_slot_capacity a)
    by nia. ulia.
Qed.

(** The arena after slot [s] was claimed. *)
Lemma claimed_inv a w w' slots s bm :
  fixed_inv a w slots → claimed (a_bitmap a) s bm →
  same_outside w w' (slot_addr a s) (a_slot_capacity a) →
  0 ≤ s < a_slot_count a ∧ s ∉ slots ∧
  fixed_inv (a_set a bm (record_alloc_success (a_metrics a) (a_slot_capacity a))
               (a_zeroed_bitmap a)) w' (s :: slots).
Proof.
  intros Hi (Hs & Hbit & Hwf' & Hc' & Hb') Hso. rewrite (fi_count _ _ _ Hi) in Hs, Hc'.
  assert (Hn : s ∉ slots) by (by apply (fi_exact _ _ _ Hi)).
  pose proof (bytes_fit _ _ _ _ Hi Hs Hn). destruct Hi as [Hg Hwf Hc Hnd Hr Hex Hz Hm Hres].
  split_and!; [lia|lia|done|]. split; simpl; try done.
  - by destruct Hg.
  - by constructor.
  - by constructor.
  - intros s' Hs'. rewrite Hb' by lia.
    rewrite andb_true_iff, negb_true_iff, bool_decide_eq_false, not_elem_of_cons, Hex by done.
    naive_solver.
  - eapply (zeroed_ok_frame a); done.
  - destruct Hg. replace (Z.of_nat (S (length slots))) with (Z.of_nat (length slots) + 1) by lia.
    rewrite Z.mul_add_distr_r, Z.mul_1_l. apply record_alloc_success_ok; [done|lia|done].
Qed.

Lemma full_inv a w slots bm :
  fixed_inv a w slots → bits_are (a_bitmap a) bm (bit (a_bitmap a)) →
  fixed_inv (a_set a bm (record_alloc_failure (a_metrics a)) (a_zeroed_bitmap a)) w slots.
Proof.
  intros Hi (Hwf' & Hc' & Hb'). rewrite (fi_count _ _ _ Hi) in Hc'.
  destruct Hi as [Hg Hwf Hc Hnd Hr Hex Hz Hm Hres]. split; simpl; try done.
  - by destruct Hg.
  - intros s Hs. rewrite Hb' by lia. by apply Hex.
  - by eapply metrics_ok_same.
Qed.

(** Both outcomes of the shared allocation body. *)
Lemma fixed_claim_ok a w slots :
  fixed_inv a w slots →
  (∃ s a' w', fixed_claim a w = Ret (Ok (s, s * a_slot_capacity a), a', w') ∧
     0 ≤ s < a_slot_count a ∧ s ∉ slots ∧ fixed_inv a' w' (s :: slots) ∧ a_same a a' ∧
     w_wakes w' = w_wakes w ∧ same_outside w w' (slot_addr a s) (a_slot_capacity a) ∧
     (a_init_policy a = Zero → all_zero (w_mem w') (slot_addr a s) (a_slot_capacity a)) ∧
     a_metrics a' = record_alloc_success (a_metrics a) (a_slot_capacity a)) ∨
  (∃ a', fixed_claim a w = Ret (Err ArenaFull, a', w) ∧
     Z.of_nat (length slots) = a_slot_count a ∧ fixed_inv a' w slots ∧ a_same a a' ∧
     a_metrics a' = record_alloc_failure (a_metrics a)).
Proof.
  intros Hi. unfold fixed_claim.
  destruct (try_alloc_ok (a_bitmap a) (fi_wf _ _ _ Hi)) as [(s & bm & -> & Hc)|(bm & -> & Hb & Hn)];
    cbn [obind].
  - left. destruct (claimed_inv a w w slots s bm Hi Hc (same_outside_refl _ _ _)) as (Hs & Hn & _).
    rewrite slot_offset_ok by (done || apply (fi_geo _ _ _ Hi)). cbn [obind].
    destruct (fixed_zero_cold_ok a w slots s Hi Hs Hn) as (w' & -> & Hw & Hso & Hz & _). cbn [obind].
    destruct (claimed_inv a w w' slots s bm Hi Hc Hso) as (_ & _ & Hi').
    do 3 eexists. split; [reflexivity|]. split_and!; done || lia.
  - right. eexists. split; [reflexivity|].
    split_and!; [by eapply slots_all_out|by apply full_inv|done..].
Qed.

(** ** Release *)

(** The scrub of a slot given back and its record. *)
Lemma scrub_ok a w slots s z :
  fixed_inv a w (s :: slots) → a_init_policy a = Zero → a_zeroed_bitmap a = Some z →
  ∃ z', usz_add s 1 = Ret (s + 1) ∧ set_range z s (s + 1) = Ret z' ∧
    zeroed_ok (a_set a (a_bitmap a) (a_metrics a) (Some z'))
      (set_mem w (zeroize_region (w_mem w) (slot_addr a s) (a_slot_capacity a))) slots.
Proof.
  intros Hi Hp Hz. pose proof (fi_zeroed _ _ _ Hi) as Hzk. unfold zeroed_ok in *.
  rewrite Hp, Hz in Hzk. destruct Hzk as (Hwf & Hc & Hzk). pose proof (fi_range _ _ _ Hi) as Hr.
  apply Forall_cons in Hr as [Hs _]. destruct (fi_geo _ _ _ Hi) as [Hcap Hcnt Htot _].
  assert (a_slot_count a ≤ isize_MAX) by nia. unfold isize_MAX in *.
  destruct (set_range_ok z s (s + 1) Hwf) as (z' & Hex & Hwf' & Hc' & Hb'); [lia..|].
  exists z'. split_and!; [by apply usz_add_ok; ulia|done|]. simpl. rewrite Hp.
  split_and!; [done|congruence|]. intros s' Hs' Hn Hbit. rewrite Hb' in Hbit by lia.
  change (slot_addr (a_set _ _ _ _) s') with (slot_addr a s').
  destruct (decide (s = s')) as [<-|Hne]; [apply zeroize_all_zero|].
  apply zeroize_mono. apply Hzk; [done|by apply not_elem_of_cons|].
  apply orb_true_iff in Hbit as [|Hbit%bool_decide_eq_true]; [done|lia].
Qed.

Lemma fixed_release_ok a w slots s :
  fixed_inv a w (s :: slots) →
  ∃ a' w', fixed_release a w s = Ret (a', w') ∧ fixed_inv a' w' slots ∧ a_same a a' ∧
    same_outside w w' (slot_addr a s) (a_slot_capacity a) ∧
    w_wakes w' = w_wakes w ++ (if a_wake_handle a then [WakeFixed] else []) ∧
    (a_init_policy a = Zero → all_zero (w_mem w') (slot_addr a s) (a_slot_capacity a)) ∧
    a_metrics a' = record_free (a_metrics a) (a_slot_capacity a).
Proof.
  intros Hi. pose proof (fi_range _ _ _ Hi) as Hr. apply Forall_cons in Hr as [Hs Hr].
  pose proof (fi_nodup _ _ _ Hi) as Hnd. apply NoDup_cons in Hnd as [Hn Hnd].
  destruct (bitmap_free_ok (a_bitmap a) s (fi_wf _ _ _ Hi)) as (bm & Hfree & Hwf' & Hc' & Hb').
  { by rewrite (fi_count _ _ _ Hi). }
  { apply not_true_is_false. rewrite (fi_exact _ _ _ Hi) by done. intros Hx. apply Hx. by left. }
  rewrite (fi_count _ _ _ Hi) in Hc'.
  (* the state after the free, for whatever scrub record and world are left *)
  assert (Hinv : ∀ z w', zeroed_ok (a_set a (a_bitmap a) (a_metrics a) z) w' slots →
    fixed_inv (a_set a bm (record_free (a_metrics a) (a_slot_capacity a)) z) w' slots).
  { intros z w' Hz. destruct Hi as [Hg Hwf Hc _ _ Hex _ Hm Hres]. destruct Hg.
    split; simpl; try done.
    - intros s' Hs'. rewrite Hb' by lia. rewrite orb_true_iff, bool_decide_eq_true, Hex by done.
      rewrite not_elem_of_cons. destruct (decide (s = s')) as [<-|]; naive_solver.
    - replace (Z.of_nat (length slots)) with (Z.of_nat (length (s :: slots)) - 1) by (simpl; lia).
      rewrite Z.mul_sub_distr_r, Z.mul_1_l. apply record_free_ok; [done|]. simpl. nia. }
  unfold fixed_release. pose proof (fi_zeroed _ _ _ Hi) as Hz.
  destruct (a_init_policy a) eqn:Ep, (a_zeroed_bitmap a) as [z|] eqn:Ez;
    try (unfold zeroed_ok in Hz; rewrite Ep, Ez in Hz; done).
  - cbn [obind]. rewrite Hfree. cbn [obind]. do 2 eexists. split; [reflexivity|].
    split_and!; try done; [|by destruct (a_wake_handle a)|by destruct (a_wake_handle a); simpl; rewrite ?app_nil_r].
    apply Hinv. unfold zeroed_ok. simpl. by rewrite Ep.
  - rewrite slot_offset_ok by (done || apply (fi_geo _ _ _ Hi)). cbn [obind].
    destruct (scrub_ok a w slots s z Hi Ep Ez) as (z' & -> & Hset & Hz'). cbn [obind].
    rewrite Hset. cbn [obind]. rewrite Hfree. cbn [obind]. do 2 eexists. split; [reflexivity|].
    change (a_ptr a + s * a_slot_capacity a) with (slot_addr a s). split_and!; try done.
    + apply Hinv. by destruct (a_wake_handle a).
    + destruct (a_wake_handle a); [apply same_outside_log|]; apply same_outside_zeroize.
    + destruct (a_wake_handle a); simpl; by rewrite ?app_nil_r.
    + intros _. destruct (a_wake_handle a); apply zeroize_all_zero.
Qed.

(** The order in which outstanding slots are listed does not matter. *)
Lemma fixed_inv_perm a w slots slots' :
  slots ≡ₚ slots' → fixed_inv a w slots → fixed_inv a w slots'.
Proof.
  intros Hp [Hg Hwf Hc Hnd Hr Hex Hz Hm Hres]. split; try done.
  - by rewrite <- Hp.
  - by rewrite <- Hp.
  - intros s Hs. by rewrite <- Hp, Hex.
  - unfold zeroed_ok in *. destruct (a_init_policy a), (a_zeroed_bitmap a); try done.
    destruct Hz as (? & ? & Hz). split_and!; [done..|]. intros s Hs Hn. apply Hz; [done|by rewrite Hp].
  - by rewrite <- Hp.
Qed.

(** Writing inside an outstanding slot disturbs nothing. *)
Lemma fixed_inv_write a w w' slots s :
  fixed_inv a w slots → s ∈ slots → same_outside w w' (slot_addr a s) (a_slot_capacity a) →
  fixed_inv a w' slots.
Proof.
  intros [Hg Hwf Hc Hnd Hr Hex Hz Hm Hres] Hs Hso. split; try done.
  unfold zeroed_ok in *. destruct (a_init_policy a), (a_zeroed_bitmap a); try done.
  destruct Hz as (? & ? & Hz). split_and!; [done..|]. intros s' Hs' Hn Hb.
  eapply same_outside_all_zero; [done| |by apply Hz]. apply slot_disjoint; [done|congruence].
Qed.

Lemma fixed_inv_metrics a w slots m :
  fixed_inv a w slots → bytes_live m = bytes_live (a_metrics a) →
  allocations_ok m = allocations_ok (a_metrics a) → frees m = frees (a_metrics a) →
  bytes_reserved m = bytes_reserved (a_metrics a) → fixed_inv (a_set_metrics a m) w slots.
Proof.
  intros [Hg Hwf Hc Hnd Hr Hex Hz Hm Hres] ????. split; simpl; try done.
  - by destruct Hg.
  - by eapply metrics_ok_same.
  - congruence.
Qed.
End proofs.
