(* ===== verification/FixedProps.v ===== *)
(** * Properties of the fixed-slot arena

    The builders establish the invariant of [FixedArena], allocation and
    release keep it, and what a caller gets from them follows. *)

From stdpp Require Import prelude numbers list gmap.
From S2P Require Import Prelude Usize Errors Bitmap BitmapRange SlotSpec Metrics Memory Config.
From S2P Require Import Buffer FixedArena.
Local Open Scope Z_scope.

Section builders.
Context {P : Profile} {PF : Platform}.

Lemma new_zeroed_bitmap_ok p n :
  is_usize n →
  ∃ z, new_zeroed_bitmap p n = Ret z ∧
    match p, z with
    | Uninit, None => True
    | Zero, Some z => bitmap_wf z ∧ slot_count z = n ∧ ∀ s, 0 ≤ s → bit z s = false
    | _, _ => False
    end.
Proof.
  intros Hn. destruct p; simpl; [by eexists|].
  destruct (bitmap_new_empty_ok n Hn) as (z & -> & Hz). by exists (Some z).
Qed.

(** A fresh arena over a region that can exist. *)
Lemma fixed_new_inv ptr total cap count bm z spill p d wh w :
  0 < cap → 0 < count → count * cap ≤ total ≤ isize_MAX →
  0 < ptr ∧ ptr + total ≤ usize_MAX + 1 →
  bitmap_new count = Ret bm → new_zeroed_bitmap p count = Ret z →
  fixed_inv (mkArenaInner ptr total cap count bm spill p (metrics_new (count * cap)) z d wh) w [].
Proof.
  intros Hcap Hcnt Htot Hptr Hbm Hz.
  assert (Hu : is_usize count) by (unfold isize_MAX in *; split; [lia|assert (count ≤ count * cap) by nia; ulia]).
  destruct (bitmap_new_ok count Hu) as (bm' & Hbm' & Hwf & Hc & Hb). rewrite Hbm in Hbm'. simplify_eq.
  destruct (new_zeroed_bitmap_ok p (slot_count bm') Hu) as (z' & Hz' & Hzk). rewrite Hz in Hz'. simplify_eq.
  split; simpl; try done.
  - constructor.
  - intros s Hs. rewrite Hb, bool_decide_eq_true by lia. split; [intros _ []%not_elem_of_nil|lia].
  - unfold zeroed_ok. simpl. destruct p, z' as [z'|]; try done. destruct Hzk as (? & ? & Hzk).
    split_and!; [done..|]. intros s Hs _ Ht. rewrite Hzk in Ht by lia. done.
Qed.

Lemma bitmaps_ok p n :
  is_usize n → ∃ z bm, new_zeroed_bitmap p n = Ret z ∧ bitmap_new n = Ret bm.
Proof.
  intros Hn. destruct (new_zeroed_bitmap_ok p n Hn) as (z & ? & _).
  destruct (bitmap_new_ok n Hn) as (bm & ? & _). by exists z, bm.
Qed.

Context {GA : GlobalAlloc} {GL : GlobalAllocLaws GA}.

(** The capacity of a slot after rounding up to the alignment, unbounded. *)
Definition rounded_capacity {m} (b : FixedArenaBuilder m) : Z :=
  let a := bc_alignment (fb_config b) in
  (fb_slot_capacity b + (a - 1)) / a * a.

(** Arguments a builder can hold: [NonZeroUsize] sizes, a [usize] alignment. *)
Definition builder_args {m} (b : FixedArenaBuilder m) : Prop :=
  0 < fb_slot_count b ≤ usize_MAX ∧ 0 < fb_slot_capacity b ≤ usize_MAX ∧
  is_usize (bc_alignment (fb_config b)) ∧
  match bc_page_size (fb_config b) with PSize n => 0 < n ≤ usize_MAX | _ => True end.

(** What [build_inner] hands back. *)
Definition fixed_built {m} (b : FixedArenaBuilder m) (wake : bool) (a : ArenaInner) : Prop :=
  let c := fb_config b in
  (∀ w, fixed_inv a w []) ∧ a_slot_count a = fb_slot_count b ∧
  a_slot_capacity a = rounded_capacity b ∧
  a_total_size a = fb_slot_count b * rounded_capacity b ∧
  (∀ s, (bc_alignment c | slot_addr a s)) ∧ a_auto_spill a = bc_auto_spill c ∧
  a_init_policy a = bc_init_policy c ∧
  a_dealloc a = HeapDealloc (a_total_size a) (bc_alignment c) ∧ a_wake_handle a = wake.

Lemma build_inner_ok {m} (b : FixedArenaBuilder m) wake :
  builder_args b →
  match build_inner b wake with
  | Ret (Ok a) => fixed_built b wake a
  | Ret (Err e) =>
      (e = InvalidAlignment ∧ is_power_of_two (bc_alignment (fb_config b)) = false) ∨
      (e = SizeOverflow ∧ is_power_of_two (bc_alignment (fb_config b)) = true ∧
       isize_MAX - (bc_alignment (fb_config b) - 1) < fb_slot_count b * rounded_capacity b)
  | Panic => global_alloc (fb_slot_count b * rounded_capacity b) (bc_alignment (fb_config b)) = 0
  | OutOfFuel => False
  end.
Proof.
  intros (Hcnt & Hcap & Hal & _). unfold build_inner, validate_alignment, fixed_built, rounded_capacity.
  destruct b as [n cap c]; simpl in *. set (a := bc_alignment c) in *.
  destruct (is_power_of_two a) eqn:Ep; cbn [negb rbind obind]; [|by left].
  apply is_power_of_two_spec in Ep as (k & Hk & Ea). rewrite Ea in *. clearbody a.
  assert (k < 64) by (apply pow2_is_usize_inv; ulia).
  assert (Hp : 0 < 2 ^ k) by lia.
  rewrite align_up_ok by (ulia || lia). cbn [obind].
  pose proof (Z.mod_pos_bound (cap + (2 ^ k - 1)) (2 ^ k) Hp).
  pose proof (Z.div_mod (cap + (2 ^ k - 1)) (2 ^ k) ltac:(lia)).
  set (q := (cap + (2 ^ k - 1)) / 2 ^ k) in *. set (r := (cap + (2 ^ k - 1)) mod 2 ^ k) in *.
  clearbody q r.
  assert (Hq : cap ≤ q * 2 ^ k ≤ cap + (2 ^ k - 1)) by lia.
  destruct (Z.leb_spec (cap + (2 ^ k - 1)) usize_MAX) as [Hle|Hgt]; cbn [ok_or rbind obind].
  2: { right. split_and!; [done..|]. assert (cap + (2 ^ k - 1) - (2 ^ k - 1) ≤ n * (q * 2 ^ k)) by nia.
       unfold isize_MAX. ulia. }
  unfold checked_mul. destruct (Z.leb_spec (n * (q * 2 ^ k)) usize_MAX) as [Hm|Hm];
    cbn [ok_or rbind obind]; [|right; split_and!; try done; unfold isize_MAX; ulia].
  destruct (layout_ok (n * (q * 2 ^ k)) (2 ^ k)) eqn:El; cbn [negb].
  2: { right. split_and!; [done..|]. apply not_true_iff_false in El. rewrite layout_ok_spec in El.
       apply Z.nle_gt. intros ?. apply El. by exists k. }
  assert (Hsz : 0 < n * (q * 2 ^ k)) by nia.
  destruct (global_alloc_block _ _ Hsz El) as [->|(Hg & Hd & Hfit)]; [done|].
  apply layout_ok_spec in El as (k' & Hk' & Hkk & El). rewrite <- Hkk in El.
  destruct (Z.eqb_spec (global_alloc (n * (q * 2 ^ k)) (2 ^ k)) 0) as [|_]; [lia|].
  cbn [negb assert_ obind]. destruct (bitmaps_ok (bc_init_policy c) n) as (z & bm & Hz & Hbm); [ulia|].
  rewrite Hz. cbn [obind]. rewrite Hbm. cbn [obind rbind]. split_and!; try done.
  - intros w. apply fixed_new_inv; try done; lia.
  - intros s. unfold slot_addr. simpl. apply Z.divide_add_r; [done|].
    exists (s * q). lia.
Qed.

(** The built size is what the prefault step computes. *)
Lemma fixed_built_total {m} (b : FixedArenaBuilder m) wake a :
  fixed_built b wake a → usz_mul (a_slot_count a) (a_slot_capacity a) = Ret (a_total_size a).
Proof.
  intros (Hinv & Hc & Hcap & Htot & _). destruct (fi_geo _ _ _ (Hinv (mkWorld ∅ []))).
  rewrite usz_mul_ok; [f_equal; congruence|]. unfold isize_MAX in *. split; [nia|ulia].
Qed.

Lemma prefault_slots_eq {m} (b : FixedArenaBuilder m) wake a ps w :
  fixed_built b wake a → prefault_slots ps w a = prefault_if ps w (a_ptr a) (a_total_size a).
Proof.
  intros Hb. destruct ps as [n|]; [|done]. unfold prefault_slots.
  by rewrite (fixed_built_total b wake a Hb).
Qed.

(** Faulting an unfaulted arena is building it faulted. *)
Lemma fixed_unfaulted_fault {m} (b : FixedArenaBuilder m) w :
  builder_args b →
  (let? u := build_fixed_unfaulted b in
   let! p := fault_pages u w in Ret (Ok p)) = build_fixed b false w.
Proof.
  intros Hb. unfold build_fixed_unfaulted, build_fixed.
  destruct (PageSize_resolve _) as [ps| |]; cbn [obind rbind]; try done.
  pose proof (build_inner_ok b false Hb) as Hin.
  destruct (build_inner b false) as [[e|a]| |]; cbn [rbind obind]; try done.
  rewrite (fixed_built_total b false a Hin), (prefault_slots_eq b false a ps w Hin).
  cbn [obind rbind]. unfold fault_pages. cbn [u_page_size u_ptr u_total_size u_inner].
  by destruct (prefault_if _ _ _ _).
Qed.
End builders.

(** ** Building *)

Lemma build_fixed_ok {P : Profile} {PF : Platform} {GA : GlobalAlloc} {m}
    (b : FixedArenaBuilder m) wake w :
  PlatformLaws PF → GlobalAllocLaws GA → builder_args b →
  match build_fixed b wake w with
  | Ret (Ok (a, w')) =>
      fixed_built b wake a ∧ fixed_inv a w' [] ∧
      same_outside w w' (a_ptr a) (a_total_size a) ∧ w_wakes w' = w_wakes w ∧
      (bc_page_size (fb_config b) = Unknown → w' = w)
  | Ret (Err e) =>
      (e = InvalidAlignment ∧ is_power_of_two (bc_alignment (fb_config b)) = false) ∨
      (e = SizeOverflow ∧ is_power_of_two (bc_alignment (fb_config b)) = true ∧
       isize_MAX - (bc_alignment (fb_config b) - 1) < fb_slot_count b * rounded_capacity b)
  | Panic => global_alloc (fb_slot_count b * rounded_capacity b) (bc_alignment (fb_config b)) = 0
  | OutOfFuel => False
  end.
Proof.
  intros L GL Hb. unfold build_fixed. pose proof Hb as (_ & _ & _ & Hps).
  destruct (PageSize_resolve_ok _ Hps) as (ps & -> & Hpok & Hunk). cbn [obind].
  pose proof (build_inner_ok b wake Hb) as Hin.
  destruct (build_inner b wake) as [[e|a]| |]; cbn [rbind obind]; try done.
  rewrite (prefault_slots_eq b wake a ps w Hin).
  pose proof Hin as (Hinv & _). destruct (fi_geo _ _ _ (Hinv w)).
  destruct (prefault_if_ok ps w (a_ptr a) (a_total_size a)) as (w' & Heq & Hso & Hw);
    [done|unfold isize_MAX in *; nia|].
  rewrite Heq. cbn [obind]. split_and!; try done.
  intros Hu. rewrite (Hunk Hu) in Heq. simpl in Heq. by simplify_eq.
Qed.

(** C31: [FixedArena] builders.  With [NonZeroUsize] sizes, [build] (with or
    without a wake handle) either returns an arena that satisfies the
    invariant with nothing allocated, whose slots are the requested capacity
    rounded up to the alignment and all start at an aligned address, having
    written nothing outside its own backing; or reports [InvalidAlignment] exactly for
    an alignment that is not a power of two and [SizeOverflow] exactly when
    the total is no valid layout.  It diverges only when the allocator returns
    null. *)
Theorem fixed_build_correct {P : Profile} {PF : Platform} {GA : GlobalAlloc} {m}
    (b : FixedArenaBuilder m) wake w :
  PlatformLaws PF → GlobalAllocLaws GA → builder_args b →
  match build_fixed b wake w with
  | Ret (Ok (a, w')) =>
      fixed_built b wake a ∧ fixed_inv a w' [] ∧
      same_outside w w' (a_ptr a) (a_total_size a) ∧ w_wakes w' = w_wakes w ∧
      (bc_page_size (fb_config b) = Unknown → w' = w)
  | Ret (Err e) =>
      (e = InvalidAlignment ∧ is_power_of_two (bc_alignment (fb_config b)) = false) ∨
      (e = SizeOverflow ∧ is_power_of_two (bc_alignment (fb_config b)) = true ∧
       isize_MAX - (bc_alignment (fb_config b) - 1) < fb_slot_count b * rounded_capacity b)
  | Panic => global_alloc (fb_slot_count b * rounded_capacity b) (bc_alignment (fb_config b)) = 0
  | OutOfFuel => False
  end.
Proof. apply build_fixed_ok. Qed.

(** A 64-byte-aligned arena of four 100-byte slots. *)
Definition demo_builder : FixedArenaBuilder Standard :=
  fixed_alignment (@with_slot_capacity demo_platform 4 100) 64.

Lemma demo_builder_args : builder_args demo_builder.
Proof. unfold builder_args. simpl. split_and!; done || ulia. Qed.

Lemma fixed_build_correct_witness :
  ∃ a w', @build_fixed dev demo_platform demo_alloc Standard demo_builder false (mkWorld ∅ []) =
      Ret (Ok (a, w')) ∧
    fixed_inv a w' [] ∧ a_slot_capacity a = 128 ∧ same_outside (mkWorld ∅ []) w' (a_ptr a) 512.
Proof.
  pose proof (@fixed_build_correct dev demo_platform demo_alloc Standard demo_builder false
                (mkWorld ∅ []) demo_platform_laws demo_alloc_laws demo_builder_args) as H.
  destruct (build_fixed demo_builder false (mkWorld ∅ [])) as [[e|[a w']]| |] eqn:E;
    [vm_compute in E; discriminate E| |vm_compute in E; discriminate E|destruct H].
  exists a, w'. destruct H as ((_ & _ & Hc & Ht & _) & Hi & Hso & _). rewrite Ht in Hso.
  split; [reflexivity|]. split; [exact Hi|]. split; [exact Hc|exact Hso].
Defined.

(** The arena that builder makes, under [Zero] and with a wake handle. *)
Definition demo_zero_builder : FixedArenaBuilder Standard := fixed_init_policy demo_builder Zero.

Definition demo_arena : ArenaInner :=
  Eval vm_compute in
    match @build_inner dev demo_alloc Standard demo_zero_builder true with
    | Ret (Ok a) => a
    | _ => mkArenaInner 0 0 0 0 (mkAtomicBitmap [] 0 0 0 0) false Uninit (metrics_new 0) None
             NoDealloc false
    end.

Lemma demo_arena_inv w : fixed_inv demo_arena w [].
Proof.
  pose proof (@build_inner_ok dev demo_alloc demo_alloc_laws Standard demo_zero_builder true) as H.
  replace (build_inner demo_zero_builder true) with (Ret (Ok demo_arena) : outcome (result BuildError _))
    in H by (by vm_compute).
  apply H. unfold builder_args. simpl. split_and!; done || ulia.
Qed.

(** C33: a builder over caller-provided memory.  For a region that can exist,
    [build] refuses a null pointer, a bad alignment and a specification that
    yields no slot; otherwise the arena satisfies the invariant with nothing
    allocated, its slots lie inside the region and are a multiple of the
    alignment, and the region has not been written to. *)
Theorem raw_fixed_build_correct {P : Profile} {PF : Platform} (b : RawBackedFixedArenaBuilder) w :
  is_usize (rfb_ptr b) → 0 ≤ rfb_len b ≤ isize_MAX → rfb_ptr b + rfb_len b ≤ usize_MAX + 1 →
  is_usize (bc_alignment (rfb_config b)) → bc_page_size (rfb_config b) = Unknown →
  match rfb_spec b with Count n => 0 < n ≤ usize_MAX | Size n => 0 < n ≤ usize_MAX end →
  match raw_fixed_build b w with
  | Ret (Ok (a, w')) =>
      w' = w ∧ fixed_inv a w' [] ∧ a_ptr a = rfb_ptr b ∧ a_total_size a = rfb_len b ∧
      a_auto_spill a = false ∧ a_init_policy a = bc_init_policy (rfb_config b) ∧
      a_dealloc a = rfb_dealloc b ∧ (bc_alignment (rfb_config b) | a_slot_capacity a)
  | Ret (Err NullPointer) => rfb_ptr b = 0
  | Ret (Err InvalidAlignment) => is_power_of_two (bc_alignment (rfb_config b)) = false
  | Ret (Err e) => SlotSpec_resolve (rfb_spec b) (rfb_len b) (bc_alignment (rfb_config b)) = Ret (Err e)
  | _ => False
  end.
Proof.
  intros Hp Hl Hfit Ha Hps Hspec. unfold raw_fixed_build.
  destruct (Z.eqb_spec (rfb_ptr b) 0) as [|Hnz]; [done|]. unfold validate_alignment.
  destruct (is_power_of_two (bc_alignment (rfb_config b))) eqn:Ep; cbn [negb rbind obind]; [|done].
  rewrite Hps. cbn [PageSize_resolve obind].
  pose proof (SlotSpec_resolve_spec (rfb_spec b) (rfb_len b) (bc_alignment (rfb_config b))
    ltac:(unfold isize_MAX in *; ulia) Ep ltac:(ulia) Hspec) as Hr.
  destruct (SlotSpec_resolve _ _ _) as [[e|[n cap]]| |] eqn:Er; cbn [rbind obind]; [|..|done|done].
  { destruct (rfb_spec b); [destruct Hr as [-> _]|destruct Hr as [[-> _]|[-> _]]]; done. }
  destruct Hr as (Hn & Hcap & Hd & Hle & _).
  assert (n ≤ isize_MAX) by nia.
  destruct (bitmaps_ok (bc_init_policy (rfb_config b)) n) as (z & bm & Hz & Hbm);
    [unfold isize_MAX in *; ulia|].
  rewrite Hz. cbn [obind]. rewrite Hbm. cbn [obind].
  assert (is_usize (n * cap)) by (unfold isize_MAX in *; split; [nia|ulia]).
  rewrite usz_mul_ok by done. cbn [obind prefault_slots]. split_and!; try done.
  apply fixed_new_inv; done || (unfold is_usize in *; lia).
Qed.

Lemma raw_fixed_build_correct_witness :
  ∃ a, @raw_fixed_build release demo_platform
         (raw_fixed_alignment (@fixed_from_raw demo_platform 8192 1000 (Count 3) NoDealloc) 64)
         (mkWorld ∅ []) = Ret (Ok (a, mkWorld ∅ [])) ∧
    fixed_inv a (mkWorld ∅ []) [] ∧ (64 | a_slot_capacity a).
Proof.
  pose proof (@raw_fixed_build_correct release demo_platform
    (raw_fixed_alignment (@fixed_from_raw demo_platform 8192 1000 (Count 3) NoDealloc) 64) (mkWorld ∅ [])
    ltac:(simpl; ulia) ltac:(simpl; unfold isize_MAX; lia) ltac:(simpl; ulia) ltac:(simpl; ulia)
    eq_refl ltac:(simpl; ulia)) as H.
  destruct (raw_fixed_build _ _) as [[e|[a w']]| |] eqn:E;
    [vm_compute in E; discriminate E| |vm_compute in E; discriminate E|destruct H].
  destruct H as (-> & Hi & _ & _ & _ & _ & _ & Hd). exists a. split; [reflexivity|]. by split.
Defined.

(** [with_arena_capacity] takes the least per-slot capacity whose slots
    together hold the requested total, never zero, so the [unwrap] cannot
    fail. *)
Theorem with_arena_capacity_correct {P : Profile} {PF : Platform} n total :
  0 < n ≤ usize_MAX → 0 < total ≤ usize_MAX →
  ∃ b, with_arena_capacity n total = Ret b ∧ fb_slot_count b = n ∧
    0 < fb_slot_capacity b ≤ total ∧ total ≤ n * fb_slot_capacity b ∧
    ∀ c, total ≤ n * c → fb_slot_capacity b ≤ c.
Proof.
  intros Hn Ht. unfold with_arena_capacity.
  assert (Hd : ∀ i, i * n < total ↔ i < div_ceil total n) by (intros; apply div_ceil_lt; lia).
  set (d := div_ceil total n) in *. clearbody d.
  assert (0 < d) by (apply Hd; lia). destruct (Z.eqb_spec d 0); [lia|]. cbn [negb assert_ obind].
  assert (¬ d * n < total) by (rewrite Hd; lia).
  assert ((d - 1) * n < total) by (apply Hd; lia).
  eexists. split; [reflexivity|]. cbn. split_and!; [done|lia|nia|lia|].
  intros c Hc. destruct (decide (d ≤ c)); [done|exfalso].
  assert (¬ c * n < total) as Hx by lia. apply Hx, Hd. lia.
Qed.

Lemma with_arena_capacity_correct_witness :
  ∃ b, @with_arena_capacity demo_platform 4 1000 = Ret b ∧ 1000 ≤ 4 * fb_slot_capacity b.
Proof.
  destruct (@with_arena_capacity_correct dev demo_platform 4 1000) as (b & Hb & _ & _ & Hle & _);
    [ulia|ulia|]. exists b. split; [exact Hb|exact Hle].
Defined.

(** ** Allocating and releasing *)

Section allocate.
Context {P : Profile} {B : BytesLib}.

(** What the caller of a successful [allocate] holds: a slot nobody else
    has, inside the backing, wholly zero under [Zero], and nothing else in
    memory was touched. *)
Definition fixed_granted (a : ArenaInner) (w : World) (slots : list Z) (buf : Buffer)
    (a' : ArenaInner) (w' : World) : Prop :=
  ∃ s, buf = new_fixed (a_ptr a) (a_auto_spill a) s (s * a_slot_capacity a) (a_slot_capacity a) ∧
    0 ≤ s < a_slot_count a ∧ s ∉ slots ∧ fixed_inv a' w' (s :: slots) ∧ a_same a a' ∧
    (∀ s', s' ∈ slots →
       disjoint_ranges (slot_addr a s) (a_slot_capacity a) (slot_addr a s') (a_slot_capacity a)) ∧
    a_ptr a ≤ slot_addr a s ∧ slot_addr a s + a_slot_capacity a ≤ a_ptr a + a_total_size a ∧
    same_outside w w' (slot_addr a s) (a_slot_capacity a) ∧ w_wakes w' = w_wakes w ∧
    (a_init_policy a = Zero → all_zero (w_mem w') (slot_addr a s) (a_slot_capacity a)).
End allocate.

(** C12: [FixedArena::allocate] never panics.  It grants a buffer over a slot
    that was not outstanding, disjoint from every outstanding one and inside
    the backing (zeroed under [InitPolicy::Zero]), or reports [ArenaFull]
    exactly when every slot is outstanding. *)
Theorem fixed_allocate_correct {P : Profile} {B : BytesLib} a w slots :
  fixed_inv a w slots →
  match fixed_allocate a w with
  | Ret (Ok buf, a', w') =>
      fixed_granted a w slots buf a' w' ∧ Z.of_nat (length slots) < a_slot_count a
  | Ret (Err e, a', w') =>
      e = ArenaFull ∧ Z.of_nat (length slots) = a_slot_count a ∧ w' = w ∧ fixed_inv a' w slots ∧
      a_same a a'
  | _ => False
  end.
Proof.
  intros Hi. unfold fixed_allocate.
  destruct (fixed_claim_ok a w slots Hi)
    as [(s & a' & w' & -> & Hs & Hn & Hi' & Hsame & Hw & Hso & Hz & _)|(a' & -> & Hl & Hi' & Hsame & _)];
    cbn [obind]; [|by split_and!].
  split; [|by eapply slots_length_lt]. exists s. pose proof (fi_geo _ _ _ Hi) as Hg.
  destruct (slot_in_region a s Hg Hs). split_and!; try done.
  - lia.
  - lia.
  - intros s' Hs'. apply slot_disjoint; [done|congruence].
Qed.

(** C13: releasing an outstanding slot never panics: the slot becomes free and
    nothing else changes hands, it is scrubbed first under [Zero], the free
    and live-byte counters follow, and the wake handle, if any, is called
    exactly once. *)
Theorem fixed_release_correct {P : Profile} {B : BytesLib} a w slots s :
  fixed_inv a w slots → s ∈ slots →
  ∃ slots' a' w', fixed_release a w s = Ret (a', w') ∧ slots ≡ₚ s :: slots' ∧ s ∉ slots' ∧
    fixed_inv a' w' slots' ∧ a_same a a' ∧
    same_outside w w' (slot_addr a s) (a_slot_capacity a) ∧
    w_wakes w' = w_wakes w ++ (if a_wake_handle a then [WakeFixed] else []) ∧
    (a_init_policy a = Zero → all_zero (w_mem w') (slot_addr a s) (a_slot_capacity a)) ∧
    bytes_live (a_metrics a') = Z.of_nat (length slots') * a_slot_capacity a.
Proof.
  intros Hi Hs. destruct (remove_one_Some s slots Hs) as (slots' & Hr%remove_one_perm).
  pose proof (fixed_inv_perm _ _ _ _ Hr Hi) as Hi'.
  destruct (fixed_release_ok a w slots' s Hi') as (a' & w' & Heq & Hinv & Hsame & Hso & Hw & Hz & _).
  exists slots', a', w'. pose proof (fi_nodup _ _ _ Hi') as Hnd. apply NoDup_cons in Hnd as [Hn _].
  split_and!; try done. rewrite (mo_live _ _ _ (fi_metrics _ _ _ Hinv)).
  destruct Hsame as (_ & _ & -> & _). done.
Qed.

Lemma fixed_allocate_correct_witness :
  ∃ buf a' w', @fixed_allocate dev list_bytes demo_arena (mkWorld ∅ []) = Ret (Ok buf, a', w') ∧
    @fixed_granted list_bytes demo_arena (mkWorld ∅ []) [] buf a' w'.
Proof.
  pose proof (@fixed_allocate_correct dev list_bytes demo_arena (mkWorld ∅ []) []
                (demo_arena_inv _)) as H.
  assert (Hk : match @fixed_allocate dev list_bytes demo_arena (mkWorld ∅ []) with
               | Ret (Ok _, _, _) => true | _ => false end = true) by (vm_compute; reflexivity).
  destruct (fixed_allocate demo_arena (mkWorld ∅ [])) as [[[[e|buf] a'] w']| |];
    [discriminate Hk| |destruct H|destruct H].
  exists buf, a', w'. split; [reflexivity|exact (proj1 H)].
Defined.

(** The same arena with its first slot out. *)
Definition demo_claimed : ArenaInner * World :=
  match @fixed_claim dev demo_arena (mkWorld ∅ []) with
  | Ret (_, a, w) => (a, w)
  | _ => (demo_arena, mkWorld ∅ [])
  end.

Lemma demo_claimed_slot :
  match @fixed_claim dev demo_arena (mkWorld ∅ []) with
  | Ret (Ok (s, _), _, _) => s =? 0
  | _ => false
  end = true.
Proof. by vm_compute. Qed.

Lemma demo_claimed_inv : fixed_inv demo_claimed.1 demo_claimed.2 [0].
Proof.
  pose proof demo_claimed_slot as Hs. unfold demo_claimed.
  generalize (@fixed_claim_ok dev demo_arena (mkWorld ∅ []) [] (demo_arena_inv _)). 
  intros [(s & a' & w' & Hex & _ & _ & Hi & _)|(a' & Hex & _)]; rewrite Hex in *; [|done].
  apply Z.eqb_eq in Hs as ->. exact Hi.
Qed.

Lemma fixed_release_correct_witness :
  ∃ slots' a' w', @fixed_release dev demo_claimed.1 demo_claimed.2 0 = Ret (a', w') ∧
    [0] ≡ₚ 0 :: slots' ∧ fixed_inv a' w' slots'.
Proof.
  assert (H0 : 0 ∈ [0]) by (by left).
  destruct (@fixed_release_correct dev list_bytes demo_claimed.1 demo_claimed.2 [0] 0 demo_claimed_inv H0)
    as (slots' & a' & w' & H1 & H2 & _ & H3 & _).
  exists slots', a', w'. by split_and!.
Defined.
