(* ===== verification/FixedConc.v ===== *)
(** * [src/arena.rs] and [src/allocation.rs]: one fixed arena, many threads

    [allocate] and [release] of a fixed arena as sequences of accesses: the scan
    and claim of [BitmapConc], the look at the record of scrubbed slots, the
    zeroing, the counters, and the free, interleaved at will between any number
    of threads that also write to the slots they hold.  The load of the scrub
    record may miss a mark that was just set. *)

From stdpp Require Import prelude numbers list gmap.
From S2P Require Import Prelude Tasks Usize Errors Bitmap BitmapRange BitmapConc SlotSpec Metrics Memory Config Buffer.
From S2P Require Import FixedArena FixedProps.
Local Open Scope Z_scope.

(** ** Steps *)

(** What the holder of a slot does next.  In [allocate]: look at the scrub
    record, zero the slot, add to [allocations_ok], add to [bytes_live]; then it
    holds the slot, with [c] written; in [release]: zero, mark as scrubbed,
    free. *)
Inductive phase :=
| PhClaimed
| PhCold
| PhCountOk
| PhCountBytes
| PhHeld (c : list Z)
| PhScrub
| PhMark
| PhFree.

#[export] Instance phase_eq_dec : EqDecision phase.
Proof. solve_decision. Defined.

(** [fk_held]: the slots claimed and not freed.  The threads past the free are
    counted by what they do next: add to [frees], subtract from [bytes_live],
    wake. *)
Record fconc := mkFconc {
  fk_arena : ArenaInner;
  fk_world : World;
  fk_scans : gmap nat thread_pc;
  fk_held : list Z;
  fk_phases : gmap Z phase;
  fk_frees : nat;
  fk_subs : nat;
  fk_wakes : nat;
}.

Inductive fevent :=
| KScan (e : event)
| KStep (s : Z) (stale : bool)
| KWrite (s : Z) (data : list Z)
| KRelease (s : Z)
| KCountFree
| KCountBytes
| KWake.

Section exec.
Context {P : Profile}.

Definition scan_state (s : fconc) : conc := mkConc (a_bitmap (fk_arena s)) (fk_scans s) (fk_held s).

Definition set_phase (s : fconc) (x : Z) (p : phase) : fconc :=
  mkFconc (fk_arena s) (fk_world s) (fk_scans s) (fk_held s) (<[x := p]> (fk_phases s)) (fk_frees s) (fk_subs s)
    (fk_wakes s).
Definition set_arena (s : fconc) (a : ArenaInner) : fconc :=
  mkFconc a (fk_world s) (fk_scans s) (fk_held s) (fk_phases s) (fk_frees s) (fk_subs s) (fk_wakes s).
Definition set_world (s : fconc) (w : World) : fconc :=
  mkFconc (fk_arena s) w (fk_scans s) (fk_held s) (fk_phases s) (fk_frees s) (fk_subs s) (fk_wakes s).
Definition set_exits (s : fconc) (frees subs wakes : nat) : fconc :=
  mkFconc (fk_arena s) (fk_world s) (fk_scans s) (fk_held s) (fk_phases s) frees subs wakes.

(** The accesses of [record_alloc_success] and [record_free], one by one. *)
Definition count_ok (m : MetricsState) : MetricsState :=
  mkMetricsState (wrap (allocations_ok m + 1)) (allocations_failed m) (frees m) (frozen m)
    (spills m) (splits m) (coalesces m) (bytes_reserved m) (bytes_live m).
Definition count_free (m : MetricsState) : MetricsState :=
  mkMetricsState (allocations_ok m) (allocations_failed m) (wrap (frees m + 1)) (frozen m)
    (spills m) (splits m) (coalesces m) (bytes_reserved m) (bytes_live m).
Definition add_live (m : MetricsState) (d : Z) : MetricsState :=
  mkMetricsState (allocations_ok m) (allocations_failed m) (frees m) (frozen m)
    (spills m) (splits m) (coalesces m) (bytes_reserved m) (wrap (bytes_live m + d)).

Definition on_metrics (s : fconc) (f : MetricsState → MetricsState) : fconc :=
  set_arena s (a_set_metrics (fk_arena s) (f (a_metrics (fk_arena s)))).

(** The state after the bitmap access [c], with the phases given. *)
Definition after_scan (s : fconc) (c : conc) (ph : gmap Z phase) : fconc :=
  let a := fk_arena s in
  mkFconc (a_set a (shared c) (a_metrics a) (a_zeroed_bitmap a)) (fk_world s) (threads c) (held c) ph (fk_frees s)
    (fk_subs s) (fk_wakes s).

Definition zero_slot (s : fconc) (x : Z) : outcome World :=
  let a := fk_arena s in
  let! offset := usz_mul x (a_slot_capacity a) in
  Ret (set_mem (fk_world s) (zeroize_region (w_mem (fk_world s)) (a_ptr a + offset) (a_slot_capacity a))).

(** The accesses of [allocate] after the claim of [x].  The record is one bit of
    one word, so the look is one access. *)
Definition alloc_access (s : fconc) (x : Z) (p : phase) (stale : bool) : outcome fconc :=
  let a := fk_arena s in
  match p with
  | PhClaimed =>
      let! _ := usz_mul x (a_slot_capacity a) in
      match a_init_policy a, a_zeroed_bitmap a with
      | Zero, Some z =>
          let! e := usz_add x 1 in
          let! warm := all_set_in_range z x e in
          Ret (set_phase s x (if warm && negb stale then PhCountOk else PhCold))
      | _, _ => Ret (set_phase s x PhCountOk)
      end
  | PhCold => let! w := zero_slot s x in Ret (set_phase (set_world s w) x PhCountOk)
  | PhCountOk => Ret (set_phase (on_metrics s count_ok) x PhCountBytes)
  | PhCountBytes => Ret (set_phase (on_metrics s (λ m, add_live m (a_slot_capacity a))) x (PhHeld []))
  | _ => Ret s
  end.

(** The accesses of [release] up to the free; the mark, too, is one access. *)
Definition release_access (s : fconc) (x : Z) (p : phase) : outcome fconc :=
  let a := fk_arena s in
  match p with
  | PhScrub =>
      match a_init_policy a with
      | Zero => let! w := zero_slot s x in Ret (set_phase (set_world s w) x PhMark)
      | Uninit => Ret (set_phase s x PhFree)
      end
  | PhMark =>
      match a_zeroed_bitmap a with
      | Some z =>
          let! e := usz_add x 1 in
          let! z := set_range z x e in
          Ret (set_phase (set_arena s (a_set a (a_bitmap a) (a_metrics a) (Some z))) x PhFree)
      | None => Ret (set_phase s x PhFree)
      end
  | PhFree =>
      let! r := exec_event (scan_state s) (FreeSlot x) in
      match r with
      | Some c => Ret (set_exits (after_scan s c (delete x (fk_phases s))) (S (fk_frees s)) (fk_subs s) (fk_wakes s))
      | None => Ret s
      end
  | _ => Ret s
  end.

(** The next access of the holder of [x]. *)
Definition slot_step (s : fconc) (x : Z) (p : phase) (stale : bool) : outcome fconc :=
  match p with
  | PhScrub | PhMark | PhFree => release_access s x p
  | _ => alloc_access s x p stale
  end.

(** The phases after a claim attempt: a slot added in front of [old] is claimed. *)
Definition claim_phase (old new : list Z) (ph : gmap Z phase) : gmap Z phase :=
  match new with
  | x :: h => if decide (h = old) then <[x := PhClaimed]> ph else ph
  | [] => ph
  end.

(** A scan event belongs to [try_alloc]; the end of a scan that found nothing
    is [record_alloc_failure]. *)
Definition scan_step (s : fconc) (e : event) : outcome fconc :=
  let! r := exec_event (scan_state s) e in
  match r with
  | None => Ret s
  | Some c =>
      match e with
      | BeginAlloc _ | ScanLoad _ _ => Ret (after_scan s c (fk_phases s))
      | FetchAnd _ => Ret (after_scan s c (claim_phase (fk_held s) (held c) (fk_phases s)))
      | ScanEnd _ => Ret (on_metrics (after_scan s c (fk_phases s)) record_alloc_failure)
      | FreeSlot _ | ClaimExact _ => Ret s
      end
  end.

Definition fexec_event (s : fconc) (ev : fevent) : outcome fconc :=
  match ev with
  | KScan e => scan_step s e
  | KStep x stale => match fk_phases s !! x with Some p => slot_step s x p stale | None => Ret s end
  | KWrite x data =>
      match fk_phases s !! x with
      | Some (PhHeld c) =>
          let a := fk_arena s in
          if Z.of_nat (length c) + Z.of_nat (length data) <=? a_slot_capacity a then
            let addr := a_ptr a + x * a_slot_capacity a + Z.of_nat (length c) in
            let w := set_mem (fk_world s) (write_bytes (w_mem (fk_world s)) addr data) in
            Ret (set_phase (set_world s w) x (PhHeld (c ++ data)))
          else Ret s
      | _ => Ret s
      end
  | KRelease x =>
      match fk_phases s !! x with Some (PhHeld _) => Ret (set_phase s x PhScrub) | _ => Ret s end
  | KCountFree =>
      match fk_frees s with
      | O => Ret s
      | S k => Ret (set_exits (on_metrics s count_free) k (S (fk_subs s)) (fk_wakes s))
      end
  | KCountBytes =>
      match fk_subs s with
      | O => Ret s
      | S k =>
          let cap := a_slot_capacity (fk_arena s) in
          Ret (set_exits (on_metrics s (λ m, add_live m (- cap))) (fk_frees s) k (S (fk_wakes s)))
      end
  | KWake =>
      match fk_wakes s with
      | O => Ret s
      | S k =>
          let w := if a_wake_handle (fk_arena s) then log_wake (fk_world s) WakeFixed else fk_world s in
          Ret (set_exits (set_world s w) (fk_frees s) (fk_subs s) k)
      end
  end.

Definition fexec_events (s : fconc) (evs : list fevent) : outcome fconc := ofoldM fexec_event s evs.

Definition fconc_start (a : ArenaInner) (w : World) : fconc := mkFconc a w ∅ [] ∅ 0 0 0.
End exec.

(** ** Invariant *)

(** The slots that are on [allocations_ok], and on [bytes_live]. *)
Definition on_bytes (p : phase) : bool :=
  match p with PhHeld _ | PhScrub | PhMark | PhFree => true | _ => false end.
Definition on_ok (p : phase) : bool := match p with PhCountBytes => true | _ => on_bytes p end.

(** What is known of the bytes of slot [x], marked scrubbed or not, under
    [Zero]. *)
Definition phase_zero (a : ArenaInner) (m : gmap Z Z) (x : Z) (marked : bool) (p : option phase) : Prop :=
  let clean := all_zero m (slot_addr a x) (a_slot_capacity a) in
  match p with
  | None | Some PhClaimed => marked = true → clean
  | Some PhCold | Some PhScrub => True
  | Some PhCountOk | Some PhCountBytes | Some PhMark | Some PhFree => clean
  | Some (PhHeld c) =>
      all_zero m (slot_addr a x + Z.of_nat (length c)) (a_slot_capacity a - Z.of_nat (length c))
  end.

Definition zero_inv (a : ArenaInner) (m : gmap Z Z) (ph : gmap Z phase) : Prop :=
  match a_init_policy a, a_zeroed_bitmap a with
  | Uninit, None => True
  | Zero, Some z =>
      bitmap_wf z ∧ slot_count z = a_slot_count a ∧
      ∀ x, 0 ≤ x < a_slot_count a → phase_zero a m x (bit z x) (ph !! x)
  | _, _ => False
  end.

(** A buffer reads back what was written to it. *)
Definition contents_inv (a : ArenaInner) (m : gmap Z Z) (ph : gmap Z phase) : Prop :=
  ∀ x c, ph !! x = Some (PhHeld c) →
    Z.of_nat (length c) ≤ a_slot_capacity a ∧ read_bytes m (slot_addr a x) (Z.of_nat (length c)) = Some c.

(** The counters stand for the slots that are on them and the threads past the
    free that have yet to take theirs off. *)
Definition counters_inv (m : MetricsState) (cap : Z) (ph : gmap Z phase) (nf ns : nat) : Prop :=
  bytes_live m = wrap ((count_in on_bytes ph + Z.of_nat nf + Z.of_nat ns) * cap) ∧
  (allocations_ok m - frees m - (count_in on_ok ph + Z.of_nat nf)) mod 2 ^ 64 = 0.

Record finv (s : fconc) : Prop := {
  fv_geo : fixed_geo (fk_arena s);
  fv_conc : BitmapConc.conc_inv (a_slot_count (fk_arena s)) (scan_state s);
  fv_dom x : x ∈ fk_held s ↔ is_Some (fk_phases s !! x);
  fv_zero : zero_inv (fk_arena s) (w_mem (fk_world s)) (fk_phases s);
  fv_contents : contents_inv (fk_arena s) (w_mem (fk_world s)) (fk_phases s);
  fv_counters : counters_inv (a_metrics (fk_arena s)) (a_slot_capacity (fk_arena s)) (fk_phases s)
    (fk_frees s) (fk_subs s);
}.

Section proofs.
Context {P : Profile}.

Lemma held_range s x : finv s → is_Some (fk_phases s !! x) → 0 ≤ x < a_slot_count (fk_arena s).
Proof.
  intros Hi Hx%(fv_dom _ Hi). pose proof (ci_range _ _ (fv_conc _ Hi)) as Hr. rewrite Forall_forall in Hr.
  by apply Hr.
Qed.

Lemma zero_inv_Zero a m ph z :
  zero_inv a m ph → a_init_policy a = Zero → a_zeroed_bitmap a = Some z →
  bitmap_wf z ∧ slot_count z = a_slot_count a ∧ ∀ x, 0 ≤ x < a_slot_count a → phase_zero a m x (bit z x) (ph !! x).
Proof. unfold zero_inv. intros Hz Hp Hb. by rewrite Hp, Hb in Hz. Qed.

Lemma slot_next_ok s x : finv s → 0 ≤ x < a_slot_count (fk_arena s) → usz_add x 1 = Ret (x + 1).
Proof.
  intros Hi Hx. apply usz_add_ok. destruct (fv_geo _ Hi). assert (a_slot_count (fk_arena s) ≤ isize_MAX) by nia.
  unfold isize_MAX in *. ulia.
Qed.

(** ** Frames *)

(** Memory changes within slot [x] only. *)
Definition mem_at (a : ArenaInner) (x : Z) (m m' : gmap Z Z) : Prop :=
  ∀ y, ¬ (slot_addr a x ≤ y < slot_addr a x + a_slot_capacity a) → m' !! y = m !! y.

Lemma mem_at_zero a x m m' y off len :
  fixed_geo a → mem_at a x m m' → y ≠ x → 0 ≤ off → off + len ≤ a_slot_capacity a →
  all_zero m (slot_addr a y + off) len → all_zero m' (slot_addr a y + off) len.
Proof.
  intros Hg Hm Hne Hoff Hlen Hz b Hb. rewrite Hm; [by apply Hz|].
  pose proof (slot_disjoint a x y Hg ltac:(done)) as Hd. unfold disjoint_ranges in Hd. destruct Hg. lia.
Qed.

Lemma zero_update a a' m m' ph x p' :
  zero_inv a m ph → fixed_geo a → a_ptr a' = a_ptr a → a_slot_capacity a' = a_slot_capacity a →
  a_slot_count a' = a_slot_count a → a_init_policy a' = a_init_policy a → mem_at a x m m' →
  contents_inv a m ph →
  (a_init_policy a = Uninit → a_zeroed_bitmap a' = a_zeroed_bitmap a) →
  (∀ z, a_init_policy a = Zero → a_zeroed_bitmap a = Some z → ∃ z', a_zeroed_bitmap a' = Some z' ∧
     bitmap_wf z' ∧ slot_count z' = slot_count z ∧ (∀ y, 0 ≤ y → y ≠ x → bit z' y = bit z y) ∧
     phase_zero a m' x (bit z' x) p') →
  zero_inv a' m' (partial_alter (λ _, p') x ph).
Proof.
  intros Hz Hg Hptr Hcap Hcnt Hpol Hm Hcon Hu Hzz. unfold zero_inv in *. rewrite Hpol, Hcnt.
  destruct (a_init_policy a), (a_zeroed_bitmap a) as [z|]; try done.
  { by rewrite (Hu eq_refl). }
  destruct (Hzz z eq_refl eq_refl) as (z' & -> & Hwf & Hc & Hb & Hx). destruct Hz as (_ & Hcz & Hz).
  split_and!; [done|by rewrite Hc|]. intros y Hy. rewrite lookup_partial_alter.
  assert (Hph : ∀ q, phase_zero a' m' y (bit z' y) q ↔ phase_zero a m' y (bit z' y) q).
  { intros q. unfold phase_zero, slot_addr. by rewrite Hptr, Hcap. }
  apply Hph. case_decide as Hxy; [by subst|]. specialize (Hz y Hy). rewrite (Hb y ltac:(lia) ltac:(done)).
  assert (Hfr : ∀ off, 0 ≤ off ≤ a_slot_capacity a → all_zero m (slot_addr a y + off) (a_slot_capacity a - off) →
    all_zero m' (slot_addr a y + off) (a_slot_capacity a - off)).
  { intros off Hoff. apply (mem_at_zero a x); try done; lia. }
  assert (Hcl : all_zero m (slot_addr a y) (a_slot_capacity a) → all_zero m' (slot_addr a y) (a_slot_capacity a)).
  { specialize (Hfr 0). rewrite Z.add_0_r, Z.sub_0_r in Hfr. apply Hfr. destruct Hg. lia. }
  unfold phase_zero in *. destruct (ph !! y) as [[]|] eqn:Hp; auto.
  apply Hfr; [|done]. destruct (Hcon _ _ Hp). lia.
Qed.

Lemma contents_update a a' m m' ph x p' :
  contents_inv a m ph → fixed_geo a → a_ptr a' = a_ptr a → a_slot_capacity a' = a_slot_capacity a →
  mem_at a x m m' →
  (∀ c, p' = Some (PhHeld c) → Z.of_nat (length c) ≤ a_slot_capacity a ∧
     read_bytes m' (slot_addr a x) (Z.of_nat (length c)) = Some c) →
  contents_inv a' m' (partial_alter (λ _, p') x ph).
Proof.
  intros Hc Hg Hptr Hcap Hm Hp y c. unfold slot_addr. rewrite Hptr, Hcap, lookup_partial_alter.
  case_decide as Hxy; [subst; apply Hp|]. intros Hy. destruct (Hc y c Hy) as [Hlen Hr]. split; [done|].
  rewrite <- Hr. apply read_bytes_ext. intros b Hb. apply Hm.
  pose proof (slot_disjoint a x y Hg ltac:(done)) as Hd. unfold disjoint_ranges, slot_addr in *. destruct Hg. lia.
Qed.

(** ** Counting *)

Lemma wrap_off v : ∃ q, wrap v = v + q * 2 ^ 64.
Proof. exists (- (v / 2 ^ 64)). unfold wrap. pose proof (Z.div_mod v (2 ^ 64) ltac:(lia)). lia. Qed.

Lemma counters_update m m' cap ph nf ns nf' ns' x p' :
  counters_inv m cap ph nf ns →
  bytes_live m' = wrap (bytes_live m + (one_if on_bytes p' - one_if on_bytes (ph !! x) +
    Z.of_nat nf' - Z.of_nat nf + Z.of_nat ns' - Z.of_nat ns) * cap) →
  (allocations_ok m' - frees m' - (allocations_ok m - frees m) -
    (one_if on_ok p' - one_if on_ok (ph !! x) + Z.of_nat nf' - Z.of_nat nf)) mod 2 ^ 64 = 0 →
  counters_inv m' cap (partial_alter (λ _, p') x ph) nf' ns'.
Proof.
  intros [Hl Hc] Hl' Hc'. unfold counters_inv. rewrite !count_alter. split.
  - rewrite Hl', Hl. unfold wrap. rewrite Zplus_mod_idemp_l. f_equal. lia.
  - apply Z.mod_divide in Hc as [q1 Hq1], Hc' as [q2 Hq2]; [|lia..]. apply Z.mod_divide; [lia|].
    exists (q1 + q2). lia.
Qed.

(** ** Steps keep the invariant *)

Lemma a_set_geo a bm m z : fixed_geo a → fixed_geo (a_set a bm m z).
Proof. by intros []. Qed.

(** The holder of [x] moves from [p] to [p']. *)
Lemma slot_update s x p p' m z w :
  let a := fk_arena s in
  finv s → fk_phases s !! x = Some p →
  mem_at a x (w_mem (fk_world s)) (w_mem w) →
  (a_init_policy a = Uninit → z = a_zeroed_bitmap a) →
  (∀ z0, a_init_policy a = Zero → a_zeroed_bitmap a = Some z0 → phase_zero a (w_mem (fk_world s)) x (bit z0 x) (Some p) →
     ∃ z', z = Some z' ∧ bitmap_wf z' ∧ slot_count z' = slot_count z0 ∧
       (∀ y, 0 ≤ y → y ≠ x → bit z' y = bit z0 y) ∧ phase_zero a (w_mem w) x (bit z' x) (Some p')) →
  (∀ c, p' = PhHeld c → Z.of_nat (length c) ≤ a_slot_capacity a ∧
     read_bytes (w_mem w) (slot_addr a x) (Z.of_nat (length c)) = Some c) →
  bytes_live m = wrap (bytes_live (a_metrics a) + (one_if on_bytes (Some p') - one_if on_bytes (Some p)) * a_slot_capacity a) →
  (allocations_ok m - frees m - (allocations_ok (a_metrics a) - frees (a_metrics a)) -
    (one_if on_ok (Some p') - one_if on_ok (Some p))) mod 2 ^ 64 = 0 →
  finv (set_phase (set_world (set_arena s (a_set a (a_bitmap a) m z)) w) x p').
Proof.
  cbv zeta. intros Hi Hp Hm Hu Hz Hc Hl Ho. pose proof Hi as [Hg Hco Hd Hzi Hci Hki]. split; simpl; try done.
  - by apply a_set_geo.
  - intros y. rewrite Hd. rewrite lookup_insert. case_decide; [subst; rewrite Hp|]; naive_solver.
  - eapply (zero_update (fk_arena s)); try done. intros z0 Hpol Hz0. apply Hz; [done..|].
    rewrite <- Hp. eapply zero_inv_Zero; [done..|]. by apply (held_range s).
  - eapply (contents_update (fk_arena s)); try done. intros c [= ->]. by apply Hc.
  - eapply counters_update; [done|rewrite Hp..].
    + rewrite Hl. f_equal. lia.
    + rewrite <- Ho. f_equal. lia.
Qed.

(** The same when the record of scrubbed slots stays as it is. *)
Lemma slot_update_same s x p p' m w :
  let a := fk_arena s in
  finv s → fk_phases s !! x = Some p →
  mem_at a x (w_mem (fk_world s)) (w_mem w) →
  (∀ b, a_init_policy a = Zero → (∀ z0, a_zeroed_bitmap a = Some z0 → b = bit z0 x) →
     phase_zero a (w_mem (fk_world s)) x b (Some p) → phase_zero a (w_mem w) x b (Some p')) →
  (∀ c, p' = PhHeld c → Z.of_nat (length c) ≤ a_slot_capacity a ∧
     read_bytes (w_mem w) (slot_addr a x) (Z.of_nat (length c)) = Some c) →
  bytes_live m = wrap (bytes_live (a_metrics a) + (one_if on_bytes (Some p') - one_if on_bytes (Some p)) * a_slot_capacity a) →
  (allocations_ok m - frees m - (allocations_ok (a_metrics a) - frees (a_metrics a)) -
    (one_if on_ok (Some p') - one_if on_ok (Some p))) mod 2 ^ 64 = 0 →
  finv (set_phase (set_world (set_arena s (a_set a (a_bitmap a) m (a_zeroed_bitmap a))) w) x p').
Proof.
  cbv zeta. intros Hi Hp Hm Hz Hc Hl Ho. eapply slot_update; try done. intros z0 Hpol Hz0 Hx. exists z0.
  destruct (zero_inv_Zero _ _ _ z0 (fv_zero _ Hi)) as (? & ? & _); [done..|]. split_and!; try done.
  apply Hz; [done| |done]. intros z1 Hz1. congruence.
Qed.

Lemma live_same s : finv s → bytes_live (a_metrics (fk_arena s)) = wrap (bytes_live (a_metrics (fk_arena s)) + 0).
Proof.
  intros [_ _ _ _ _ [Hl _]]. rewrite Z.add_0_r, Hl. unfold wrap. by rewrite Zmod_mod.
Qed.

Lemma mem_at_refl a x m : mem_at a x m m.
Proof. by intros y _. Qed.

Lemma mem_at_zeroize a x m : mem_at a x m (zeroize_region m (slot_addr a x) (a_slot_capacity a)).
Proof. intros y Hy. rewrite lookup_zeroize. by rewrite decide_False by lia. Qed.

Lemma zero_slot_ok s x :
  finv s → is_Some (fk_phases s !! x) →
  let a := fk_arena s in
  zero_slot s x = Ret (set_mem (fk_world s) (zeroize_region (w_mem (fk_world s)) (slot_addr a x) (a_slot_capacity a))).
Proof.
  intros Hi Hx a. unfold zero_slot. fold a. rewrite (slot_offset_ok a x); [done|apply (fv_geo _ Hi)|].
  by apply held_range.
Qed.

(** What a step owes: it does not panic and keeps the invariant. *)
Definition step_ok (r : outcome fconc) : Prop := ∃ s', r = Ret s' ∧ finv s'.

Lemma step_ok_ret s : finv s → step_ok (Ret s).
Proof. by exists s. Qed.

Lemma set_arena_same s : set_arena s (a_set (fk_arena s) (a_bitmap (fk_arena s)) (a_metrics (fk_arena s))
  (a_zeroed_bitmap (fk_arena s))) = s.
Proof. by destruct s as [[]]. Qed.

Lemma set_world_same s : set_world s (fk_world s) = s.
Proof. by destruct s. Qed.

(** A move that changes no counter, over memory [w]. *)
Lemma slot_move s x p p' w :
  let a := fk_arena s in
  finv s → fk_phases s !! x = Some p →
  mem_at a x (w_mem (fk_world s)) (w_mem w) →
  (∀ b, a_init_policy a = Zero → (∀ z0, a_zeroed_bitmap a = Some z0 → b = bit z0 x) →
     phase_zero a (w_mem (fk_world s)) x b (Some p) → phase_zero a (w_mem w) x b (Some p')) →
  (∀ c, p' = PhHeld c → Z.of_nat (length c) ≤ a_slot_capacity a ∧
     read_bytes (w_mem w) (slot_addr a x) (Z.of_nat (length c)) = Some c) →
  on_bytes p' = on_bytes p → on_ok p' = on_ok p → finv (set_phase (set_world s w) x p').
Proof.
  cbv zeta. intros Hi Hp Hm Hz Hc Hb Ho. rewrite <- (set_arena_same s). eapply slot_update_same; try done.
  - rewrite (live_same s Hi) at 1. unfold one_if. simpl. rewrite Hb. f_equal. lia.
  - unfold one_if. simpl. rewrite Ho. by rewrite !Z.sub_diag.
Qed.

Lemma claimed_step s x stale : finv s → fk_phases s !! x = Some PhClaimed → step_ok (slot_step s x PhClaimed stale).
Proof.
  intros Hi Hx. pose proof (held_range s x Hi ltac:(by rewrite Hx)) as Hr. pose proof (fv_geo _ Hi) as Hg. simpl.
  rewrite slot_offset_ok by done. cbn [obind]. pose proof (fv_zero _ Hi) as Hzi. unfold zero_inv in Hzi.
  destruct (a_init_policy (fk_arena s)) eqn:Hpol, (a_zeroed_bitmap (fk_arena s)) as [z|] eqn:Hz; try done.
  - apply step_ok_ret. rewrite <- (set_world_same s) at 1. eapply slot_move; try done. congruence.
  - destruct Hzi as (Hwf & Hc & _). rewrite (slot_next_ok s x) by done.
    cbn [obind]. destruct (all_set_in_range_ok z x (x + 1) Hwf) as (b & -> & Hb); [lia..|]. cbn [obind].
    apply step_ok_ret. rewrite <- (set_world_same s) at 1. destruct (b && negb stale) eqn:E.
    + eapply slot_move; try done. intros b' _ Hb' Hcl. simpl in *. apply Hcl. rewrite (Hb' z Hz).
      apply andb_true_iff in E as [-> _]. apply Hb; [done|lia].
    + by eapply slot_move.
Qed.

(** Zeroing the slot and moving on. *)
Lemma zeroing_step s x p p' :
  finv s → fk_phases s !! x = Some p → (∀ c, p' ≠ PhHeld c) → on_bytes p' = on_bytes p → on_ok p' = on_ok p →
  step_ok (let! w := zero_slot s x in Ret (set_phase (set_world s w) x p')).
Proof.
  intros Hi Hx Hnh Hb Ho. rewrite zero_slot_ok by (done || by rewrite Hx). cbn [obind]. apply step_ok_ret.
  eapply slot_move; try done.
  - apply mem_at_zeroize.
  - intros b _ _ _. pose proof (zeroize_all_zero (w_mem (fk_world s)) (slot_addr (fk_arena s) x)
      (a_slot_capacity (fk_arena s))). destruct p'; simpl; try done. by destruct (Hnh c).
  - intros c ->. by destruct (Hnh c).
Qed.

Lemma count_ok_step s x stale : finv s → fk_phases s !! x = Some PhCountOk → step_ok (slot_step s x PhCountOk stale).
Proof.
  intros Hi Hx. apply step_ok_ret. rewrite <- (set_world_same (on_metrics s count_ok)).
  eapply slot_update_same; try done; [apply (live_same s Hi)|].
  simpl. destruct (wrap_off (allocations_ok (a_metrics (fk_arena s)) + 1)) as [q ->]. apply Z.mod_divide; [lia|].
  exists q. unfold one_if. simpl. lia.
Qed.

Lemma count_bytes_step s x stale :
  finv s → fk_phases s !! x = Some PhCountBytes → step_ok (slot_step s x PhCountBytes stale).
Proof.
  intros Hi Hx. apply step_ok_ret. cbn [slot_step alloc_access release_access].
  rewrite <- (set_world_same (on_metrics s _)). eapply slot_update_same; try done.
  - intros b _ _ Hz. simpl in *. by rewrite Z.add_0_r, Z.sub_0_r.
  - intros c [= <-]. simpl. split; [destruct (fv_geo _ Hi); lia|done].
  - unfold one_if. simpl. f_equal. lia.
  - simpl. rewrite Z.sub_diag. done.
Qed.

Lemma scrub_step s x stale : finv s → fk_phases s !! x = Some PhScrub → step_ok (slot_step s x PhScrub stale).
Proof.
  intros Hi Hx. simpl. destruct (a_init_policy (fk_arena s)) eqn:Hpol; [|by eapply zeroing_step].
  apply step_ok_ret. rewrite <- (set_world_same s) at 1. eapply slot_move; try done. congruence.
Qed.

Lemma mark_step s x stale : finv s → fk_phases s !! x = Some PhMark → step_ok (slot_step s x PhMark stale).
Proof.
  intros Hi Hx. pose proof (held_range s x Hi ltac:(by rewrite Hx)) as Hr.
  cbn [slot_step alloc_access release_access].
  destruct (a_zeroed_bitmap (fk_arena s)) as [z|] eqn:Hz.
  2: { apply step_ok_ret. rewrite <- (set_world_same s) at 1. by eapply slot_move. }
  pose proof (fv_zero _ Hi) as Hzi. unfold zero_inv in Hzi. rewrite Hz in Hzi.
  destruct (a_init_policy (fk_arena s)) eqn:Hpol; [done|]. destruct Hzi as (Hwf & Hc & _).
  rewrite (slot_next_ok s x) by done. cbn [obind].
  destruct (set_range_ok z x (x + 1) Hwf) as (z' & -> & Hwf' & Hc' & Hb'); [lia..|]. cbn [obind]. apply step_ok_ret.
  rewrite <- (set_world_same (set_arena s _)). eapply slot_update; try done.
  - congruence.
  - intros z0 _ Hz0 Hcl. assert (z0 = z) as -> by congruence. exists z'. split_and!; try done.
    intros y Hy Hne. rewrite Hb' by done. rewrite bool_decide_false by lia. by rewrite orb_false_r.
  - apply (live_same s Hi).
  - simpl. by rewrite !Z.sub_diag.
Qed.

(** The bitmap moves on and phases change at [x], outside any slot's bytes. *)
Lemma scan_update s c x p' nf :
  finv s → BitmapConc.conc_inv (a_slot_count (fk_arena s)) c →
  (∀ y, y ∈ held c ↔ is_Some (partial_alter (λ _, p') x (fk_phases s) !! y)) →
  (∀ c, p' ≠ Some (PhHeld c)) →
  (∀ b, phase_zero (fk_arena s) (w_mem (fk_world s)) x b (fk_phases s !! x) →
        phase_zero (fk_arena s) (w_mem (fk_world s)) x b p') →
  0 ≤ x < a_slot_count (fk_arena s) →
  one_if on_bytes p' - one_if on_bytes (fk_phases s !! x) + Z.of_nat nf - Z.of_nat (fk_frees s) = 0 →
  one_if on_ok p' - one_if on_ok (fk_phases s !! x) + Z.of_nat nf - Z.of_nat (fk_frees s) = 0 →
  finv (set_exits (after_scan s c (partial_alter (λ _, p') x (fk_phases s))) nf (fk_subs s) (fk_wakes s)).
Proof.
  intros Hi Hc Hd Hnh Hz Hx Hb Ho. pose proof Hi as [Hg _ _ Hzi Hci Hki]. split; simpl; try done.
  - by apply a_set_geo.
  - by destruct c.
  - eapply (zero_update (fk_arena s)); try done. intros z Hpol Hz0.
    destruct (zero_inv_Zero _ _ _ z Hzi) as (? & ? & Hph);
      [done..|]. exists z. split_and!; try done. by apply Hz, Hph.
  - eapply (contents_update (fk_arena s)); try done. intros c' ->. by destruct (Hnh c').
  - eapply counters_update; [done|..].
    + rewrite (live_same s Hi) at 1. f_equal. lia.
    + rewrite Z.sub_diag, Ho. done.
Qed.

Lemma free_step s x stale : finv s → fk_phases s !! x = Some PhFree → step_ok (slot_step s x PhFree stale).
Proof.
  intros Hi Hx. pose proof (held_range s x Hi ltac:(by rewrite Hx)) as Hr.
  cbn [slot_step alloc_access release_access].
  destruct (free_slot_inv _ _ x (fv_conc _ Hi)) as (r & He & Hc). rewrite He. cbn [obind].
  destruct r as [c|]; [|by apply step_ok_ret]. apply step_ok_ret. specialize (Hc c eq_refl).
  apply (scan_update s c x None (S (fk_frees s))); try done.
  - simpl in He. destruct (remove_one x (fk_held s)) as [h|] eqn:E; [|done]. apply remove_one_perm in E.
    outcome_inv. simpl. intros y. pose proof (fv_dom _ Hi y) as Hd. rewrite E, elem_of_cons in Hd.
    pose proof (ci_nodup _ _ (fv_conc _ Hi)) as Hnd. simpl in Hnd. rewrite E in Hnd.
    apply NoDup_cons in Hnd as [Hni _].
    rewrite lookup_partial_alter. case_decide; [subst|]; naive_solver.
  - rewrite Hx. simpl. by intros b Hz _.
  - rewrite Hx. unfold one_if. simpl. lia.
  - rewrite Hx. unfold one_if. simpl. lia.
Qed.

Lemma slot_step_inv s x p stale : finv s → fk_phases s !! x = Some p → step_ok (slot_step s x p stale).
Proof.
  intros Hi Hx.
  destruct p; eauto using claimed_step, count_ok_step, count_bytes_step, scrub_step, mark_step, free_step.
  - by eapply zeroing_step.
  - by apply step_ok_ret.
Qed.

(** Only a [fetch_and] changes what is held, by a slot in front. *)
Lemma exec_event_held c e c' :
  exec_event c e = Ret (Some c') →
  match e with
  | BeginAlloc _ | ScanLoad _ _ | ScanEnd _ => held c' = held c
  | FetchAnd _ => held c' = held c ∨ ∃ x, held c' = x :: held c
  | _ => True
  end.
Proof.
  intros He. destruct e; simpl in He; try done; repeat first [progress outcome_inv | case_match]; simpl; eauto.
Qed.

Lemma claim_phase_same l ph : claim_phase l l ph = ph.
Proof.
  destruct l as [|x l]; [done|]. simpl. rewrite decide_False; [done|]. intros Heq%(f_equal length). simpl in Heq. lia.
Qed.

(** A scan access that claims nothing. *)
Lemma scan_idle s c :
  finv s → BitmapConc.conc_inv (a_slot_count (fk_arena s)) c → held c = fk_held s → finv (after_scan s c (fk_phases s)).
Proof.
  intros Hi Hc Hh. pose proof Hi as [Hg _ Hd Hzi Hci Hki]. split; simpl; try done.
  - by apply a_set_geo.
  - by destruct c.
  - by rewrite Hh.
Qed.

Lemma scan_claim s c x :
  finv s → BitmapConc.conc_inv (a_slot_count (fk_arena s)) c → held c = x :: fk_held s →
  finv (after_scan s c (<[x := PhClaimed]> (fk_phases s))).
Proof.
  intros Hi Hc Hh. pose proof (ci_nodup _ _ Hc) as Hnd. pose proof (ci_range _ _ Hc) as Hr.
  rewrite Hh in Hnd, Hr. apply NoDup_cons in Hnd as [Hni _]. apply Forall_cons in Hr as [Hr _].
  assert (Hx : fk_phases s !! x = None) by (rewrite eq_None_not_Some; by rewrite <- (fv_dom _ Hi)).
  apply (scan_update s c x (Some PhClaimed) (fk_frees s)); try done.
  - intros y. rewrite Hh, elem_of_cons, (fv_dom _ Hi), lookup_partial_alter. case_decide; [subst|]; naive_solver.
  - by rewrite Hx.
  - rewrite Hx. unfold one_if. simpl. lia.
  - rewrite Hx. unfold one_if. simpl. lia.
Qed.

Lemma scan_step_inv s e : finv s → step_ok (scan_step s e).
Proof.
  intros Hi. unfold scan_step. destruct (exec_event_inv _ _ e (fv_conc _ Hi)) as (r & He & Hc). rewrite He.
  cbn [obind].
  destruct r as [c|]; [|by apply step_ok_ret]. specialize (Hc c eq_refl). apply exec_event_held in He. simpl in He.
  destruct e; apply step_ok_ret; try done; try by apply scan_idle.
  - destruct (scan_idle s c Hi Hc He) as [? ? ? ? ? Hk]. split; try done. by apply a_set_geo.
  - destruct He as [Hh|[x Hh]]; rewrite Hh.
    + rewrite claim_phase_same. by apply scan_idle.
    + simpl. rewrite decide_True by done. by apply scan_claim.
Qed.

Lemma write_step s x data : finv s → step_ok (fexec_event s (KWrite x data)).
Proof.
  intros Hi. simpl. destruct (fk_phases s !! x) as [[]|] eqn:Hx; try by apply step_ok_ret.
  destruct (Z.leb_spec (Z.of_nat (length c) + Z.of_nat (length data)) (a_slot_capacity (fk_arena s))) as [Hle|];
    [|by apply step_ok_ret].
  destruct (fv_contents _ Hi _ _ Hx) as [Hlen Hrd]. apply step_ok_ret. fold (slot_addr (fk_arena s) x).
  eapply slot_move; try done.
  - intros y Hy. apply lookup_write_bytes_out. simpl in *. lia.
  - intros b _ _ Hz. simpl in *. rewrite length_app. apply write_frame; [left; lia|].
    eapply all_zero_sub; [done|lia..].
  - intros c' [= <-]. rewrite length_app. split; [lia|]. simpl.
    apply read_bytes_Some in Hrd as [_ Hrd]; [|lia]. apply read_bytes_Some; [lia|].
    split; [rewrite length_app; lia|]. intros i v Hi'. rewrite lookup_write_bytes.
    apply lookup_app_Some in Hi' as [Hi'|[Hge Hi']].
    + pose proof (lookup_lt_Some _ _ _ Hi'). rewrite decide_False by lia. by apply Hrd.
    + pose proof (lookup_lt_Some _ _ _ Hi'). rewrite decide_True by lia. rewrite <- Hi'. f_equal. lia.
Qed.

(** A thread past the free takes its slot off a counter. *)
Lemma exit_step s m nf ns nw w :
  finv s → w_mem w = w_mem (fk_world s) →
  counters_inv m (a_slot_capacity (fk_arena s)) (fk_phases s) nf ns →
  finv (set_exits (set_world (set_arena s (a_set_metrics (fk_arena s) m)) w) nf ns nw).
Proof.
  intros [] Hw Hk. split; simpl; try done; [by apply a_set_geo|by rewrite Hw..].
Qed.

Lemma exits_inv s ev :
  finv s → match ev with KCountFree | KCountBytes | KWake => True | _ => False end → step_ok (fexec_event s ev).
Proof.
  intros Hi Hev. destruct (fv_counters _ Hi) as [Hl Hc]. destruct ev; try done; simpl.
  - destruct (fk_frees s) as [|k] eqn:Hk; apply step_ok_ret; [done|].
    rewrite <- (set_world_same (on_metrics s _)). apply (exit_step s); [done..|]. split; simpl.
    + rewrite Hl. f_equal. lia.
    + destruct (wrap_off (frees (a_metrics (fk_arena s)) + 1)) as [q ->].
      apply Z.mod_divide in Hc as [q' Hq']; [|lia].
      apply Z.mod_divide; [lia|]. exists (q' - q). lia.
  - destruct (fk_subs s) as [|k] eqn:Hk; apply step_ok_ret; [done|].
    rewrite <- (set_world_same (on_metrics s _)). apply (exit_step s); [done..|]. split; simpl; [|done].
    rewrite Hl. unfold wrap. rewrite Zplus_mod_idemp_l. f_equal. lia.
  - destruct (fk_wakes s) as [|k] eqn:Hk; apply step_ok_ret; [done|].
    rewrite <- (set_arena_same s). apply (exit_step s); [done|by destruct (a_wake_handle _)|by split].
Qed.

Lemma fexec_event_inv s ev : finv s → step_ok (fexec_event s ev).
Proof.
  intros Hi. destruct ev; try by apply exits_inv; [..|done].
  - by apply scan_step_inv.
  - simpl. destruct (fk_phases s !! s0) eqn:Hx; [by apply slot_step_inv|by apply step_ok_ret].
  - by apply write_step.
  - simpl. destruct (fk_phases s !! s0) as [[]|] eqn:Hx; try by apply step_ok_ret. apply step_ok_ret.
    rewrite <- (set_world_same s) at 1. by eapply slot_move.
Qed.

Lemma fexec_events_inv s evs : finv s → step_ok (fexec_events s evs).
Proof.
  revert s. induction evs as [|ev evs IH]; intros s Hi; [by apply step_ok_ret|]. unfold fexec_events in *. simpl.
  destruct (fexec_event_inv s ev Hi) as (s' & -> & Hi'). by apply IH.
Qed.

Lemma fconc_start_inv a w : fixed_inv a w [] → finv (fconc_start a w).
Proof.
  intros [Hg Hwf Hc Hnd Hr Hex Hz Hm _]. split; simpl; try done.
  - intros x. rewrite lookup_empty. split; [by intros ?%elem_of_nil|by intros []].
  - unfold zeroed_ok in Hz. unfold zero_inv. destruct (a_init_policy a), (a_zeroed_bitmap a); try done.
    destruct Hz as (? & ? & Hz). split_and!; [done..|]. intros x Hx. rewrite lookup_empty. simpl. apply Hz; [done|].
    apply not_elem_of_nil.
  - destruct Hm as [Hl ? Hk]. split; [by rewrite Hl|]. by rewrite Z.add_0_r.
Qed.
End proofs.

(** ** Properties *)

(** What a state promises. *)
Record conc_promise (s : fconc) : Prop := {
  cp_once : NoDup (fk_held s);
  cp_held x : x ∈ fk_held s ↔ is_Some (fk_phases s !! x);
  cp_free x : 0 ≤ x < a_slot_count (fk_arena s) → bit (a_bitmap (fk_arena s)) x = true ↔ fk_phases s !! x = None;
  cp_inside x : is_Some (fk_phases s !! x) →
    a_ptr (fk_arena s) ≤ slot_addr (fk_arena s) x ∧
    slot_addr (fk_arena s) x + a_slot_capacity (fk_arena s) ≤ a_ptr (fk_arena s) + a_total_size (fk_arena s);
  cp_contents x c : fk_phases s !! x = Some (PhHeld c) →
    read_bytes (w_mem (fk_world s)) (slot_addr (fk_arena s) x) (Z.of_nat (length c)) = Some c;
  cp_zero x c : a_init_policy (fk_arena s) = Zero → fk_phases s !! x = Some (PhHeld c) →
    all_zero (w_mem (fk_world s)) (slot_addr (fk_arena s) x + Z.of_nat (length c))
      (a_slot_capacity (fk_arena s) - Z.of_nat (length c));
  cp_live : bytes_live (a_metrics (fk_arena s)) =
    wrap ((count_in on_bytes (fk_phases s) + Z.of_nat (fk_frees s) + Z.of_nat (fk_subs s)) *
          a_slot_capacity (fk_arena s));
  cp_rest : fk_phases s = ∅ → fk_frees s = 0%nat → fk_subs s = 0%nat →
    bytes_live (a_metrics (fk_arena s)) = 0 ∧
    (allocations_ok (a_metrics (fk_arena s)) - frees (a_metrics (fk_arena s))) mod 2 ^ 64 = 0;
}.

Lemma finv_promise {P : Profile} s : finv s → conc_promise s.
Proof.
  intros Hi. pose proof Hi as [Hg Hc Hd Hz Hco [Hl Hk]]. split; try done.
  - apply (ci_nodup _ _ Hc).
  - intros x Hx. rewrite eq_None_not_Some, <- Hd. by apply (ci_exact _ _ Hc).
  - intros x Hx. apply slot_in_region; [done|]. by apply held_range.
  - intros x c Hx. by apply Hco.
  - intros x c Hpol Hx. unfold zero_inv in Hz. rewrite Hpol in Hz.
    destruct (a_zeroed_bitmap (fk_arena s)) as [z|]; [|done]. destruct Hz as (_ & _ & Hz).
    specialize (Hz x). rewrite Hx in Hz. apply Hz. apply held_range; [done|by rewrite Hx].
  - intros Hp Hf Hs. rewrite Hp, Hf in Hk. rewrite Hl, Hp, Hf, Hs. split; [done|]. by rewrite Z.sub_0_r in Hk.
Qed.

(** One thread claims slot [x] out of a word it reads as [bits] and writes
    [data] to it. *)
Definition demo_alloc_events (t : nat) (x bits : Z) (data : list Z) : list fevent :=
  [KScan (ScanLoad t bits); KScan (FetchAnd t); KStep x false; KStep x false; KStep x false; KStep x false; KWrite x data].

(** Two threads race for slot 0; the loser retries and gets slot 1 while the
    first gives slot 0 back. *)
Definition demo_events : list fevent :=
  [KScan (BeginAlloc 1); KScan (BeginAlloc 2); KScan (ScanLoad 2 15)] ++ demo_alloc_events 1 0 15 [7; 8] ++
  [KScan (FetchAnd 2); KRelease 0; KStep 0 false] ++ demo_alloc_events 2 1 14 [9] ++ [KStep 0 false].

Definition demo_check (r : outcome fconc) : bool :=
  match r with
  | Ret s =>
      match fk_phases s !! 0, fk_phases s !! 1 with
      | Some PhFree, Some (PhHeld [9]) => true
      | _, _ => false
      end
  | _ => false
  end.

(** C14: a fixed arena shared between threads.  From a built arena, let any number
    of threads allocate, write to what they hold and release, every access of
    [try_alloc], of the scrub record, of the bytes, of the counters and of the
    free interleaved at will, the scan loads and the looks at the scrub record
    possibly stale.  No access panics, and after every one of them: no slot is
    held twice and a slot is free exactly when nobody holds it; each holder's
    slot lies inside the backing, reads back exactly what that holder wrote and
    under [Zero] is zero in the rest, so nobody's zeroing hits a slot in use;
    [bytes_live] is the bytes of the slots recorded plus the releases not yet
    recorded, and when all is released it is back to zero with [frees] equal to
    [allocations_ok]. *)
Theorem conc_fixed_correct {P : Profile} a w evs :
  fixed_inv a w [] → ∃ s, fexec_events (fconc_start a w) evs = Ret s ∧ conc_promise s.
Proof.
  intros Hi. destruct (fexec_events_inv _ evs (fconc_start_inv a w Hi)) as (s & Hs & Hf). exists s.
  split; [done|by apply finv_promise].
Qed.

Lemma conc_fixed_correct_witness :
  ∃ s, @fexec_events dev (fconc_start demo_arena (mkWorld ∅ [])) demo_events = Ret s ∧ conc_promise s ∧
       demo_check (Ret s) = true.
Proof.
  destruct (@conc_fixed_correct dev demo_arena (mkWorld ∅ []) demo_events (demo_arena_inv _)) as (s & Hs & Hp).
  exists s. split; [exact Hs|]. split; [exact Hp|]. rewrite <- Hs. vm_compute. reflexivity.
Defined.
