(* ===== verification/FixedConcSeq.v ===== *)
(** * One thread at a time: the fine-grained fixed arena against the operations

    The accesses of [FixedConc] made by one thread without interruption amount
    to [fixed_claim] and [fixed_release] of [FixedArena], in any state other
    threads may have left. *)

From stdpp Require Import prelude numbers list gmap.
From S2P Require Import Prelude Usize Errors Bitmap BitmapRange BitmapConc SlotSpec Metrics Memory Config Buffer.
From S2P Require Import FixedArena FixedProps FixedConc.
Local Open Scope Z_scope.

(** The thread a scan event belongs to. *)
Definition scan_thread (e : event) : option nat :=
  match e with
  | BeginAlloc t | ScanLoad t _ | ScanEnd t | FetchAnd t => Some t
  | FreeSlot _ | ClaimExact _ => None
  end.

Section proofs.
Context {P : Profile}.

(** The state after a scan by [t] that returned [r] and left [bm]. *)
Definition scan_done (s : fconc) (t : nat) (r : option Z) (bm : AtomicBitmap) : fconc :=
  match r with
  | Some x => after_scan s (mkConc bm (<[t := Idle]> (fk_scans s)) (x :: fk_held s)) (<[x := PhClaimed]> (fk_phases s))
  | None => on_metrics (after_scan s (mkConc bm (<[t := Idle]> (fk_scans s)) (fk_held s)) (fk_phases s)) record_alloc_failure
  end.

Lemma fexec_app s s' evs1 evs2 :
  fexec_events s evs1 = Ret s' → fexec_events s (evs1 ++ evs2) = fexec_events s' evs2.
Proof. unfold fexec_events. intros H. by rewrite ofoldM_app, H. Qed.

Lemma fexec_reach s s' evs : finv s → fexec_events s evs = Ret s' → finv s'.
Proof. intros Hi Hs. destruct (fexec_events_inv s evs Hi) as (s1 & Hs1 & ?). congruence. Qed.

Lemma fexec_scan_cons s e es :
  fexec_events s (KScan <$> (e :: es)) = obind (scan_step s e) (λ s', fexec_events s' (KScan <$> es)).
Proof. done. Qed.

(** A load that sees the word as it is. *)
Lemma load_event s t start i :
  finv s → pc_of (scan_state s) t = AtLoad start i → i < scan_words (a_bitmap (fk_arena s)) →
  let idx := (start + i) mod scan_words (a_bitmap (fk_arena s)) in
  ∃ w, words (a_bitmap (fk_arena s)) !! Z.to_nat idx = Some w ∧ is_usize w ∧
    Z.land (start + i) (word_mask (a_bitmap (fk_arena s))) = idx ∧
    exec_event (scan_state s) (ScanLoad t w) = Ret (Some (goto (scan_state s) t
      (if w =? 0 then AtLoad start (i + 1) else AtFetchAnd start i w))).
Proof.
  intros Hi Hpc Hlt idx. pose proof (pc_of_ok _ _ t (fv_conc _ Hi)) as Hok. rewrite Hpc in Hok.
  destruct Hok as [Hst Hir].
  destruct (scan_word _ _ start i (fv_conc _ Hi)) as (Ha & Hidx & Hmul & Hr & w & Hw & Hlk & Hu); [done|simpl in *; lia|].
  exists w. split; [done|]. split; [done|]. split; [done|]. cbn [exec_event]. rewrite Hpc. simpl in *.
  destruct Hu. rewrite (proj2 (Z.ltb_lt i _)), !(proj2 (Z.leb_le _ _)) by done. cbn [andb]. rewrite Ha. cbn [obind].
  rewrite Hidx, Hmul. cbn [obind]. rewrite Hw. done.
Qed.

Lemma load_step s t start i :
  finv s → pc_of (scan_state s) t = AtLoad start i → i < scan_words (a_bitmap (fk_arena s)) →
  let idx := (start + i) mod scan_words (a_bitmap (fk_arena s)) in
  ∃ w, words (a_bitmap (fk_arena s)) !! Z.to_nat idx = Some w ∧ is_usize w ∧
    scan_step s (ScanLoad t w) = Ret (after_scan s (goto (scan_state s) t
      (if w =? 0 then AtLoad start (i + 1) else AtFetchAnd start i w)) (fk_phases s)).
Proof.
  intros Hi Hpc Hlt idx. destruct (load_event s t start i Hi Hpc Hlt) as (w & Hlk & Hu & _ & He).
  exists w. split; [done|]. split; [done|]. unfold scan_step. by rewrite He.
Qed.

(** A claim right after the load that found [w]. *)
Lemma fetch_event s t start i w :
  let bm := a_bitmap (fk_arena s) in
  let idx := (start + i) mod scan_words bm in
  finv s → pc_of (scan_state s) t = AtFetchAnd start i w → words bm !! Z.to_nat idx = Some w →
  exec_event (scan_state s) (FetchAnd t) =
    Ret (Some (mkConc (set_word bm idx (Z.land w (unot (2 ^ trailing_zeros w)))) (<[t := Idle]> (fk_scans s))
                 (idx * 64 + trailing_zeros w :: fk_held s))).
Proof.
  intros bm idx Hi Hpc Hlk. pose proof (pc_of_ok _ _ t (fv_conc _ Hi)) as Hok. rewrite Hpc in Hok.
  destruct Hok as (Hst & Hir & Hu & Hne). pose proof (trailing_zeros_bound w Hu Hne).
  pose proof (ci_wf _ _ (fv_conc _ Hi)) as Hwf.
  destruct (scan_word _ _ start i (fv_conc _ Hi) Hst Hir) as (Ha & Hidx & Hmul & Hr & w' & Hw & Hlk' & _).
  simpl in *. fold bm in Ha, Hidx, Hmul, Hr, Hw, Hlk', Hwf. fold idx in Hidx, Hmul, Hr, Hw, Hlk'.
  rewrite Hlk in Hlk'. simplify_eq. rewrite Hpc. simpl. rewrite Ha. cbn [obind].
  fold bm. rewrite Hidx, Hmul. cbn [obind]. rewrite usz_shl_1 by lia. cbn [obind]. rewrite Hw. cbn [obind].
  rewrite land_pow2_eqb, negb_involutive, trailing_zeros_testbit by blia.
  pose proof (wf_scan_pos bm Hwf). rewrite usz_add_ok by blia. done.
Qed.

Lemma fetch_step s t start i w :
  let bm := a_bitmap (fk_arena s) in
  let idx := (start + i) mod scan_words bm in
  finv s → pc_of (scan_state s) t = AtFetchAnd start i w → words bm !! Z.to_nat idx = Some w →
  scan_step s (FetchAnd t) =
    Ret (scan_done s t (Some (idx * 64 + trailing_zeros w)) (set_word bm idx (Z.land w (unot (2 ^ trailing_zeros w))))).
Proof.
  intros bm idx Hi Hpc Hlk. unfold scan_step. rewrite (fetch_event s t start i w Hi Hpc Hlk). simpl.
  by rewrite decide_True.
Qed.

(** The scan from iteration [i] on, without interruption. *)
Lemma scan_run k s t start i r bm' :
  finv s → pc_of (scan_state s) t = AtLoad start i → Z.of_nat k = scan_words (a_bitmap (fk_arena s)) - i →
  try_alloc_scan start (seqZ i (scan_words (a_bitmap (fk_arena s)) - i)) (a_bitmap (fk_arena s)) = Ret (r, bm') →
  ∃ es, Forall (λ e, scan_thread e = Some t) es ∧ fexec_events s (KScan <$> es) = Ret (scan_done s t r bm').
Proof.
  revert s i. induction k as [|k IH]; intros s i Hi Hpc Hk Hrun.
  - rewrite seqZ_nil in Hrun by lia. simpl in Hrun. simplify_eq. exists [ScanEnd t]. split; [by constructor|].
    unfold fexec_events. simpl. unfold scan_step. simpl. rewrite Hpc. simpl. rewrite (proj2 (Z.leb_le _ _)) by lia.
    done.
  - pose proof (pc_of_ok _ _ t (fv_conc _ Hi)) as Hok. rewrite Hpc in Hok. destruct Hok as [Hst Hir].
    simpl in Hst, Hir.
    pose proof (ci_wf _ _ (fv_conc _ Hi)) as Hwf. simpl in Hwf. pose proof (wf_scan_pos _ Hwf).
    destruct (load_step s t start i Hi Hpc ltac:(lia)) as (w & Hlk & Hu & Hld).
    destruct (scan_word _ _ start i (fv_conc _ Hi)) as (Ha & Hidx & Hmul & Hr & w' & Hw & Hlk' & _); [done|simpl; lia|].
    simpl in Ha, Hidx, Hmul, Hr, Hw, Hlk'. rewrite Hlk in Hlk'. simplify_eq.
    set (idx := (start + i) mod scan_words (a_bitmap (fk_arena s))) in *.
    rewrite seqZ_cons in Hrun by lia. cbn [try_alloc_scan] in Hrun. rewrite Ha in Hrun. cbn [obind] in Hrun.
    rewrite Hidx, Hmul in Hrun. cbn [obind] in Hrun. rewrite Hw in Hrun. cbn [obind] in Hrun.
    set (s1 := after_scan s (goto (scan_state s) t (if w' =? 0 then AtLoad start (i + 1) else AtFetchAnd start i w'))
      (fk_phases s)) in *.
    assert (Hi1 : finv s1) by (destruct (scan_step_inv s (ScanLoad t w') Hi) as (s1' & Hs1 & ?); congruence).
    assert (Hpc1 : pc_of (scan_state s1) t = if w' =? 0 then AtLoad start (i + 1) else AtFetchAnd start i w').
    { unfold pc_of. simpl. by rewrite lookup_insert_eq. }
    destruct (Z.eqb_spec w' 0) as [->|Hne].
    + change CLAIM_FUEL with (S 63) in Hrun. rewrite try_claim_word_zero in Hrun. cbn [obind] in Hrun.
      rewrite set_word_same in Hrun by done.
      destruct (IH s1 (i + 1)) as (es & Hes & Hrun'); [done..|simpl; lia| |].
      { simpl. rewrite <- Hrun. f_equal. f_equal; lia. }
      exists (ScanLoad t 0 :: es). split; [by constructor|]. rewrite fexec_scan_cons, Hld. cbn [obind].
      rewrite Hrun'. unfold scan_done, s1. simpl.
      destruct r; simpl; unfold after_scan; simpl; by rewrite insert_insert_eq.
    + change CLAIM_FUEL with (S 63) in Hrun. rewrite try_claim_word_nonzero in Hrun by (done || blia).
      cbn [obind] in Hrun. simplify_eq. exists [ScanLoad t w'; FetchAnd t]. split; [by repeat constructor|].
      rewrite !fexec_scan_cons, Hld. cbn [obind].
      rewrite fexec_scan_cons, (fetch_step s1 t start i w'); [|done..]. cbn [obind].
      unfold scan_done, s1, after_scan. simpl. by rewrite insert_insert_eq.
Qed.

Lemma fexec_step_cons s x b evs p :
  fk_phases s !! x = Some p →
  fexec_events s (KStep x b :: evs) = obind (slot_step s x p b) (λ s', fexec_events s' evs).
Proof. intros Hx. unfold fexec_events. simpl. by rewrite Hx. Qed.

Lemma lookup_set_phase s x p : fk_phases (set_phase s x p) !! x = Some p.
Proof. apply lookup_insert_eq. Qed.

(** The two accesses of [record_alloc_success], after which the slot is handed
    out. *)
Lemma count_run s x n :
  fk_phases s !! x = Some PhCountOk →
  fexec_events s (replicate (2 + n) (KStep x false)) =
    Ret (set_phase (on_metrics s (λ m, record_alloc_success m (a_slot_capacity (fk_arena s)))) x (PhHeld [])).
Proof.
  intros Hx. simpl replicate. rewrite (fexec_step_cons _ _ _ _ _ Hx).
  cbn [slot_step alloc_access release_access obind].
  rewrite (fexec_step_cons _ _ _ _ _ (lookup_set_phase _ _ _)). cbn [slot_step alloc_access release_access obind].
  set (s1 := set_phase _ x (PhHeld [])).
  assert (Hs1 : fk_phases s1 !! x = Some (PhHeld [])) by apply lookup_set_phase.
  trans (Ret s1); [|unfold s1, set_phase; simpl; by rewrite insert_insert_eq]. clearbody s1.
  induction n as [|n IH]; [done|]. simpl replicate. by rewrite (fexec_step_cons _ _ _ _ _ Hs1).
Qed.

(** The accesses of [allocate] after the claim. *)
Lemma slot_run s x :
  finv s → fk_phases s !! x = Some PhClaimed →
  let a := fk_arena s in
  fexec_events s (replicate 4 (KStep x false)) =
    obind (fixed_zero_cold a (fk_world s) x (x * a_slot_capacity a)) (λ w,
      Ret (set_phase (set_world (on_metrics s (λ m, record_alloc_success m (a_slot_capacity a))) w) x (PhHeld []))).
Proof.
  intros Hi Hx. cbv zeta. pose proof (held_range s x Hi ltac:(by rewrite Hx)) as Hr. pose proof (fv_geo _ Hi) as Hg.
  change 4%nat with (S 3). simpl replicate. rewrite (fexec_step_cons _ _ _ _ _ Hx).
  cbn [slot_step alloc_access release_access].
  rewrite (slot_offset_ok _ _ Hg Hr). cbn [obind]. unfold fixed_zero_cold.
  pose proof (fv_zero _ Hi) as Hz. unfold zero_inv in Hz.
  assert (Hwarm : fexec_events (set_phase s x PhCountOk) (replicate 3 (KStep x false)) =
    Ret (set_phase (set_world (on_metrics s (λ m, record_alloc_success m (a_slot_capacity (fk_arena s)))) (fk_world s)) x (PhHeld []))).
  { change 3%nat with (2 + 1)%nat. rewrite count_run by apply lookup_set_phase. unfold set_phase. simpl.
    by rewrite insert_insert_eq. }
  destruct (a_init_policy (fk_arena s)), (a_zeroed_bitmap (fk_arena s)) as [z|] eqn:Ez; try done.
  destruct Hz as (Hwf & Hc & _). rewrite (slot_next_ok s x) by done. cbn [obind].
  destruct (all_set_in_range_ok z x (x + 1) Hwf) as (b & -> & _); [lia..|]. cbn [obind].
  destruct b; simpl; [done|]. rewrite (fexec_step_cons _ _ _ _ _ (lookup_set_phase _ _ _)).
  cbn [slot_step alloc_access release_access].
  unfold zero_slot. simpl. rewrite (slot_offset_ok _ _ Hg Hr). cbn [obind].
  change [KStep x false; KStep x false] with (replicate (2 + 0) (KStep x false)).
  rewrite count_run by apply lookup_set_phase. unfold set_phase. simpl. by rewrite !insert_insert_eq.
Qed.

(** [allocate] without interruption. *)
Lemma allocate_run s t :
  finv s → pc_of (scan_state s) t = Idle →
  ∃ r bm es, try_alloc (a_bitmap (fk_arena s)) = Ret (r, bm) ∧ Forall (λ e, scan_thread e = Some t) es ∧
    fexec_events s (KScan <$> es) = Ret (scan_done s t r bm) ∧ finv (scan_done s t r bm).
Proof.
  intros Hi Hpc. pose proof (ci_wf _ _ (fv_conc _ Hi)) as Hwf. simpl in Hwf.
  pose proof (ci_count _ _ (fv_conc _ Hi)) as Hc.
  simpl in Hc. assert (Hn : (slot_count (a_bitmap (fk_arena s)) =? 0) = false) by (destruct (fv_geo _ Hi); lia).
  set (start := Z.land (cursor (a_bitmap (fk_arena s))) (word_mask (a_bitmap (fk_arena s)))).
  set (bm0 := set_cursor (a_bitmap (fk_arena s)) (wrap (cursor (a_bitmap (fk_arena s)) + 1))).
  set (s0 := after_scan s (mkConc bm0 (<[t := AtLoad start 0]> (fk_scans s)) (fk_held s)) (fk_phases s)).
  assert (Hb : scan_step s (BeginAlloc t) = Ret s0).
  { unfold scan_step. simpl. rewrite Hpc. by rewrite Hn. }
  assert (Hi0 : finv s0) by (destruct (scan_step_inv s (BeginAlloc t) Hi) as (s' & Hs' & ?); congruence).
  assert (Hpc0 : pc_of (scan_state s0) t = AtLoad start 0) by (unfold pc_of; simpl; by rewrite lookup_insert_eq).
  assert (∃ r bm, try_alloc (a_bitmap (fk_arena s)) = Ret (r, bm)) as (r & bm & Hr).
  { destruct (try_alloc_ok _ Hwf) as [(x & bm & Hx & _)|(bm & Hx & _)]; eauto. }
  pose proof Hr as Hr'. unfold try_alloc in Hr'. rewrite Hn in Hr'. pose proof (wf_scan_pos _ Hwf).
  destruct (scan_run (Z.to_nat (scan_words (a_bitmap (fk_arena s)))) s0 t start 0 r bm) as (es & Hes & Hrun); [done..|simpl; lia| |].
  { simpl. by rewrite Z.sub_0_r. }
  exists r, bm, (BeginAlloc t :: es). split; [done|]. split; [by constructor|].
  assert (Hd : scan_done s0 t r bm = scan_done s t r bm).
  { destruct r; unfold scan_done, s0, after_scan; simpl; by rewrite insert_insert_eq. }
  rewrite fexec_scan_cons, Hb. cbn [obind]. rewrite Hrun, Hd. split; [done|].
  rewrite <- Hd. by eapply fexec_reach.
Qed.

(** The free and what follows it. *)
Lemma free_run s x bm a w :
  finv s → fk_phases s !! x = Some PhFree → bitmap_free (a_bitmap (fk_arena s)) x = Ret bm →
  a = a_set (fk_arena s) bm (record_free (a_metrics (fk_arena s)) (a_slot_capacity (fk_arena s))) (a_zeroed_bitmap (fk_arena s)) →
  w = (if a_wake_handle (fk_arena s) then log_wake (fk_world s) WakeFixed else fk_world s) →
  ∃ h, fexec_events s [KStep x false; KCountFree; KCountBytes; KWake] =
    Ret (mkFconc a w (fk_scans s) h (delete x (fk_phases s)) (fk_frees s) (fk_subs s) (fk_wakes s)).
Proof.
  intros Hi Hx Hf -> ->. assert (Hin : x ∈ fk_held s) by (apply (fv_dom _ Hi); by rewrite Hx).
  destruct (remove_one_Some x _ Hin) as [h E]. exists h. rewrite (fexec_step_cons _ _ _ _ _ Hx).
  cbn [slot_step alloc_access release_access]. simpl. rewrite E, Hf. cbn [obind]. done.
Qed.

Lemma held_free_ok s x :
  finv s → is_Some (fk_phases s !! x) → ∃ bm, bitmap_free (a_bitmap (fk_arena s)) x = Ret bm.
Proof.
  intros Hi Hx. pose proof (held_range s x Hi Hx) as Hr. pose proof (fv_conc _ Hi) as Hc.
  destruct (bitmap_free_ok (a_bitmap (fk_arena s)) x (ci_wf _ _ Hc)) as (bm & Hf & _); [|..|by exists bm].
  - by rewrite <- (ci_count _ _ Hc) in Hr.
  - apply not_true_is_false. intros Hb%(ci_exact _ _ Hc); [|done]. by apply Hb, (fv_dom _ Hi).
Qed.

(** The accesses of [release]: two before the free under [Zero], none else; the
    first event enters the call. *)
Definition release_events (p : InitPolicy) (x : Z) : list fevent :=
  [KRelease x] ++ replicate (match p with Zero => 2 | Uninit => 1 end) (KStep x false) ++
  [KStep x false; KCountFree; KCountBytes; KWake].

(** Up to the free: the scrub and the mark are those of [fixed_release]. *)
Lemma scrub_run s x c bm :
  let a := fk_arena s in
  let n := match a_init_policy a with Zero => 2%nat | Uninit => 1%nat end in
  finv s → fk_phases s !! x = Some (PhHeld c) → bitmap_free (a_bitmap a) x = Ret bm →
  ∃ z w,
    fixed_release a (fk_world s) x =
      Ret (a_set a bm (record_free (a_metrics a) (a_slot_capacity a)) z, if a_wake_handle a then log_wake w WakeFixed else w) ∧
    fexec_events s ([KRelease x] ++ replicate n (KStep x false)) =
      Ret (set_phase (set_world (set_arena s (a_set a (a_bitmap a) (a_metrics a) z)) w) x PhFree).
Proof.
  cbv zeta. intros Hi Hx Hf. pose proof (held_range s x Hi ltac:(by rewrite Hx)) as Hr.
  pose proof (fv_geo _ Hi) as Hg.
  assert (Hrel : ∀ evs, fexec_events s ([KRelease x] ++ evs) = fexec_events (set_phase s x PhScrub) evs).
  { intros evs. unfold fexec_events. simpl. by rewrite Hx. }
  rewrite Hrel. unfold fixed_release. pose proof (fv_zero _ Hi) as Hz. unfold zero_inv in Hz.
  destruct (a_init_policy (fk_arena s)) eqn:Hpol, (a_zeroed_bitmap (fk_arena s)) as [z|] eqn:Ez; try done.
  - exists None, (fk_world s). cbn [obind]. rewrite Hf. split; [done|]. simpl replicate.
    rewrite (fexec_step_cons _ _ _ _ _ (lookup_set_phase _ _ _)). cbn [slot_step alloc_access release_access].
    simpl. rewrite Hpol. simpl.
    unfold fexec_events, set_phase. simpl. rewrite insert_insert_eq, <- Ez. by destruct s as [[]].
  - destruct Hz as (Hwf & Hc & _). rewrite (slot_offset_ok _ _ Hg Hr), (slot_next_ok s x) by done. cbn [obind].
    destruct (set_range_ok z x (x + 1) Hwf) as (z' & Hsr & _); [lia..|]. rewrite Hsr. cbn [obind]. rewrite Hf.
    eexists _, _. split; [done|]. simpl replicate.
    rewrite (fexec_step_cons _ _ _ _ _ (lookup_set_phase _ _ _)). cbn [slot_step alloc_access release_access].
    simpl. rewrite Hpol.
    unfold zero_slot. simpl. rewrite (slot_offset_ok _ _ Hg Hr). cbn [obind].
    rewrite (fexec_step_cons _ _ _ _ _ (lookup_set_phase _ _ _)). cbn [slot_step alloc_access release_access].
    simpl. rewrite Ez.
    rewrite (slot_next_ok s x) by done. cbn [obind]. rewrite Hsr. cbn [obind].
    unfold fexec_events, set_phase. simpl. by rewrite !insert_insert_eq.
Qed.

(** [release] without interruption. *)
Lemma release_run s x c :
  finv s → fk_phases s !! x = Some (PhHeld c) →
  ∃ a w h, fixed_release (fk_arena s) (fk_world s) x = Ret (a, w) ∧
    fexec_events s (release_events (a_init_policy (fk_arena s)) x) =
      Ret (mkFconc a w (fk_scans s) h (delete x (fk_phases s)) (fk_frees s) (fk_subs s) (fk_wakes s)).
Proof.
  intros Hi Hx. destruct (held_free_ok s x Hi) as [bm Hf]; [by rewrite Hx|].
  destruct (scrub_run s x c bm Hi Hx Hf) as (z & w & Hrel & Hrun).
  pose proof (fexec_reach _ _ _ Hi Hrun) as Hi1.
  destruct (free_run _ x bm _ _ Hi1 (lookup_set_phase _ _ _) Hf eq_refl eq_refl) as [h Hh].
  eexists _, _, h. split; [exact Hrel|]. unfold release_events.
  rewrite app_assoc, (fexec_app _ _ _ _ Hrun), Hh. simpl.
  by rewrite delete_insert_eq.
Qed.
End proofs.

(** ** Properties *)

(** C15: the fixed arena run by one thread.  In any state that threads can reach,
    a thread outside [try_alloc] that makes the accesses of [allocate] with
    nothing in between and fresh loads ends exactly where [fixed_claim] ends,
    arena, memory and result alike; and the holder of a slot that makes the
    accesses of [release] ends exactly where [fixed_release] ends. *)
Theorem fixed_conc_sequential {P : Profile} a w evs s t :
  fixed_inv a w [] → fexec_events (fconc_start a w) evs = Ret s → pc_of (scan_state s) t = Idle →
  (∃ es, Forall (λ e, scan_thread e = Some t) es ∧
     match fixed_claim (fk_arena s) (fk_world s) with
     | Ret (Ok (x, offset), a', w') =>
         fk_phases s !! x = None ∧ offset = x * a_slot_capacity a' ∧
         ∃ s', fexec_events s ((KScan <$> es) ++ replicate 4 (KStep x false)) = Ret s' ∧ fk_arena s' = a' ∧
           fk_world s' = w' ∧ fk_phases s' = <[x := PhHeld []]> (fk_phases s)
     | Ret (Err e, a', w') =>
         ∃ s', fexec_events s (KScan <$> es) = Ret s' ∧ fk_arena s' = a' ∧ fk_world s' = w' ∧ fk_phases s' = fk_phases s
     | _ => False
     end) ∧
  (∀ x c, fk_phases s !! x = Some (PhHeld c) →
     ∃ a' w' s', fixed_release (fk_arena s) (fk_world s) x = Ret (a', w') ∧
       fexec_events s (release_events (a_init_policy (fk_arena s)) x) = Ret s' ∧ fk_arena s' = a' ∧ fk_world s' = w' ∧
       fk_phases s' = delete x (fk_phases s)).
Proof.
  intros Hst Hs Hpc. pose proof (fexec_reach _ _ _ (fconc_start_inv a w Hst) Hs) as Hi. split.
  - destruct (allocate_run s t Hi Hpc) as (r & bm & es & Hta & Hes & Hrun & Hid). exists es. split; [done|].
    unfold fixed_claim. rewrite Hta. cbn [obind]. destruct r as [x|]; [|by eexists].
    assert (Hx : fk_phases (scan_done s t (Some x) bm) !! x = Some PhClaimed) by apply lookup_insert_eq.
    pose proof (held_range _ x Hid ltac:(by rewrite Hx)) as Hr. simpl in Hr.
    rewrite (slot_offset_ok _ _ (fv_geo _ Hi) Hr). cbn [obind]. pose proof (slot_run _ x Hid Hx) as Hsl.
    rewrite <- (fexec_app _ _ _ _ Hrun) in Hsl. cbv zeta in Hsl.
    change (fixed_zero_cold (fk_arena (scan_done s t (Some x) bm)) (fk_world (scan_done s t (Some x) bm)) x
      (x * a_slot_capacity (fk_arena (scan_done s t (Some x) bm)))) with
      (fixed_zero_cold (fk_arena s) (fk_world s) x (x * a_slot_capacity (fk_arena s))) in Hsl.
    destruct (fexec_events_inv s ((KScan <$> es) ++ replicate 4 (KStep x false)) Hi) as (s' & Hs' & _).
    rewrite Hs' in Hsl. destruct (fixed_zero_cold _ _ _ _) as [w'| |]; [|done..]. cbn [obind] in Hsl |- *.
    injection Hsl as ->. split; [|split; [done|]].
    + pose proof (ci_nodup _ _ (fv_conc _ Hid)) as Hnd. apply NoDup_cons in Hnd as [Hni _].
      rewrite eq_None_not_Some. by rewrite <- (fv_dom _ Hi).
    + eexists. split; [exact Hs'|]. split_and!; [done..|]. simpl. by rewrite insert_insert_eq.
  - intros x c Hx. destruct (release_run s x c Hi Hx) as (a' & w' & h & Hrel & Hrun). by eexists a', w', _.
Qed.

(** From a fresh arena thread 1 takes slot 0, writes to it and gives it back. *)
Definition seq_demo_events : list fevent := [KScan (BeginAlloc 1)] ++ demo_alloc_events 1 0 15 [7; 8].

Definition seq_demo_check (r : outcome fconc) : bool :=
  match r with
  | Ret s =>
      match pc_of (scan_state s) 2, a_init_policy (fk_arena s), fk_phases s !! 0 with
      | Idle, Zero, Some (PhHeld [7; 8]) => true
      | _, _, _ => false
      end
  | _ => false
  end.

Lemma seq_demo_ok : seq_demo_check (@fexec_events dev (fconc_start demo_arena (mkWorld ∅ [])) seq_demo_events) = true.
Proof. vm_compute. reflexivity. Qed.

Lemma fixed_conc_sequential_witness :
  ∃ s a' w' s', @fexec_events dev (fconc_start demo_arena (mkWorld ∅ [])) seq_demo_events = Ret s ∧
    @fixed_release dev (fk_arena s) (fk_world s) 0 = Ret (a', w') ∧
    @fexec_events dev s (release_events Zero 0) = Ret s' ∧ fk_arena s' = a' ∧ fk_world s' = w'.
Proof.
  pose proof seq_demo_ok as Hck.
  destruct (@fexec_events dev (fconc_start demo_arena (mkWorld ∅ [])) seq_demo_events) as [s| |] eqn:Hs; [|done..].
  simpl in Hck.
  destruct (@fixed_conc_sequential dev demo_arena (mkWorld ∅ []) seq_demo_events s 2 (demo_arena_inv _) Hs) as [_ Hrel].
  { by destruct (pc_of (scan_state s) 2). }
  destruct (Hrel 0 [7; 8]) as (a' & w' & s' & H1 & H2 & H3 & H4 & _).
  { repeat case_match; done. }
  exists s, a', w', s'. split; [reflexivity|]. split; [exact H1|]. split; [|split; [exact H3|exact H4]].
  rewrite <- H2. f_equal. by destruct (pc_of (scan_state s) 2), (a_init_policy (fk_arena s)).
Defined.
