(* ===== verification/BuddyTiling.v ===== *)
(** * The abstract buddy system

    What [src/buddy.rs] promises about its blocks, on sets: a block [(o, i)]
    of order [o] spans the units [i * 2^o .. (i + 1) * 2^o] of an arena of
    [2^m] units; the free blocks [F] and the outstanding ones [A] tile the
    arena, and no two free blocks are buddies (unless threads interleave:
    [partition]).  The four moves of the
    allocator (claim, split, merge, release) keep this. *)

From stdpp Require Import prelude numbers list gmap.
From S2P Require Import Prelude Usize.
Local Open Scope Z_scope.

Abbreviation block := (Z * Z)%type.

(** Block [b] spans unit [u]. *)
Definition spans (b : block) (u : Z) : Prop := u / 2 ^ b.1 = b.2.

Definition in_arena (m : Z) (b : block) : Prop := 0 ≤ b.1 ≤ m ∧ 0 ≤ b.2 < 2 ^ (m - b.1).

Definition live (F : gset block) (A : list block) (b : block) : Prop := b ∈ F ∨ b ∈ A.

(** The blocks of [L] partition the units of the arena. *)
Record tiles (m : Z) (L : block → Prop) : Prop := {
  ti_order : 0 ≤ m;
  ti_range : ∀ b, L b → in_arena m b;
  ti_cover : ∀ u, 0 ≤ u < 2 ^ m → ∃ b, L b ∧ spans b u;
  ti_disj : ∀ b b' u, L b → L b' → spans b u → spans b' u → b = b';
}.

Record tiling (m : Z) (F : gset block) (A : list block) : Prop := {
  t_tiles : tiles m (live F A);
  t_nodup : NoDup A;
  t_sep : ∀ b, b ∈ A → b ∉ F;
  t_buddy : ∀ o i, o < m → (o, i) ∈ F → (o, Z.lxor i 1) ∉ F;
}.

(** What is left of it when threads interleave: two buddies may both be
    free. *)
Record partition (m : Z) (F : gset block) (A : list block) : Prop := {
  pa_tiles : tiles m (live F A);
  pa_nodup : NoDup A;
  pa_sep : ∀ b, b ∈ A → b ∉ F;
}.

Lemma tiling_partition m F A :
  tiling m F A ↔ partition m F A ∧ ∀ o i, o < m → (o, i) ∈ F → (o, Z.lxor i 1) ∉ F.
Proof. split; [by intros [? ? ? ?]|by intros [[? ? ?] ?]]. Qed.

#[export] Instance tiles_proper m : Proper (pointwise_relation _ iff ==> iff) (tiles m).
Proof.
  intros L L' HL. split; intros [H0 Hr Hc Hd]; (split; [done|..]); repeat intro.
  - by apply Hr, HL.
  - destruct (Hc u) as (b & ? & ?); [done|]. exists b. by rewrite <- (HL b).
  - by eapply Hd; try apply HL.
  - by apply Hr, HL.
  - destruct (Hc u) as (b & ? & ?); [done|]. exists b. by rewrite (HL b).
  - by eapply Hd; try apply HL.
Qed.

(** ** Arithmetic of blocks *)

Lemma lxor_1 i : 0 ≤ i → Z.lxor i 1 = if decide (i mod 2 = 0) then i + 1 else i - 1.
Proof.
  intros Hi. destruct i as [|[p|p|]|]; try done.
  - rewrite decide_False by lia. change (Z.lxor _ 1) with (Zpos p~0). lia.
  - rewrite decide_True by lia. change (Z.lxor _ 1) with (Zpos p~1). lia.
Qed.

(** The two children of a block are the block at even index and the next. *)
Lemma buddy_pair i :
  0 ≤ i → 0 ≤ Z.lxor i 1 ∧ Z.lxor i 1 / 2 = i / 2 ∧ Z.lxor i 1 ≠ i ∧ Z.lxor (Z.lxor i 1) 1 = i ∧
  ∀ j, 0 ≤ j → j / 2 = i / 2 → j = i ∨ j = Z.lxor i 1.
Proof.
  intros Hi. rewrite Z.lxor_assoc, Z.lxor_nilpotent, Z.lxor_0_r.
  rewrite lxor_1 by done. case_decide; split_and!; try lia; intros j; lia.
Qed.

Lemma spans_parent o i u : 0 ≤ o → spans (o, i) u → spans (o + 1, i / 2) u.
Proof.
  unfold spans. simpl. intros Ho <-. rewrite Z.pow_add_r, Z.div_div by lia. done.
Qed.

Lemma spans_child o i u :
  0 < o → spans (o, i) u ↔ spans (o - 1, 2 * i) u ∨ spans (o - 1, 2 * i + 1) u.
Proof.
  intros Ho. unfold spans. simpl.
  replace (2 ^ o) with (2 ^ (o - 1) * 2) by (rewrite Z.mul_comm, <- Z.pow_succ_r by lia; f_equal; lia).
  rewrite <- Z.div_div by lia. generalize (u / 2 ^ (o - 1)). lia.
Qed.

(** The first unit of a block. *)
Lemma spans_first o i : 0 ≤ o → spans (o, i) (i * 2 ^ o).
Proof. intros Ho. unfold spans. simpl. apply Z.div_mul. lia. Qed.

Lemma spans_iff o i u : 0 ≤ o → spans (o, i) u ↔ i * 2 ^ o ≤ u < (i + 1) * 2 ^ o.
Proof.
  intros Ho. unfold spans. simpl. assert (0 < 2 ^ o) by lia. split.
  - intros <-. pose proof (Z.mul_div_le u (2 ^ o) ltac:(lia)).
    pose proof (Z.mul_succ_div_gt u (2 ^ o) ltac:(lia)). lia.
  - intros Hu. symmetry. apply (Z.div_unique _ _ _ (u - i * 2 ^ o)); lia.
Qed.

Lemma in_arena_units m o i u :
  in_arena m (o, i) → spans (o, i) u → 0 ≤ u < 2 ^ m.
Proof.
  intros [Ho Hi] Hs. simpl in *. apply spans_iff in Hs; [|lia].
  replace (2 ^ m) with (2 ^ (m - o) * 2 ^ o) by (rewrite <- Z.pow_add_r by lia; f_equal; lia).
  assert (0 < 2 ^ o) by lia. nia.
Qed.

Lemma in_arena_first m b : in_arena m b → 0 ≤ b.2 * 2 ^ b.1 < 2 ^ m.
Proof.
  destruct b as [o i]. intros Hb. eapply in_arena_units; [done|]. apply spans_first. apply Hb.
Qed.

Lemma in_arena_child m o i j :
  in_arena m (o, i) → 0 < o → j / 2 = i → in_arena m (o - 1, j).
Proof.
  intros [Ho Hi] ? <-. split; simpl in *; [lia|].
  replace (m - (o - 1)) with ((m - o) + 1) by lia. rewrite Z.pow_add_r by lia. lia.
Qed.

Lemma in_arena_parent m o i :
  in_arena m (o, i) → o < m → in_arena m (o + 1, i / 2).
Proof.
  intros [Ho Hi] ?. split; simpl in *; [lia|].
  replace (m - o) with (m - (o + 1) + 1) in Hi by lia. rewrite Z.pow_add_r in Hi by lia. lia.
Qed.

(** A block that spans one unit of a smaller one spans all of it. *)
Lemma spans_nested o i o' i' u v :
  0 ≤ o ≤ o' → spans (o, i) u → spans (o', i') u → spans (o, i) v → spans (o', i') v.
Proof.
  unfold spans. simpl. intros Ho <- <- Hv.
  replace o' with (o + (o' - o)) by lia. rewrite Z.pow_add_r, <- !Z.div_div by lia. by rewrite Hv.
Qed.

(** ** Splitting and merging *)

Lemma tiles_split m L o i :
  tiles m L → L (o, i) → 0 < o →
  tiles m (λ b, (L b ∧ b ≠ (o, i)) ∨ b = (o - 1, 2 * i) ∨ b = (o - 1, 2 * i + 1)).
Proof.
  intros [H0 Hr Hc Hd] Hb Ho. pose proof (Hr _ Hb) as Hoi. split; [done|..].
  - intros b [[? _]|[->| ->]]; [by apply Hr|apply (in_arena_child m o i); done || lia..].
  - intros u Hu. destruct (Hc u Hu) as (b & HLb & Hs). destruct (decide (b = (o, i))) as [->|].
    + apply spans_child in Hs; [|done]. destruct Hs as [Hs|Hs]; eexists; (split; [|exact Hs]); tauto.
    + exists b. tauto.
  - (* a child spans only what its parent did *)
    assert (Hpar : ∀ b u, (b = (o - 1, 2 * i) ∨ b = (o - 1, 2 * i + 1)) → spans b u → spans (o, i) u).
    { intros b u [-> | ->] ?; apply spans_child; tauto. }
    intros b b' u [[? Hne]|Hb1] [[? Hne']|Hb2] Hs Hs'.
    + by eapply Hd.
    + destruct Hne. eapply Hd; [done|done|exact Hs|by eapply Hpar].
    + destruct Hne'. eapply Hd; [done|done|exact Hs'|by eapply Hpar].
    + unfold spans in *. destruct Hb1 as [-> | ->], Hb2 as [-> | ->]; simpl in *; congruence.
Qed.

Lemma tiles_merge m L o i :
  tiles m L → L (o, i) → L (o, Z.lxor i 1) → o < m →
  tiles m (λ b, (L b ∧ b ≠ (o, i) ∧ b ≠ (o, Z.lxor i 1)) ∨ b = (o + 1, i / 2)).
Proof.
  intros [H0 Hr Hc Hd] Hb Hb' Ho. pose proof (Hr _ Hb) as [Ho0 Hi]. simpl in *.
  destruct (buddy_pair i) as (Hx & Hx2 & _ & _ & Hpair); [lia|]. split; [done|..].
  - intros b [[? _]| ->]; [by apply Hr|]. by apply in_arena_parent; [apply Hr|].
  - intros u Hu. destruct (Hc u Hu) as (b & HLb & Hs). destruct (decide (b = (o, i))) as [->|].
    { exists (o + 1, i / 2). split; [by right|]. apply spans_parent; [lia|done]. }
    destruct (decide (b = (o, Z.lxor i 1))) as [->|]; [|exists b; tauto].
    exists (o + 1, i / 2). split; [by right|]. rewrite <- Hx2. apply spans_parent; [lia|done].
  - (* the parent spans only what the two children did *)
    assert (Hch : ∀ b u, L b → spans b u → spans (o + 1, i / 2) u → b = (o, i) ∨ b = (o, Z.lxor i 1)).
    { intros b u HLb Hs Hp. assert (Hu := in_arena_units _ _ _ _ (in_arena_parent m o i (Hr _ Hb) Ho) Hp).
      assert (0 < 2 ^ o) by lia. assert (0 ≤ u / 2 ^ o) by (apply Z.div_pos; lia).
      unfold spans in Hp. simpl in Hp. rewrite Z.pow_add_r, <- Z.div_div in Hp by lia.
      destruct (Hpair (u / 2 ^ o)) as [Hq|Hq]; [done|done|left|right];
        (eapply Hd; [done|done|exact Hs|done]). }
    intros b1 b2 u [(? & ? & ?)| ->] [(? & ? & ?)| ->] Hs Hs'; [by eapply Hd| | |done];
      [destruct (Hch b1 u)|destruct (Hch b2 u)]; done.
Qed.

(** ** The moves of the allocator *)

Section moves.
Context (m : Z) (F : gset block) (A : list block).

Lemma part_claim b : partition m F A → b ∈ F → partition m (F ∖ {[b]}) (b :: A).
Proof.
  intros [Ht Hnd Hsep] Hb. split.
  - eapply tiles_proper; [|exact Ht]. intros b'. unfold live.
    rewrite elem_of_difference, elem_of_singleton, elem_of_cons.
    destruct (decide (b' = b)) as [->|]; naive_solver.
  - constructor; [|done]. intros Hin. by apply Hsep in Hin.
  - intros b' Hin. apply elem_of_cons in Hin as [->|Hin]; [set_solver|].
    apply Hsep in Hin. set_solver.
Qed.

Lemma tile_claim b : tiling m F A → b ∈ F → tiling m (F ∖ {[b]}) (b :: A).
Proof.
  intros [Hp Hbd]%tiling_partition Hb. apply tiling_partition. split; [by apply part_claim|].
  intros o i Ho [Hin _]%elem_of_difference [Hin' _]%elem_of_difference. by apply (Hbd o i Ho Hin).
Qed.

Lemma part_release b : partition m F (b :: A) → partition m ({[b]} ∪ F) A.
Proof.
  intros [Ht Hnd Hsep]. apply NoDup_cons in Hnd as [Hn Hnd]. split.
  - eapply tiles_proper; [|exact Ht]. intros b'. unfold live.
    rewrite elem_of_union, elem_of_singleton, elem_of_cons. naive_solver.
  - done.
  - intros b' Hb. rewrite not_elem_of_union, not_elem_of_singleton. split; [congruence|].
    apply Hsep. by right.
Qed.

Lemma tile_release o i :
  tiling m F ((o, i) :: A) → (o < m → (o, Z.lxor i 1) ∉ F) → tiling m ({[(o, i)]} ∪ F) A.
Proof.
  intros [Hp Hbd]%tiling_partition Hfree. pose proof (pa_tiles _ _ _ Hp) as Ht.
  assert (Hoi : in_arena m (o, i)) by (apply (ti_range _ _ Ht); right; by left).
  destruct (buddy_pair i) as (_ & _ & Hne & Hinv & _); [apply Hoi|].
  apply tiling_partition. split; [by apply part_release|].
  intros o' i' Ho' Hin. rewrite elem_of_union, elem_of_singleton in Hin.
  rewrite not_elem_of_union, not_elem_of_singleton. destruct Hin as [[= -> ->]|Hin].
  - split; [congruence|by apply Hfree].
  - split; [|by apply Hbd]. intros [= -> Heq]. apply (Hfree Ho'). rewrite <- Heq.
    assert (0 ≤ i') by (apply (ti_range _ _ Ht (o, i')); by left).
    by destruct (buddy_pair i') as (_ & _ & _ & -> & _).
Qed.

(** No live block is a child of a live block. *)
Lemma part_children o i b :
  partition m F ((o, i) :: A) → 0 < o → live F ((o, i) :: A) b →
  b = (o - 1, 2 * i) ∨ b = (o - 1, 2 * i + 1) → False.
Proof.
  intros [Ht _ _] Ho Hb Hc. assert (HL : live F ((o, i) :: A) (o, i)) by (right; by left).
  assert (Hb' := ti_range _ _ Ht _ Hb). destruct b as [o' i'].
  assert ((o', i') = (o, i)) as [= -> ->]; [|destruct Hc as [[= ? ?]|[= ? ?]]; lia].
  eapply (ti_disj _ _ Ht _ _ (i' * 2 ^ o')); [done|done|apply spans_first, Hb'|].
  apply spans_child; [done|].
  destruct Hc as [[= -> ->]|[= -> ->]]; [left|right]; apply spans_first; lia.
Qed.

Lemma part_split o i :
  partition m F ((o, i) :: A) → 0 < o →
  partition m ({[(o - 1, 2 * i + 1)]} ∪ F) ((o - 1, 2 * i) :: A).
Proof.
  intros Hp Ho. pose proof (part_children o i) as Hch. pose proof Hp as [Ht Hnd Hsep].
  apply NoDup_cons in Hnd as [Hn Hnd].
  assert (HL : live F ((o, i) :: A) (o, i)) by (right; by left).
  assert (Hoff : ∀ b, b ∈ A → live F ((o, i) :: A) b) by (intros; right; by right).
  split.
  - eapply tiles_proper; [|exact (tiles_split _ _ _ _ Ht HL Ho)]. intros b. unfold live.
    rewrite elem_of_union, elem_of_singleton, !elem_of_cons.
    assert (b = (o, i) → b ∉ F ∧ b ∉ A) as Hex; [|naive_solver].
    intros ->. split; [apply Hsep; by left|done].
  - constructor; [|done]. intros Hin. eapply Hch; [done|done|by apply Hoff|by left].
  - intros b Hb. rewrite not_elem_of_union, not_elem_of_singleton.
    apply elem_of_cons in Hb as [->|Hb]; (split; [|]).
    + intros [=]. lia.
    + intros Hin. eapply Hch; [done|done|by left|by left].
    + intros ->. eapply Hch; [done|done|by apply Hoff|by right].
    + apply Hsep. by right.
Qed.

Lemma tile_split o i :
  tiling m F ((o, i) :: A) → 0 < o →
  tiling m ({[(o - 1, 2 * i + 1)]} ∪ F) ((o - 1, 2 * i) :: A).
Proof.
  intros [Hp Hbd]%tiling_partition Ho. pose proof (pa_tiles _ _ _ Hp) as Ht.
  assert (Hoi : in_arena m (o, i)) by (apply (ti_range _ _ Ht); right; by left).
  assert (Hch : (o - 1, 2 * i) ∉ F) by (intros Hin; eapply part_children; [done|done|by left|by left]).
  apply tiling_partition. split; [by apply part_split|].
  assert (Hlx : Z.lxor (2 * i + 1) 1 = 2 * i) by (rewrite lxor_1 by (destruct Hoi; simpl in *; lia); rewrite decide_False by lia; lia).
  intros o' i' Ho' Hin. rewrite elem_of_union, elem_of_singleton in Hin.
  rewrite not_elem_of_union, not_elem_of_singleton. destruct Hin as [[= -> ->]|Hin].
  - rewrite Hlx. split; [intros [=]; lia|done].
  - split; [|by apply Hbd]. intros [= -> Heq].
    assert (0 ≤ i') by (apply (ti_range _ _ Ht (o - 1, i')); by left).
    destruct (buddy_pair i') as (_ & _ & _ & Hinv & _); [done|].
    rewrite Heq, Hlx in Hinv. by subst i'.
Qed.

Lemma part_merge o i :
  partition m F ((o, i) :: A) → o < m → (o, Z.lxor i 1) ∈ F →
  partition m (F ∖ {[(o, Z.lxor i 1)]}) ((o + 1, i / 2) :: A).
Proof.
  intros [Ht Hnd Hsep] Ho Hin. apply NoDup_cons in Hnd as [Hn Hnd].
  assert (HL : live F ((o, i) :: A) (o, i)) by (right; by left).
  assert (HL' : live F ((o, i) :: A) (o, Z.lxor i 1)) by (by left).
  assert (Hoi := ti_range _ _ Ht _ HL).
  (* the parent is not live: it would span what the child does *)
  assert (Hpar : ¬ live F ((o, i) :: A) (o + 1, i / 2)).
  { intros Hp. assert ((o, i) = (o + 1, i / 2)) as [=]; [|lia].
    eapply (ti_disj _ _ Ht _ _ (i * 2 ^ o)); [done|done|apply spans_first, Hoi|].
    apply spans_parent; [apply Hoi|apply spans_first, Hoi]. }
  split.
  - eapply tiles_proper; [|exact (tiles_merge _ _ _ _ Ht HL HL' Ho)]. intros b. unfold live.
    rewrite elem_of_difference, elem_of_singleton, !elem_of_cons.
    assert (b = (o, i) → b ∉ F ∧ b ∉ A) by (intros ->; split; [apply Hsep; by left|done]).
    assert (b = (o, Z.lxor i 1) → b ∉ A).
    { intros -> Hb. eapply Hsep; [|exact Hin]. by right. }
    destruct (decide (b = (o, i))), (decide (b = (o, Z.lxor i 1))); tauto.
  - constructor; [|done]. intros Hb. apply Hpar. right. by right.
  - intros b Hb. rewrite not_elem_of_difference. left.
    apply elem_of_cons in Hb as [->|Hb]; [|apply Hsep; by right].
    intros Hb. apply Hpar. by left.
Qed.

Lemma tile_merge o i :
  tiling m F ((o, i) :: A) → o < m → (o, Z.lxor i 1) ∈ F →
  tiling m (F ∖ {[(o, Z.lxor i 1)]}) ((o + 1, i / 2) :: A).
Proof.
  intros [Hp Hbd]%tiling_partition Ho Hin. apply tiling_partition. split; [by apply part_merge|].
  intros o' i' Ho' [Hb _]%elem_of_difference [Hb' _]%elem_of_difference. by apply (Hbd o' i' Ho' Hb).
Qed.
End moves.

(** ** Consequences *)

(** Distinct live blocks span disjoint runs of units. *)
Lemma tiling_disjoint m F A o i o' i' :
  tiling m F A → live F A (o, i) → live F A (o', i') → (o, i) ≠ (o', i') →
  (i + 1) * 2 ^ o ≤ i' * 2 ^ o' ∨ (i' + 1) * 2 ^ o' ≤ i * 2 ^ o.
Proof.
  intros [Ht _ _ _] Hb Hb' Hne. pose proof (ti_range _ _ Ht _ Hb) as [Ho _].
  pose proof (ti_range _ _ Ht _ Hb') as [Ho' _]. simpl in *.
  destruct (decide ((i + 1) * 2 ^ o ≤ i' * 2 ^ o')) as [|Hn1]; [by left|].
  destruct (decide ((i' + 1) * 2 ^ o' ≤ i * 2 ^ o)) as [|Hn2]; [by right|].
  exfalso. apply Hne. assert (0 < 2 ^ o) by lia. assert (0 < 2 ^ o') by lia.
  eapply (ti_disj _ _ Ht _ _ (Z.max (i * 2 ^ o) (i' * 2 ^ o'))); [done..| |]; apply spans_iff; lia.
Qed.

Section coalescing.
Context (m : Z) (F : gset block) (A : list block) (Hti : tiling m F A).
Context (t i : Z) (Hti_in : in_arena m (t, i)).
Hypothesis (Hfree : ∀ u b, spans (t, i) u → b ∈ A → ¬ spans b u).

(** A free block that meets a region with nothing outstanding in it is at
    least as large: a smaller one would have a free buddy. *)
Lemma no_small_block (n : nat) o j u :
  o = Z.of_nat n → (o, j) ∈ F → spans (o, j) u → spans (t, i) u → t ≤ o.
Proof using Hti Hti_in Hfree.
  revert o j u. induction (lt_wf n) as [n _ IH]. intros o j u Hn Hin Hs Hsu.
  destruct (decide (t ≤ o)) as [|Hlt]; [done|exfalso].
  destruct Hti as [Ht _ _ Hbd]. assert (Hoj := ti_range _ _ Ht (o, j) (or_introl Hin)).
  destruct Hoj as [Ho Hj], Hti_in as [Htm _]. simpl in *.
  destruct (buddy_pair j) as (Hx & Hx2 & _ & Hxx & Hpair); [lia|].
  set (v := Z.lxor j 1 * 2 ^ o). assert (Hv : spans (o, Z.lxor j 1) v) by (apply spans_first; lia).
  assert (Hpu : spans (o + 1, j / 2) u) by (apply spans_parent; [lia|done]).
  assert (Hpv : spans (o + 1, j / 2) v) by (rewrite <- Hx2; apply spans_parent; [lia|done]).
  assert (Hvt : spans (t, i) v) by (eapply (spans_nested (o + 1) _ t i u v); try done; lia).
  destruct (ti_cover _ _ Ht v) as ([o' j'] & Hl & Hv'); [by eapply in_arena_units|].
  destruct Hl as [Hl|Hl]; [|by eapply Hfree].
  assert (Ho' := ti_range _ _ Ht (o', j') (or_introl Hl)). destruct Ho' as [Ho' _]. simpl in *.
  destruct (Z.lt_trichotomy o' o) as [Hc|[->|Hc]].
  - enough (t ≤ o') by lia. eapply (IH (Z.to_nat o')); [lia|lia|done..].
  - apply (Hbd o j); [lia|done|]. unfold spans in Hv, Hv'. simpl in *. by rewrite <- Hv, Hv'.
  - assert (Hu' : spans (o', j') u) by (eapply (spans_nested (o + 1) _ o' j' v u); try done; lia).
    assert ((o, j) = (o', j')) as [=]; [|lia].
    eapply (ti_disj _ _ Ht); [by left|by left|done..].
Qed.

Lemma region_in_free_block :
  ∃ o j, (o, j) ∈ F ∧ t ≤ o ∧ ∀ u, spans (t, i) u → spans (o, j) u.
Proof using Hti Hti_in Hfree.
  destruct Hti as [Ht _ _ _]. pose proof Hti_in as [Htm _]. simpl in *.
  assert (Hs : spans (t, i) (i * 2 ^ t)) by (apply spans_first; lia).
  destruct (ti_cover _ _ Ht (i * 2 ^ t)) as ([o j] & Hl & Hsp); [by eapply in_arena_units|].
  destruct Hl as [Hl|Hl]; [|by destruct (Hfree _ _ Hs Hl)].
  assert (Ho := ti_range _ _ Ht (o, j) (or_introl Hl)). destruct Ho as [Ho _]. simpl in *.
  assert (t ≤ o) by (eapply (no_small_block (Z.to_nat o)); try done; lia).
  exists o, j. split_and!; [done..|]. intros u Hu.
  apply (spans_nested t i o j (i * 2 ^ t) u); done || lia.
Qed.
End coalescing.

(** With nothing outstanding, everything has coalesced into one block. *)
Lemma tiling_all_free m F : tiling m F [] → F = {[(m, 0)]}.
Proof.
  intros Hti. pose proof (t_tiles _ _ _ Hti) as Ht. pose proof (ti_order _ _ Ht).
  assert (Hm : in_arena m (m, 0)) by (split; simpl; [lia|rewrite Z.sub_diag; done]).
  destruct (region_in_free_block m F [] Hti m 0 Hm) as (o & j & Hin & Ho & Hsp).
  { by intros u b _ ?%not_elem_of_nil. }
  assert (Hall : ∀ b, b ∈ F → b = (m, 0)).
  { intros [o' j'] Hb. assert (Hb' := ti_range _ _ Ht _ (or_introl Hb)).
    destruct (ti_range _ _ Ht _ (or_introl Hin)) as [Ho' Hj]. simpl in *.
    assert (o = m) as -> by lia. rewrite Z.sub_diag in Hj. assert (j = 0) as -> by lia.
    eapply (ti_disj _ _ Ht _ _ (j' * 2 ^ o')); [by left|by left|apply spans_first, Hb'|].
    apply Hsp. apply in_arena_first in Hb'. simpl in Hb'. apply spans_iff; lia. }
  apply set_eq. intros b. rewrite elem_of_singleton. split; [apply Hall|]. intros ->.
  by rewrite <- (Hall _ Hin).
Qed.

(** A fresh arena. *)
Lemma tiling_init m : 0 ≤ m → tiling m {[(m, 0)]} [].
Proof.
  intros Hm. split.
  - split; [done|..].
    + intros b [->%elem_of_singleton|[]%not_elem_of_nil]. split; simpl; [lia|by rewrite Z.sub_diag].
    + intros u Hu. exists (m, 0). split; [left; set_solver|]. apply spans_iff; lia.
    + intros b b' u [->%elem_of_singleton|[]%not_elem_of_nil] [->%elem_of_singleton|[]%not_elem_of_nil].
      done.
  - constructor.
  - by intros b ?%not_elem_of_nil.
  - intros o i Ho [= -> ->]%elem_of_singleton. lia.
Qed.

(** Units held by the outstanding blocks. *)
Fixpoint units (A : list block) : Z :=
  match A with
  | [] => 0
  | b :: A' => 2 ^ b.1 + units A'
  end.

Lemma units_nonneg A : 0 ≤ units A.
Proof. induction A as [|b A IH]; simpl; [done|]. pose proof (Z.pow_nonneg 2 b.1 ltac:(lia)). lia. Qed.

#[export] Instance units_proper : Proper ((≡ₚ) ==> (=)) units.
Proof. induction 1; simpl; lia. Qed.

Lemma units_length (A : list block) :
  (∀ b, b ∈ A → 0 ≤ b.1) →
  Z.of_nat (length (A ≫= (λ b, seqZ (b.2 * 2 ^ b.1) (2 ^ b.1)))) = units A.
Proof.
  induction A as [|b A IH]; intros HA; [done|]. cbn [mbind list_bind units].
  rewrite length_app, length_seqZ, Nat2Z.inj_add, IH; [|intros; apply HA; by right].
  pose proof (Z.pow_nonneg 2 b.1 ltac:(lia)). lia.
Qed.

Lemma units_le m F A : tiling m F A → units A <= 2 ^ m.
Proof.
  intros [Ht Hnd _ _]. assert (Hr : ∀ b, b ∈ A → in_arena m b) by (intros; apply (ti_range _ _ Ht); by right).
  rewrite <- units_length by (intros b Hb; by apply Hr in Hb as [[? _] _]).
  assert (length (A ≫= (λ b, seqZ (b.2 * 2 ^ b.1) (2 ^ b.1))) ≤ length (seqZ 0 (2 ^ m)))%nat as Hl.
  { assert (Hsp : ∀ b u, b ∈ A → u ∈ seqZ (b.2 * 2 ^ b.1) (2 ^ b.1) → spans b u).
    { intros [o i] u Hb Hu%elem_of_seqZ. destruct (Hr _ Hb) as [[? _] _]. simpl in *.
      apply spans_iff; lia. }
    apply submseteq_length, NoDup_submseteq.
    - apply NoDup_bind; [|intros; apply NoDup_seqZ|done]. intros b b' u Hb Hb' Hu Hu'.
      eapply (ti_disj _ _ Ht); [by right|by right|by apply Hsp..].
    - intros u (b & Hu & Hb)%list_elem_of_bind. apply elem_of_seqZ. destruct b as [o i].
      pose proof (in_arena_units m o i u (Hr _ Hb) (Hsp _ _ Hb Hu)). lia. }
  rewrite length_seqZ in Hl. pose proof (Z.pow_nonneg 2 m ltac:(lia)). lia.
Qed.
