(* ===== verification/Buddy.v ===== *)
(** * [src/buddy.rs]: the buddy arena

    [BuddyArenaInner] behind the [Arc], its builders, [allocate],
    [release_block], and the buddy branch of [ArenaRef::release]
    ([src/allocation.rs]).  One bitmap per order holds the free blocks of that
    order; [nonempty_orders] is a summary of the bitmaps. *)

From stdpp Require Import prelude numbers list gmap.
From S2P Require Import Prelude Usize Errors Bitmap Geometry SlotSpec Metrics Memory Config.
From S2P Require Import Buffer FixedArena.
Local Open Scope Z_scope.

Record BuddyArenaInner := mkBuddyArenaInner {
  bd_ptr : Z;
  bd_total_size : Z;
  bd_dealloc_len : Z;
  bd_min_block_size : Z;
  bd_max_order : Z;
  bd_free_bitmaps : list AtomicBitmap;
  bd_nonempty_orders : Z;
  bd_auto_spill : bool;
  bd_cap_capacity : bool;
  bd_init_policy : InitPolicy;
  bd_metrics : MetricsState;
  bd_zeroed_bitmap : option AtomicBitmap;
  bd_dealloc : DeallocKind;
  bd_wake_handle : bool;
}.

(** Updates through the shared reference. *)
Definition bd_set (bd : BuddyArenaInner) (bms : list AtomicBitmap) (ne : Z) (m : MetricsState)
    (z : option AtomicBitmap) : BuddyArenaInner :=
  mkBuddyArenaInner (bd_ptr bd) (bd_total_size bd) (bd_dealloc_len bd) (bd_min_block_size bd)
    (bd_max_order bd) bms ne (bd_auto_spill bd) (bd_cap_capacity bd) (bd_init_policy bd) m z
    (bd_dealloc bd) (bd_wake_handle bd).

Definition bd_set_bitmap (bd : BuddyArenaInner) (order : Z) (bm : AtomicBitmap) : BuddyArenaInner :=
  bd_set bd (set_index (bd_free_bitmaps bd) order bm) (bd_nonempty_orders bd) (bd_metrics bd)
    (bd_zeroed_bitmap bd).

Definition bd_set_summary (bd : BuddyArenaInner) (ne : Z) : BuddyArenaInner :=
  bd_set bd (bd_free_bitmaps bd) ne (bd_metrics bd) (bd_zeroed_bitmap bd).

Definition bd_set_metrics (bd : BuddyArenaInner) (m : MetricsState) : BuddyArenaInner :=
  bd_set bd (bd_free_bitmaps bd) (bd_nonempty_orders bd) m (bd_zeroed_bitmap bd).

Definition bd_set_zeroed (bd : BuddyArenaInner) (z : option AtomicBitmap) : BuddyArenaInner :=
  bd_set bd (bd_free_bitmaps bd) (bd_nonempty_orders bd) (bd_metrics bd) z.

Section operations.
Context {P : Profile}.

Definition blocks_at_order (max_order order : Z) : outcome Z :=
  let! e := usz_sub max_order order in
  usz_shl 1 e.

Definition block_size (bd : BuddyArenaInner) (order : Z) : outcome Z :=
  usz_shl (bd_min_block_size bd) order.

Definition block_offset (bd : BuddyArenaInner) (order block_idx : Z) : outcome Z :=
  let! size := block_size bd order in
  usz_mul block_idx size.

(** [self.nonempty_orders.fetch_or(1usize << order)]. *)
Definition set_summary_bit (bd : BuddyArenaInner) (order : Z) : outcome BuddyArenaInner :=
  let! mask := usz_shl 1 order in
  Ret (bd_set_summary bd (Z.lor (bd_nonempty_orders bd) mask)).

Definition maybe_clear_summary (bd : BuddyArenaInner) (order : Z) : outcome BuddyArenaInner :=
  let! bm := index (bd_free_bitmaps bd) order in
  let! any := any_free bm in
  if negb any then
    let! mask := usz_shl 1 order in
    Ret (bd_set_summary bd (Z.land (bd_nonempty_orders bd) (unot mask)))
  else Ret bd.

(** [self.free_bitmaps[order].free(block_idx)]. *)
Definition free_block (bd : BuddyArenaInner) (order block_idx : Z) : outcome BuddyArenaInner :=
  let! bm := index (bd_free_bitmaps bd) order in
  let! bm' := bitmap_free bm block_idx in
  Ret (bd_set_bitmap bd order bm').

Definition order_for_request (bd : BuddyArenaInner) (len : Z) : outcome (option Z) :=
  let! size := next_power_of_two (Z.max len (bd_min_block_size bd)) in
  if bd_total_size bd <? size then Ret None
  else
    let! o := usz_sub (trailing_zeros size) (trailing_zeros (bd_min_block_size bd)) in
    Ret (Some o).

(** The loop over [target_order..=max_order], [orders] those left to try. *)
Fixpoint try_orders (bd : BuddyArenaInner) (summary : option Z) (orders : list Z)
    : outcome (option (Z * Z) * BuddyArenaInner) :=
  match orders with
  | [] => Ret (None, bd)
  | order :: orders' =>
      let! skip :=
        (match summary with
         | Some bits => let! mask := usz_shl 1 order in Ret (Z.land bits mask =? 0)
         | None => Ret false
         end) in
      if (skip : bool) then try_orders bd summary orders'
      else
        let! bm := index (bd_free_bitmaps bd) order in
        let! (r, bm') := try_alloc bm in
        let bd' := bd_set_bitmap bd order bm' in
        match r with
        | Some block_idx =>
            let! bd'' := maybe_clear_summary bd' order in
            Ret (Some (order, block_idx), bd'')
        | None => try_orders bd' summary orders'
        end
  end.

Definition try_allocate_from_orders (bd : BuddyArenaInner) (target_order : Z)
    (summary : option Z) : outcome (option (Z * Z) * BuddyArenaInner) :=
  try_orders bd summary (seqZ target_order (bd_max_order bd - target_order + 1)).

Definition try_allocate_from_summary (bd : BuddyArenaInner) (target_order : Z)
    : outcome (option (Z * Z) * BuddyArenaInner) :=
  let summary := bd_nonempty_orders bd in
  try_allocate_from_orders bd target_order (Some summary).

Definition try_allocate_from_full_scan (bd : BuddyArenaInner) (target_order : Z)
    : outcome (option (Z * Z) * BuddyArenaInner) :=
  try_allocate_from_orders bd target_order None.

(** [while order > target_order]; also returns the number of splits. *)
Fixpoint split_loop (fuel : nat) (bd : BuddyArenaInner) (order block_idx target_order steps : Z)
    : outcome (Z * Z * Z * BuddyArenaInner) :=
  match fuel with
  | O => OutOfFuel
  | S fuel' =>
      if target_order <? order then
        let! child_order := usz_sub order 1 in
        let! left_child := usz_mul block_idx 2 in
        let! right_child := usz_add left_child 1 in
        let! bd := set_summary_bit bd child_order in
        let! bd := free_block bd child_order right_child in
        let! steps' := usz_add steps 1 in
        split_loop fuel' bd child_order left_child target_order steps'
      else Ret (order, block_idx, steps, bd)
  end.

(** One iteration per order of a [usize], and one to leave the loop. *)
Definition ORDER_FUEL : nat := 65.

Definition split_down (bd : BuddyArenaInner) (order block_idx target_order : Z)
    : outcome (Z * Z * BuddyArenaInner) :=
  let! (order, block_idx, split_steps, bd) :=
    split_loop ORDER_FUEL bd order block_idx target_order 0 in
  Ret (order, block_idx,
       if 0 <? split_steps then bd_set_metrics bd (record_splits (bd_metrics bd) split_steps)
       else bd).

(** The units of order 0 a block spans. *)
Definition order0_range (order block_idx : Z) : outcome (Z * Z) :=
  let! n := usz_shl 1 order in
  let! s := usz_mul block_idx n in
  let! n' := usz_shl 1 order in
  let! e := usz_add s n' in
  Ret (s, e).

(** Zero a claimed block unless all of it was scrubbed when returned. *)
Definition buddy_zero_cold (bd : BuddyArenaInner) (w : World) (order block_idx offset size : Z)
    : outcome World :=
  match bd_init_policy bd with
  | Zero =>
      match bd_zeroed_bitmap bd with
      | Some zeroed_bm =>
          let! (order0_start, order0_end) := order0_range order block_idx in
          let! warm := all_set_in_range zeroed_bm order0_start order0_end in
          if negb warm then Ret (set_mem w (zeroize_region (w_mem w) (bd_ptr bd + offset) size))
          else Ret w
      | None => Ret w
      end
  | Uninit => Ret w
  end.

(** The body shared by [allocate] and [raw_alloc]: order and index of the
    block, its offset and the capacity the caller sees. *)
Definition buddy_claim (bd : BuddyArenaInner) (w : World) (len : Z)
    : outcome (result AllocError (Z * Z * Z * Z) * BuddyArenaInner * World) :=
  let! t := order_for_request bd len in
  match t with
  | None =>
      Ret (Err RequestTooLarge, bd_set_metrics bd (record_alloc_failure (bd_metrics bd)), w)
  | Some target_order =>
      let! (r, bd) := try_allocate_from_summary bd target_order in
      let! (r, bd) :=
        (match r with
         | Some b => Ret (Some b, bd)
         | None => try_allocate_from_full_scan bd target_order
         end) in
      match r with
      | None => Ret (Err ArenaFull, bd_set_metrics bd (record_alloc_failure (bd_metrics bd)), w)
      | Some (order, block_idx) =>
          let! (final_order, final_block_idx, bd) := split_down bd order block_idx target_order in
          let! size := block_size bd final_order in
          let! offset := block_offset bd final_order final_block_idx in
          let! w := buddy_zero_cold bd w final_order final_block_idx offset size in
          let bd := bd_set_metrics bd (record_alloc_success (bd_metrics bd) size) in
          let user_capacity := if bd_cap_capacity bd then Z.min len size else size in
          Ret (Ok (final_order, final_block_idx, offset, user_capacity), bd, w)
      end
  end.

Definition buddy_allocate {B : BytesLib} (bd : BuddyArenaInner) (w : World) (len : Z)
    : outcome (result AllocError Buffer * BuddyArenaInner * World) :=
  let! (r, bd', w') := buddy_claim bd w len in
  match r with
  | Err e => Ret (Err e, bd', w')
  | Ok (order, block_idx, offset, capacity) =>
      Ret (Ok (new_buddy (bd_ptr bd) (bd_auto_spill bd) order block_idx offset capacity), bd', w')
  end.

(** [while order < max_order]: merge with free buddies. *)
Fixpoint coalesce_loop (fuel : nat) (bd : BuddyArenaInner) (order block_idx : Z)
    : outcome (Z * Z * BuddyArenaInner) :=
  match fuel with
  | O => OutOfFuel
  | S fuel' =>
      if order <? bd_max_order bd then
        let buddy_idx := Z.lxor block_idx 1 in
        let! bm := index (bd_free_bitmaps bd) order in
        let! (got, bm') := try_claim_exact bm buddy_idx in
        let bd := bd_set_bitmap bd order bm' in
        if negb got then Ret (order, block_idx, bd)
        else
          let! bd := maybe_clear_summary bd order in
          let block_idx := block_idx / 2 in
          let! order := usz_add order 1 in
          coalesce_loop fuel' (bd_set_metrics bd (record_coalesce (bd_metrics bd))) order block_idx
      else Ret (order, block_idx, bd)
  end.

(** Scrub a returned block and record it. *)
Definition scrub_block (bd : BuddyArenaInner) (w : World) (order block_idx : Z)
    : outcome (BuddyArenaInner * World) :=
  match bd_init_policy bd with
  | Zero =>
      let! size := block_size bd order in
      let! offset := usz_mul block_idx size in
      let w := set_mem w (zeroize_region (w_mem w) (bd_ptr bd + offset) size) in
      match bd_zeroed_bitmap bd with
      | Some zeroed_bm =>
          let! (order0_start, order0_end) := order0_range order block_idx in
          let! z := set_range zeroed_bm order0_start order0_end in
          Ret (bd_set_zeroed bd (Some z), w)
      | None => Ret (bd, w)
      end
  | Uninit => Ret (bd, w)
  end.

Definition release_block (bd : BuddyArenaInner) (w : World) (order block_idx : Z)
    : outcome (BuddyArenaInner * World) :=
  let! (bd, w) := scrub_block bd w order block_idx in
  let! (order, block_idx, bd) := coalesce_loop ORDER_FUEL bd order block_idx in
  let! bd := set_summary_bit bd order in
  let! bd := free_block bd order block_idx in
  Ret (bd, if bd_wake_handle bd then log_wake w (WakeBuddy order) else w).

(** The buddy branch of [ArenaRef::release]. *)
Definition buddy_release (bd : BuddyArenaInner) (w : World) (order block_idx : Z)
    : outcome (BuddyArenaInner * World) :=
  let! size := block_size bd order in
  release_block (bd_set_metrics bd (record_free (bd_metrics bd) size)) w order block_idx.

Fixpoint largest_free_scan (bd : BuddyArenaInner) (orders : list Z) : outcome Z :=
  match orders with
  | [] => Ret 0
  | order :: orders' =>
      let! bm := index (bd_free_bitmaps bd) order in
      let! any := any_free bm in
      if (any : bool) then block_size bd order else largest_free_scan bd orders'
  end.

Definition largest_free_block (bd : BuddyArenaInner) : outcome Z :=
  largest_free_scan bd (reverse (seqZ 0 (bd_max_order bd + 1))).

Definition buddy_metrics (bd : BuddyArenaInner) : outcome BuddyArenaMetrics :=
  let! largest := largest_free_block bd in
  Ret (buddy_snapshot (bd_metrics bd) largest).

Definition free_block_count (bd : BuddyArenaInner) (order : Z) : outcome Z :=
  let! bm := index (bd_free_bitmaps bd) order in free_count bm.

Definition is_block_free (bd : BuddyArenaInner) (order block_idx : Z) : outcome bool :=
  let! bm := index (bd_free_bitmaps bd) order in is_free bm block_idx.
End operations.

(** ** Builders *)

Record BuddyArenaBuilder (mode : Mode) := mkBuddyArenaBuilder {
  bb_geometry : BuddyGeometry;
  bb_config : BuildConfig;
}.
Arguments bb_geometry {_} _.
Arguments bb_config {_} _.

Record RawBackedBuddyArenaBuilder := mkRawBackedBuddyArenaBuilder {
  rbb_ptr : Z;
  rbb_len : Z;
  rbb_hint : BuddyHint;
  rbb_dealloc : DeallocKind;
  rbb_config : BuildConfig;
}.

Section builders.
Context {P : Profile} {PF : Platform} {GA : GlobalAlloc}.

Definition buddy_builder (g : BuddyGeometry) : BuddyArenaBuilder Standard :=
  mkBuddyArenaBuilder Standard g BuildConfig_new.

Definition buddy_from_raw (ptr len : Z) (hint : BuddyHint) (dealloc : DeallocKind)
    : RawBackedBuddyArenaBuilder :=
  mkRawBackedBuddyArenaBuilder ptr len hint dealloc BuildConfig_new_raw_backed.

(** [buf] is the address and the length of the slice. *)
Definition buddy_from_static (buf : Z * Z) (hint : BuddyHint) : RawBackedBuddyArenaBuilder :=
  buddy_from_raw buf.1 buf.2 hint NoDealloc.

Definition buddy_init_policy {m} (b : BuddyArenaBuilder m) (p : InitPolicy)
    : BuddyArenaBuilder m :=
  mkBuddyArenaBuilder m (bb_geometry b) (set_init_policy (bb_config b) p).
Definition buddy_page_size {m} (b : BuddyArenaBuilder m) (p : PageSize) : BuddyArenaBuilder m :=
  mkBuddyArenaBuilder m (bb_geometry b) (set_page_size (bb_config b) p).
Definition buddy_auto_spill (b : BuddyArenaBuilder Standard) : BuddyArenaBuilder AutoSpill :=
  mkBuddyArenaBuilder AutoSpill (bb_geometry b) (set_auto_spill (bb_config b)).
Definition buddy_hazmat_raw_access (b : BuddyArenaBuilder Standard)
    : BuddyArenaBuilder HazmatRaw :=
  mkBuddyArenaBuilder HazmatRaw (bb_geometry b) (bb_config b).
Definition raw_buddy_init_policy (b : RawBackedBuddyArenaBuilder) (p : InitPolicy) :=
  mkRawBackedBuddyArenaBuilder (rbb_ptr b) (rbb_len b) (rbb_hint b) (rbb_dealloc b)
    (set_init_policy (rbb_config b) p).

(** One empty bitmap per order, then the single block of [max_order] freed. *)
Definition new_free_bitmaps (max_order : Z) : outcome (list AtomicBitmap) :=
  let! bms := omapM (λ order,
      let! block_count := blocks_at_order max_order order in
      bitmap_new_empty block_count) (seqZ 0 (max_order + 1)) in
  let! top := index bms max_order in
  let! top' := bitmap_free top 0 in
  Ret (set_index bms max_order top').

Definition build_raw {m} (b : BuddyArenaBuilder m) (waker : bool)
    : outcome (result BuildError BuddyArenaInner) :=
  let g := bb_geometry b in
  let c := bb_config b in
  if negb (layout_ok (total_size g) (alignment g)) then Ret (Err SizeOverflow)
  else
    let ptr := global_alloc (total_size g) (alignment g) in
    let! _ := assert_ (negb (ptr =? 0)) in
    let! free_bitmaps := new_free_bitmaps (max_order g) in
    let! order0_count := blocks_at_order (max_order g) 0 in
    let! zeroed_bitmap := new_zeroed_bitmap (bc_init_policy c) order0_count in
    let! nonempty := usz_shl 1 (max_order g) in
    Ret (Ok (mkBuddyArenaInner ptr (total_size g) (total_size g) (min_block_size g) (max_order g)
               free_bitmaps nonempty (bc_auto_spill c) (cap_capacity g) (bc_init_policy c)
               (metrics_new (total_size g)) zeroed_bitmap
               (HeapDealloc (total_size g) (alignment g)) waker)).

Definition build_buddy {m} (b : BuddyArenaBuilder m) (waker : bool) (w : World)
    : outcome (result BuildError (BuddyArenaInner * World)) :=
  let! page_size := PageSize_resolve (bc_page_size (bb_config b)) in
  let? arena := build_raw b waker in
  let! w' := prefault_if page_size w (bd_ptr arena) (bd_total_size arena) in
  Ret (Ok (arena, w')).

Definition build_buddy_unfaulted {m} (b : BuddyArenaBuilder m)
    : outcome (result BuildError (Unfaulted BuddyArenaInner)) :=
  let! page_size := PageSize_resolve (bc_page_size (bb_config b)) in
  let? arena := build_raw b false in
  Ret (Ok (mkUnfaulted (bd_ptr arena) (bd_total_size arena) page_size arena)).

Definition raw_buddy_build (b : RawBackedBuddyArenaBuilder) (w : World)
    : outcome (result BuildError (BuddyArenaInner * World)) :=
  let c := rbb_config b in
  if rbb_ptr b =? 0 then Ret (Err NullPointer)
  else
    let! page_size := PageSize_resolve (bc_page_size c) in
    let? (min_block_size, max_order) := BuddyHint_resolve RESOLVE_FUEL (rbb_hint b) (rbb_len b) in
    let! free_bitmaps := new_free_bitmaps max_order in
    let! order0_count := blocks_at_order max_order 0 in
    let! total_usable := usz_shl min_block_size max_order in
    let! zeroed_bitmap := new_zeroed_bitmap (bc_init_policy c) order0_count in
    let! nonempty := usz_shl 1 max_order in
    let arena := mkBuddyArenaInner (rbb_ptr b) total_usable (rbb_len b) min_block_size max_order
                   free_bitmaps nonempty false false (bc_init_policy c) (metrics_new total_usable)
                   zeroed_bitmap (rbb_dealloc b) false in
    let! w' := prefault_if page_size w (bd_ptr arena) total_usable in
    Ret (Ok (arena, w')).
End builders.
