(* ===== verification/BuddyCore.v ===== *)
(** * The buddy arena refines the abstract buddy system

    The bitmaps and the summary of a [BuddyArenaInner] represent the set [F] of
    free blocks of [BuddyTiling]; each step of [src/buddy.rs] is one of the
    abstract moves, the block in the caller's hands counted as outstanding. *)

From stdpp Require Import prelude numbers list gmap.
From S2P Require Import Prelude Usize Errors Bitmap BitmapRange SlotSpec Metrics Memory Config.
From S2P Require Import Buffer BuddyTiling Buddy.
Local Open Scope Z_scope.

(** The order of the smallest block in bytes. *)
Definition bd_unit_log (bd : BuddyArenaInner) : Z := Z.log2 (bd_min_block_size bd).

Record buddy_geo (bd : BuddyArenaInner) : Prop := {
  bg_log : 0 ≤ bd_unit_log bd;
  bg_min : bd_min_block_size bd = 2 ^ bd_unit_log bd;
  bg_order : 0 ≤ bd_max_order bd;
  bg_bound : bd_unit_log bd + bd_max_order bd < 63;
  bg_total : bd_total_size bd = 2 ^ (bd_unit_log bd + bd_max_order bd);
  bg_ptr : 0 < bd_ptr bd ∧ bd_ptr bd + bd_total_size bd ≤ usize_MAX + 1;
}.

(** The bitmap of order [o] holds exactly the free blocks of that order. *)
Definition bitmap_of (m : Z) (F : gset block) (o : Z) (bm : AtomicBitmap) : Prop :=
  bitmap_wf bm ∧ slot_count bm = 2 ^ (m - o) ∧ ∀ i, 0 ≤ i → (bit bm i = true ↔ (o, i) ∈ F).

Definition bitmaps_hold (m : Z) (bms : list AtomicBitmap) (F : gset block) : Prop :=
  Z.of_nat (length bms) = m + 1 ∧
  ∀ o, 0 ≤ o ≤ m → ∃ bm, bms !! Z.to_nat o = Some bm ∧ bitmap_of m F o bm.

Definition summary_bit_ok (ne : Z) (F : gset block) (o : Z) : Prop :=
  Z.testbit ne o = true ↔ ∃ i, (o, i) ∈ F.

Definition summary_ok (m ne : Z) (F : gset block) : Prop :=
  is_usize ne ∧ ∀ o, 0 ≤ o ≤ m → summary_bit_ok ne F o.

Record buddy_core (bd : BuddyArenaInner) (F : gset block) (A : list block) : Prop := {
  co_geo : buddy_geo bd;
  co_bitmaps : bitmaps_hold (bd_max_order bd) (bd_free_bitmaps bd) F;
  co_summary : summary_ok (bd_max_order bd) (bd_nonempty_orders bd) F;
  co_tiling : tiling (bd_max_order bd) F A;
}.

(** Steps touch the bitmaps, the summary and the split/coalesce counters. *)
Definition metrics_same (m m' : MetricsState) : Prop :=
  bytes_live m' = bytes_live m ∧ allocations_ok m' = allocations_ok m ∧ frees m' = frees m ∧
  bytes_reserved m' = bytes_reserved m.

Definition bd_upd (bd bd' : BuddyArenaInner) : Prop :=
  ∃ bms ne mt, bd' = bd_set bd bms ne mt (bd_zeroed_bitmap bd) ∧ metrics_same (bd_metrics bd) mt.

#[export] Instance bd_upd_preorder : PreOrder bd_upd.
Proof.
  split.
  - intros bd. exists (bd_free_bitmaps bd), (bd_nonempty_orders bd), (bd_metrics bd).
    split; [by destruct bd|done].
  - intros bd1 bd2 bd3 (b & n & t & -> & H1) (b' & n' & t' & -> & H2).
    exists b', n', t'. split; [done|]. unfold metrics_same in *. simpl in *. intuition congruence.
Qed.

Lemma geo_upd bd bd' : bd_upd bd bd' → buddy_geo bd → buddy_geo bd'.
Proof. by intros (b & n & t & -> & _) []. Qed.

Lemma upd_set bd bms ne : bd_upd bd (bd_set bd bms ne (bd_metrics bd) (bd_zeroed_bitmap bd)).
Proof. by exists bms, ne, (bd_metrics bd). Qed.

(** ** One bitmap at a time *)

Lemma bitmaps_lookup m bms F o :
  bitmaps_hold m bms F → 0 ≤ o ≤ m → ∃ bm, index bms o = Ret bm ∧ bitmap_of m F o bm.
Proof.
  intros [_ Hb] Ho. destruct (Hb o Ho) as (bm & Hbm & ?). exists bm. by split; [apply index_Some|].
Qed.

(** Replacing one bitmap, the free set changed in that order only. *)
Lemma bitmaps_update m bms F F' o bm :
  bitmaps_hold m bms F → 0 ≤ o ≤ m → bitmap_of m F' o bm →
  (∀ o' i, o' ≠ o → (o', i) ∈ F' ↔ (o', i) ∈ F) → bitmaps_hold m (set_index bms o bm) F'.
Proof.
  intros [Hl Hb] Ho Hbm Hext. split; [by rewrite length_set_index|]. intros o' Ho'.
  rewrite lookup_set_index by lia. case_decide as E; [subst o'; by exists bm|].
  destruct (Hb o' Ho') as (bm' & ? & Hwf & Hc & Hbits). exists bm'. split; [done|]. do 2 (split; [done|]).
  intros i Hi. rewrite Hbits by done. symmetry. by apply Hext.
Qed.

Lemma block_index_range m o i : in_arena m (o, i) → 0 ≤ i < 2 ^ (m - o).
Proof. by intros [_ ?]. Qed.

Section steps.
Context {P : Profile}.

(** Giving a block to the free set: the summary bit, then the bitmap bit. *)
Lemma give_block_ok bd F A o i :
  buddy_geo bd → bitmaps_hold (bd_max_order bd) (bd_free_bitmaps bd) F →
  summary_ok (bd_max_order bd) (bd_nonempty_orders bd) F →
  in_arena (bd_max_order bd) (o, i) → (o, i) ∉ F →
  tiling (bd_max_order bd) ({[(o, i)]} ∪ F) A →
  ∃ bd1 bd', set_summary_bit bd o = Ret bd1 ∧ free_block bd1 o i = Ret bd' ∧ bd_upd bd bd' ∧
    bd_metrics bd' = bd_metrics bd ∧ buddy_core bd' ({[(o, i)]} ∪ F) A.
Proof.
  intros Hg Hbms [Hu Hs] Hin Hn Ht. pose proof Hin as [Ho Hi]. simpl in Ho, Hi.
  destruct (bitmaps_lookup _ _ _ o Hbms Ho) as (bm & Hix & Hwf & Hc & Hb).
  destruct (bitmap_free_ok bm i Hwf) as (bm' & Hfree & Hwf' & Hc' & Hb').
  { by rewrite Hc. }
  { apply not_true_is_false. by rewrite Hb by lia. }
  destruct Hg as [? ? ? Hbound ? ?] eqn:Eg. clear Eg.
  unfold set_summary_bit, free_block. rewrite usz_shl_1 by lia. cbn [obind].
  do 2 eexists. split; [reflexivity|]. cbn. rewrite Hix. cbn [obind]. rewrite Hfree.
  split; [reflexivity|]. split_and!; [by do 3 eexists|done|].
  split; simpl; [by split|..|done].
  - apply (bitmaps_update _ _ F); [done|done| |set_solver].
    split_and!; [done|congruence|]. intros j Hj. rewrite Hb', orb_true_iff, bool_decide_eq_true, Hb by done.
    rewrite elem_of_union, elem_of_singleton. naive_solver.
  - split; [apply lor_range; [done|apply pow2_is_usize; lia]|]. intros o' Ho'. unfold summary_bit_ok in *.
    rewrite testbit_set by lia. rewrite orb_true_iff, bool_decide_eq_true, (Hs o' Ho'). split.
    + intros [[j Hj]| ->]; [exists j; set_solver|exists i; set_solver].
    + intros [j [[= -> ->]%elem_of_singleton|Hj]%elem_of_union]; [by right|left; by exists j].
Qed.

(** Clearing the summary of an order whose last block went. *)
Lemma maybe_clear_summary_ok bd F o :
  buddy_geo bd → bitmaps_hold (bd_max_order bd) (bd_free_bitmaps bd) F → 0 ≤ o ≤ bd_max_order bd →
  is_usize (bd_nonempty_orders bd) → Z.testbit (bd_nonempty_orders bd) o = true →
  (∀ o', 0 ≤ o' ≤ bd_max_order bd → o' ≠ o → summary_bit_ok (bd_nonempty_orders bd) F o') →
  (∀ b, b ∈ F → in_arena (bd_max_order bd) b) →
  ∃ ne, maybe_clear_summary bd o = Ret (bd_set_summary bd ne) ∧
    summary_ok (bd_max_order bd) ne F.
Proof.
  intros Hg Hbms Ho Hu Hbit Hs Hr. destruct (bitmaps_lookup _ _ _ o Hbms Ho) as (bm & Hix & Hwf & Hc & Hb).
  destruct (any_free_ok bm Hwf) as (any & Hany & Hiff). unfold maybe_clear_summary.
  rewrite Hix. cbn [obind]. rewrite Hany. cbn [obind].
  destruct Hg as [? ? ? Hbound ? ?]. destruct any; cbn [negb].
  - exists (bd_nonempty_orders bd). split; [by destruct bd|]. split; [done|]. intros o' Ho'.
    destruct (decide (o' = o)) as [->|]; [|by apply Hs]. unfold summary_bit_ok. rewrite Hbit.
    split; [|done]. intros _. destruct (proj1 Hiff eq_refl) as (i & Hi & Ht). exists i. apply Hb; [lia|done].
  - rewrite usz_shl_1 by lia. cbn [obind]. eexists. split; [reflexivity|].
    split; [apply land_range, unot_range, pow2_is_usize; done || lia|]. intros o' Ho'.
    unfold summary_bit_ok in *. rewrite testbit_clear by lia.
    rewrite andb_true_iff, negb_true_iff, bool_decide_eq_false.
    destruct (decide (o' = o)) as [->|]; [|rewrite (Hs o') by done; naive_solver].
    split; [naive_solver|]. intros [i Hi]. pose proof (Hr _ Hi) as [_ Hir]. simpl in Hir.
    assert (false = true) by (apply Hiff; exists i; rewrite Hc; split; [done|by apply Hb; [lia|]]). done.
Qed.

Lemma core_range bd F A b : buddy_core bd F A → b ∈ F → in_arena (bd_max_order bd) b.
Proof. intros [_ _ _ Ht] Hb. apply (ti_range _ _ (t_tiles _ _ _ Ht)). by left. Qed.

Lemma core_range_out bd F A b : buddy_core bd F A → b ∈ A → in_arena (bd_max_order bd) b.
Proof. intros [_ _ _ Ht] Hb. apply (ti_range _ _ (t_tiles _ _ _ Ht)). by right. Qed.

(** Replacing a bitmap by one with the same bits. *)
Lemma core_same_bits bd F A o bm bm' :
  buddy_core bd F A → 0 ≤ o ≤ bd_max_order bd → bitmap_of (bd_max_order bd) F o bm →
  bits_are bm bm' (bit bm) → buddy_core (bd_set_bitmap bd o bm') F A.
Proof.
  intros [Hg Hbms Hs Ht] Ho (Hwf & Hc & Hb) (Hwf' & Hc' & Hb'). split; try done.
  - by eapply (geo_upd bd); [apply upd_set|].
  - apply (bitmaps_update _ _ F); [done..| |done]. split_and!; [done|simpl; congruence|].
    intros i Hi. rewrite Hb' by done. by apply Hb.
Qed.

(** Taking a free block out of its bitmap and fixing the summary. *)
Lemma take_block_ok bd F A o i bm bm' :
  buddy_core bd F A → 0 ≤ o ≤ bd_max_order bd → bitmap_of (bd_max_order bd) F o bm →
  0 ≤ i → bit bm i = true →
  bits_are bm bm' (λ j, bit bm j && negb (bool_decide (i = j))) →
  ∃ bd', maybe_clear_summary (bd_set_bitmap bd o bm') o = Ret bd' ∧ bd_upd bd bd' ∧
    bd_metrics bd' = bd_metrics bd ∧ (o, i) ∈ F ∧
    bitmaps_hold (bd_max_order bd) (bd_free_bitmaps bd') (F ∖ {[(o, i)]}) ∧
    summary_ok (bd_max_order bd) (bd_nonempty_orders bd') (F ∖ {[(o, i)]}).
Proof.
  intros Hco Ho (Hwf & Hc & Hb) Hi Hbit (Hwf' & Hc' & Hb'). pose proof Hco as [Hg Hbms [Hu Hs] Ht].
  assert (Hin : (o, i) ∈ F) by (by apply Hb).
  assert (Hbms' : bitmaps_hold (bd_max_order bd) (bd_free_bitmaps (bd_set_bitmap bd o bm'))
                    (F ∖ {[(o, i)]})).
  { apply (bitmaps_update _ _ F); [done|done| |set_solver]. split_and!; [done|simpl; congruence|].
    intros j Hj. rewrite Hb', andb_true_iff, negb_true_iff, bool_decide_eq_false, Hb by done.
    rewrite elem_of_difference, elem_of_singleton. naive_solver. }
  destruct (maybe_clear_summary_ok (bd_set_bitmap bd o bm') (F ∖ {[(o, i)]}) o) as (ne & Hex & Hs').
  - by eapply (geo_upd bd); [apply upd_set|].
  - done.
  - done.
  - done.
  - simpl. apply (Hs o Ho). by exists i.
  - intros o' Ho' Hne. unfold summary_bit_ok in *. simpl. rewrite (Hs o' Ho').
    split; intros [j Hj]; exists j; [|set_solver].
    apply elem_of_difference. split; [done|]. rewrite elem_of_singleton. congruence.
  - intros b Hbb. apply (core_range bd F A); [done|set_solver].
  - eexists. split; [exact Hex|]. split_and!; [by do 3 eexists|done..].
Qed.

(** What a scan over a run of orders ends with: the first free block it
    meets, taken, or the news that none of these orders has one. *)
Definition scan_result (bd : BuddyArenaInner) (F : gset block) (A : list block) (orders : list Z)
    (r : outcome (option block * BuddyArenaInner)) : Prop :=
  match r with
  | Ret (Some (o, i), bd') =>
      (∃ pre post, orders = pre ++ (o :: post) ∧ ∀ o' j, o' ∈ pre → (o', j) ∉ F) ∧
      (o, i) ∈ F ∧ bd_upd bd bd' ∧ bd_metrics bd' = bd_metrics bd ∧
      buddy_core bd' (F ∖ {[(o, i)]}) ((o, i) :: A)
  | Ret (None, bd') =>
      (∀ o j, o ∈ orders → (o, j) ∉ F) ∧ bd_upd bd bd' ∧ bd_metrics bd' = bd_metrics bd ∧
      buddy_core bd' F A
  | _ => False
  end.

Lemma scan_skip bd bd1 F A o orders r :
  bd_upd bd bd1 → bd_metrics bd1 = bd_metrics bd → (∀ j, (o, j) ∉ F) →
  scan_result bd1 F A orders r → scan_result bd F A (o :: orders) r.
Proof.
  intros Hup Hmt Hno. destruct r as [[[[o1 i]|] bd']| |]; simpl; [| |done|done].
  - intros ((pre & post & -> & Hpre) & Hin & Hup' & Hmt' & Hc).
    split_and!; [|done|by etrans|by etrans|done]. exists (o :: pre), post. split; [done|].
    intros o' j [->|Hx]%elem_of_cons; [apply Hno|by apply Hpre].
  - intros (Hnone & Hup' & Hmt' & Hc). split_and!; [|by etrans|by etrans|done].
    intros o1 j [->|Hx]%elem_of_cons; [apply Hno|by apply Hnone].
Qed.

(** The block [try_alloc] finds in the bitmap of order [o]. *)
Lemma scan_take bd F A o orders :
  buddy_core bd F A → 0 ≤ o ≤ bd_max_order bd →
  (∃ bm i bm' bd', index (bd_free_bitmaps bd) o = Ret bm ∧ try_alloc bm = Ret (Some i, bm') ∧
     maybe_clear_summary (bd_set_bitmap bd o bm') o = Ret bd' ∧
     scan_result bd F A (o :: orders) (Ret (Some (o, i), bd'))) ∨
  (∃ bm bm', index (bd_free_bitmaps bd) o = Ret bm ∧ try_alloc bm = Ret (None, bm') ∧
     buddy_core (bd_set_bitmap bd o bm') F A ∧ ∀ j, (o, j) ∉ F).
Proof.
  intros Hco Ho. destruct (bitmaps_lookup _ _ _ o (co_bitmaps _ _ _ Hco) Ho) as (bm & Hix & Hbm).
  pose proof Hbm as (Hwf & Hcnt & Hb).
  destruct (try_alloc_ok bm Hwf) as [(i & bm' & Hta & Hi & Hbit & Hbits)|(bm' & Hta & Hbits & Hnone)].
  - left. destruct (take_block_ok bd F A o i bm bm') as (bd' & Hex & Hup & Hmt & Hin & Hb1 & Hs1);
      [done..|lia|done|done|].
    exists bm, i, bm', bd'. do 3 (split; [done|]). split_and!; try done.
    { exists [], orders. split; [done|]. by intros ? ? ?%not_elem_of_nil. }
    split; [by eapply geo_upd; [|apply Hco]|..]; destruct Hup as (b & n & t & -> & _); try done.
    apply tile_claim; [apply Hco|done].
  - right. exists bm, bm'. split_and!; [done..|by eapply core_same_bits|].
    intros j Hj. destruct (core_range _ _ _ _ Hco Hj) as [_ Hjr]. simpl in Hjr.
    apply Hb in Hj; [|lia]. rewrite Hnone in Hj by lia. done.
Qed.

Lemma summary_empty m bits F o :
  summary_ok m bits F → 0 ≤ o ≤ m → (Z.land bits (2 ^ o) =? 0) = true → ∀ j, (o, j) ∉ F.
Proof.
  intros [_ Hs] Ho. rewrite land_pow2_eqb, negb_true_iff by lia. intros Hbit j Hj.
  specialize (Hs o Ho). unfold summary_bit_ok in Hs. rewrite Hbit in Hs.
  by discriminate (proj2 Hs (ex_intro _ j Hj)).
Qed.

Lemma try_orders_ok bd F A summary orders :
  buddy_core bd F A → Forall (λ o, 0 ≤ o ≤ bd_max_order bd) orders →
  (∀ bits, summary = Some bits → summary_ok (bd_max_order bd) bits F) →
  scan_result bd F A orders (try_orders bd summary orders).
Proof.
  revert bd. induction orders as [|o orders IH]; intros bd Hco Hord Hsum.
  { simpl. split_and!; [by intros o j ?%not_elem_of_nil|done..]. }
  apply Forall_cons in Hord as [Ho Hord]. pose proof (co_geo _ _ _ Hco) as Hg.
  assert (Hsh : usz_shl 1 o = Ret (2 ^ o)) by (apply usz_shl_1; destruct Hg; lia).
  (* the order is tried *)
  assert (Htry : scan_result bd F A (o :: orders)
    (let! bm := index (bd_free_bitmaps bd) o in
     let! (r, bm') := try_alloc bm in
     let bd' := bd_set_bitmap bd o bm' in
     match r with
     | Some block_idx => let! bd'' := maybe_clear_summary bd' o in Ret (Some (o, block_idx), bd'')
     | None => try_orders bd' summary orders
     end)).
  { destruct (scan_take bd F A o orders Hco Ho)
      as [(bm & i & bm' & bd' & Hix & Hta & Hcl & Hres)|(bm & bm' & Hix & Hta & Hco' & Hno)];
      rewrite Hix; cbn [obind]; rewrite Hta; cbn [obind]; [by rewrite Hcl|].
    eapply scan_skip; [apply upd_set|done|done|]. by apply IH. }
  cbn [try_orders]. destruct summary as [bits|]; [|done]. rewrite Hsh. cbn [obind].
  destruct (Z.land bits (2 ^ o) =? 0) eqn:Eskip; [|done].
  eapply (scan_skip _ bd); [done|done| |by apply IH].
  eapply summary_empty; [by apply Hsum|done|done].
Qed.

(** ** Splitting and coalescing *)

Lemma split_loop_ok fuel bd F A o i t steps :
  buddy_core bd F ((o, i) :: A) → 0 ≤ t ≤ o → o - t < Z.of_nat fuel → 0 ≤ steps → steps + o ≤ 64 →
  ∃ F' bd', split_loop fuel bd o i t steps = Ret (t, i * 2 ^ (o - t), steps + (o - t), bd') ∧
    bd_upd bd bd' ∧ bd_metrics bd' = bd_metrics bd ∧
    buddy_core bd' F' ((t, i * 2 ^ (o - t)) :: A).
Proof.
  revert bd F o i steps. induction fuel as [|fuel IH]; intros bd F o i steps Hco Ht Hf Hst Hso; [lia|].
  cbn [split_loop]. destruct (Z.ltb_spec t o) as [Hlt|Hge].
  2: { assert (o = t) as -> by lia. rewrite Z.sub_diag, Z.mul_1_r, Z.add_0_r. by exists F, bd. }
  pose proof Hco as [Hg Hbms Hs Hti]. destruct (core_range_out _ _ _ (o, i) Hco ltac:(by left)) as [Hom Hi].
  simpl in Hom, Hi. destruct Hg as [Hlog Hmin Hmo Hbound Htot Hptr] eqn:Eg. clear Eg.
  assert (Hi63 : i < 2 ^ 62).
  { pose proof (pow2_mono (bd_max_order bd - o) 62 ltac:(lia)). lia. }
  rewrite usz_sub_ok by ulia. cbn [obind]. rewrite usz_mul_ok by ulia. cbn [obind].
  rewrite usz_add_ok by ulia. cbn [obind].
  pose proof (tile_split _ _ _ o i Hti ltac:(lia)) as Hti'. rewrite (Z.mul_comm 2 i) in Hti'.
  destruct (give_block_ok bd F ((o - 1, i * 2) :: A) (o - 1) (i * 2 + 1))
    as (bd1 & bd2 & Hsum & Hfree & Hup & Hmt & Hco2); try done.
  { apply (ti_range _ _ (t_tiles _ _ _ Hti')). left. set_solver. }
  { intros Hin. pose proof (ti_disj _ _ (t_tiles _ _ _ Hti) (o - 1, i * 2 + 1) (o, i) ((i * 2 + 1) * 2 ^ (o - 1))) as Hd.
    assert ((o - 1, i * 2 + 1) = (o, i)) as [=]; [|lia]. apply Hd; [by left|right; by left| |].
    - apply spans_first. lia.
    - apply spans_child; [lia|]. right. rewrite (Z.mul_comm 2 i). apply spans_first. lia. }
  rewrite Hsum. cbn [obind]. rewrite Hfree. cbn [obind]. rewrite usz_add_ok by ulia. cbn [obind].
  destruct (IH bd2 _ (o - 1) (i * 2) (steps + 1) Hco2) as (F' & bd' & Hex & Hup' & Hmt' & Hco'); [lia..|].
  exists F', bd'. replace (i * 2 ^ (o - t)) with (i * 2 * 2 ^ (o - 1 - t)).
  2: { rewrite <- Z.mul_assoc. f_equal. rewrite <- Z.pow_succ_r by lia. f_equal. lia. }
  rewrite Hex. split_and!; [do 3 f_equal; lia|by etrans|by etrans|done].
Qed.

Lemma split_down_ok bd F A o i t :
  buddy_core bd F ((o, i) :: A) → 0 ≤ t ≤ o →
  ∃ F' bd', split_down bd o i t = Ret (t, i * 2 ^ (o - t), bd') ∧ bd_upd bd bd' ∧
    buddy_core bd' F' ((t, i * 2 ^ (o - t)) :: A) ∧
    (splits (bd_metrics bd') = if 0 <? o - t then wrap (splits (bd_metrics bd) + (o - t))
                               else splits (bd_metrics bd)).
Proof.
  intros Hco Ht. destruct (core_range_out _ _ _ (o, i) Hco ltac:(by left)) as [Hom _]. simpl in Hom.
  destruct (co_geo _ _ _ Hco) as [Hlog _ _ Hbound _ _].
  destruct (split_loop_ok ORDER_FUEL bd F A o i t 0) as (F' & bd' & Hex & Hup & Hmt & Hco');
    [done|lia|unfold ORDER_FUEL; lia|lia|lia|].
  unfold split_down. rewrite Hex, Z.add_0_l. cbn [obind]. exists F'. eexists. split; [reflexivity|].
  destruct (0 <? o - t); simpl; [|by rewrite Hmt]. split_and!.
  - etrans; [done|]. do 3 eexists. split; [reflexivity|done].
  - by destruct Hco' as [[] ? ? ?].
  - by rewrite Hmt.
Qed.

Lemma coalesce_loop_ok fuel bd F A o i :
  buddy_core bd F ((o, i) :: A) → bd_max_order bd - o < Z.of_nat fuel →
  ∃ F' bd' o', coalesce_loop fuel bd o i = Ret (o', i / 2 ^ (o' - o), bd') ∧
    o ≤ o' ≤ bd_max_order bd ∧ bd_upd bd bd' ∧ buddy_core bd' F' ((o', i / 2 ^ (o' - o)) :: A) ∧
    (o' < bd_max_order bd → (o', Z.lxor (i / 2 ^ (o' - o)) 1) ∉ F').
Proof.
  revert bd F o i. induction fuel as [|fuel IH]; intros bd F o i Hco Hf;
    destruct (core_range_out _ _ _ (o, i) Hco ltac:(by left)) as [Hom Hi]; simpl in Hom, Hi; [lia|].
  cbn [coalesce_loop]. destruct (Z.ltb_spec o (bd_max_order bd)) as [Hlt|Hge].
  2: { exists F, bd, o. rewrite Z.sub_diag, Z.div_1_r. split_and!; done || lia. }
  pose proof Hco as [Hg Hbms Hs Hti]. destruct (buddy_pair i) as (Hx & Hx2 & _); [lia|].
  destruct (bitmaps_lookup _ _ _ o Hbms Hom) as (bm & Hix & Hbm). pose proof Hbm as (Hwf & Hcnt & Hb).
  assert (Hxr : Z.lxor i 1 < 2 ^ (bd_max_order bd - o)).
  { replace (bd_max_order bd - o) with (bd_max_order bd - (o + 1) + 1) in * by lia.
    rewrite Z.pow_add_r in * by lia. lia. }
  destruct (try_claim_exact_ok bm (Z.lxor i 1) Hwf) as (bm' & Hcl & Hbits); [lia|].
  rewrite Hix. cbn [obind]. rewrite Hcl. cbn [obind]. destruct (bit bm (Z.lxor i 1)) eqn:Ebit; cbn [negb].
  - destruct (take_block_ok bd F ((o, i) :: A) o (Z.lxor i 1) bm bm')
      as (bd1 & Hex & Hup & Hmt & Hin & Hb1 & Hs1); [done..|].
    rewrite Hex. cbn [obind]. rewrite usz_add_ok by (destruct Hg; ulia). cbn [obind].
    set (bd2 := bd_set_metrics bd1 _). pose proof (tile_merge _ _ _ o i Hti Hlt Hin) as Hti'.
    assert (Hup2 : bd_upd bd bd2).
    { etrans; [exact Hup|]. do 3 eexists. split; [reflexivity|done]. }
    assert (Hmo : bd_max_order bd2 = bd_max_order bd) by (by destruct Hup as (? & ? & ? & -> & _)).
    assert (Hco2 : buddy_core bd2 (F ∖ {[(o, Z.lxor i 1)]}) ((o + 1, i / 2) :: A)).
    { split; [by eapply geo_upd|by rewrite Hmo..]. }
    destruct (IH bd2 _ (o + 1) (i / 2) Hco2) as (F' & bd' & o' & Hex' & Ho' & Hup' & Hco' & Hn'); [lia|].
    rewrite Hmo in *. exists F', bd', o'.
    replace (i / 2 ^ (o' - o)) with (i / 2 / 2 ^ (o' - (o + 1))).
    2: { rewrite Z.div_div by lia. f_equal. rewrite <- Z.pow_succ_r by lia. f_equal. lia. }
    split_and!; [done|lia|lia|by etrans|done|done].
  - exists F. eexists. exists o. rewrite Z.sub_diag, Z.div_1_r. split; [reflexivity|].
    split_and!; [lia|lia|apply upd_set| |].
    + eapply core_same_bits; [done|done|done|]. eapply bits_are_ext; [|done]. intros j Hj. simpl.
      case_bool_decide; [subst; by rewrite Ebit|]. by rewrite andb_true_r.
    + intros _ Hin. apply Hb in Hin; [|lia]. congruence.
Qed.
End steps.

(** ** Sizes and addresses *)

Definition block_len (bd : BuddyArenaInner) (b : block) : Z := 2 ^ (bd_unit_log bd + b.1).
Definition block_addr (bd : BuddyArenaInner) (b : block) : Z :=
  bd_ptr bd + b.2 * block_len bd b.

Lemma block_len_units bd b :
  buddy_geo bd → 0 ≤ b.1 → block_len bd b = 2 ^ b.1 * bd_min_block_size bd.
Proof.
  intros Hg Hb. unfold block_len. rewrite (bg_min _ Hg). destruct Hg.
  rewrite <- Z.pow_add_r by lia. f_equal. lia.
Qed.

(** The first and the past-the-end byte of a block lie in the arena. *)
Lemma block_in_arena bd b :
  buddy_geo bd → in_arena (bd_max_order bd) b →
  bd_ptr bd ≤ block_addr bd b ∧ block_addr bd b + block_len bd b ≤ bd_ptr bd + bd_total_size bd.
Proof.
  intros Hg [Ho Hi]. unfold block_addr, block_len. rewrite (bg_total _ Hg). destruct Hg.
  set (p := 2 ^ (bd_unit_log bd + b.1)). assert (0 < p) by (subst p; lia).
  replace (2 ^ (bd_unit_log bd + bd_max_order bd)) with (2 ^ (bd_max_order bd - b.1) * p).
  2: { subst p. rewrite <- Z.pow_add_r by lia. f_equal. lia. }
  nia.
Qed.

Lemma blocks_disjoint bd F A b b' :
  buddy_core bd F A → live F A b → live F A b' → b ≠ b' →
  disjoint_ranges (block_addr bd b) (block_len bd b) (block_addr bd b') (block_len bd b').
Proof.
  intros [Hg _ _ Ht] Hb Hb' Hne. destruct b as [o i], b' as [o' i'].
  pose proof (ti_range _ _ (t_tiles _ _ _ Ht) _ Hb) as [Ho _].
  pose proof (ti_range _ _ (t_tiles _ _ _ Ht) _ Hb') as [Ho' _].
  pose proof (tiling_disjoint _ _ _ _ _ _ _ Ht Hb Hb' Hne) as Hd.
  unfold disjoint_ranges, block_addr. rewrite !block_len_units by (done || simpl in *; lia). simpl in *.
  assert (0 < bd_min_block_size bd) by (rewrite (bg_min _ Hg); destruct Hg; lia). nia.
Qed.

Section sizes.
Context {P : Profile}.

Lemma block_size_ok bd o :
  buddy_geo bd → 0 ≤ o ≤ bd_max_order bd → block_size bd o = Ret (2 ^ (bd_unit_log bd + o)).
Proof.
  intros Hg Ho. unfold block_size. rewrite (bg_min _ Hg). destruct Hg.
  rewrite usz_shl_ok, <- Z.pow_add_r by lia || (rewrite <- Z.pow_add_r by lia; apply pow2_is_usize; lia).
  done.
Qed.

Lemma block_offset_usize bd o i :
  buddy_geo bd → in_arena (bd_max_order bd) (o, i) →
  usz_mul i (2 ^ (bd_unit_log bd + o)) = Ret (i * 2 ^ (bd_unit_log bd + o)).
Proof.
  intros Hg Hin. pose proof (block_in_arena bd (o, i) Hg Hin) as Hr.
  unfold block_addr, block_len in Hr. simpl in Hr. rewrite (bg_total _ Hg) in Hr. destruct Hg.
  pose proof (pow2_mono (bd_unit_log bd + bd_max_order bd) 63 ltac:(lia)).
  assert (0 < 2 ^ (bd_unit_log bd + o)) by (destruct Hin; simpl in *; lia).
  apply usz_mul_ok. destruct Hin as [_ Hi]. simpl in Hi. split; [nia|ulia].
Qed.

Lemma block_offset_ok bd o i :
  buddy_geo bd → in_arena (bd_max_order bd) (o, i) →
  block_offset bd o i = Ret (i * 2 ^ (bd_unit_log bd + o)).
Proof.
  intros Hg Hin. unfold block_offset. rewrite block_size_ok by (done || apply Hin). cbn [obind].
  by apply block_offset_usize.
Qed.

Lemma order0_range_ok m o i :
  m < 63 → in_arena m (o, i) → order0_range o i = Ret (i * 2 ^ o, i * 2 ^ o + 2 ^ o).
Proof.
  intros Hm Hin. unfold order0_range. destruct Hin as [Ho Hi] eqn:E. clear E. simpl in *.
  rewrite !usz_shl_1 by lia. cbn [obind].
  assert (0 < 2 ^ o) by lia. pose proof (pow2_mono m 63 ltac:(lia)).
  assert (i * 2 ^ o + 2 ^ o ≤ 2 ^ m).
  { replace (2 ^ m) with (2 ^ (m - o) * 2 ^ o) by (rewrite <- Z.pow_add_r by lia; f_equal; lia). nia. }
  assert (0 ≤ i * 2 ^ o) by nia.
  rewrite usz_mul_ok by ulia. cbn [obind]. rewrite usz_add_ok by ulia. done.
Qed.

(** A request a [usize] can round up is served by the smallest order that
    holds it, and refused exactly when it exceeds the arena. *)
Lemma order_for_request_ok bd len :
  buddy_geo bd → 0 < len ≤ 2 ^ 63 →
  match order_for_request bd len with
  | Ret None => bd_total_size bd < len
  | Ret (Some t) =>
      0 ≤ t ≤ bd_max_order bd ∧ len ≤ 2 ^ (bd_unit_log bd + t) ∧
      (0 < t → 2 ^ (bd_unit_log bd + (t - 1)) < len)
  | _ => False
  end.
Proof.
  intros Hg Hlen. unfold order_for_request, next_power_of_two. rewrite (bg_min _ Hg), (bg_total _ Hg).
  destruct Hg as [Hlog Hmin Hmo Hbound _ _]. set (k := bd_unit_log bd) in *. clearbody k.
  destruct (ceil_pow2_spec (Z.max len (2 ^ k))) as (j & Hj & -> & Hle & Hleast).
  assert (Hj63 : j ≤ 63) by (apply Hleast; [lia|]; pose proof (pow2_mono k 63 ltac:(lia)); lia).
  assert (Hkj : k ≤ j) by (apply Z.nlt_ge; intros Hx; pose proof (pow2_lt_mono j k ltac:(lia)); lia).
  rewrite overflowing_ok by (apply pow2_is_usize; lia). cbn [obind].
  destruct (Z.ltb_spec (2 ^ (k + bd_max_order bd)) (2 ^ j)) as [Hlt|Hge].
  - apply Z.nle_gt. intros Hfit. assert (j ≤ k + bd_max_order bd); [|pose proof (pow2_mono j (k + bd_max_order bd) ltac:(lia)); lia].
    apply Hleast; [lia|]. pose proof (pow2_mono k (k + bd_max_order bd) ltac:(lia)). lia.
  - rewrite !trailing_zeros_pow2 by lia. rewrite usz_sub_ok by ulia. cbn [obind].
    assert (j ≤ k + bd_max_order bd) by (apply Z.nlt_ge; intros Hx; pose proof (pow2_lt_mono (k + bd_max_order bd) j ltac:(lia)); lia).
    replace (k + (j - k)) with j by lia. split_and!; [lia|lia|lia|].
    intros Ht. apply Z.nle_gt. intros Hfit.
    assert (j ≤ k + (j - k - 1)); [|lia]. apply Hleast; [lia|].
    pose proof (pow2_mono k (k + (j - k - 1)) ltac:(lia)). lia.
Qed.
End sizes.
