(* ===== verification/BuddyArena.v ===== *)
(** * Invariant of the buddy arena and its operations

    [buddy_inv] adds to the representation invariant of [BuddyCore] the scrub
    record of [InitPolicy::Zero] and the counters. *)

From stdpp Require Import prelude numbers list gmap.
From S2P Require Import Prelude Usize Errors Bitmap BitmapRange SlotSpec Metrics Memory Config.
From S2P Require Import Buffer BuddyTiling Buddy BuddyCore.
Local Open Scope Z_scope.

Definition unit_addr (bd : BuddyArenaInner) (u : Z) : Z := bd_ptr bd + u * bd_min_block_size bd.

(** No outstanding block meets block [b]. *)
Definition region_free (A : list block) (b : block) : Prop :=
  ∀ u b', spans b u → b' ∈ A → ¬ spans b' u.

(** A unit outside every outstanding block that is marked scrubbed is zero. *)
Definition buddy_zeroed (bd : BuddyArenaInner) (w : World) (A : list block) : Prop :=
  match bd_init_policy bd, bd_zeroed_bitmap bd with
  | Uninit, None => True
  | Zero, Some z =>
      bitmap_wf z ∧ slot_count z = 2 ^ bd_max_order bd ∧
      ∀ u, 0 ≤ u < 2 ^ bd_max_order bd → (∀ b, b ∈ A → ¬ spans b u) → bit z u = true →
        all_zero (w_mem w) (unit_addr bd u) (bd_min_block_size bd)
  | _, _ => False
  end.

(** [A] lists the blocks handed out and not yet released. *)
Record buddy_inv (bd : BuddyArenaInner) (w : World) (A : list block) : Prop := {
  bi_core : ∃ F, buddy_core bd F A;
  bi_zeroed : buddy_zeroed bd w A;
  bi_metrics : metrics_ok (bd_metrics bd) (Z.of_nat (length A)) (units A * bd_min_block_size bd);
  bi_reserved : bytes_reserved (bd_metrics bd) = bd_total_size bd;
}.

(** What the operations leave alone. *)
Definition bd_same (bd bd' : BuddyArenaInner) : Prop :=
  ∃ bms ne mt z, bd' = bd_set bd bms ne mt z.

#[export] Instance bd_same_preorder : PreOrder bd_same.
Proof.
  split.
  - intros bd. exists (bd_free_bitmaps bd), (bd_nonempty_orders bd), (bd_metrics bd), (bd_zeroed_bitmap bd).
    by destruct bd.
  - intros bd1 bd2 bd3 (b & n & t & z & ->) (b' & n' & t' & z' & ->). by exists b', n', t', z'.
Qed.

Lemma upd_same bd bd' : bd_upd bd bd' → bd_same bd bd'.
Proof. intros (b & n & t & -> & _). by do 4 eexists. Qed.

Lemma bi_geo bd w A : buddy_inv bd w A → buddy_geo bd.
Proof. intros [[F Hco] _ _ _]. apply Hco. Qed.

Lemma min_block_pos bd : buddy_geo bd → 0 < bd_min_block_size bd.
Proof. intros Hg. rewrite (bg_min _ Hg). destruct Hg. lia. Qed.

(** ** Units and blocks in memory *)

Lemma unit_in_block bd o i u :
  buddy_geo bd → 0 ≤ o → spans (o, i) u →
  block_addr bd (o, i) ≤ unit_addr bd u ∧
  unit_addr bd u + bd_min_block_size bd ≤ block_addr bd (o, i) + block_len bd (o, i).
Proof.
  intros Hg Ho Hs%spans_iff; [|done]. pose proof (min_block_pos bd Hg).
  unfold block_addr, unit_addr. rewrite block_len_units by done. simpl. nia.
Qed.

Lemma unit_outside_block bd o i u :
  buddy_geo bd → 0 ≤ o → ¬ spans (o, i) u →
  disjoint_ranges (block_addr bd (o, i)) (block_len bd (o, i)) (unit_addr bd u) (bd_min_block_size bd).
Proof.
  intros Hg Ho Hs. rewrite spans_iff in Hs by done. pose proof (min_block_pos bd Hg).
  unfold disjoint_ranges, block_addr, unit_addr. rewrite block_len_units by done. simpl.
  assert (u < i * 2 ^ o ∨ (i + 1) * 2 ^ o ≤ u) by lia. nia.
Qed.

(** A block all of whose units are zero is zero. *)
Lemma block_zero bd m o i :
  buddy_geo bd → 0 ≤ o →
  (∀ u, spans (o, i) u → all_zero m (unit_addr bd u) (bd_min_block_size bd)) →
  all_zero m (block_addr bd (o, i)) (block_len bd (o, i)).
Proof.
  intros Hg Ho Hz x Hx. pose proof (min_block_pos bd Hg) as Hp.
  pose proof (Z.mul_div_le (x - bd_ptr bd) _ Hp). pose proof (Z.mul_succ_div_gt (x - bd_ptr bd) _ Hp).
  set (u := (x - bd_ptr bd) / bd_min_block_size bd) in *. clearbody u.
  unfold block_addr in Hx. rewrite block_len_units in Hx by done. simpl in Hx.
  apply (Hz u); [|unfold unit_addr; lia]. apply spans_iff; [done|]. nia.
Qed.

Section operations.
Context {P : Profile}.

(** The scrub record survives a claim that only wrote inside the block. *)
Lemma zeroed_claim bd bd' w w' A o i :
  buddy_geo bd → 0 ≤ o → bd_same bd bd' → bd_zeroed_bitmap bd' = bd_zeroed_bitmap bd →
  buddy_zeroed bd w A → same_outside w w' (block_addr bd (o, i)) (block_len bd (o, i)) →
  buddy_zeroed bd' w' ((o, i) :: A).
Proof.
  intros Hg Ho (b & n & t & z & ->) Hz Hzk Hso. simpl in Hz. subst z. unfold buddy_zeroed in *. simpl.
  destruct (bd_init_policy bd), (bd_zeroed_bitmap bd) as [z|]; try done.
  destruct Hzk as (? & ? & Hzk). split_and!; [done..|]. intros u Hu Hout Hbit.
  change (unit_addr (bd_set _ _ _ _ _) u) with (unit_addr bd u).
  eapply same_outside_all_zero; [exact Hso| |apply Hzk; [done| |done]].
  - apply unit_outside_block; [done..|]. apply Hout. by left.
  - intros b' Hb'. apply Hout. by right.
Qed.

Lemma buddy_zero_cold_ok bd F w A o i :
  buddy_core bd F ((o, i) :: A) → buddy_zeroed bd w A →
  ∃ w', buddy_zero_cold bd w o i (i * 2 ^ (bd_unit_log bd + o)) (2 ^ (bd_unit_log bd + o)) = Ret w' ∧
    w_wakes w' = w_wakes w ∧ same_outside w w' (block_addr bd (o, i)) (block_len bd (o, i)) ∧
    (bd_init_policy bd = Zero → all_zero (w_mem w') (block_addr bd (o, i)) (block_len bd (o, i))).
Proof.
  intros Hco Hz. pose proof (core_range_out _ _ _ (o, i) Hco ltac:(by left)) as Hin.
  pose proof (co_geo _ _ _ Hco) as Hg. pose proof Hg as [Hlog _ _ Hbound _ _].
  unfold buddy_zero_cold, buddy_zeroed in *.
  destruct (bd_init_policy bd), (bd_zeroed_bitmap bd) as [z|]; try done; [by exists w|].
  destruct Hz as (Hwf & Hc & Hz).
  rewrite (order0_range_ok (bd_max_order bd)) by (done || lia). cbn [obind].
  pose proof Hin as [Ho Hi]. simpl in Ho, Hi. assert (0 < 2 ^ o) by lia.
  assert (Hle : i * 2 ^ o + 2 ^ o ≤ 2 ^ bd_max_order bd).
  { pose proof (in_arena_units (bd_max_order bd) o i (i * 2 ^ o + 2 ^ o - 1) Hin) as Hu.
    enough (0 ≤ i * 2 ^ o + 2 ^ o - 1 < 2 ^ bd_max_order bd) by lia. apply Hu, spans_iff; lia. }
  destruct (all_set_in_range_ok z (i * 2 ^ o) (i * 2 ^ o + 2 ^ o) Hwf) as (b & -> & Hb); [nia|lia|].
  cbn [obind]. destruct b; cbn [negb]; eexists; (split; [reflexivity|]); split_and!; try done.
  - intros _. apply block_zero; [done|lia|]. intros u Hs. apply Hz.
    + by eapply in_arena_units.
    + intros b' Hb' Hs'. pose proof (t_nodup _ _ _ (co_tiling _ _ _ Hco)) as Hnd.
      apply NoDup_cons in Hnd as [Hnd _]. apply Hnd.
      rewrite (ti_disj _ _ (t_tiles _ _ _ (co_tiling _ _ _ Hco)) (o, i) b' u); try done;
        right; [by left|by right].
    + apply Hb; [done|]. apply spans_iff in Hs; lia.
  - apply same_outside_zeroize.
  - intros _. apply zeroize_all_zero.
Qed.

(** What a successful claim of [(o, i)] for [len] bytes leaves. *)
Record buddy_granted (bd : BuddyArenaInner) (w : World) (A : list block) (len o i off cap : Z)
    (bd' : BuddyArenaInner) (w' : World) : Prop := {
  gr_arena : in_arena (bd_max_order bd) (o, i);
  gr_fresh : region_free A (o, i);
  gr_inv : buddy_inv bd' w' ((o, i) :: A);
  gr_same : bd_same bd bd';
  gr_offset : bd_ptr bd + off = block_addr bd (o, i);
  gr_cap : cap = (if bd_cap_capacity bd then len else block_len bd (o, i));
  gr_fits : len ≤ block_len bd (o, i);
  gr_least : 0 < o → block_len bd (o - 1, i) < len;
  gr_frame : same_outside w w' (block_addr bd (o, i)) (block_len bd (o, i));
  gr_wakes : w_wakes w' = w_wakes w;
  gr_zero : bd_init_policy bd = Zero →
    all_zero (w_mem w') (block_addr bd (o, i)) (block_len bd (o, i));
}.

Lemma inv_failure bd bd' F w A :
  buddy_inv bd w A → bd_upd bd bd' → buddy_core bd' F A →
  buddy_inv (bd_set_metrics bd' (record_alloc_failure (bd_metrics bd'))) w A.
Proof.
  intros [_ Hz Hm Hr] (b & n & t & -> & Hl & Ha & Hf & Hrs) Hco. split; simpl.
  - exists F. by destruct Hco as [[] ? ? ?].
  - done.
  - by eapply metrics_ok_same.
  - by rewrite Hrs.
Qed.

(** The failure of a full scan: no free region large enough is left. *)
Lemma full_no_region bd F A len t :
  buddy_core bd F A → 0 ≤ t → (0 < t → 2 ^ (bd_unit_log bd + (t - 1)) < len) →
  (∀ o j, o ∈ seqZ t (bd_max_order bd - t + 1) → (o, j) ∉ F) →
  ∀ b, in_arena (bd_max_order bd) b → len ≤ block_len bd b → ¬ region_free A b.
Proof.
  intros Hco Ht Hleast Hnone [t' i] Hin Hlen Hfree. pose proof Hin as [Ht' _]. simpl in Ht'.
  unfold block_len in Hlen. simpl in Hlen. pose proof (bg_log _ (co_geo _ _ _ Hco)).
  assert (t ≤ t').
  { apply Z.nlt_ge. intros Hlt. pose proof (Hleast ltac:(lia)).
    pose proof (pow2_mono (bd_unit_log bd + t') (bd_unit_log bd + (t - 1)) ltac:(lia)). lia. }
  destruct (region_in_free_block _ _ _ (co_tiling _ _ _ Hco) t' i Hin Hfree) as (o & j & HF & Ho & _).
  destruct (core_range _ _ _ _ Hco HF) as [Hom _]. simpl in Hom.
  eapply Hnone; [|exact HF]. apply elem_of_seqZ. lia.
Qed.

Lemma disjoint_region bd F A b : buddy_core bd F (b :: A) → region_free A b.
Proof.
  intros Hco u b' Hs Hb' Hs'. pose proof (t_nodup _ _ _ (co_tiling _ _ _ Hco)) as Hnd.
  apply NoDup_cons in Hnd as [Hnd _]. apply Hnd.
  rewrite (ti_disj _ _ (t_tiles _ _ _ (co_tiling _ _ _ Hco)) b b' u); try done;
    right; [by left|by right].
Qed.

Lemma units_bytes bd F A :
  buddy_core bd F A → units A * bd_min_block_size bd ≤ usize_MAX.
Proof.
  intros [Hg _ _ Ht]. pose proof (units_le _ _ _ Ht). rewrite (bg_min _ Hg). destruct Hg.
  pose proof (pow2_mono (bd_max_order bd + bd_unit_log bd) 63 ltac:(lia)) as Hp.
  rewrite Z.pow_add_r in Hp by lia. assert (0 < 2 ^ bd_unit_log bd) by lia.
  assert (units A * 2 ^ bd_unit_log bd ≤ 2 ^ bd_max_order bd * 2 ^ bd_unit_log bd) by nia. ulia.
Qed.

(** From the claimed block to the caller: split, zero, count. *)
Lemma grant_ok bd bd1 F w A len o i t :
  buddy_inv bd w A → bd_upd bd bd1 → buddy_core bd1 F ((o, i) :: A) → 0 ≤ t ≤ o →
  len ≤ 2 ^ (bd_unit_log bd + t) → (0 < t → 2 ^ (bd_unit_log bd + (t - 1)) < len) →
  match
    (let! (final_order, final_block_idx, bd) := split_down bd1 o i t in
     let! size := block_size bd final_order in
     let! offset := block_offset bd final_order final_block_idx in
     let! w := buddy_zero_cold bd w final_order final_block_idx offset size in
     let bd := bd_set_metrics bd (record_alloc_success (bd_metrics bd) size) in
     let user_capacity := if bd_cap_capacity bd then Z.min len size else size in
     Ret (Ok (final_order, final_block_idx, offset, user_capacity) : result AllocError _, bd, w))
  with
  | Ret (Ok (o', i', off, cap), bd', w') => o' = t ∧ buddy_granted bd w A len o' i' off cap bd' w'
  | _ => False
  end.
Proof.
  intros Hinv Hup Hco Ht Hlen Hleast.
  destruct (split_down_ok bd1 F A o i t Hco Ht) as (F' & bd2 & -> & Hup2 & Hco2 & _). cbn [obind].
  assert (Hup' : bd_upd bd bd2) by (by etrans). clear Hup Hup2 Hco bd1 F.
  set (j := i * 2 ^ (o - t)) in *. clearbody j.
  pose proof (core_range_out _ _ _ (t, j) Hco2 ltac:(by left)) as Hin.
  pose proof (co_geo _ _ _ Hco2) as Hg2. pose proof (bi_geo _ _ _ Hinv) as Hg.
  rewrite block_size_ok by (done || apply Hin). cbn [obind].
  rewrite block_offset_ok by done. cbn [obind].
  assert (Hz2 : buddy_zeroed bd2 w A).
  { destruct Hup' as (? & ? & ? & -> & _). apply (bi_zeroed _ _ _ Hinv). }
  destruct (buddy_zero_cold_ok bd2 F' w A t j Hco2 Hz2) as (w' & -> & Hw & Hso & Hz). cbn [obind].
  destruct Hup' as (bms & ne & mt & -> & Hl & Ha & Hf & Hrs). simpl in *.
  change (bd_unit_log (bd_set _ _ _ _ _)) with (bd_unit_log bd) in *. split; [done|]. split; try done.
  - by eapply disjoint_region.
  - pose proof (units_bytes _ _ _ Hco2) as Hu. cbn [units fst bd_min_block_size bd_set] in Hu.
    pose proof (units_nonneg A). destruct Hin as [Hto _]. simpl in Hto.
    assert (Hbl := block_len_units bd (t, j) Hg ltac:(simpl; lia)). unfold block_len in Hbl. simpl in Hbl.
    pose proof (min_block_pos bd Hg). split; simpl.
    + exists F'. by destruct Hco2 as [[] ? ? ?].
    + eapply (zeroed_claim bd _ w w'); [done|lia|by do 4 eexists|done|apply (bi_zeroed _ _ _ Hinv)|done].
    + replace (Z.of_nat (S (length A))) with (Z.of_nat (length A) + 1) by lia.
      rewrite Z.mul_add_distr_r, (Z.add_comm (2 ^ t * _)), Hbl.
      apply record_alloc_success_ok; [|nia|lia].
      eapply metrics_ok_same; [apply Hinv|done..].
    + rewrite Hrs. apply Hinv.
  - by do 4 eexists.
  - unfold block_len. simpl. destruct (bd_cap_capacity bd); lia.
Qed.

Lemma buddy_claim_ok bd w A len :
  buddy_inv bd w A → 0 < len ≤ 2 ^ 63 →
  match buddy_claim bd w len with
  | Ret (Ok (o, i, off, cap), bd', w') => buddy_granted bd w A len o i off cap bd' w'
  | Ret (Err RequestTooLarge, bd', w') =>
      bd_total_size bd < len ∧ w' = w ∧ buddy_inv bd' w A ∧ bd_same bd bd'
  | Ret (Err ArenaFull, bd', w') =>
      w' = w ∧ buddy_inv bd' w A ∧ bd_same bd bd' ∧
      ∀ b, in_arena (bd_max_order bd) b → len ≤ block_len bd b → ¬ region_free A b
  | _ => False
  end.
Proof.
  intros Hinv Hlen. pose proof (bi_geo _ _ _ Hinv) as Hg. destruct (bi_core _ _ _ Hinv) as [F Hco].
  unfold buddy_claim. pose proof (order_for_request_ok bd len Hg Hlen) as Hreq.
  destruct (order_for_request bd len) as [[t|]| |]; cbn [obind]; [|..|done|done].
  2: { split_and!; [done|done| |by do 4 eexists]. by eapply inv_failure. }
  destruct Hreq as (Ht & Hfit & Hleast).
  assert (Hord : Forall (λ o, 0 ≤ o ≤ bd_max_order bd) (seqZ t (bd_max_order bd - t + 1)))
    by (apply Forall_seqZ; lia).
  (* a block found by either scan leads to the grant *)
  assert (Hfound : ∀ bd1 o i, bd_upd bd bd1 → buddy_core bd1 (F ∖ {[(o, i)]}) ((o, i) :: A) →
    o ∈ seqZ t (bd_max_order bd - t + 1) → 0 ≤ t ≤ o) by (intros ???? _ ?%elem_of_seqZ; lia).
  assert (Hmem : ∀ o pre post, seqZ t (bd_max_order bd - t + 1) = pre ++ (o :: post) →
    o ∈ seqZ t (bd_max_order bd - t + 1)) by (intros o pre post ->; set_solver).
  unfold try_allocate_from_summary, try_allocate_from_full_scan, try_allocate_from_orders.
  pose proof (try_orders_ok bd F A (Some (bd_nonempty_orders bd)) _ Hco Hord
    ltac:(intros bits [= <-]; apply Hco)) as Hsc.
  destruct (try_orders bd (Some _) _) as [[[[o i]|] bd1]| |]; cbn [scan_result obind] in *; try done.
  - destruct Hsc as ((pre & post & Hpp & _) & _ & Hup & _ & Hco1).
    pose proof (grant_ok bd bd1 _ w A len o i t Hinv Hup Hco1 (Hfound _ _ _ Hup Hco1 (Hmem _ _ _ Hpp)) Hfit Hleast) as Hgr.
    destruct (obind _ _) as [[[[e|[[[o' i'] off] cap]] bd'] w']| |]; try done. by destruct Hgr as [_ Hgr].
  - destruct Hsc as (_ & Hup1 & _ & Hco1).
    assert (Hmo : bd_max_order bd1 = bd_max_order bd) by (by destruct Hup1 as (? & ? & ? & -> & _)).
    rewrite Hmo. pose proof (try_orders_ok bd1 F A None (seqZ t (bd_max_order bd - t + 1)) Hco1) as Hsc.
    rewrite Hmo in Hsc. specialize (Hsc Hord ltac:(done)).
    destruct (try_orders bd1 None _) as [[[[o i]|] bd2]| |]; cbn [scan_result obind] in *; try done.
    + destruct Hsc as ((pre & post & Hpp & _) & _ & Hup2 & _ & Hco2).
      assert (Hup : bd_upd bd bd2) by (by etrans).
      pose proof (grant_ok bd bd2 _ w A len o i t Hinv Hup Hco2 (Hfound _ _ _ Hup Hco2 (Hmem _ _ _ Hpp)) Hfit Hleast) as Hgr.
      destruct (obind _ _) as [[[[e|[[[o' i'] off] cap]] bd'] w']| |]; try done. by destruct Hgr as [_ Hgr].
    + destruct Hsc as (Hnone & Hup2 & _ & Hco2). assert (Hup : bd_upd bd bd2) by (by etrans).
      split_and!; [done|by eapply inv_failure| |].
      * etrans; [by apply upd_same|]. by do 4 eexists.
      * apply (full_no_region bd F A len t); [done|lia|done|done].
Qed.

(** ** Release *)

Lemma buddy_zeroed_release bd w A o i z z' :
  buddy_geo bd → 0 ≤ o → bd_init_policy bd = Zero → bd_zeroed_bitmap bd = Some z →
  buddy_zeroed bd w ((o, i) :: A) →
  bits_are z z' (λ s, bit z s || bool_decide (i * 2 ^ o ≤ s < i * 2 ^ o + 2 ^ o)) →
  buddy_zeroed (bd_set_zeroed bd (Some z'))
    (set_mem w (zeroize_region (w_mem w) (block_addr bd (o, i)) (block_len bd (o, i)))) A.
Proof.
  intros Hg Ho Hp Hz Hzk (Hwf' & Hc' & Hb'). unfold buddy_zeroed in *. simpl. rewrite Hp, Hz in *.
  destruct Hzk as (Hwf & Hc & Hzk). split_and!; [done|congruence|]. intros u Hu Hout Hbit.
  change (unit_addr (bd_set_zeroed _ _) u) with (unit_addr bd u).
  destruct (decide (u / 2 ^ o = i)) as [Hs|Hs].
  - destruct (unit_in_block bd o i u Hg Ho Hs). eapply all_zero_sub; [apply zeroize_all_zero|done..].
  - apply zeroize_mono. apply Hzk; [done| |].
    + intros b [->|Hb]%elem_of_cons; [exact Hs|by apply Hout].
    + rewrite Hb' in Hbit by lia. apply orb_true_iff in Hbit as [|Hr%bool_decide_eq_true]; [done|].
      destruct Hs. apply spans_iff; lia.
Qed.

Lemma scrub_block_ok bd F w A o i :
  buddy_core bd F ((o, i) :: A) → buddy_zeroed bd w ((o, i) :: A) →
  ∃ bd' w', scrub_block bd w o i = Ret (bd', w') ∧
    (∃ z, bd' = bd_set_zeroed bd z) ∧ buddy_zeroed bd' w' A ∧
    same_outside w w' (block_addr bd (o, i)) (block_len bd (o, i)) ∧ w_wakes w' = w_wakes w ∧
    (bd_init_policy bd = Zero → all_zero (w_mem w') (block_addr bd (o, i)) (block_len bd (o, i))).
Proof.
  intros Hco Hz. pose proof (core_range_out _ _ _ (o, i) Hco ltac:(by left)) as Hin.
  pose proof (co_geo _ _ _ Hco) as Hg. pose proof Hg as [Hlog _ _ Hbound _ _].
  pose proof Hin as [Ho Hi]. simpl in Ho, Hi. unfold scrub_block.
  destruct (bd_init_policy bd) eqn:Ep, (bd_zeroed_bitmap bd) as [z|] eqn:Ez;
    try (unfold buddy_zeroed in Hz; rewrite Ep, Ez in Hz; done).
  - exists bd, w. split; [done|]. split_and!; try done; [by exists (bd_zeroed_bitmap bd); destruct bd|].
    unfold buddy_zeroed. by rewrite Ep, Ez.
  - rewrite block_size_ok by done. cbn [obind]. rewrite block_offset_usize by done. cbn [obind].
    rewrite (order0_range_ok (bd_max_order bd)) by (done || lia). cbn [obind].
    assert (Hzk := Hz). unfold buddy_zeroed in Hzk. rewrite Ep, Ez in Hzk. destruct Hzk as (Hwf & Hc & _).
    assert (0 < 2 ^ o) by lia.
    assert (Hle : i * 2 ^ o + 2 ^ o ≤ 2 ^ bd_max_order bd).
    { pose proof (in_arena_units (bd_max_order bd) o i (i * 2 ^ o + 2 ^ o - 1) Hin) as Hu.
      enough (0 ≤ i * 2 ^ o + 2 ^ o - 1 < 2 ^ bd_max_order bd) by lia. apply Hu, spans_iff; lia. }
    destruct (set_range_ok z (i * 2 ^ o) (i * 2 ^ o + 2 ^ o) Hwf) as (z' & -> & Hbits); [nia|lia|].
    cbn [obind]. do 2 eexists. split; [reflexivity|].
    change (bd_ptr bd + i * 2 ^ (bd_unit_log bd + o)) with (block_addr bd (o, i)).
    change (2 ^ (bd_unit_log bd + o)) with (block_len bd (o, i)).
    split_and!; [by eexists|by eapply buddy_zeroed_release; try done; lia|apply same_outside_zeroize|done|].
    intros _. apply zeroize_all_zero.
Qed.

Lemma core_set bd F A mt z : buddy_core bd F A →
  buddy_core (bd_set bd (bd_free_bitmaps bd) (bd_nonempty_orders bd) mt z) F A.
Proof. by intros [[] ? ? ?]. Qed.

Lemma buddy_release_ok bd w A o i :
  buddy_inv bd w ((o, i) :: A) →
  ∃ bd' w' o', buddy_release bd w o i = Ret (bd', w') ∧ buddy_inv bd' w' A ∧ bd_same bd bd' ∧
    o ≤ o' ≤ bd_max_order bd ∧
    same_outside w w' (block_addr bd (o, i)) (block_len bd (o, i)) ∧
    w_wakes w' = w_wakes w ++ (if bd_wake_handle bd then [WakeBuddy o'] else []) ∧
    (bd_init_policy bd = Zero → all_zero (w_mem w') (block_addr bd (o, i)) (block_len bd (o, i))) ∧
    ∃ F, buddy_core bd' F A ∧ (o', i / 2 ^ (o' - o)) ∈ F.
Proof.
  intros Hinv. destruct (bi_core _ _ _ Hinv) as [F Hco]. pose proof (bi_geo _ _ _ Hinv) as Hg.
  pose proof (core_range_out _ _ _ (o, i) Hco ltac:(by left)) as [Ho _]. simpl in Ho.
  unfold buddy_release, release_block. rewrite block_size_ok by done. cbn [obind].
  set (mt := record_free _ _). set (bd1 := bd_set_metrics bd mt).
  assert (Hco1 : buddy_core bd1 F ((o, i) :: A)) by (by apply core_set).
  destruct (scrub_block_ok bd1 F w A o i Hco1 (bi_zeroed _ _ _ Hinv))
    as (bd2 & w1 & -> & [z ->] & Hz2 & Hso & Hw & Hzero). cbn [obind].
  destruct (coalesce_loop_ok ORDER_FUEL (bd_set_zeroed bd1 z) F A o i)
    as (F' & bd3 & o' & -> & Ho' & Hup & Hco3 & Hbud); [by apply core_set| |].
  { destruct Hg. unfold ORDER_FUEL. simpl. lia. }
  cbn [obind]. remember (i / 2 ^ (o' - o)) as i' eqn:Ei'.
  assert (Hmo : bd_max_order bd3 = bd_max_order bd) by (by destruct Hup as (? & ? & ? & -> & _)).
  pose proof Hco3 as [Hg3 Hb3 Hs3 Ht3].
  destruct (give_block_ok bd3 F' A o' i') as (bd4 & bd5 & -> & Hfree & Hup5 & Hmt5 & Hco5); try done.
  { apply (core_range_out _ _ _ (o', i') Hco3). by left. }
  { apply (t_sep _ _ _ Ht3). by left. }
  { apply tile_release; [done|]. rewrite Hmo. exact Hbud. }
  cbn [obind]. rewrite Hfree. cbn [obind]. simpl in Ho'.
  assert (Hup' : bd_upd (bd_set_zeroed bd1 z) bd5) by (by etrans).
  destruct Hup' as (bms & ne & mt' & -> & Hl & Ha & Hf & Hr). exists (bd_set bd bms ne mt' z).
  simpl. eexists. exists o'. split; [reflexivity|]. split_and!; try lia.
  - split; [by eexists|by destruct (bd_wake_handle bd)| |].
    + simpl. pose proof (bi_metrics _ _ _ Hinv) as Hm. simpl in Hm.
      pose proof (units_nonneg A). pose proof (min_block_pos bd Hg).
      assert (Hbl := block_len_units bd (o, i) Hg ltac:(simpl; lia)). unfold block_len in Hbl. simpl in Hbl.
      eapply metrics_ok_same; [|exact Hl|exact Ha|exact Hf]. subst mt. simpl. rewrite Hbl.
      replace (units A * bd_min_block_size bd) with
        ((2 ^ o + units A) * bd_min_block_size bd - 2 ^ o * bd_min_block_size bd) by lia.
      replace (Z.of_nat (length A)) with (Z.of_nat (S (length A)) - 1) by lia.
      apply record_free_ok; [done|]. assert (0 < 2 ^ o) by lia. nia.
    + simpl. rewrite Hr. apply Hinv.
  - by do 4 eexists.
  - by destruct (bd_wake_handle bd).
  - destruct (bd_wake_handle bd); simpl; by rewrite ?app_nil_r, Hw.
  - intros Hp. specialize (Hzero Hp). by destruct (bd_wake_handle bd).
  - eexists. split; [exact Hco5|]. rewrite <- Ei'. by apply elem_of_union_l, elem_of_singleton.
Qed.

(** ** Framing *)

Lemma buddy_inv_perm bd w A A' : A ≡ₚ A' → buddy_inv bd w A → buddy_inv bd w A'.
Proof.
  intros Hp [[F [Hg Hb Hs Ht]] Hz Hm Hr].
  assert (Hel : ∀ b, b ∈ A ↔ b ∈ A') by (intros b; by rewrite Hp).
  split; [|..|done].
  - exists F. split; [done..|]. destruct Ht as [Ht Hnd Hsep Hbd]. split; [| | |done].
    + eapply tiles_proper; [|exact Ht]. intros b. unfold live. by rewrite Hel.
    + by rewrite <- Hp.
    + intros b Hb'%Hel. by apply Hsep.
  - unfold buddy_zeroed in *. destruct (bd_init_policy bd), (bd_zeroed_bitmap bd); try done.
    destruct Hz as (? & ? & Hz). split_and!; [done..|]. intros u Hu Hout. apply Hz; [done|].
    intros b Hb'%Hel. by apply Hout.
  - by rewrite <- Hp.
Qed.

(** Writing inside an outstanding block disturbs nothing. *)
Lemma buddy_inv_write bd w w' A b :
  buddy_inv bd w A → b ∈ A → same_outside w w' (block_addr bd b) (block_len bd b) → buddy_inv bd w' A.
Proof.
  intros Hinv Hb Hso. destruct (bi_core _ _ _ Hinv) as [F Hco]. destruct Hinv as [_ Hz Hm Hr].
  split; [by exists F| |done|done]. unfold buddy_zeroed in *.
  destruct (bd_init_policy bd), (bd_zeroed_bitmap bd); try done.
  destruct Hz as (? & ? & Hz). split_and!; [done..|]. intros u Hu Hout Hbit. destruct b as [o i].
  eapply same_outside_all_zero; [done| |by apply Hz]. apply unit_outside_block; [apply Hco| |by apply Hout].
  by destruct (core_range_out _ _ _ _ Hco Hb) as [[? _] _].
Qed.

Lemma buddy_inv_metrics bd w A m :
  buddy_inv bd w A → metrics_same (bd_metrics bd) m → buddy_inv (bd_set_metrics bd m) w A.
Proof.
  intros [[F Hco] Hz Hm Hr] (? & ? & ? & Hrs). split.
  - exists F. by apply core_set.
  - done.
  - by eapply metrics_ok_same.
  - simpl. by rewrite Hrs.
Qed.

(** ** The largest free block *)

Lemma largest_free_scan_ok bd F A orders :
  buddy_core bd F A → Forall (λ o, 0 ≤ o ≤ bd_max_order bd) orders →
  ∃ n, largest_free_scan bd orders = Ret n ∧
    ((n = 0 ∧ ∀ o i, o ∈ orders → (o, i) ∉ F) ∨
     (∃ o i pre post, n = 2 ^ (bd_unit_log bd + o) ∧ (o, i) ∈ F ∧ orders = pre ++ (o :: post) ∧
        ∀ o' j, o' ∈ pre → (o', j) ∉ F)).
Proof.
  intros Hco Hord. induction Hord as [|o orders Ho _ IH].
  { exists 0. split; [done|]. left. split; [done|]. by intros o i ?%not_elem_of_nil. }
  destruct (bitmaps_lookup _ _ _ o (co_bitmaps _ _ _ Hco) Ho) as (bm & Hix & Hwf & Hc & Hb).
  destruct (any_free_ok bm Hwf) as (any & Hany & Hiff). cbn [largest_free_scan].
  rewrite Hix. cbn [obind]. rewrite Hany. cbn [obind]. destruct any.
  - rewrite block_size_ok by (done || apply Hco). eexists. split; [done|]. right.
    destruct (proj1 Hiff eq_refl) as (i & Hi & Hbit). exists o, i, [], orders.
    split_and!; [done|apply Hb; [lia|done]|done|by intros ? ? ?%not_elem_of_nil].
  - assert (Hno : ∀ j, (o, j) ∉ F).
    { intros j Hj. destruct (core_range _ _ _ _ Hco Hj) as [_ Hjr]. simpl in Hjr.
      assert (false = true); [|done]. apply Hiff. exists j. rewrite Hc. split; [done|].
      by apply Hb; [lia|]. }
    destruct IH as (n & -> & [[-> Hn]|(o1 & i & pre & post & -> & Hin & -> & Hpre)]); eexists;
      (split; [done|]); [left; split; [done|]|right; exists o1, i, (o :: pre), post; split_and!; try done];
      intros o' j [->|Hx]%elem_of_cons; eauto.
Qed.
End operations.
