(* ===== verification/BuddyProps.v ===== *)
(** * Properties of the buddy arena

    The builders establish the invariant of [BuddyArena], allocation and
    release keep it, and what a caller gets from them follows. *)

From stdpp Require Import prelude numbers list gmap.
From S2P Require Import Prelude Usize Errors Bitmap BitmapRange Geometry SlotSpec Metrics.
From S2P Require Import Memory Config Buffer FixedArena FixedProps BuddyTiling Buddy BuddyCore.
From S2P Require Import BuddyArena.
Local Open Scope Z_scope.

Section builders.
Context {P : Profile}.

Lemma blocks_at_order_ok m o : 0 ≤ o ≤ m → m < 63 → blocks_at_order m o = Ret (2 ^ (m - o)).
Proof.
  intros Ho Hm. unfold blocks_at_order. rewrite usz_sub_ok by ulia. cbn [obind]. apply usz_shl_1. lia.
Qed.

Lemma new_free_bitmaps_ok m :
  0 ≤ m < 63 → ∃ bms, new_free_bitmaps m = Ret bms ∧ bitmaps_hold m bms {[(m, 0)]}.
Proof.
  intros Hm. unfold new_free_bitmaps.
  destruct (omapM_Forall2 (λ order, let! block_count := blocks_at_order m order in
      bitmap_new_empty block_count) (bitmap_of m ∅) (seqZ 0 (m + 1))) as (bms & -> & Hall).
  { intros o Ho%elem_of_seqZ. rewrite blocks_at_order_ok by lia. cbn [obind].
    destruct (bitmap_new_empty_ok (2 ^ (m - o))) as (bm & Hbm & Hwf & Hc & Hb).
    { apply pow2_is_usize. lia. }
    exists bm. split; [done|]. split_and!; [done..|]. intros i Hi. rewrite Hb by done. set_solver. }
  cbn [obind]. assert (Hhold : bitmaps_hold m bms ∅).
  { split; [rewrite <- (Forall2_length _ _ _ Hall), length_seqZ; lia|].
    intros o Ho. destruct (lookup_Z_lt_is_Some bms o) as [bm Hbm].
    { rewrite <- (Forall2_length _ _ _ Hall), length_seqZ. lia. }
    exists bm. split; [done|]. eapply (Forall2_lookup_lr _ _ _ (Z.to_nat o)); [exact Hall| |exact Hbm].
    apply lookup_seqZ. lia. }
  destruct (bitmaps_lookup m bms ∅ m Hhold) as (bm & Hix & Hwf & Hc & Hb); [lia|].
  rewrite Hix. cbn [obind]. rewrite Z.sub_diag in Hc.
  destruct (bitmap_free_ok bm 0 Hwf) as (bm' & -> & Hwf' & Hc' & Hb').
  { rewrite Hc. done. }
  { apply not_true_is_false. rewrite Hb by done. set_solver. }
  cbn [obind]. eexists. split; [done|]. apply (bitmaps_update _ _ ∅); [done|lia| |set_solver].
  split_and!; [done|by rewrite Hc', Hc, Z.sub_diag|]. intros i Hi.
  rewrite Hb', orb_true_iff, bool_decide_eq_true, Hb by done. set_solver.
Qed.

(** A fresh arena over a region that can exist. *)
Lemma buddy_new_inv ptr dlen k m bms ne spill cap p z d wh w :
  0 ≤ k → 0 ≤ m → k + m < 63 → 0 < ptr ∧ ptr + 2 ^ (k + m) ≤ usize_MAX + 1 →
  new_free_bitmaps m = Ret bms → ne = 2 ^ m → new_zeroed_bitmap p (2 ^ m) = Ret z →
  buddy_inv (mkBuddyArenaInner ptr (2 ^ (k + m)) dlen (2 ^ k) m bms ne spill cap p
               (metrics_new (2 ^ (k + m))) z d wh) w [].
Proof.
  intros Hk Hm Hkm Hptr Hbms -> Hz. destruct (new_free_bitmaps_ok m) as (bms' & Hbms' & Hhold); [lia|].
  rewrite Hbms in Hbms'. simplify_eq. assert (Hlog : Z.log2 (2 ^ k) = k) by (by apply Z.log2_pow2).
  destruct (new_zeroed_bitmap_ok p (2 ^ m)) as (z' & Hz' & Hzk); [apply pow2_is_usize; lia|].
  rewrite Hz in Hz'. simplify_eq. split; simpl; [|..|done].
  - exists {[(m, 0)]}. split; simpl; [|done| |by apply tiling_init].
    + split; unfold bd_unit_log; simpl; rewrite ?Hlog; done || lia.
    + split; [apply pow2_is_usize; lia|]. intros o Ho. unfold summary_bit_ok.
      rewrite testbit_pow2, bool_decide_eq_true by lia. split.
      * intros ->. exists 0. set_solver.
      * intros [i [= -> ->]%elem_of_singleton]. done.
  - unfold buddy_zeroed. simpl. destruct p, z' as [z'|]; try done. destruct Hzk as (? & ? & Hzk).
    split_and!; [done..|]. intros u Hu _ Hb. rewrite Hzk in Hb by lia. done.
  - apply metrics_new_ok.
Qed.

(** The pieces every builder makes, once the geometry is known. *)
Lemma buddy_parts_ok p m :
  0 ≤ m < 63 →
  ∃ bms z, new_free_bitmaps m = Ret bms ∧ blocks_at_order m 0 = Ret (2 ^ m) ∧
    new_zeroed_bitmap p (2 ^ m) = Ret z ∧ usz_shl 1 m = Ret (2 ^ m).
Proof.
  intros Hm. destruct (new_free_bitmaps_ok m Hm) as (bms & ? & _).
  destruct (new_zeroed_bitmap_ok p (2 ^ m)) as (z & ? & _); [apply pow2_is_usize; lia|].
  exists bms, z. split_and!; [done| |done|apply usz_shl_1; lia].
  rewrite blocks_at_order_ok, Z.sub_0_r by lia. done.
Qed.
End builders.

(** What [build] hands back for a geometry. *)
Definition buddy_built {m} (b : BuddyArenaBuilder m) (waker : bool) (bd : BuddyArenaInner) : Prop :=
  let g := bb_geometry b in
  let c := bb_config b in
  (∀ w, buddy_inv bd w []) ∧ bd_total_size bd = total_size g ∧
  bd_min_block_size bd = min_block_size g ∧ bd_max_order bd = max_order g ∧
  (∀ blk, in_arena (max_order g) blk → (alignment g | block_addr bd blk)) ∧
  bd_auto_spill bd = bc_auto_spill c ∧ bd_cap_capacity bd = cap_capacity g ∧
  bd_init_policy bd = bc_init_policy c ∧
  bd_dealloc bd = HeapDealloc (total_size g) (alignment g) ∧ bd_wake_handle bd = waker.

Lemma block_aligned bd a b :
  buddy_geo bd → 0 ≤ a ≤ bd_unit_log bd → (2 ^ a | bd_ptr bd) → 0 ≤ b.1 → (2 ^ a | block_addr bd b).
Proof.
  intros Hg Ha Hp Hb. unfold block_addr, block_len. apply Z.divide_add_r; [done|].
  apply Z.divide_mul_r. exists (2 ^ (bd_unit_log bd + b.1 - a)). rewrite <- Z.pow_add_r by lia.
  f_equal. lia.
Qed.

Lemma build_raw_ok {P : Profile} {GA : GlobalAlloc} {GL : GlobalAllocLaws GA} {m}
    (b : BuddyArenaBuilder m) waker :
  geometry_valid (bb_geometry b) →
  match build_raw b waker with
  | Ret (Ok bd) => buddy_built b waker bd
  | Ret (Err e) =>
      e = SizeOverflow ∧ isize_MAX - (alignment (bb_geometry b) - 1) < total_size (bb_geometry b)
  | Panic => global_alloc (total_size (bb_geometry b)) (alignment (bb_geometry b)) = 0
  | OutOfFuel => False
  end.
Proof.
  intros (k & a & Hk & Ha & Hm & Hkm & Hmin & Htot & Hal). unfold build_raw, buddy_built.
  destruct b as [[tot mn mo al cap] c]; simpl in *. subst tot mn al.
  destruct (layout_ok (2 ^ (k + mo)) (2 ^ a)) eqn:El; cbn [negb].
  2: { split; [done|]. apply not_true_iff_false in El. rewrite layout_ok_spec in El.
       apply Z.nle_gt. intros ?. apply El. exists a. split_and!; done || lia. }
  destruct (global_alloc_block (2 ^ (k + mo)) (2 ^ a) ltac:(lia) El) as [->|(Hg & Hd & Hfit)]; [done|].
  apply layout_ok_spec in El as (a' & Ha' & _ & El).
  assert (k + mo < 63).
  { apply Z.nle_gt. intros ?. pose proof (pow2_mono 63 (k + mo) ltac:(lia)). assert (0 < 2 ^ a') by lia.
    unfold isize_MAX in *. lia. }
  destruct (Z.eqb_spec (global_alloc (2 ^ (k + mo)) (2 ^ a)) 0) as [|_]; [lia|].
  cbn [negb assert_ obind].
  destruct (buddy_parts_ok (bc_init_policy c) mo) as (bms & z & Hb & Hn & Hz & Hs); [lia|].
  rewrite Hb. cbn [obind]. rewrite Hn. cbn [obind]. rewrite Hz. cbn [obind]. rewrite Hs. cbn [obind].
  assert (Hinv : ∀ w, buddy_inv (mkBuddyArenaInner (global_alloc (2 ^ (k + mo)) (2 ^ a)) (2 ^ (k + mo))
    (2 ^ (k + mo)) (2 ^ k) mo bms (2 ^ mo) (bc_auto_spill c) cap (bc_init_policy c)
    (metrics_new (2 ^ (k + mo))) z (HeapDealloc (2 ^ (k + mo)) (2 ^ a)) waker) w []).
  { intros w. by apply buddy_new_inv. }
  split_and!; try done. intros blk [Hblk _]. apply block_aligned; [by eapply bi_geo|..|lia]; try done.
  unfold bd_unit_log. simpl. rewrite Z.log2_pow2 by done. done.
  Unshelve. exact (mkWorld ∅ []).
Qed.

Lemma build_buddy_ok {P : Profile} {PF : Platform} {GA : GlobalAlloc} {m}
    (b : BuddyArenaBuilder m) waker w :
  PlatformLaws PF → GlobalAllocLaws GA → geometry_valid (bb_geometry b) →
  match bc_page_size (bb_config b) with PSize n => 0 < n ≤ usize_MAX | _ => True end →
  match build_buddy b waker w with
  | Ret (Ok (bd, w')) =>
      buddy_built b waker bd ∧ buddy_inv bd w' [] ∧
      same_outside w w' (bd_ptr bd) (bd_total_size bd) ∧ w_wakes w' = w_wakes w ∧
      (bc_page_size (bb_config b) = Unknown → w' = w)
  | Ret (Err e) =>
      e = SizeOverflow ∧ isize_MAX - (alignment (bb_geometry b) - 1) < total_size (bb_geometry b)
  | Panic => global_alloc (total_size (bb_geometry b)) (alignment (bb_geometry b)) = 0
  | OutOfFuel => False
  end.
Proof.
  intros L GL Hb Hps. unfold build_buddy.
  destruct (PageSize_resolve_ok _ Hps) as (ps & -> & Hpok & Hunk). cbn [obind].
  pose proof (build_raw_ok b waker Hb) as Hin.
  destruct (build_raw b waker) as [[e|bd]| |]; cbn [rbind obind]; try done.
  pose proof Hin as (Hinv & _). pose proof (bi_geo _ _ _ (Hinv w)) as Hg.
  assert (0 ≤ bd_total_size bd ≤ isize_MAX).
  { rewrite (bg_total _ Hg). destruct Hg.
    pose proof (pow2_lt_mono (bd_unit_log bd + bd_max_order bd) 63 ltac:(lia)). unfold isize_MAX. lia. }
  destruct (prefault_if_ok ps w (bd_ptr bd) (bd_total_size bd)) as (w' & Heq & Hso & Hw); [done..|].
  rewrite Heq. cbn [obind]. split_and!; try done.
  intros Hu. rewrite (Hunk Hu) in Heq. simpl in Heq. by simplify_eq.
Qed.

(** C32: [BuddyArena] builders.  For a valid geometry, [build] (with or without
    a wake handle) returns an arena that satisfies the invariant with nothing
    allocated and whose every block is aligned as asked, having written
    nothing outside its own backing; it reports [SizeOverflow] exactly when
    the geometry is no valid layout, and diverges only when the allocator
    returns null. *)
Theorem buddy_build_correct {P : Profile} {PF : Platform} {GA : GlobalAlloc} {m}
    (b : BuddyArenaBuilder m) waker w :
  PlatformLaws PF → GlobalAllocLaws GA → geometry_valid (bb_geometry b) →
  match bc_page_size (bb_config b) with PSize n => 0 < n ≤ usize_MAX | _ => True end →
  match build_buddy b waker w with
  | Ret (Ok (bd, w')) =>
      buddy_built b waker bd ∧ buddy_inv bd w' [] ∧
      same_outside w w' (bd_ptr bd) (bd_total_size bd) ∧ w_wakes w' = w_wakes w ∧
      (bc_page_size (bb_config b) = Unknown → w' = w)
  | Ret (Err e) =>
      e = SizeOverflow ∧ isize_MAX - (alignment (bb_geometry b) - 1) < total_size (bb_geometry b)
  | Panic => global_alloc (total_size (bb_geometry b)) (alignment (bb_geometry b)) = 0
  | OutOfFuel => False
  end.
Proof. apply build_buddy_ok. Qed.

(** A 4096-byte arena of 512-byte blocks, aligned to 64, zeroing. *)
Definition demo_geometry : BuddyGeometry := mkBuddyGeometry 4096 512 3 64 false.
Definition demo_buddy_builder : BuddyArenaBuilder Standard :=
  buddy_init_policy (@buddy_builder demo_platform demo_geometry) Zero.

Lemma demo_geometry_valid : geometry_valid demo_geometry.
Proof. exists 9, 6. simpl. split_and!; done || lia. Qed.

Lemma buddy_build_correct_witness :
  ∃ bd w', @build_buddy dev demo_platform demo_alloc Standard demo_buddy_builder true (mkWorld ∅ []) =
      Ret (Ok (bd, w')) ∧ buddy_inv bd w' [].
Proof.
  pose proof (@buddy_build_correct dev demo_platform demo_alloc Standard demo_buddy_builder true
                (mkWorld ∅ []) demo_platform_laws demo_alloc_laws demo_geometry_valid I) as H.
  assert (Hk : match @build_buddy dev demo_platform demo_alloc Standard demo_buddy_builder true
                       (mkWorld ∅ []) with
               | Ret (Ok _) => true | _ => false end = true) by (vm_compute; reflexivity).
  destruct (build_buddy demo_buddy_builder true (mkWorld ∅ [])) as [[e|[bd w']]| |];
    [discriminate Hk| |discriminate Hk|destruct H].
  exists bd, w'. split; [reflexivity|exact (proj1 (proj2 H))].
Defined.

(** Deferred prefaulting loses nothing.  For both arenas [build_unfaulted]
    followed by [fault_pages] does exactly what [build] does: the same arena,
    the same memory, the same errors. *)
Theorem unfaulted_equiv {P : Profile} {PF : Platform} {GA : GlobalAlloc} {m}
    (b : FixedArenaBuilder m) (bb : BuddyArenaBuilder m) w :
  GlobalAllocLaws GA → builder_args b →
  (let? u := build_fixed_unfaulted b in
   let! p := fault_pages u w in Ret (Ok p)) = build_fixed b false w ∧
  (let? u := build_buddy_unfaulted bb in
   let! p := fault_pages u w in Ret (Ok p)) = build_buddy bb false w.
Proof.
  intros GL Hb. split; [by apply fixed_unfaulted_fault|].
  unfold build_buddy_unfaulted, build_buddy, fault_pages.
  destruct (PageSize_resolve _) as [ps| |]; cbn [obind rbind]; try done.
  destruct (build_raw bb false) as [[e|bd]| |]; cbn [rbind obind]; try done.
  cbn [u_page_size u_ptr u_total_size u_inner]. by destruct (prefault_if _ _ _ _).
Qed.

Lemma unfaulted_equiv_witness :
  ∃ a w', @build_fixed dev demo_platform demo_alloc Standard demo_builder false (mkWorld ∅ []) =
            Ret (Ok (a, w')) ∧
    (let? u := @build_fixed_unfaulted dev demo_platform demo_alloc Standard demo_builder in
     let! p := @fault_pages dev _ u (mkWorld ∅ []) in Ret (Ok p)) = Ret (Ok (a, w')).
Proof.
  destruct (@unfaulted_equiv dev demo_platform demo_alloc Standard demo_builder demo_buddy_builder
              (mkWorld ∅ []) demo_alloc_laws) as [H _].
  { split_and!; try done; ulia. }
  assert (Hk : match @build_fixed dev demo_platform demo_alloc Standard demo_builder false
                       (mkWorld ∅ []) with
               | Ret (Ok _) => true | _ => false end = true) by (vm_compute; reflexivity).
  rewrite H. destruct (build_fixed demo_builder false (mkWorld ∅ [])) as [[e|[a w']]| |];
    [discriminate Hk| |discriminate Hk|discriminate Hk].
  by exists a, w'.
Defined.

(** C34: a buddy builder over caller-provided memory.  For a region that can
    exist, [build] refuses a null pointer and a hint no rounding of which fits;
    otherwise the arena satisfies the invariant with nothing allocated, lies in
    the region, keeps its length for the deallocator, and the region has not
    been written to.  A minimum allocation above [2^63] bytes is not refused: with
    overflow checks the build panics, and without it does not return. *)
Theorem raw_buddy_build_correct {P : Profile} {PF : Platform} (b : RawBackedBuddyArenaBuilder) w min :
  is_usize (rbb_ptr b) → 0 ≤ rbb_len b ≤ isize_MAX → rbb_ptr b + rbb_len b ≤ usize_MAX + 1 →
  rbb_hint b = MinAlloc min → 0 < min ≤ usize_MAX → bc_page_size (rbb_config b) = Unknown →
  match raw_buddy_build b w with
  | Ret (Ok (bd, w')) =>
      w' = w ∧ buddy_inv bd w' [] ∧ bd_ptr bd = rbb_ptr b ∧ bd_dealloc_len bd = rbb_len b ∧
      bd_total_size bd ≤ rbb_len b < 2 * bd_total_size bd ∧ bd_dealloc bd = rbb_dealloc b ∧
      bd_init_policy bd = bc_init_policy (rbb_config b) ∧ bd_auto_spill bd = false
  | Ret (Err NullPointer) => rbb_ptr b = 0
  | Ret (Err e) => e = ZeroUsableSlots ∧ rbb_len b < 2 ^ Z.log2 min ∧ min ≤ 2 ^ 63
  | Panic => 2 ^ 63 < min ∧ debug_assertions = true
  | OutOfFuel => 2 ^ 63 < min ∧ debug_assertions = false
  end.
Proof.
  intros Hp Hl Hfit Hhint Hmin Hps. unfold raw_buddy_build.
  destruct (Z.eqb_spec (rbb_ptr b) 0) as [|Hnz]; [done|]. rewrite Hps, Hhint.
  cbn [PageSize_resolve obind]. destruct (Z.le_gt_cases min (2 ^ 63)) as [Hle|Hgt].
  2: { rewrite BuddyHint_resolve_huge by (unfold isize_MAX in *; ulia).
       destruct debug_assertions; cbn [rbind obind]; split; done || lia. }
  pose proof (BuddyHint_resolve_spec min (rbb_len b) ltac:(lia) Hl) as Hr.
  destruct (BuddyHint_resolve _ _ _) as [[e|[mb mo]]| |]; cbn [rbind obind]; [|..|done|done].
  { destruct Hr as [-> Hr]. done. }
  destruct Hr as ((k & Hk & -> & Hko) & Ho & _ & Htot).
  destruct (buddy_parts_ok (bc_init_policy (rbb_config b)) mo) as (bms & z & Hb & Hn & Hz & Hs); [lia|].
  rewrite Hb. cbn [obind]. rewrite Hn. cbn [obind].
  rewrite <- !Z.pow_add_r, Z.add_assoc in Htot by lia.
  rewrite usz_shl_ok, <- Z.pow_add_r by lia || (rewrite <- Z.pow_add_r by lia; apply pow2_is_usize; lia).
  cbn [obind]. rewrite Hz. cbn [obind]. rewrite Hs. cbn [obind prefault_if].
  rewrite (Z.pow_add_r 2 (k + mo) 1) in Htot by lia. split_and!; try done; simpl; try lia.
  apply buddy_new_inv; try done; unfold is_usize in *; lia.
Qed.

Lemma raw_buddy_build_correct_witness :
  ∃ bd, @raw_buddy_build release demo_platform (@buddy_from_raw demo_platform 8192 1500 (MinAlloc 100) NoDealloc)
          (mkWorld ∅ []) = Ret (Ok (bd, mkWorld ∅ [])) ∧ buddy_inv bd (mkWorld ∅ []) [].
Proof.
  pose proof (@raw_buddy_build_correct release demo_platform
    (@buddy_from_raw demo_platform 8192 1500 (MinAlloc 100) NoDealloc) (mkWorld ∅ []) 100
    ltac:(simpl; ulia) ltac:(simpl; unfold isize_MAX; lia) ltac:(simpl; ulia) eq_refl ltac:(ulia) eq_refl)
    as H.
  assert (Hk : match @raw_buddy_build release demo_platform
                       (@buddy_from_raw demo_platform 8192 1500 (MinAlloc 100) NoDealloc) (mkWorld ∅ []) with
               | Ret (Ok _) => true | _ => false end = true) by (vm_compute; reflexivity).
  destruct (raw_buddy_build _ _) as [[e|[bd w']]| |]; [discriminate Hk| |discriminate Hk|discriminate Hk].
  destruct H as (-> & Hi & _). exists bd. split; [reflexivity|exact Hi].
Defined.

(** ** Allocating and releasing *)

(** A request whose rounding overflows: no order is refused, and without the
    check the one computed lies past every order of the arena. *)
Lemma order_for_request_huge {P : Profile} bd len :
  buddy_geo bd → 2 ^ 63 < len ≤ usize_MAX →
  order_for_request bd len = if debug_assertions then Panic else Ret (Some (64 - bd_unit_log bd)).
Proof.
  intros Hg Hlen.
  assert (Hc : ceil_pow2 (Z.max len (bd_min_block_size bd)) = 2 ^ 64).
  { rewrite (bg_min _ Hg). destruct Hg. pose proof (pow2_mono (bd_unit_log bd) 63 ltac:(lia)).
    destruct (ceil_pow2_spec (Z.max len (2 ^ bd_unit_log bd))) as (k & Hk & -> & Hle & Hleast).
    assert (k ≤ 64) by (apply Hleast; ulia). assert (¬ k ≤ 63); [|f_equal; lia].
    intros ?. pose proof (pow2_mono k 63 ltac:(lia)). lia. }
  unfold order_for_request, next_power_of_two. rewrite Hc.
  change (overflowing (2 ^ 64)) with (if debug_assertions then Panic else @Ret Z 0).
  destruct debug_assertions; cbn [obind]; [done|].
  pose proof (bg_min _ Hg) as Hmin. pose proof (bg_total _ Hg) as Htot. destruct Hg as [Hlog _ Hmo Hbound _ _].
  destruct (Z.ltb_spec (bd_total_size bd) 0) as [|_]; [lia|].
  rewrite Hmin, trailing_zeros_pow2 by done. change (trailing_zeros 0) with 64. by rewrite usz_sub_ok by ulia.
Qed.

Lemma buddy_claim_huge {P : Profile} bd w A len :
  buddy_inv bd w A → 2 ^ 63 < len ≤ usize_MAX →
  buddy_claim bd w len =
    if debug_assertions then Panic
    else Ret (Err ArenaFull, bd_set_metrics bd (record_alloc_failure (bd_metrics bd)), w).
Proof.
  intros Hinv Hlen. pose proof (bi_geo _ _ _ Hinv) as Hg.
  unfold buddy_claim. rewrite order_for_request_huge by done. destruct debug_assertions; cbn [obind]; [done|].
  destruct Hg as [Hlog _ Hmo Hbound _ _].
  unfold try_allocate_from_summary, try_allocate_from_full_scan, try_allocate_from_orders.
  do 2 (rewrite (seqZ_nil (64 - bd_unit_log bd)) by lia; cbn [try_orders obind]). done.
Qed.

(** C7: [BuddyArena::allocate] never panics on a request of at most [2^63]
    bytes.  It grants the smallest block that holds the request, disjoint from
    every outstanding block and inside the arena (zeroed under
    [InitPolicy::Zero]), with a capacity of the request under a capped geometry
    and of the block otherwise; it reports [RequestTooLarge] exactly when the
    request exceeds the arena, and [ArenaFull] exactly when no aligned free
    region of that size is left, however the free space came to be. *)
Theorem buddy_allocate_correct {P : Profile} {B : BytesLib} bd w A len :
  buddy_inv bd w A → 0 < len ≤ 2 ^ 63 →
  match buddy_allocate bd w len with
  | Ret (Ok buf, bd', w') =>
      ∃ o i off cap, buf = new_buddy (bd_ptr bd) (bd_auto_spill bd) o i off cap ∧
        buddy_granted bd w A len o i off cap bd' w' ∧
        ∀ b, b ∈ A → disjoint_ranges (block_addr bd (o, i)) (block_len bd (o, i))
                       (block_addr bd b) (block_len bd b)
  | Ret (Err RequestTooLarge, bd', w') =>
      bd_total_size bd < len ∧ w' = w ∧ buddy_inv bd' w A ∧ bd_same bd bd'
  | Ret (Err ArenaFull, bd', w') =>
      w' = w ∧ buddy_inv bd' w A ∧ bd_same bd bd' ∧
      ∀ b, in_arena (bd_max_order bd) b → len ≤ block_len bd b → ¬ region_free A b
  | _ => False
  end.
Proof.
  intros Hinv Hlen. unfold buddy_allocate. pose proof (buddy_claim_ok bd w A len Hinv Hlen) as Hcl.
  destruct (buddy_claim bd w len) as [[[[e|[[[o i] off] cap]] bd'] w']| |]; cbn [obind]; try done.
  exists o, i, off, cap. split_and!; [done..|]. intros b Hb.
  destruct (bi_core _ _ _ (gr_inv _ _ _ _ _ _ _ _ _ _ Hcl)) as [F Hco].
  pose proof (t_nodup _ _ _ (co_tiling _ _ _ Hco)) as Hnd. apply NoDup_cons in Hnd as [Hnd _].
  destruct (gr_same _ _ _ _ _ _ _ _ _ _ Hcl) as (bms & ne & mt & z & ->).
  apply (blocks_disjoint _ _ _ (o, i) b Hco); [right; by left|right; by right|congruence].
Qed.

Definition demo_buddy : BuddyArenaInner :=
  Eval vm_compute in
    match @build_raw dev demo_alloc Standard demo_buddy_builder true with
    | Ret (Ok bd) => bd
    | _ => mkBuddyArenaInner 0 0 0 0 0 [] 0 false false Uninit (metrics_new 0) None NoDealloc false
    end.

Lemma demo_buddy_inv w : buddy_inv demo_buddy w [].
Proof.
  pose proof (@build_raw_ok dev demo_alloc demo_alloc_laws Standard demo_buddy_builder true) as H.
  replace (build_raw demo_buddy_builder true) with (Ret (Ok demo_buddy) : outcome (result BuildError _))
    in H by (by vm_compute).
  apply H. apply demo_geometry_valid.
Qed.

Lemma buddy_allocate_correct_witness :
  ∃ buf bd' w', @buddy_allocate dev list_bytes demo_buddy (mkWorld ∅ []) 700 = Ret (Ok buf, bd', w') ∧
    ∃ o i off cap, buddy_granted demo_buddy (mkWorld ∅ []) [] 700 o i off cap bd' w'.
Proof.
  pose proof (@buddy_allocate_correct dev list_bytes demo_buddy (mkWorld ∅ []) [] 700
                (demo_buddy_inv _) ltac:(lia)) as H.
  assert (Hk : match @buddy_allocate dev list_bytes demo_buddy (mkWorld ∅ []) 700 with
               | Ret (Ok _, _, _) => true | _ => false end = true) by (vm_compute; reflexivity).
  destruct (buddy_allocate demo_buddy (mkWorld ∅ []) 700) as [[[[e|buf] bd'] w']| |];
    [discriminate Hk| |destruct H|destruct H].
  exists buf, bd', w'. split; [reflexivity|]. destruct H as (o & i & off & cap & _ & H & _).
  by exists o, i, off, cap.
Defined.

Lemma free_block_region bd F A b : buddy_core bd F A → b ∈ F → region_free A b.
Proof.
  intros Hco Hb u b' Hs Hb' Hs'. apply (t_sep _ _ _ (co_tiling _ _ _ Hco) b' Hb').
  rewrite <- (ti_disj _ _ (t_tiles _ _ _ (co_tiling _ _ _ Hco)) b b' u); try done; [by left|by right].
Qed.

(** The aligned region of order [t] around the block [(o, i)]. *)
Definition region_around (o i t : Z) : block := (t, i / 2 ^ (t - o)).

Lemma region_around_spans o i t : 0 ≤ o ≤ t → spans (region_around o i t) (i * 2 ^ o).
Proof.
  intros Ht. unfold spans, region_around. simpl. replace t with (t - o + o) at 1 by lia.
  rewrite Z.pow_add_r by lia. apply Z.div_mul_cancel_r; lia.
Qed.

(** The order a released block ends up at: the largest whose region around the
    block has nothing outstanding in it. *)
Definition merged_order (m : Z) (A : list block) (o i o' : Z) : Prop :=
  o ≤ o' ≤ m ∧ region_free A (region_around o i o') ∧
  ∀ t, o' < t ≤ m → ¬ region_free A (region_around o i t).

Lemma merged_free_block bd F A o i o' :
  buddy_core bd F A → 0 ≤ o ≤ o' → region_around o i o' ∈ F → merged_order (bd_max_order bd) A o i o'.
Proof.
  intros Hco Ho HF. pose proof (core_range _ _ _ _ Hco HF) as Hin.
  pose proof (region_around_spans o i o' Ho) as Hu.
  split; [destruct Hin; simpl in *; lia|]. split; [by eapply free_block_region|]. intros t Ht Hfree.
  pose proof (region_around_spans o i t ltac:(lia)) as Hut.
  destruct (region_in_free_block _ _ _ (co_tiling _ _ _ Hco) t (i / 2 ^ (t - o))) as (o2 & j & HF2 & Ho2 & Hsp);
    [|exact Hfree|].
  { pose proof (in_arena_units _ _ _ _ Hin Hu) as Hr. unfold spans in Hut. simpl in Hut. rewrite <- Hut.
    split; simpl; [lia|]. split; [apply Z.div_pos; lia|]. apply Z.div_lt_upper_bound; [lia|].
    rewrite <- Z.pow_add_r by lia. replace (t + (bd_max_order bd - t)) with (bd_max_order bd) by lia. lia. }
  assert (region_around o i o' = (o2, j)) as [= -> _]; [|lia].
  eapply (ti_disj _ _ (t_tiles _ _ _ (co_tiling _ _ _ Hco))); [by left|by left|exact Hu|by apply Hsp].
Qed.

Lemma is_block_free_ok {P : Profile} bd F A o i :
  buddy_core bd F A → (o, i) ∈ F → is_block_free bd o i = Ret true.
Proof.
  intros Hco HF. destruct (core_range _ _ _ _ Hco HF) as [Ho Hi]. simpl in Ho, Hi.
  destruct (bitmaps_lookup _ _ _ o (co_bitmaps _ _ _ Hco) Ho) as (bm & Hix & Hwf & Hc & Hb).
  unfold is_block_free. rewrite Hix. cbn [obind]. rewrite is_free_ok by (done || rewrite Hc; lia).
  f_equal. apply Hb; [lia|done].
Qed.

(** C8: releasing an outstanding block never panics: the block is scrubbed
    under [Zero], merged with its free buddies as far as that goes, and becomes
    part of one free block, of the largest order whose aligned region around the
    released block has nothing outstanding left in it; nothing else changes
    hands, the live-byte counter follows, and the wake handle, if any, is called
    exactly once, with the order of that merged block. *)
Theorem buddy_release_correct {P : Profile} bd w A o i :
  buddy_inv bd w A → (o, i) ∈ A →
  ∃ A' bd' w' o', buddy_release bd w o i = Ret (bd', w') ∧ A ≡ₚ (o, i) :: A' ∧
    buddy_inv bd' w' A' ∧ bd_same bd bd' ∧ merged_order (bd_max_order bd) A' o i o' ∧
    is_block_free bd' o' (i / 2 ^ (o' - o)) = Ret true ∧
    same_outside w w' (block_addr bd (o, i)) (block_len bd (o, i)) ∧
    w_wakes w' = w_wakes w ++ (if bd_wake_handle bd then [WakeBuddy o'] else []) ∧
    (bd_init_policy bd = Zero → all_zero (w_mem w') (block_addr bd (o, i)) (block_len bd (o, i))) ∧
    bytes_live (bd_metrics bd') = units A' * bd_min_block_size bd.
Proof.
  intros Hinv Hin. destruct (remove_one_Some (o, i) A Hin) as (A' & Hp%remove_one_perm).
  destruct (buddy_release_ok bd w A' o i (buddy_inv_perm _ _ _ _ Hp Hinv))
    as (bd' & w' & o' & Hex & Hinv' & Hsame & Ho & Hso & Hw & Hz & F & Hco & HF).
  assert (0 ≤ o).
  { destruct (bi_core _ _ _ Hinv) as [F0 Hco0]. apply (core_range_out _ _ _ (o, i) Hco0 Hin). }
  pose proof (merged_free_block _ _ _ o i o' Hco ltac:(lia) HF) as Hm.
  exists A', bd', w', o'. split_and!; try done.
  - by destruct Hsame as (? & ? & ? & ? & ->).
  - by eapply is_block_free_ok.
  - rewrite (mo_live _ _ _ (bi_metrics _ _ _ Hinv')). by destruct Hsame as (? & ? & ? & ? & ->).
Qed.

(** The same arena with a block of order 1 out. *)
Definition demo_buddy_claimed : BuddyArenaInner * World :=
  match @buddy_claim dev demo_buddy (mkWorld ∅ []) 700 with
  | Ret (_, bd, w) => (bd, w)
  | _ => (demo_buddy, mkWorld ∅ [])
  end.

Lemma demo_buddy_claimed_block :
  match @buddy_claim dev demo_buddy (mkWorld ∅ []) 700 with
  | Ret (Ok (o, i, _, _), _, _) => (o =? 1) && (i =? 0)
  | _ => false
  end = true.
Proof. by vm_compute. Qed.

Lemma demo_buddy_claimed_inv : buddy_inv demo_buddy_claimed.1 demo_buddy_claimed.2 [(1, 0)].
Proof.
  pose proof demo_buddy_claimed_block as Hs. unfold demo_buddy_claimed.
  generalize (@buddy_claim_ok dev demo_buddy (mkWorld ∅ []) [] 700 (demo_buddy_inv _) ltac:(lia)).
  destruct (buddy_claim _ _ _) as [[[[e|[[[o i] off] cap]] bd'] w']| |]; try done.
  apply andb_true_iff in Hs as [->%Z.eqb_eq ->%Z.eqb_eq]. by intros [].
Qed.

Lemma buddy_release_correct_witness :
  ∃ A' bd' w', @buddy_release dev demo_buddy_claimed.1 demo_buddy_claimed.2 1 0 = Ret (bd', w') ∧
    [(1, 0)] ≡ₚ (1, 0) :: A' ∧ buddy_inv bd' w' A'.
Proof.
  assert (H0 : ((1, 0) : block) ∈ [((1, 0) : block)]) by (by left).
  destruct (@buddy_release_correct dev demo_buddy_claimed.1 demo_buddy_claimed.2 [(1, 0)] 1 0
              demo_buddy_claimed_inv H0) as (A' & bd' & w' & o' & H1 & H2 & H3 & _).
  exists A', bd', w'. by split_and!.
Defined.

(** ** Free space *)

Lemma reverse_seqZ_split n pre o post :
  reverse (seqZ 0 n) = pre ++ (o :: post) → ∀ o', o' ∈ post → o' < o.
Proof.
  intros Heq. apply (f_equal reverse) in Heq.
  rewrite reverse_involutive, reverse_app, reverse_cons, <- app_assoc in Heq. simpl in Heq.
  assert (Ho : seqZ 0 n !! length post = Some o).
  { rewrite Heq, lookup_app_r by (rewrite length_reverse; lia). rewrite length_reverse, Nat.sub_diag. done. }
  apply lookup_seqZ in Ho as [-> _]. intros o' Ho'.
  apply elem_of_reverse, list_elem_of_lookup in Ho' as [j Hj].
  assert (j < length post)%nat by (apply lookup_lt_Some in Hj; by rewrite length_reverse in Hj).
  assert (Hs : seqZ 0 n !! j = Some o') by (rewrite Heq, lookup_app_l; [done|by rewrite length_reverse]).
  apply lookup_seqZ in Hs as [-> _]. lia.
Qed.

Lemma largest_free_block_ok {P : Profile} bd F A :
  buddy_core bd F A →
  ∃ n, largest_free_block bd = Ret n ∧
    (∀ b, in_arena (bd_max_order bd) b → region_free A b → block_len bd b ≤ n) ∧
    (n = 0 ∨ ∃ b, in_arena (bd_max_order bd) b ∧ region_free A b ∧ n = block_len bd b).
Proof.
  intros Hco. unfold largest_free_block.
  destruct (largest_free_scan_ok bd F A (reverse (seqZ 0 (bd_max_order bd + 1))) Hco)
    as (n & Hex & Hn).
  { apply Forall_reverse, Forall_seqZ. lia. }
  exists n. split; [done|].
  (* a free region lies in a free block whose order the scan saw *)
  assert (Hreg : ∀ b, in_arena (bd_max_order bd) b → region_free A b →
    ∃ o j, (o, j) ∈ F ∧ b.1 ≤ o ∧ o ∈ reverse (seqZ 0 (bd_max_order bd + 1))).
  { intros [t i] Hin Hfree.
    destruct (region_in_free_block _ _ _ (co_tiling _ _ _ Hco) t i Hin Hfree) as (o & j & HF & Ho & _).
    exists o, j. split_and!; [done..|]. destruct (core_range _ _ _ _ Hco HF) as [Hom _]. simpl in Hom.
    apply elem_of_reverse, elem_of_seqZ. lia. }
  destruct Hn as [[-> Hnone]|(o & i & pre & post & -> & HF & Hsplit & Hpre)].
  - split; [|by left]. intros b Hin Hfree. destruct (Hreg b Hin Hfree) as (o & j & HF & _ & Ho).
    by destruct (Hnone o j Ho).
  - split.
    + intros b Hin Hfree. destruct (Hreg b Hin Hfree) as (o' & j & HF' & Hb & Ho').
      assert (o' ≤ o).
      { rewrite Hsplit, elem_of_app, elem_of_cons in Ho'. destruct Ho' as [Ho'|[->|Ho']]; [|done|].
        - by destruct (Hpre o' j Ho').
        - by apply Z.lt_le_incl, (reverse_seqZ_split _ _ _ _ Hsplit). }
      unfold block_len. apply pow2_mono. destruct Hin as [? _]. pose proof (bg_log _ (co_geo _ _ _ Hco)). lia.
    + right. exists (o, i). split_and!; [by apply (core_range _ _ _ _ Hco)|by eapply free_block_region|done].
Qed.

(** The [largest_free_block] of the metrics is the size of the largest
    aligned region with nothing outstanding in it, 0 when there is none. *)
Theorem largest_free_block_correct {P : Profile} bd w A :
  buddy_inv bd w A →
  ∃ n, largest_free_block bd = Ret n ∧
    (∀ b, in_arena (bd_max_order bd) b → region_free A b → block_len bd b ≤ n) ∧
    (n = 0 ∨ ∃ b, in_arena (bd_max_order bd) b ∧ region_free A b ∧ n = block_len bd b).
Proof. intros [[F Hco] _ _ _]. by eapply largest_free_block_ok. Qed.

Lemma largest_free_block_correct_witness :
  ∃ n, @largest_free_block dev demo_buddy_claimed.1 = Ret n ∧
    ∀ b, in_arena (bd_max_order demo_buddy_claimed.1) b → region_free [(1, 0)] b →
      block_len demo_buddy_claimed.1 b ≤ n.
Proof.
  destruct (@largest_free_block_correct dev demo_buddy_claimed.1 demo_buddy_claimed.2 [(1, 0)]
              demo_buddy_claimed_inv) as (n & H1 & H2 & _).
  exists n. split; [exact H1|exact H2].
Defined.

Lemma free_slots_top bm :
  slot_count bm = 1 → bit bm 0 = true → free_slots bm = [0].
Proof.
  intros Hc Hb. unfold free_slots. rewrite Hc. change (seqZ 0 1) with [0].
  rewrite filter_cons, decide_True by done. done.
Qed.

Lemma free_slots_none bm : (∀ i, 0 ≤ i → bit bm i = true → False) → free_slots bm = [].
Proof.
  intros Hn. destruct (free_slots bm) as [|i l] eqn:E; [done|exfalso].
  assert (Hi : i ∈ free_slots bm) by (rewrite E; by left). unfold free_slots in Hi.
  apply list_elem_of_filter in Hi as [Hb Hi%elem_of_seqZ]. apply (Hn i); [lia|done].
Qed.

(** One free block of the maximal order and none of any other, the summary
    says so, and the whole arena can be allocated. *)
Definition coalesced {P : Profile} bd : Prop :=
  (∀ o, 0 ≤ o ≤ bd_max_order bd →
     free_block_count bd o = Ret (if decide (o = bd_max_order bd) then 1 else 0) ∧
     Z.testbit (bd_nonempty_orders bd) o = bool_decide (o = bd_max_order bd)) ∧
  is_block_free bd (bd_max_order bd) 0 = Ret true ∧
  largest_free_block bd = Ret (bd_total_size bd) ∧ bytes_live (bd_metrics bd) = 0.

Lemma coalesced_empty {P : Profile} bd w : buddy_inv bd w [] → coalesced bd.
Proof.
  intros Hinv. destruct (bi_core _ _ _ Hinv) as [F Hco]. pose proof Hco as [Hg Hbms [_ Hs] Ht].
  apply tiling_all_free in Ht as ->. destruct Hg as [Hlog Hmin Hmo Hbound Htot Hptr] eqn:Eg. clear Eg.
  split_and!.
  - intros o Ho. destruct (bitmaps_lookup _ _ _ o Hbms Ho) as (bm & Hix & Hwf & Hc & Hb). split.
    + unfold free_block_count. rewrite Hix. cbn [obind]. rewrite free_count_ok by done. f_equal.
      case_decide as E.
      * subst o. rewrite free_slots_top; [done|by rewrite Hc, Z.sub_diag|apply Hb; [done|set_solver]].
      * rewrite free_slots_none; [done|]. intros i Hi [= ? ?]%Hb%elem_of_singleton; done.
    + apply eq_true_iff_eq. rewrite bool_decide_eq_true.
      specialize (Hs o Ho). unfold summary_bit_ok in Hs. rewrite Hs. split.
      * by intros [i [= -> ->]%elem_of_singleton].
      * intros ->. exists 0. set_solver.
  - eapply is_block_free_ok; [exact Hco|set_solver].
  - destruct (largest_free_block_ok bd _ _ Hco) as (n & -> & Hle & Hn). f_equal.
    assert (Htop : in_arena (bd_max_order bd) (bd_max_order bd, 0)) by (split; simpl; [lia|by rewrite Z.sub_diag]).
    specialize (Hle _ Htop ltac:(by intros u b _ ?%not_elem_of_nil)).
    unfold block_len in *. simpl in Hle. rewrite Htot. assert (0 < 2 ^ (bd_unit_log bd + bd_max_order bd)) by lia.
    destruct Hn as [->|([o i] & [Ho _] & _ & ->)]; [lia|]. simpl in *.
    apply Z.le_antisymm; [|done]. apply pow2_mono. lia.
  - apply (mo_live _ _ _ (bi_metrics _ _ _ Hinv)).
Qed.

(** ** Runs *)

(** One call on an arena with the blocks [A] out: allocate, or release the
    [n]th of them. *)
Inductive buddy_op :=
| BAllocate (len : Z)
| BRelease (n : nat).

Definition buddy_step {P : Profile} (s : BuddyArenaInner * World * list block) (op : buddy_op)
    : outcome (BuddyArenaInner * World * list block) :=
  let '(bd, w, A) := s in
  match op with
  | BAllocate len =>
      let! (x, bd, w) := buddy_claim bd w len in
      Ret (bd, w, match x with Ok (o, i, _, _) => (o, i) :: A | Err _ => A end)
  | BRelease n =>
      match A !! n with
      | Some (o, i) => let! (bd, w) := buddy_release bd w o i in Ret (bd, w, delete n A)
      | None => Ret s
      end
  end.

Fixpoint buddy_run {P : Profile} (s : BuddyArenaInner * World * list block) (ops : list buddy_op)
    : outcome (BuddyArenaInner * World * list block) :=
  match ops with
  | [] => Ret s
  | op :: ops' => let! s' := buddy_step s op in buddy_run s' ops'
  end.

Definition buddy_op_ok (op : buddy_op) : Prop :=
  match op with BAllocate len => 0 < len ≤ 2 ^ 63 | BRelease _ => True end.

Lemma buddy_step_inv {P : Profile} bd w A op :
  buddy_inv bd w A → buddy_op_ok op →
  ∃ bd' w' A', buddy_step (bd, w, A) op = Ret (bd', w', A') ∧ buddy_inv bd' w' A' ∧ bd_same bd bd'.
Proof.
  intros Hinv Hop. destruct op as [len|n]; simpl in *.
  - pose proof (buddy_claim_ok bd w A len Hinv Hop) as Hc.
    destruct (buddy_claim bd w len) as [[[[e|[[[o i] off] cap]] bd'] w']| |]; try done; cbn [obind].
    + exists bd', w', A. split; [done|]. destruct e; naive_solver.
    + exists bd', w', ((o, i) :: A). split; [done|]. by destruct Hc.
  - destruct (A !! n) as [[o i]|] eqn:En.
    + assert (Hp : A ≡ₚ (o, i) :: delete n A) by (by apply delete_Permutation).
      destruct (buddy_release_ok bd w (delete n A) o i (buddy_inv_perm _ _ _ _ Hp Hinv))
        as (bd' & w' & o' & -> & Hi & Hs & _). cbn [obind]. by exists bd', w', (delete n A).
    + exists bd, w, A. by split_and!.
Qed.

Lemma buddy_run_inv {P : Profile} bd w A ops :
  buddy_inv bd w A → Forall buddy_op_ok ops →
  ∃ bd' w' A', buddy_run (bd, w, A) ops = Ret (bd', w', A') ∧ buddy_inv bd' w' A' ∧ bd_same bd bd'.
Proof.
  intros Hinv Hops. revert bd w A Hinv. induction Hops as [|op ops Hop _ IH]; intros bd w A Hinv; cbn [buddy_run].
  { exists bd, w, A. by split_and!. }
  destruct (buddy_step_inv bd w A op Hinv Hop) as (bd1 & w1 & A1 & -> & Hi & Hs). cbn [obind].
  destruct (IH bd1 w1 A1 Hi) as (bd2 & w2 & A2 & -> & Hi2 & Hs2). exists bd2, w2, A2.
  split_and!; [done..|by etrans].
Qed.

(** C27: nothing stays fragmented.  Build an arena from a valid geometry and
    run any sequence of allocations of at most [2^63] bytes and releases, one
    call at a time and the blocks given back in any order: no call panics, and
    whenever nothing is outstanding the arena has coalesced completely, into one
    free block of the maximal order and none of any other; the summary says so,
    and the whole arena is again allocatable.  (Releases that overlap can miss a
    merge: [BuddyConc.conc_missed_merge].) *)
Theorem buddy_full_coalesce {P : Profile} {PF : Platform} {GA : GlobalAlloc} {m}
    (b : BuddyArenaBuilder m) waker w bd w0 ops :
  PlatformLaws PF → GlobalAllocLaws GA → geometry_valid (bb_geometry b) →
  match bc_page_size (bb_config b) with PSize n => 0 < n ≤ usize_MAX | _ => True end →
  build_buddy b waker w = Ret (Ok (bd, w0)) → Forall buddy_op_ok ops →
  ∃ bd' w' A, buddy_run (bd, w0, []) ops = Ret (bd', w', A) ∧
    bd_total_size bd' = total_size (bb_geometry b) ∧ bd_max_order bd' = max_order (bb_geometry b) ∧
    (A = [] → coalesced bd').
Proof.
  intros PL GL Hg Hps Hb Hops. pose proof (build_buddy_ok b waker w PL GL Hg Hps) as H. rewrite Hb in H.
  destruct H as ((_ & Ht & _ & Hm & _) & Hinv & _).
  destruct (buddy_run_inv bd w0 [] ops Hinv Hops) as (bd' & w' & A & Hrun & Hi & (bms & ne & mt & z & ->)).
  exists (bd_set bd bms ne mt z), w', A. split_and!; [done..|]. intros ->. by eapply coalesced_empty.
Qed.

(** Two blocks taken out of the arena, which splits it down to order 0, and
    given back in the order they were taken. *)
Lemma buddy_full_coalesce_witness :
  ∃ bd w0 bd' w',
    @build_buddy dev demo_platform demo_alloc Standard demo_buddy_builder true (mkWorld ∅ []) =
      Ret (Ok (bd, w0)) ∧
    @buddy_run dev (bd, w0, []) [BAllocate 700; BAllocate 100; BRelease 1; BRelease 0] = Ret (bd', w', []) ∧
    @largest_free_block dev bd' = Ret 4096.
Proof.
  assert (Hk : match @build_buddy dev demo_platform demo_alloc Standard demo_buddy_builder true (mkWorld ∅ []) with
               | Ret (Ok (bd, w0)) =>
                   match @buddy_run dev (bd, w0, []) [BAllocate 700; BAllocate 100; BRelease 1; BRelease 0] with
                   | Ret (_, _, []) => true | _ => false end
               | _ => false end = true) by (vm_compute; reflexivity).
  destruct (@build_buddy dev demo_platform demo_alloc Standard demo_buddy_builder true (mkWorld ∅ []))
    as [[e|[bd w0]]| |] eqn:Eb; [discriminate Hk| |discriminate Hk|discriminate Hk].
  destruct (@buddy_full_coalesce dev demo_platform demo_alloc Standard demo_buddy_builder true (mkWorld ∅ [])
    bd w0 [BAllocate 700; BAllocate 100; BRelease 1; BRelease 0] demo_platform_laws demo_alloc_laws
    demo_geometry_valid I Eb) as (bd' & w' & A & Hrun & Ht & _ & Hc).
  { repeat constructor; simpl; lia. }
  rewrite Hrun in Hk. destruct A as [|x A]; [|discriminate Hk].
  exists bd, w0, bd', w'. split; [reflexivity|]. split; [exact Hrun|].
  destruct (Hc eq_refl) as (_ & _ & Hl & _). rewrite Hl, Ht. reflexivity.
Defined.

(** C39: a request above [2^63] bytes is not reported as [RequestTooLarge].
    [next_power_of_two] overflows on it: with overflow checks [allocate]
    panics; without, the order computed for it lies past every order, so the
    answer is [ArenaFull], an error that asks the caller to try again. *)
Theorem buddy_huge_request {B : BytesLib} bd w A len :
  buddy_inv bd w A → 2 ^ 63 < len ≤ usize_MAX →
  bd_total_size bd < len ∧ @buddy_allocate dev B bd w len = Panic ∧
  @buddy_allocate release B bd w len =
    Ret (Err ArenaFull, bd_set_metrics bd (record_alloc_failure (bd_metrics bd)), w).
Proof.
  intros Hinv Hlen. pose proof (bi_geo _ _ _ Hinv) as Hg. split.
  - rewrite (bg_total _ Hg). destruct Hg.
    pose proof (pow2_mono (bd_unit_log bd + bd_max_order bd) 63 ltac:(lia)). lia.
  - unfold buddy_allocate. by rewrite !(buddy_claim_huge _ _ _ _ Hinv Hlen).
Qed.

Lemma buddy_huge_request_witness :
  bd_total_size demo_buddy < usize_MAX ∧
  @buddy_allocate dev list_bytes demo_buddy (mkWorld ∅ []) usize_MAX = Panic.
Proof.
  destruct (@buddy_huge_request list_bytes demo_buddy (mkWorld ∅ []) [] usize_MAX
              (demo_buddy_inv _) ltac:(ulia)) as (H1 & H2 & _).
  split; [exact H1|exact H2].
Defined.
