(* ===== verification/BuddyConc.v ===== *)
(** * [src/buddy.rs]: threads that allocate and release at the same time

    [allocate] (scan, claim, split) and [release_block] (merge, publish, free)
    as sequences of accesses to the shared bitmaps and summary word,
    interleaved at will between any number of threads.  What a thread learns
    from loads may be stale: the summary word it starts from, the slots its
    scan comes across, and the answer of [any_free] are carried by the events
    and tied to nothing.  Claims and frees are the atomic read-modify-writes of
    [Bitmap].  Counters and zeroing are left out: they touch neither bitmap nor
    summary. *)

From stdpp Require Import prelude numbers list gmap.
From S2P Require Import Prelude Tasks Usize Errors Bitmap BitmapRange Geometry SlotSpec Metrics.
From S2P Require Import Memory Config Buffer FixedArena FixedProps BuddyTiling Buddy BuddyCore.
From S2P Require Import BuddyArena BuddyProps.
Local Open Scope Z_scope.

(** ** Threads *)

(** Where a thread is.  In [allocate]: before the orders left to scan; after a
    claim, at the [any_free] of [maybe_clear_summary], then at its [fetch_and];
    at the test of the split loop, and between the [fetch_or] and the [free] of
    its body.  In [release_block]: at the test of the merge loop; after a claim
    of the buddy, at the [any_free] and the [fetch_and]; at the [fetch_or] and
    at the [free] that publish the merged block. *)
Inductive bpc :=
| AScan (target : Z) (summary : option Z) (orders : list Z)
| AAnyFree (target order block_idx : Z)
| AClear (target order block_idx : Z)
| ASplit (target order block_idx : Z)
| ASplitFree (target order block_idx : Z)
| RMerge (order block_idx : Z)
| RAnyFree (order block_idx : Z)
| RClear (order block_idx : Z)
| RPublish (order block_idx : Z)
| RFree (order block_idx : Z).

(** [kc_out]: the blocks handed out and not yet given back. *)
Record bconc := mkBconc {
  kc_max_order : Z;
  kc_bitmaps : list AtomicBitmap;
  kc_nonempty : Z;
  kc_threads : gmap nat bpc;
  kc_out : list block;
}.

Inductive bevent :=
| EAlloc (t : nat) (target bits : Z)
| ETry (t : nat) (hit : option Z)
| EAnyFree (t : nat) (any : bool)
| EStep (t : nat)
| ERelease (t : nat) (order block_idx : Z).

Section exec.
Context {P : Profile}.

Definition kgoto (c : bconc) (t : nat) (pc : bpc) : bconc :=
  mkBconc (kc_max_order c) (kc_bitmaps c) (kc_nonempty c) (<[t := pc]> (kc_threads c)) (kc_out c).

Definition kbitmap (c : bconc) (order : Z) (bm : AtomicBitmap) : bconc :=
  mkBconc (kc_max_order c) (set_index (kc_bitmaps c) order bm) (kc_nonempty c) (kc_threads c) (kc_out c).

Definition ksummary (c : bconc) (ne : Z) : bconc :=
  mkBconc (kc_max_order c) (kc_bitmaps c) ne (kc_threads c) (kc_out c).

Definition kdone (c : bconc) (t : nat) (out : list block) : bconc :=
  mkBconc (kc_max_order c) (kc_bitmaps c) (kc_nonempty c) (delete t (kc_threads c)) out.

Definition scan_orders (c : bconc) (target : Z) : list Z := seqZ target (kc_max_order c - target + 1).

(** [nonempty_orders.fetch_or(1 << order)] and [fetch_and(!(1 << order))]. *)
Definition k_fetch_or (c : bconc) (order : Z) : outcome bconc :=
  let! mask := usz_shl 1 order in Ret (ksummary c (Z.lor (kc_nonempty c) mask)).

Definition k_fetch_and (c : bconc) (order : Z) : outcome bconc :=
  let! mask := usz_shl 1 order in Ret (ksummary c (Z.land (kc_nonempty c) (unot mask))).

(** The claim of one slot, and the free of one. *)
Definition k_claim (c : bconc) (order slot : Z) : outcome (bool * bconc) :=
  let! bm := index (kc_bitmaps c) order in
  let! (got, bm') := try_claim_exact bm slot in
  Ret (got, kbitmap c order bm').

Definition k_free (c : bconc) (order slot : Z) : outcome bconc :=
  let! bm := index (kc_bitmaps c) order in
  let! bm' := bitmap_free bm slot in
  Ret (kbitmap c order bm').

(** The next thing the [try_alloc] of the scan does: it gives the order up, or
    claims the slot it came across, and goes on when another thread was
    faster. *)
Definition exec_try (c : bconc) (t : nat) (hit : option Z) : outcome (option bconc) :=
  match kc_threads c !! t with
  | Some (AScan target summary []) =>
      match summary with
      | Some _ => Ret (Some (kgoto c t (AScan target None (scan_orders c target))))
      | None => Ret (Some (kdone c t (kc_out c)))
      end
  | Some (AScan target summary (order :: orders)) =>
      let! skip :=
        (match summary with
         | Some bits => let! mask := usz_shl 1 order in Ret (Z.land bits mask =? 0)
         | None => Ret false
         end) in
      match (skip : bool), hit with
      | true, _ | false, None => Ret (Some (kgoto c t (AScan target summary orders)))
      | false, Some slot =>
          let! bm := index (kc_bitmaps c) order in
          if (0 <=? slot) && (slot <? slot_count bm) then
            let! (got, c) := k_claim c order slot in
            Ret (Some (if got then kgoto c t (AAnyFree target order slot) else c))
          else Ret None
      end
  | _ => Ret None
  end.

(** After a claim: [maybe_clear_summary] and the loop of [split_down]. *)
Definition exec_split (c : bconc) (t : nat) (pc : bpc) : outcome (option bconc) :=
  match pc with
  | AClear target order block_idx =>
      let! c := k_fetch_and c order in
      Ret (Some (kgoto c t (ASplit target order block_idx)))
  | ASplit target order block_idx =>
      if target <? order then
        let! child_order := usz_sub order 1 in
        let! c := k_fetch_or c child_order in
        Ret (Some (kgoto c t (ASplitFree target order block_idx)))
      else Ret (Some (kdone c t ((order, block_idx) :: kc_out c)))
  | ASplitFree target order block_idx =>
      let! child_order := usz_sub order 1 in
      let! left_child := usz_mul block_idx 2 in
      let! right_child := usz_add left_child 1 in
      let! c := k_free c child_order right_child in
      Ret (Some (kgoto c t (ASplit target child_order left_child)))
  | _ => Ret None
  end.

(** The merge loop of [release_block] and what follows it. *)
Definition exec_release (c : bconc) (t : nat) (pc : bpc) : outcome (option bconc) :=
  match pc with
  | RMerge order block_idx =>
      if order <? kc_max_order c then
        let! (got, c) := k_claim c order (Z.lxor block_idx 1) in
        Ret (Some (kgoto c t (if got then RAnyFree order block_idx else RPublish order block_idx)))
      else Ret (Some (kgoto c t (RPublish order block_idx)))
  | RClear order block_idx =>
      let! c := k_fetch_and c order in
      let! parent := usz_add order 1 in
      Ret (Some (kgoto c t (RMerge parent (block_idx / 2))))
  | RPublish order block_idx =>
      let! c := k_fetch_or c order in
      Ret (Some (kgoto c t (RFree order block_idx)))
  | RFree order block_idx =>
      let! c := k_free c order block_idx in
      Ret (Some (kdone c t (kc_out c)))
  | _ => Ret None
  end.

(** The accesses whose outcome depends on the shared state alone. *)
Definition exec_step (c : bconc) (t : nat) : outcome (option bconc) :=
  match kc_threads c !! t with
  | Some pc =>
      match pc with
      | RMerge _ _ | RClear _ _ | RPublish _ _ | RFree _ _ => exec_release c t pc
      | _ => exec_split c t pc
      end
  | None => Ret None
  end.

(** One event; [Ret None] when it is not enabled. *)
Definition bexec_event (c : bconc) (e : bevent) : outcome (option bconc) :=
  match e with
  | EAlloc t target bits =>
      match kc_threads c !! t with
      | None =>
          if (0 <=? target) && (target <=? kc_max_order c) && (0 <=? bits) && (bits <=? usize_MAX)
          then Ret (Some (kgoto c t (AScan target (Some bits) (scan_orders c target))))
          else Ret None
      | Some _ => Ret None
      end
  | ETry t hit => exec_try c t hit
  | EAnyFree t any =>
      match kc_threads c !! t with
      | Some (AAnyFree target order block_idx) =>
          Ret (Some (kgoto c t (if any then ASplit target order block_idx else AClear target order block_idx)))
      | Some (RAnyFree order block_idx) =>
          if any then
            let! parent := usz_add order 1 in Ret (Some (kgoto c t (RMerge parent (block_idx / 2))))
          else Ret (Some (kgoto c t (RClear order block_idx)))
      | _ => Ret None
      end
  | EStep t => exec_step c t
  | ERelease t order block_idx =>
      match kc_threads c !! t, remove_one (order, block_idx) (kc_out c) with
      | None, Some out =>
          Ret (Some (mkBconc (kc_max_order c) (kc_bitmaps c) (kc_nonempty c)
                       (<[t := RMerge order block_idx]> (kc_threads c)) out))
      | _, _ => Ret None
      end
  end.

(** An event that is not enabled is skipped. *)
Fixpoint bexec_events (c : bconc) (es : list bevent) : outcome bconc :=
  match es with
  | [] => Ret c
  | e :: es' => let! r := bexec_event c e in bexec_events (default c r) es'
  end.

(** A fresh arena: one free block of the top order. *)
Definition bconc_new (max_order : Z) : outcome bconc :=
  let! bms := new_free_bitmaps max_order in
  let! ne := usz_shl 1 max_order in
  Ret (mkBconc max_order bms ne ∅ []).
End exec.

(** ** The invariant *)

(** The block a thread has in its hands. *)
Definition pc_block (pc : bpc) : option block :=
  match pc with
  | AScan _ _ _ => None
  | AAnyFree _ o i | AClear _ o i | ASplit _ o i | ASplitFree _ o i => Some (o, i)
  | RMerge o i | RPublish o i | RFree o i => Some (o, i)
  | RAnyFree o i | RClear o i => Some (o + 1, i / 2)
  end.

Definition pc_ok (m : Z) (pc : bpc) : Prop :=
  match pc with
  | AScan target _ orders => 0 ≤ target ≤ m ∧ Forall (λ o, 0 ≤ o ≤ m) orders
  | AAnyFree target _ _ | AClear target _ _ | ASplit target _ _ => 0 ≤ target
  | ASplitFree target o _ => 0 ≤ target < o
  | RAnyFree o _ | RClear o _ => 0 ≤ o < m
  | RMerge _ _ | RPublish _ _ | RFree _ _ => True
  end.

(** Every block somebody has: handed out, or in the hands of a thread. *)
Definition owned_blocks (c : bconc) : list block := kc_out c ++ held pc_block (kc_threads c).

Record bconc_inv (m : Z) (F : gset block) (c : bconc) : Prop := {
  ki_max : kc_max_order c = m;
  ki_bitmaps : bitmaps_hold m (kc_bitmaps c) F;
  ki_part : partition m F (owned_blocks c);
  ki_pcs : ∀ t pc, kc_threads c !! t = Some pc → pc_ok m pc;
}.

Lemma partition_perm m F A A' : A ≡ₚ A' → partition m F A → partition m F A'.
Proof.
  intros Hp [Ht Hnd Hsep]. split.
  - eapply tiles_proper; [|exact Ht]. intros b. unfold live. by rewrite Hp.
  - by rewrite <- Hp.
  - intros b Hb. apply Hsep. by rewrite Hp.
Qed.

(** ** Accesses *)

Section accesses.
Context {P : Profile}.

Lemma k_claim_ok m F c o i :
  bitmaps_hold m (kc_bitmaps c) F → 0 ≤ o ≤ m → 0 ≤ i < 2 ^ (m - o) →
  ∃ bm bm', index (kc_bitmaps c) o = Ret bm ∧ slot_count bm = 2 ^ (m - o) ∧
    k_claim c o i = Ret (bool_decide ((o, i) ∈ F), kbitmap c o bm') ∧
    bitmaps_hold m (kc_bitmaps (kbitmap c o bm')) (F ∖ {[(o, i)]}).
Proof.
  intros Hb Ho Hi. destruct (bitmaps_lookup _ _ _ o Hb Ho) as (bm & Hix & Hwf & Hc & Hbits).
  destruct (try_claim_exact_ok bm i Hwf) as (bm' & Hcl & Hwf' & Hc' & Hb'); [by rewrite Hc|].
  exists bm, bm'. split_and!; [done|done|..].
  - unfold k_claim. rewrite Hix. cbn [obind]. rewrite Hcl. cbn [obind]. do 2 f_equal.
    specialize (Hbits i ltac:(lia)). destruct (bit bm i); [by rewrite bool_decide_true by (by apply Hbits)|].
    symmetry. apply bool_decide_false. intros Hin%Hbits. done.
  - apply (bitmaps_update _ _ F); [done|done| |set_solver]. split_and!; [done|congruence|].
    intros j Hj. rewrite Hb', andb_true_iff, negb_true_iff, bool_decide_eq_false, Hbits by done.
    rewrite elem_of_difference, elem_of_singleton. naive_solver.
Qed.

Lemma k_free_ok m F c o i :
  bitmaps_hold m (kc_bitmaps c) F → in_arena m (o, i) → (o, i) ∉ F →
  ∃ bm', k_free c o i = Ret (kbitmap c o bm') ∧
    bitmaps_hold m (kc_bitmaps (kbitmap c o bm')) ({[(o, i)]} ∪ F).
Proof.
  intros Hb [Ho Hi] Hn. simpl in *. destruct (bitmaps_lookup _ _ _ o Hb Ho) as (bm & Hix & Hwf & Hc & Hbits).
  destruct (bitmap_free_ok bm i Hwf) as (bm' & Hfree & Hwf' & Hc' & Hb').
  { by rewrite Hc. }
  { apply not_true_is_false. by rewrite Hbits by lia. }
  exists bm'. unfold k_free. rewrite Hix. cbn [obind]. rewrite Hfree. split; [done|].
  apply (bitmaps_update _ _ F); [done|done| |set_solver]. split_and!; [done|congruence|].
  intros j Hj. rewrite Hb', orb_true_iff, bool_decide_eq_true, Hbits by done.
  rewrite elem_of_union, elem_of_singleton. naive_solver.
Qed.

(** A thread moves on: what it had in its hands against what it has now. *)
Lemma owned_goto c t pc pc' :
  kc_threads c !! t = Some pc →
  owned_blocks c ≡ₚ option_list (pc_block pc) ++ owned_blocks (kdone c t (kc_out c)) ∧
  owned_blocks (kgoto c t pc') ≡ₚ option_list (pc_block pc') ++ owned_blocks (kdone c t (kc_out c)).
Proof.
  intros Ht. unfold owned_blocks. simpl. split.
  - rewrite (held_delete pc_block _ _ _ Ht). by rewrite !app_assoc, (Permutation_app_comm (kc_out c)).
  - rewrite <- insert_delete_eq, held_insert by apply lookup_delete_eq.
    by rewrite !app_assoc, (Permutation_app_comm (kc_out c)).
Qed.

Lemma pcs_goto m c t pc' :
  (∀ t pc, kc_threads c !! t = Some pc → pc_ok m pc) → pc_ok m pc' →
  ∀ t' pc, <[t := pc']> (kc_threads c) !! t' = Some pc → pc_ok m pc.
Proof. intros Hpcs Hok t' pc [[_ <-]|[_ Ht]]%lookup_insert_Some; [done|by eapply Hpcs]. Qed.

(** The invariant after a step that changes the free set, the summary and what
    one thread holds. *)
Lemma bconc_inv_goto m F c t pc F' bms ne pc' :
  bconc_inv m F c → kc_threads c !! t = Some pc → bitmaps_hold m bms F' → pc_ok m pc' →
  (∀ A, partition m F (option_list (pc_block pc) ++ A) → partition m F' (option_list (pc_block pc') ++ A)) →
  bconc_inv m F' (mkBconc (kc_max_order c) bms ne (<[t := pc']> (kc_threads c)) (kc_out c)).
Proof.
  intros [Hm Hb Hp Hpcs] Ht Hb' Hok Hmove. destruct (owned_goto c t pc pc' Ht) as [H1 H2].
  split; simpl; [done|done| |by apply pcs_goto].
  eapply partition_perm; [symmetry; exact H2|]. apply Hmove. by eapply partition_perm.
Qed.

Lemma bconc_inv_done m F c t pc F' bms ne out :
  bconc_inv m F c → kc_threads c !! t = Some pc → bitmaps_hold m bms F' →
  (∀ A, partition m F (option_list (pc_block pc) ++ kc_out c ++ A) → partition m F' (out ++ A)) →
  bconc_inv m F' (mkBconc (kc_max_order c) bms ne (delete t (kc_threads c)) out).
Proof.
  intros [Hm Hb Hp Hpcs] Ht Hb' Hmove. destruct (owned_goto c t pc pc Ht) as [H1 _].
  split; simpl; [done|done| |intros t' pc' [_ Ht']%lookup_delete_Some; by eapply Hpcs].
  unfold owned_blocks. simpl. apply Hmove. eapply partition_perm; [|exact Hp]. exact H1.
Qed.

(** A thread's block is in the arena. *)
Lemma pc_in_arena m F c t pc b :
  bconc_inv m F c → kc_threads c !! t = Some pc → pc_block pc = Some b → in_arena m b ∧ b ∉ F.
Proof.
  intros [Hm Hb Hp Hpcs] Ht Hpc. destruct (owned_goto c t pc pc Ht) as [H1 _]. rewrite Hpc in H1. simpl in H1.
  assert (Hin : b ∈ owned_blocks c) by (rewrite H1; by left).
  split; [|by apply (pa_sep _ _ _ Hp)]. apply (ti_range _ _ (pa_tiles _ _ _ Hp)). by right.
Qed.
End accesses.

(** ** Every event keeps the invariant *)

Section events.
Context {P : Profile}.

(** What an event must lead to. *)
Definition event_ok (m : Z) (c : bconc) (r : outcome (option bconc)) : Prop :=
  ∃ x, r = Ret x ∧ ∃ F, bconc_inv m F (default c x).

Lemma event_skip m F c : bconc_inv m F c → event_ok m c (Ret None).
Proof. intros Hi. exists None. split; [done|]. by exists F. Qed.

Lemma k_fetch_or_ok c o : 0 ≤ o < 63 → ∃ ne, k_fetch_or c o = Ret (ksummary c ne).
Proof. intros Ho. unfold k_fetch_or. rewrite usz_shl_1 by lia. by eexists. Qed.

Lemma k_fetch_and_ok c o : 0 ≤ o < 63 → ∃ ne, k_fetch_and c o = Ret (ksummary c ne).
Proof. intros Ho. unfold k_fetch_and. rewrite usz_shl_1 by lia. by eexists. Qed.

(** A step of a thread that leaves the bitmaps alone and keeps its block. *)
Lemma event_move m F c t pc pc' ne :
  bconc_inv m F c → kc_threads c !! t = Some pc → pc_ok m pc' → pc_block pc' = pc_block pc →
  event_ok m c (Ret (Some (kgoto (ksummary c ne) t pc'))).
Proof.
  intros Hi Ht Hok Hb. eexists. split; [done|]. exists F. simpl.
  eapply (bconc_inv_goto m F c t pc); [done|done|apply Hi|done|]. by rewrite Hb.
Qed.

Lemma ksummary_id c : ksummary c (kc_nonempty c) = c.
Proof. by destruct c. Qed.

Lemma event_move' m F c t pc pc' :
  bconc_inv m F c → kc_threads c !! t = Some pc → pc_ok m pc' → pc_block pc' = pc_block pc →
  event_ok m c (Ret (Some (kgoto c t pc'))).
Proof. rewrite <- (ksummary_id c) at 4. apply event_move. Qed.

Lemma scan_orders_ok m c target :
  kc_max_order c = m → 0 ≤ target ≤ m → Forall (λ o, 0 ≤ o ≤ m) (scan_orders c target).
Proof. intros <- Ht. unfold scan_orders. apply Forall_seqZ. lia. Qed.

Lemma exec_try_ok m F c t hit : m < 63 → bconc_inv m F c → event_ok m c (exec_try c t hit).
Proof.
  intros Hm Hi. pose proof Hi as [Hmax Hb Hp Hpcs]. unfold exec_try.
  destruct (kc_threads c !! t) as [[target summary orders| | | | | | | | |]|] eqn:Et;
    try by apply (event_skip m F).
  pose proof (Hpcs _ _ Et) as [Htg Hord]. simpl in Hord.
  destruct orders as [|o orders].
  { destruct summary as [bits|].
    - eapply event_move'; [done|done|split; [done|by apply scan_orders_ok]|done].
    - eexists. split; [done|]. exists F. simpl. eapply (bconc_inv_done m F c t); [done|done|done|]. done. }
  apply Forall_cons in Hord as [Ho Hord].
  assert (Hskip : ∃ skip, (match summary with
         | Some bits => let! mask := usz_shl 1 o in Ret (Z.land bits mask =? 0)
         | None => Ret false
         end) = Ret skip).
  { destruct summary; [rewrite usz_shl_1 by lia|]; by eexists. }
  destruct Hskip as [skip ->]. cbn [obind].
  assert (Hnext : event_ok m c (Ret (Some (kgoto c t (AScan target summary orders)))))
    by (by eapply event_move').
  destruct skip, hit as [slot|]; try done.
  destruct (bitmaps_lookup _ _ _ o Hb Ho) as (bm & Hix & _ & Hc & _). rewrite Hix. cbn [obind].
  destruct ((0 <=? slot) && (slot <? slot_count bm)) eqn:Es; [|by apply (event_skip m F)].
  apply andb_true_iff in Es as [Hs1%Z.leb_le Hs2%Z.ltb_lt]. rewrite Hc in Hs2.
  destruct (k_claim_ok m F c o slot Hb Ho ltac:(lia)) as (bm0 & bm' & _ & _ & -> & Hb'). cbn [obind].
  eexists. split; [done|]. case_bool_decide as Hin; simpl.
  - exists (F ∖ {[(o, slot)]}). eapply (bconc_inv_goto m F c t); [done|done|done|simpl; lia|].
    intros A HA. by apply part_claim.
  - exists F. replace (F ∖ {[(o, slot)]}) with F in Hb' by set_solver. by split.
Qed.

Lemma exec_step_ok m F c t : m < 63 → bconc_inv m F c → event_ok m c (exec_step c t).
Proof.
  intros Hm Hi. pose proof Hi as [Hmax Hb Hp Hpcs]. unfold exec_step, exec_split, exec_release.
  destruct (kc_threads c !! t) as [pc|] eqn:Et; [|by apply (event_skip m F)].
  pose proof (Hpcs _ _ Et) as Hok.
  assert (Hblk : ∀ b, pc_block pc = Some b → in_arena m b ∧ b ∉ F) by (intros b; by eapply pc_in_arena).
  destruct pc as [target summary orders|target o i|target o i|target o i|target o i|o i|o i|o i|o i|o i];
    try by apply (event_skip m F).
  - (* the summary bit of a claimed block *)
    destruct (Hblk _ eq_refl) as [[Ho _] _]. simpl in Ho. destruct (k_fetch_and_ok c o) as [ne ->]; [lia|].
    by eapply event_move.
  - (* the split loop *)
    destruct (Hblk _ eq_refl) as [[Ho Hir] _]. simpl in *. destruct (Z.ltb_spec target o) as [Hlt|Hge].
    + rewrite usz_sub_ok by ulia. cbn [obind]. destruct (k_fetch_or_ok c (o - 1)) as [ne ->]; [lia|].
      eapply event_move; [done|done|simpl; lia|done].
    + eexists. split; [done|]. exists F. simpl. eapply (bconc_inv_done m F c t); [done|done|done|]. done.
  - (* the right half of a split *)
    destruct (Hblk _ eq_refl) as [Hin HnF]. pose proof Hin as [Ho Hir]. simpl in *.
    assert (Hi0 : 0 ≤ i < 2 ^ 63) by (pose proof (pow2_mono (m - o) 63 ltac:(lia)); lia).
    rewrite usz_sub_ok by ulia. cbn [obind]. rewrite usz_mul_ok by ulia. cbn [obind].
    rewrite usz_add_ok by ulia. cbn [obind].
    assert (Hin' : in_arena m (o - 1, i * 2 + 1)) by (apply (in_arena_child m o i); [done|lia|lia]).
    assert (Hsplit : ∀ A, partition m F ((o, i) :: A) →
      partition m ({[(o - 1, i * 2 + 1)]} ∪ F) ((o - 1, i * 2) :: A)).
    { intros A HA. rewrite (Z.mul_comm i 2). apply part_split; [done|lia]. }
    assert (Hnew : (o - 1, i * 2 + 1) ∉ F).
    { intros Hbad. destruct (owned_goto c t _ (RFree 0 0) Et) as [H1 _]. simpl in H1.
      eapply (part_children m F (owned_blocks (kdone c t (kc_out c))) o i (o - 1, i * 2 + 1));
        [by eapply partition_perm|lia|by left|right; f_equal; lia]. }
    destruct (k_free_ok m F c (o - 1) (i * 2 + 1) Hb Hin' Hnew) as (bm' & -> & Hb'). cbn [obind].
    eexists. split; [done|]. exists ({[(o - 1, i * 2 + 1)]} ∪ F). simpl.
    eapply (bconc_inv_goto m F c t); [done|done|done|simpl; lia|]. exact Hsplit.
  - (* the merge loop *)
    destruct (Hblk _ eq_refl) as [Hin HnF]. pose proof Hin as [Ho Hir]. simpl in *. rewrite Hmax.
    destruct (Z.ltb_spec o m) as [Hlt|Hge]; [|by eapply event_move'].
    destruct (buddy_pair i) as (Hx0 & Hx2 & _ & _ & _); [lia|].
    assert (Hxr : 0 ≤ Z.lxor i 1 < 2 ^ (m - o)).
    { replace (m - o) with (m - o - 1 + 1) in * by lia. rewrite Z.pow_add_r in * by lia. lia. }
    destruct (k_claim_ok m F c o (Z.lxor i 1) Hb Ho Hxr) as (bm0 & bm' & _ & _ & -> & Hb'). cbn [obind].
    eexists. split; [done|]. case_bool_decide as Hbud; simpl.
    + exists (F ∖ {[(o, Z.lxor i 1)]}). eapply (bconc_inv_goto m F c t); [done|done|done|simpl; lia|].
      intros A HA. by apply part_merge.
    + exists F. replace (F ∖ {[(o, Z.lxor i 1)]}) with F in Hb' by set_solver.
      eapply (bconc_inv_goto m F c t); done.
  - (* the summary bit of a claimed buddy *)
    simpl in Hok. destruct (k_fetch_and_ok c o) as [ne ->]; [lia|]. cbn [obind].
    rewrite usz_add_ok by ulia. by eapply event_move.
  - (* publishing *)
    destruct (Hblk _ eq_refl) as [[Ho _] _]. simpl in Ho. destruct (k_fetch_or_ok c o) as [ne ->]; [lia|].
    by eapply event_move.
  - destruct (Hblk _ eq_refl) as [Hin HnF]. destruct (k_free_ok m F c o i Hb Hin HnF) as (bm' & -> & Hb').
    cbn [obind]. eexists. split; [done|]. exists ({[(o, i)]} ∪ F). simpl.
    eapply (bconc_inv_done m F c t); [done|done|done|]. intros A HA. by apply part_release.
Qed.

Lemma bexec_event_ok m F c e : m < 63 → bconc_inv m F c → event_ok m c (bexec_event c e).
Proof.
  intros Hm Hi. pose proof Hi as [Hmax Hb Hp Hpcs].
  destruct e as [t target bits|t hit|t any|t|t o i]; simpl.
  - destruct (kc_threads c !! t) as [pc|] eqn:Et; [by apply (event_skip m F)|].
    destruct (_ && _) eqn:Eg; [|by apply (event_skip m F)]. rewrite Hmax, !andb_true_iff, !Z.leb_le in Eg.
    eexists. split; [done|]. exists F. split; simpl; [done|done| |].
    + eapply partition_perm; [|exact Hp]. unfold owned_blocks. simpl. by rewrite held_insert.
    + apply pcs_goto; [done|]. split; [lia|]. apply scan_orders_ok; [done|lia].
  - by eapply exec_try_ok.
  - destruct (kc_threads c !! t) as [pc|] eqn:Et; [|by apply (event_skip m F)]. pose proof (Hpcs _ _ Et) as Hok.
    destruct pc as [| target o i | | | | | o i | | |]; try by apply (event_skip m F).
    + destruct any; by eapply event_move'.
    + simpl in Hok. destruct any; [rewrite usz_add_ok by ulia; cbn [obind]|]; by eapply event_move'.
  - by eapply exec_step_ok.
  - destruct (kc_threads c !! t) as [pc|] eqn:Et; [by apply (event_skip m F)|].
    destruct (remove_one (o, i) (kc_out c)) as [out|] eqn:Er; [|by apply (event_skip m F)].
    eexists. split; [done|]. exists F. split; simpl; [done|done| |by apply pcs_goto].
    eapply partition_perm; [|exact Hp]. unfold owned_blocks. simpl. rewrite held_insert by done.
    rewrite (remove_one_perm _ _ _ Er). simpl. by rewrite Permutation_middle.
Qed.

Lemma bexec_events_ok m F c es :
  m < 63 → bconc_inv m F c → ∃ c' F', bexec_events c es = Ret c' ∧ bconc_inv m F' c'.
Proof.
  intros Hm. revert c F. induction es as [|e es IH]; intros c F Hi; simpl; [by exists c, F|].
  destruct (bexec_event_ok m F c e Hm Hi) as (x & -> & F' & Hi'). cbn [obind]. by eapply IH.
Qed.

Lemma bconc_new_ok m : 0 ≤ m < 63 → ∃ c, bconc_new m = Ret c ∧ bconc_inv m {[(m, 0)]} c.
Proof.
  intros Hm. unfold bconc_new. destruct (new_free_bitmaps_ok m Hm) as (bms & -> & Hb). cbn [obind].
  rewrite usz_shl_1 by lia. cbn [obind]. eexists. split; [done|]. split; simpl; try done.
  by destruct (proj1 (tiling_partition m {[(m, 0)]} []) (tiling_init m ltac:(lia))).
Qed.
End events.

(** The blocks marked free in the bitmaps. *)
Definition marked_free (c : bconc) (b : block) : Prop :=
  ∃ bm, kc_bitmaps c !! Z.to_nat b.1 = Some bm ∧ bit bm b.2 = true.

(** C9: blocks are exclusive under concurrency.  On a fresh arena of any order
    below 63, whatever threads allocate, split, merge and release in whatever
    interleaving and however stale their loads are, no access panics, and every
    unit of the arena is in exactly one place: in one free block, in one block
    that was handed out, or in the one block some thread has in its hands.  So
    no two outstanding blocks overlap, none overlaps a free one, and nothing is
    lost. *)
Theorem conc_blocks_exclusive {P : Profile} m es :
  0 ≤ m < 63 →
  ∃ c0 c, bconc_new m = Ret c0 ∧ bexec_events c0 es = Ret c ∧ NoDup (owned_blocks c) ∧
    (∀ b, b ∈ owned_blocks c → in_arena m b ∧ ¬ marked_free c b) ∧
    ∀ u, 0 ≤ u < 2 ^ m →
      ∃ b, (b ∈ owned_blocks c ∨ in_arena m b ∧ marked_free c b) ∧ spans b u ∧
        ∀ b', (b' ∈ owned_blocks c ∨ in_arena m b' ∧ marked_free c b') → spans b' u → b' = b.
Proof.
  intros Hm. destruct (bconc_new_ok m Hm) as (c0 & Hnew & Hi0).
  destruct (bexec_events_ok m _ c0 es ltac:(lia) Hi0) as (c & F & Hrun & Hi). exists c0, c.
  pose proof Hi as [Hmax Hb [Ht Hnd Hsep] _].
  assert (Hfree : ∀ b, in_arena m b → marked_free c b ↔ b ∈ F).
  { intros [o i] [Ho Hir]. simpl in *. destruct (proj2 Hb o Ho) as (bm & Hbm & _ & _ & Hbits).
    rewrite <- Hbits by lia. unfold marked_free. simpl. split; [intros (bm' & ? & ?); by simplify_eq|by exists bm]. }
  assert (HL : ∀ b, b ∈ owned_blocks c ∨ in_arena m b ∧ marked_free c b ↔ live F (owned_blocks c) b).
  { intros b. unfold live. split.
    - intros [Hb'|[Hin Hf]]; [by right|left; by apply Hfree].
    - intros [Hb'|Hb']; [|by left]. right. assert (Hin := ti_range _ _ Ht b (or_introl Hb')).
      split; [done|by apply Hfree]. }
  split_and!; [done|done|done|..].
  - intros b Hin. assert (Har := ti_range _ _ Ht b (or_intror Hin)). split; [done|].
    rewrite Hfree by done. by apply Hsep.
  - intros u Hu. destruct (ti_cover _ _ Ht u Hu) as (b & Hlb & Hs). exists b. split_and!; [by apply HL|done|].
    intros b' Hb' Hs'. eapply (ti_disj _ _ Ht); [by apply HL|done|exact Hs'|done].
Qed.

(** Two threads take the two halves of an arena of order 1, the second after a
    stale summary word and a lost claim. *)
Definition take_halves : list bevent :=
  [EAlloc 1 0 2; EAlloc 2 0 2; ETry 1 None; ETry 1 (Some 0); EAnyFree 1 false; EStep 1; EStep 1; EStep 1; EStep 1;
   ETry 2 None; ETry 2 None; ETry 2 None; ETry 2 (Some 0); ETry 2 (Some 1); EAnyFree 2 true; EStep 2].

Lemma conc_blocks_exclusive_witness :
  ∃ c0 c, @bconc_new dev 1 = Ret c0 ∧ @bexec_events dev c0 take_halves = Ret c ∧ NoDup (owned_blocks c).
Proof.
  destruct (@conc_blocks_exclusive dev 1 take_halves ltac:(lia)) as (c0 & c & H1 & H2 & H3 & _).
  exists c0, c. split; [exact H1|]. split; [exact H2|exact H3].
Defined.

(** ** Buddies that are not merged

    The two halves are released at the same time: each release looks for its
    buddy before the other has published it, so both publish a half.  Nothing is
    outstanding, no thread is running, and the block of order 1 is not free: a
    request for it fails. *)
Definition release_halves : list bevent :=
  [ERelease 1 0 0; ERelease 2 0 1; EStep 1; EStep 2; EStep 1; EStep 2; EStep 1; EStep 2].

Definition free_at (c : bconc) (o i : Z) : bool :=
  match kc_bitmaps c !! Z.to_nat o with Some bm => bit bm i | None => false end.

Lemma conc_missed_merge :
  match @bconc_new dev 1 with
  | Ret c0 =>
      match @bexec_events dev c0 (take_halves ++ release_halves) with
      | Ret c =>
          bool_decide (kc_out c = []) && bool_decide (kc_threads c = ∅) &&
          free_at c 0 0 && free_at c 0 1 && negb (free_at c 1 0)
      | _ => false
      end
  | _ => false
  end = true.
Proof. vm_compute. reflexivity. Qed.
