(* ===== verification/ArenaRef.v ===== *)
(** * [src/allocation.rs]: the arena behind a buffer

    [ArenaRef] with [release], [record_frozen] and [record_spill], and the
    interface its clients ([BufferOps], [Lifecycle]) are verified against:
    [ArenaOps] the calls, [ArenaLaws] what an arena promises about them.  The
    theorems of [FixedArena] and [BuddyArena] discharge it. *)

From stdpp Require Import prelude numbers list gmap.
From S2P Require Import Prelude Usize Errors SlotSpec Metrics Memory Config Buffer FixedArena.
From S2P Require Import BuddyTiling Buddy BuddyCore BuddyArena.
Local Open Scope Z_scope.

Inductive ArenaRef :=
| RFixed (inner : ArenaInner)
| RBuddy (inner : BuddyArenaInner).

(** [unreachable!] panics. *)
Definition release {P : Profile} (r : ArenaRef) (w : World) (k : AllocationKind)
    : outcome (ArenaRef * World) :=
  match r, k with
  | RFixed a, KFixed slot_idx =>
      let! (a', w') := fixed_release a w slot_idx in Ret (RFixed a', w')
  | RBuddy bd, KBuddy order block_idx =>
      let! (bd', w') := buddy_release bd w order block_idx in Ret (RBuddy bd', w')
  | _, _ => Panic
  end.

Definition ref_record_frozen (r : ArenaRef) : ArenaRef :=
  match r with
  | RFixed a => RFixed (a_set_metrics a (record_frozen (a_metrics a)))
  | RBuddy bd => RBuddy (bd_set_metrics bd (record_frozen (bd_metrics bd)))
  end.

Definition ref_record_spill (r : ArenaRef) : ArenaRef :=
  match r with
  | RFixed a => RFixed (a_set_metrics a (record_spill (a_metrics a)))
  | RBuddy bd => RBuddy (bd_set_metrics bd (record_spill (bd_metrics bd)))
  end.

(** ** The interface *)

Class ArenaOps (R : Type) := {
  ar_release : R → World → AllocationKind → outcome (R * World);
  ar_frozen : R → R;
  ar_spill : R → R;
}.

(** [ar_inv r w ks]: the arena is in order, [ks] the allocations handed out
    and not yet released.  Allocation [k] is the [ar_size r k] bytes from
    [ar_addr r k]. *)
Class ArenaLaws (R : Type) {O : ArenaOps R} := {
  ar_inv : R → World → list AllocationKind → Prop;
  ar_addr : R → AllocationKind → Z;
  ar_size : R → AllocationKind → Z;
  ar_perm r w ks ks' : ks ≡ₚ ks' → ar_inv r w ks → ar_inv r w ks';
  ar_nodup r w ks : ar_inv r w ks → NoDup ks;
  ar_bounds r w ks k :
    ar_inv r w ks → k ∈ ks →
    0 < ar_addr r k ∧ ar_addr r k + ar_size r k ≤ usize_MAX + 1 ∧ 0 ≤ ar_size r k ≤ isize_MAX;
  ar_disjoint r w ks k k' :
    ar_inv r w ks → k ∈ ks → k' ∈ ks → k ≠ k' →
    disjoint_ranges (ar_addr r k) (ar_size r k) (ar_addr r k') (ar_size r k');
  ar_write r w w' ks k :
    ar_inv r w ks → k ∈ ks → same_outside w w' (ar_addr r k) (ar_size r k) → ar_inv r w' ks;
  ar_release_ok r w ks k :
    ar_inv r w (k :: ks) →
    ∃ r' w', ar_release r w k = Ret (r', w') ∧ ar_inv r' w' ks ∧
      (∀ k', ar_addr r' k' = ar_addr r k' ∧ ar_size r' k' = ar_size r k') ∧
      same_outside w w' (ar_addr r k) (ar_size r k);
  ar_frozen_ok r w ks :
    ar_inv r w ks → ar_inv (ar_frozen r) w ks ∧
      ∀ k, ar_addr (ar_frozen r) k = ar_addr r k ∧ ar_size (ar_frozen r) k = ar_size r k;
  ar_spill_ok r w ks :
    ar_inv r w ks → ar_inv (ar_spill r) w ks ∧
      ∀ k, ar_addr (ar_spill r) k = ar_addr r k ∧ ar_size (ar_spill r) k = ar_size r k;
}.

(** ** Both arenas keep it *)

#[export] Instance ArenaRef_ops {P : Profile} : ArenaOps ArenaRef := {
  ar_release := release;
  ar_frozen := ref_record_frozen;
  ar_spill := ref_record_spill;
}.

Definition kind_of_block (b : block) : AllocationKind := KBuddy b.1 b.2.

#[export] Instance kind_of_block_inj : Inj (=) (=) kind_of_block.
Proof. intros [] [] [= -> ->]. done. Qed.
#[export] Instance KFixed_inj : Inj (=) (=) KFixed.
Proof. by intros ?? [= ->]. Qed.

Definition ref_inv (r : ArenaRef) (w : World) (ks : list AllocationKind) : Prop :=
  match r with
  | RFixed a => ∃ slots, ks = KFixed <$> slots ∧ fixed_inv a w slots
  | RBuddy bd => ∃ A, ks = kind_of_block <$> A ∧ buddy_inv bd w A
  end.

Definition ref_addr (r : ArenaRef) (k : AllocationKind) : Z :=
  match r, k with
  | RFixed a, KFixed s => slot_addr a s
  | RBuddy bd, KBuddy o i => block_addr bd (o, i)
  | _, _ => 0
  end.

Definition ref_size (r : ArenaRef) (k : AllocationKind) : Z :=
  match r, k with
  | RFixed a, KFixed s => a_slot_capacity a
  | RBuddy bd, KBuddy o i => block_len bd (o, i)
  | _, _ => 0
  end.

Section instances.
Context {P : Profile}.

Lemma ref_perm r w ks ks' : ks ≡ₚ ks' → ref_inv r w ks → ref_inv r w ks'.
Proof.
  intros Hp. destruct r as [a|bd]; simpl.
  - intros (slots & -> & Hi). symmetry in Hp. apply Permutation_map_inv in Hp as (slots' & -> & Hp).
    exists slots'. split; [done|]. eapply fixed_inv_perm; [|done]. done.
  - intros (A & -> & Hi). symmetry in Hp. apply Permutation_map_inv in Hp as (A' & -> & Hp).
    exists A'. split; [done|]. eapply buddy_inv_perm; [|done]. done.
Qed.

Lemma buddy_out_arena bd w A b : buddy_inv bd w A → b ∈ A → in_arena (bd_max_order bd) b.
Proof. intros [[F Hco] _ _ _] Hb. by eapply core_range_out. Qed.

Lemma ref_nodup r w ks : ref_inv r w ks → NoDup ks.
Proof.
  destruct r as [a|bd]; simpl; intros (l & -> & Hi); apply NoDup_fmap_2; try apply _.
  - apply (fi_nodup _ _ _ Hi).
  - destruct (bi_core _ _ _ Hi) as [F Hco]. apply (t_nodup _ _ _ (co_tiling _ _ _ Hco)).
Qed.

Lemma ref_bounds r w ks k :
  ref_inv r w ks → k ∈ ks →
  0 < ref_addr r k ∧ ref_addr r k + ref_size r k ≤ usize_MAX + 1 ∧ 0 ≤ ref_size r k ≤ isize_MAX.
Proof.
  destruct r as [a|bd]; simpl; intros (l & -> & Hi) Hk; apply list_elem_of_fmap in Hk as (x & -> & Hx).
  - pose proof (fi_geo _ _ _ Hi) as Hg. pose proof (fi_range _ _ _ Hi) as Hr.
    rewrite Forall_forall in Hr. destruct (slot_in_region a x Hg (Hr _ Hx)). destruct Hg.
    simpl. split_and!; lia || nia.
  - pose proof (bi_geo _ _ _ Hi) as Hg. destruct x as [o i].
    pose proof (buddy_out_arena _ _ _ _ Hi Hx) as Hin.
    destruct (block_in_arena bd (o, i) Hg Hin). pose proof (bg_total _ Hg) as Ht. destruct Hg.
    assert (0 < block_len bd (o, i)) by (unfold block_len; destruct Hin; simpl in *; lia).
    pose proof (pow2_lt_mono (bd_unit_log bd + bd_max_order bd) 63 ltac:(lia)).
    unfold kind_of_block, isize_MAX. simpl. split_and!; lia.
Qed.

Lemma ref_disjoint r w ks k k' :
  ref_inv r w ks → k ∈ ks → k' ∈ ks → k ≠ k' →
  disjoint_ranges (ref_addr r k) (ref_size r k) (ref_addr r k') (ref_size r k').
Proof.
  destruct r as [a|bd]; simpl; intros (l & -> & Hi) Hk Hk' Hne;
    apply list_elem_of_fmap in Hk as (x & -> & Hx); apply list_elem_of_fmap in Hk' as (x' & -> & Hx').
  - apply slot_disjoint; [apply (fi_geo _ _ _ Hi)|congruence].
  - destruct (bi_core _ _ _ Hi) as [F Hco]. destruct x, x'.
    eapply blocks_disjoint; [exact Hco|by right|by right|]. intros Heq. apply Hne. simpl in Heq. by rewrite Heq.
Qed.

Lemma ref_write r w w' ks k :
  ref_inv r w ks → k ∈ ks → same_outside w w' (ref_addr r k) (ref_size r k) → ref_inv r w' ks.
Proof.
  destruct r as [a|bd]; simpl; intros (l & -> & Hi) Hk Hso;
    apply list_elem_of_fmap in Hk as (x & -> & Hx); exists l; (split; [done|]).
  - by eapply fixed_inv_write.
  - destruct x. by eapply buddy_inv_write.
Qed.

Lemma ref_release_ok r w ks k :
  ref_inv r w (k :: ks) →
  ∃ r' w', release r w k = Ret (r', w') ∧ ref_inv r' w' ks ∧
    (∀ k', ref_addr r' k' = ref_addr r k' ∧ ref_size r' k' = ref_size r k') ∧
    same_outside w w' (ref_addr r k) (ref_size r k).
Proof.
  destruct r as [a|bd]; simpl; intros (l & Heq & Hi); destruct l as [|x l]; try done; injection Heq as -> ->.
  - destruct (fixed_release_ok a w l x Hi) as (a' & w' & -> & Hi' & Hsame & Hso & _). cbn [obind].
    exists (RFixed a'), w'. split_and!; [done|by exists l| |done].
    destruct Hsame as (Hp & _ & Hc & _). intros [s|o i]; simpl; [|done].
    unfold slot_addr. by rewrite Hp, Hc.
  - destruct x as [o i]. unfold kind_of_block. cbn [fst snd]. destruct (buddy_release_ok bd w l o i Hi) as (bd' & w' & o' & -> & Hi' & Hsame & _ & Hso & _).
    cbn [obind]. exists (RBuddy bd'), w'. split_and!; [done|by exists l| |done].
    destruct Hsame as (? & ? & ? & ? & ->). by intros [s|o1 i1].
Qed.

(** Recording an event changes no counter the invariant speaks of. *)
Lemma ref_frozen_ok r w ks :
  ref_inv r w ks → ref_inv (ref_record_frozen r) w ks ∧
    ∀ k, ref_addr (ref_record_frozen r) k = ref_addr r k ∧ ref_size (ref_record_frozen r) k = ref_size r k.
Proof.
  destruct r as [a|bd]; intros (l & -> & Hi); (split; [exists l; split; [done|]|by intros []]).
  - by apply fixed_inv_metrics.
  - by apply buddy_inv_metrics.
Qed.

Lemma ref_spill_ok r w ks :
  ref_inv r w ks → ref_inv (ref_record_spill r) w ks ∧
    ∀ k, ref_addr (ref_record_spill r) k = ref_addr r k ∧ ref_size (ref_record_spill r) k = ref_size r k.
Proof.
  destruct r as [a|bd]; intros (l & -> & Hi); (split; [exists l; split; [done|]|by intros []]).
  - by apply fixed_inv_metrics.
  - by apply buddy_inv_metrics.
Qed.

#[export] Instance ArenaRef_laws : ArenaLaws ArenaRef := {
  ar_inv := ref_inv;
  ar_addr := ref_addr;
  ar_size := ref_size;
  ar_perm := ref_perm;
  ar_nodup := ref_nodup;
  ar_bounds := ref_bounds;
  ar_disjoint := ref_disjoint;
  ar_write := ref_write;
  ar_release_ok := ref_release_ok;
  ar_frozen_ok := ref_frozen_ok;
  ar_spill_ok := ref_spill_ok;
}.
End instances.
