(* ===== verification/BufferOps.v ===== *)
(** * [src/buffer.rs], [src/handle.rs], [src/hazmat/raw_region.rs]: the owners
    of an allocation

    The operations of [Buffer], of the [BufferHandle] behind frozen bytes and
    of [RawRegion], over any arena with the [ArenaOps] calls.  Memory handed
    to the caller as a chunk is written by [write_chunk].  [BufMut::put_slice]
    is a provided method of the [bytes] crate: [put_run] is the protocol it
    documents, and the code here is verified against any implementation of
    it. *)

From stdpp Require Import prelude numbers list gmap.
From S2P Require Import Prelude Usize Errors SlotSpec Memory Config Buffer ArenaRef.
Local Open Scope Z_scope.

(** What [chunk_mut] returns: arena memory, or spare capacity of the heap
    buffer. *)
Inductive Chunk :=
| ArenaChunk (addr len : Z)
| HeapChunk (len : Z).

Definition chunk_len (c : Chunk) : Z :=
  match c with ArenaChunk _ n => n | HeapChunk n => n end.

Record BufferHandle := mkBufferHandle {
  h_allocation : AllocationKind;
  h_ptr : Z;
  h_offset : Z;
  h_len : Z;
}.

(** [Bytes]: heap bytes, or a view of a [BufferHandle]. *)
Inductive Frozen :=
| FHeap (contents : list Z)
| FArena (handle : BufferHandle).

Record RawRegion := mkRawRegion {
  rr_allocation : AllocationKind;
  rr_ptr : Z;
  rr_offset : Z;
  rr_capacity : Z;
}.

Section operations.
Context {P : Profile} {B : BytesLib} {R : Type} {O : ArenaOps R}.

Definition set_spilled (b : Buffer) (released : bool) (s : option BytesMut) : Buffer :=
  mkBuffer (b_allocation b) (b_ptr b) (b_auto_spill b) (b_offset b) (b_capacity b) (b_len b)
    released s.

(** A read of bytes that were never written would be undefined behaviour; it
    is [Panic] here. *)
Definition do_spill (b : Buffer) (r : R) (w : World) : outcome (Buffer * R * World) :=
  let! cap := usz_mul (b_len b) 2 in
  let! buffer := BytesMut_with_capacity cap in
  match read_bytes (w_mem w) (b_ptr b + b_offset b) (b_len b) with
  | None => Panic
  | Some src =>
      let! buffer := BytesMut_extend_from_slice buffer src in
      let r := ar_spill r in
      let! (r, w) := ar_release r w (b_allocation b) in
      Ret (set_spilled b true (Some buffer), r, w)
  end.

Definition chunk_mut (b : Buffer) (r : R) (w : World) : outcome (Chunk * Buffer * R * World) :=
  let! (b, r, w) :=
    (if negb (is_spilled b) && b_auto_spill b && (b_capacity b <=? b_len b) then do_spill b r w
     else Ret (b, r, w)) in
  match b_spilled b with
  | Some buf =>
      let! (buf', n) := BytesMut_chunk_mut buf in
      Ret (HeapChunk n, set_spilled b (b_released b) (Some buf'), r, w)
  | None =>
      let! off := usz_add (b_offset b) (b_len b) in
      let! remaining := usz_sub (b_capacity b) (b_len b) in
      Ret (ArenaChunk (b_ptr b + off) remaining, b, r, w)
  end.

(** The caller writes [bs] to the front of a chunk. *)
Definition write_chunk (b : Buffer) (w : World) (c : Chunk) (bs : list Z) : Buffer * World :=
  match c with
  | ArenaChunk addr _ => (b, set_mem w (write_bytes (w_mem w) addr bs))
  | HeapChunk _ =>
      (set_spilled b (b_released b)
         (match b_spilled b with Some buf => Some (BytesMut_write buf bs) | None => None end), w)
  end.

Definition buffer_drop (b : Buffer) (r : R) (w : World) : outcome (R * World) :=
  if negb (b_released b) then ar_release r w (b_allocation b) else Ret (r, w).

Definition abandon (b : Buffer) (r : R) (w : World) : outcome (R * World) := buffer_drop b r w.

Definition freeze (b : Buffer) (r : R) (w : World) : outcome (Frozen * R * World) :=
  match b_spilled b with
  | Some spilled =>
      let! (r, w) := buffer_drop (set_spilled b (b_released b) None) r w in
      Ret (FHeap (BytesMut_freeze spilled), r, w)
  | None =>
      let r := ar_frozen r in
      Ret (FArena (mkBufferHandle (b_allocation b) (b_ptr b) (b_offset b) (b_len b)), r, w)
  end.

Definition handle_as_ref (h : BufferHandle) (w : World) : option (list Z) :=
  read_bytes (w_mem w) (h_ptr h + h_offset h) (h_len h).

Definition handle_drop (h : BufferHandle) (r : R) (w : World) : outcome (R * World) :=
  ar_release r w (h_allocation h).

(** The bytes a [Bytes] derefs to, and the drop of its last clone. *)
Definition frozen_as_ref (f : Frozen) (w : World) : option (list Z) :=
  match f with FHeap bs => Some bs | FArena h => handle_as_ref h w end.

Definition frozen_drop (f : Frozen) (r : R) (w : World) : outcome (R * World) :=
  match f with FHeap _ => Ret (r, w) | FArena h => handle_drop h r w end.

(** [BytesExt::into_owned] ([src/ext.rs]): copy to the heap, then drop. *)
Definition into_owned (f : Frozen) (r : R) (w : World) : outcome (BytesMut * R * World) :=
  match frozen_as_ref f w with
  | None => Panic
  | Some bs =>
      let! owned := BytesMut_from bs in
      let! (r, w) := frozen_drop f r w in
      Ret (owned, r, w)
  end.

(** ** [RawRegion] *)

Definition raw_as_ptr (rr : RawRegion) : Z := rr_ptr rr + rr_offset rr.

(** [as_uninit_slice] and [as_uninit_slice_mut]: address and length. *)
Definition raw_uninit_slice (rr : RawRegion) : Z * Z := (raw_as_ptr rr, rr_capacity rr).

Definition raw_drop (rr : RawRegion) (r : R) (w : World) : outcome (R * World) :=
  ar_release r w (rr_allocation rr).

Definition raw_freeze (rr : RawRegion) (r : R) (w : World) (start end_ : Z)
    : outcome (result RawFreezeError Frozen * R * World) :=
  if (end_ <? start) || (rr_capacity rr <? end_) then
    let! (r, w) := raw_drop rr r w in
    Ret (Err (mkRawFreezeError start end_ (rr_capacity rr)), r, w)
  else
    let r := ar_frozen r in
    let! offset := usz_add (rr_offset rr) start in
    let! len := usz_sub end_ start in
    Ret (Ok (FArena (mkBufferHandle (rr_allocation rr) (rr_ptr rr) offset len)), r, w).

(** ** Writing *)

Definition buf_state : Type := Buffer * R * World.

(** [data] written through the [BufMut] protocol, a chunk at a time. *)
Inductive put_run : buf_state → list Z → buf_state → Prop :=
| put_done s : put_run s [] s
| put_chunk b r w c b1 r1 w1 b2 w2 b3 bs rest s' :
    bs ≠ [] → chunk_mut b r w = Ret (c, b1, r1, w1) → Z.of_nat (length bs) ≤ chunk_len c →
    write_chunk b1 w1 c bs = (b2, w2) → advance_mut b2 (Z.of_nat (length bs)) = Ret b3 →
    put_run (b3, r1, w2) rest s' → put_run (b, r, w) (bs ++ rest) s'.

(** The next chunk can be had, is not empty, and any filling of it can be
    committed. *)
Definition put_ready (s : buf_state) : Prop :=
  let '(b, r, w) := s in
  ∃ c b1 r1 w1, chunk_mut b r w = Ret (c, b1, r1, w1) ∧ 0 < chunk_len c ∧
    ∀ bs, Z.of_nat (length bs) ≤ chunk_len c →
      ∃ b3, advance_mut (write_chunk b1 w1 c bs).1 (Z.of_nat (length bs)) = Ret b3.

(** An implementation of [put_slice]: what it returns is a run of the
    protocol over all of the data, and it stops only where the protocol is
    stuck. *)
Record put_slice_law (put : buf_state → list Z → outcome buf_state) : Prop := {
  put_sound s data s' : put s data = Ret s' → put_run s data s';
  put_total s data :
    (∀ pre rest s1, data = pre ++ rest → rest ≠ [] → put_run s pre s1 → put_ready s1) →
    ∃ s', put s data = Ret s';
}.

Definition try_put_slice (put : buf_state → list Z → outcome buf_state) (s : buf_state)
    (data : list Z) : outcome (result BufferFullError unit * buf_state) :=
  let! remaining := remaining_mut s.1.1 in
  if remaining <? Z.of_nat (length data) then
    Ret (Err (mkBufferFullError remaining (Z.of_nat (length data))), s)
  else
    let! s' := put s data in
    Ret (Ok (), s').
End operations.
