(* ===== verification/BufferProps.v ===== *)
(** * Properties of the owners of an allocation

    Proved against the [ArenaLaws] interface: what a buffer holds is what was
    written to it, freezing keeps it, and each owner gives its allocation back
    exactly once. *)

From stdpp Require Import prelude numbers list gmap.
From S2P Require Import Prelude Usize Errors SlotSpec Memory Config Buffer ArenaRef BufferOps.
Local Open Scope Z_scope.

Section owners.
Context {P : Profile} {B : BytesLib} {BL : BytesLaws B}.
Context {R : Type} {O : ArenaOps R} {L : ArenaLaws R}.
Implicit Types (b : Buffer) (r : R) (w : World) (k : AllocationKind) (ks : list AllocationKind).

(** The allocation a buffer still owns. *)
Definition held b : list AllocationKind := if b_released b then [] else [b_allocation b].

(** [b] is a well-formed buffer with contents [c]. *)
Definition buf_ok r w b (c : list Z) : Prop :=
  match b_spilled b with
  | None =>
      b_released b = false ∧ 0 < b_ptr b ∧ 0 ≤ b_offset b ∧
      b_ptr b + b_offset b = ar_addr r (b_allocation b) ∧
      0 ≤ b_len b ≤ b_capacity b ∧ b_capacity b ≤ ar_size r (b_allocation b) ∧
      b_len b = Z.of_nat (length c) ∧
      read_bytes (w_mem w) (b_ptr b + b_offset b) (b_len b) = Some c
  | Some buf => b_released b = true ∧ b_auto_spill b = true ∧ view buf = c
  end.

(** The same allocations are at the same places in two arenas. *)
Definition same_regions r r' : Prop :=
  ∀ k, ar_addr r' k = ar_addr r k ∧ ar_size r' k = ar_size r k.

(** Only memory of the allocations [ks] may differ. *)
Definition only_touches r w ks w' : Prop :=
  ∀ x, (∀ k, k ∈ ks → ¬ (ar_addr r k ≤ x < ar_addr r k + ar_size r k)) →
    w_mem w' !! x = w_mem w !! x.

Lemma only_touches_refl r w ks : only_touches r w ks w.
Proof. by intros x _. Qed.

Lemma only_touches_one r w k w' :
  same_outside w w' (ar_addr r k) (ar_size r k) → only_touches r w [k] w'.
Proof. intros Hso x Hx. apply Hso, Hx. by left. Qed.

Lemma only_touches_trans r r' w w' w'' ks ks' :
  same_regions r r' → ks' ⊆ ks → only_touches r w ks w' → only_touches r' w' ks' w'' →
  only_touches r w ks w''.
Proof.
  intros Hr Hsub H1 H2 x Hx. rewrite H2, H1; [done|exact Hx|].
  intros k Hk. destruct (Hr k) as [-> ->]. apply Hx. by apply Hsub.
Qed.

Lemma same_regions_trans r1 r2 r3 : same_regions r1 r2 → same_regions r2 r3 → same_regions r1 r3.
Proof. intros H1 H2 k. destruct (H1 k), (H2 k). split; congruence. Qed.

(** ** Chunks *)

Lemma do_spill_ok r w b c ks b1 r' w' :
  ar_inv r w (held b ++ ks) → buf_ok r w b c → b_spilled b = None →
  do_spill b r w = Ret (b1, r', w') →
  ∃ buf, b1 = set_spilled b true (Some buf) ∧ view buf = c ∧
    ar_inv r' w' ks ∧ same_regions r r' ∧ only_touches r w (held b) w'.
Proof.
  intros Hi Hb Hs. unfold buf_ok in Hb. rewrite Hs in Hb.
  destruct Hb as (Hrel & Hp & Hoff & Hat & Hlen & Hcap & Hc & Hread). unfold held in *. rewrite Hrel in *.
  unfold do_spill. intros (cap & _ & He)%obind_Ret_inv. rewrite Hread in He.
  apply obind_Ret_inv in He as (buf & Hw & (buf' & Hx & He)%obind_Ret_inv).
  destruct (ar_spill_ok _ _ _ Hi) as [Hi' Hreg].
  destruct (ar_release_ok _ _ _ _ Hi') as (r2 & w2 & Hr & Hi2 & Hreg2 & Hso).
  rewrite Hr in He. injection He as <- <- <-. exists buf'. split; [done|]. split_and!.
  - by rewrite (view_extend _ _ _ Hx), (view_with_capacity _ _ Hw).
  - done.
  - by eapply same_regions_trans.
  - apply only_touches_one. destruct (Hreg (b_allocation b)) as [<- <-]. exact Hso.
Qed.

(** It returns when the heap serves the doubled length it asks for. *)
Lemma do_spill_returns r w b c ks :
  ar_inv r w (held b ++ ks) → buf_ok r w b c → b_spilled b = None →
  2 * Z.of_nat (length c) ≤ BytesMut_limit → ∃ x, do_spill b r w = Ret x.
Proof.
  intros Hi Hb Hs Hlim. unfold buf_ok in Hb. rewrite Hs in Hb.
  destruct Hb as (Hrel & Hp & Hoff & Hat & Hlen & Hcap & Hc & Hread). unfold held in *. rewrite Hrel in *.
  destruct (ar_bounds _ _ _ (b_allocation b) Hi) as (_ & _ & Hsz); [by left|]. unfold isize_MAX in Hsz.
  unfold do_spill. rewrite usz_mul_ok by ulia. cbn [obind].
  destruct (with_capacity_grows (b_len b * 2)) as [buf Hw]; [lia|]. rewrite Hw, Hread. cbn [obind].
  destruct (extend_grows buf c) as [buf' ->]; [rewrite (view_with_capacity _ _ Hw); simpl; lia|]. cbn [obind].
  destruct (ar_spill_ok _ _ _ Hi) as [Hi' _].
  destruct (ar_release_ok _ _ _ _ Hi') as (r' & w' & -> & _). by eexists.
Qed.

(** Where a chunk points, and the buffer [b1] it belongs to. *)
Definition chunk_ok b1 (c : list Z) (ch : Chunk) : Prop :=
  match ch with
  | ArenaChunk addr n =>
      b_spilled b1 = None ∧ addr = b_ptr b1 + (b_offset b1 + b_len b1) ∧
      n = b_capacity b1 - b_len b1 ∧ (b_auto_spill b1 = true → 0 < n)
  | HeapChunk n =>
      ∃ buf buf', b_spilled b1 = Some buf' ∧ BytesMut_chunk_mut buf = Ret (buf', n) ∧ view buf = c
  end.

Lemma heap_chunk_ok b buf c r w ch b1 r1 w1 :
  b_released b = true → b_auto_spill b = true → view buf = c →
  (let! (buf', n) := BytesMut_chunk_mut buf in
   Ret (HeapChunk n, set_spilled b (b_released b) (Some buf'), r, w)) = Ret (ch, b1, r1, w1) →
  r1 = r ∧ w1 = w ∧ chunk_ok b1 c ch ∧ buf_ok r w b1 c ∧ held b1 = [] ∧ b_auto_spill b1 = true ∧
  b_allocation b1 = b_allocation b ∧ b_capacity b1 = b_capacity b.
Proof.
  intros Hrel Ha Hv ([buf' n] & E & [= <- <- <- <-])%obind_Ret_inv. simpl. split_and!; try done.
  - by exists buf, buf'.
  - unfold buf_ok. simpl. destruct (view_chunk _ _ _ E) as [-> _]. done.
  - unfold held. simpl. by rewrite Hrel.
Qed.

Lemma chunk_mut_ok r w b c ks ch b1 r1 w1 :
  ar_inv r w (held b ++ ks) → buf_ok r w b c → chunk_mut b r w = Ret (ch, b1, r1, w1) →
  chunk_ok b1 c ch ∧ buf_ok r1 w1 b1 c ∧
  ar_inv r1 w1 (held b1 ++ ks) ∧ same_regions r r1 ∧ only_touches r w (held b) w1 ∧
  held b1 ⊆ held b ∧ b_auto_spill b1 = b_auto_spill b ∧ b_allocation b1 = b_allocation b ∧
  b_capacity b1 = b_capacity b ∧
  (is_spilled b1 = true → is_spilled b = true ∨ b_capacity b ≤ Z.of_nat (length c)).
Proof.
  intros Hi Hb. unfold chunk_mut, is_spilled. destruct (b_spilled b) as [buf|] eqn:Es; cbn [negb andb obind].
  - rewrite Es. unfold buf_ok in Hb. rewrite Es in Hb. destruct Hb as (Hrel & Ha & Hv).
    intros He. apply heap_chunk_ok with (c := c) in He as (-> & -> & Hch & Hb1 & Hh & Ha1 & Hal & Hcp); [|done..].
    rewrite Hh. unfold held in Hi. rewrite Hrel in Hi.
    split_and!; try done; [|congruence|by left]. intros x Hx. by apply not_elem_of_nil in Hx.
  - destruct (b_auto_spill b && (b_capacity b <=? b_len b)) eqn:Ec; cbn [obind].
    + apply andb_true_iff in Ec as [Ha Hfull%Z.leb_le].
      assert (Hlc : b_len b = Z.of_nat (length c)).
      { unfold buf_ok in Hb. rewrite Es in Hb. apply Hb. }
      intros ([[b2 r'] w'] & Hsp & He)%obind_Ret_inv.
      destruct (do_spill_ok r w b c ks _ _ _ Hi Hb Es Hsp) as (buf & -> & Hv & Hi' & Hreg & Ht).
      simpl in He. apply heap_chunk_ok with (c := c) in He as (-> & -> & Hch & Hb1 & Hh & Ha1 & Hal & Hcp); [|done..].
      rewrite Hh. split_and!; try done; [|congruence|right; lia].
      intros x Hx. by apply not_elem_of_nil in Hx.
    + rewrite Es. assert (Hb' := Hb). unfold buf_ok in Hb'. rewrite Es in Hb'.
      destruct Hb' as (Hrel & Hp & Hoff & Hat & Hlen & Hcap & Hc & Hread).
      destruct (ar_bounds _ _ _ (b_allocation b) Hi) as (_ & Hend & Hsz).
      { unfold held. rewrite Hrel. by left. }
      unfold isize_MAX in Hsz. rewrite usz_add_ok by ulia. cbn [obind]. rewrite usz_sub_ok by ulia. cbn [obind].
      intros [= <- <- <- <-]. split_and!; try done; [|by rewrite Es].
      simpl. split_and!; try done. intros Ha. rewrite Ha in Ec. simpl in Ec. apply Z.leb_gt in Ec. lia.
Qed.

(** A buffer that does not spill always has its chunk; one that does needs the
    heap for it. *)
Lemma chunk_mut_returns r w b c ks :
  ar_inv r w (held b ++ ks) → buf_ok r w b c →
  (b_auto_spill b = true → 2 * Z.of_nat (length c) < BytesMut_limit) →
  ∃ ch b1 r1 w1, chunk_mut b r w = Ret (ch, b1, r1, w1) ∧
    match ch with HeapChunk n => 0 < n | ArenaChunk _ _ => True end.
Proof.
  intros Hi Hb Hlim. unfold chunk_mut, is_spilled. destruct (b_spilled b) as [buf|] eqn:Es; cbn [negb andb obind].
  - rewrite Es. unfold buf_ok in Hb. rewrite Es in Hb. destruct Hb as (Hrel & Ha & Hv).
    destruct (chunk_grows buf) as (buf' & n & -> & Hn); [rewrite Hv; specialize (Hlim Ha); lia|].
    cbn [obind]. do 4 eexists. split; [reflexivity|done].
  - destruct (b_auto_spill b && (b_capacity b <=? b_len b)) eqn:Ec; cbn [obind].
    + apply andb_true_iff in Ec as [Ha _]. specialize (Hlim Ha).
      destruct (do_spill_returns r w b c ks Hi Hb Es ltac:(lia)) as [[[b2 r'] w'] Hsp]. rewrite Hsp. cbn [obind].
      destruct (do_spill_ok r w b c ks _ _ _ Hi Hb Es Hsp) as (buf & -> & Hv & _). simpl.
      destruct (chunk_grows buf) as (buf' & n & -> & Hn); [rewrite Hv; lia|].
      cbn [obind]. do 4 eexists. split; [reflexivity|done].
    + rewrite Es. unfold buf_ok in Hb. rewrite Es in Hb.
      destruct Hb as (Hrel & Hp & Hoff & Hat & Hlen & Hcap & Hc & Hread).
      destruct (ar_bounds _ _ _ (b_allocation b) Hi) as (_ & Hend & Hsz).
      { unfold held. rewrite Hrel. by left. }
      unfold isize_MAX in Hsz. rewrite usz_add_ok by ulia. cbn [obind]. rewrite usz_sub_ok by ulia. cbn [obind].
      do 4 eexists. split; [reflexivity|done].
Qed.

(** ** Committing what was written to a chunk *)

Lemma read_append m addr (c bs : list Z) :
  read_bytes m addr (Z.of_nat (length c)) = Some c →
  read_bytes (write_bytes m (addr + Z.of_nat (length c)) bs) addr
    (Z.of_nat (length c) + Z.of_nat (length bs)) = Some (c ++ bs).
Proof.
  rewrite !read_bytes_Some by lia. intros [_ Hc]. split; [rewrite length_app; lia|].
  intros i b Hi. rewrite lookup_write_bytes. case_decide as Hin.
  - replace (Z.to_nat _) with (i - length c)%nat by lia. by rewrite lookup_app_r in Hi by lia.
  - apply Hc. apply lookup_lt_Some in Hi as Hlt. rewrite length_app in Hlt.
    by rewrite lookup_app_l in Hi by lia.
Qed.

Lemma commit_ok r w b c ch ks bs :
  ar_inv r w (held b ++ ks) → buf_ok r w b c → chunk_ok b c ch →
  Z.of_nat (length bs) ≤ chunk_len ch →
  ∃ b2 w2 b3, write_chunk b w ch bs = (b2, w2) ∧ advance_mut b2 (Z.of_nat (length bs)) = Ret b3 ∧
    buf_ok r w2 b3 (c ++ bs) ∧ ar_inv r w2 (held b3 ++ ks) ∧ only_touches r w (held b) w2 ∧
    held b3 = held b ∧ b_auto_spill b3 = b_auto_spill b ∧ b_allocation b3 = b_allocation b ∧
    b_capacity b3 = b_capacity b ∧ is_spilled b3 = is_spilled b.
Proof.
  intros Hi Hb Hch Hlen. destruct ch as [addr n|n]; simpl in Hch, Hlen.
  - destruct Hch as (Hs & -> & -> & _). unfold buf_ok in Hb. rewrite Hs in Hb.
    destruct Hb as (Hrel & Hp & Hoff & Hat & Hl & Hcap & Hc & Hread).
    assert (Hin : b_allocation b ∈ held b ++ ks) by (unfold held; rewrite Hrel; by left).
    destruct (ar_bounds _ _ _ _ Hi Hin) as (_ & _ & Hsz). unfold isize_MAX in Hsz.
    do 3 eexists. split; [reflexivity|]. unfold advance_mut. rewrite Hs, usz_add_ok by ulia. cbn [obind].
    destruct (Z.leb_spec (b_len b + Z.of_nat (length bs)) (b_capacity b)); [|lia]. cbn [assert_ obind].
    split; [reflexivity|]. set (w2 := set_mem w _).
    assert (Hso : same_outside w w2 (ar_addr r (b_allocation b)) (ar_size r (b_allocation b))).
    { intros x Hx. apply lookup_write_bytes_out. lia. }
    unfold held in *. simpl. rewrite Hrel in *. split_and!; try done.
    + unfold buf_ok. simpl. rewrite length_app. split_and!; try done; try lia. rewrite Hc in *.
      rewrite Z.add_assoc. by apply read_append.
    + by eapply ar_write.
    + by apply only_touches_one.
    + unfold is_spilled. by rewrite Hs.
  - destruct Hch as (buf & buf' & Hs & Hex & Hv). unfold buf_ok in Hb. rewrite Hs in Hb.
    destruct Hb as (Hrel & Ha & Hvc). destruct (view_advance _ _ _ bs Hex Hlen) as (buf2 & Hadv & Hv2).
    do 3 eexists. split; [reflexivity|]. rewrite Hs. unfold advance_mut. simpl. rewrite Hadv. cbn [obind].
    split; [reflexivity|]. unfold held in *. simpl. rewrite Hrel in *. split_and!; try done.
    + unfold buf_ok. simpl. split_and!; try done. congruence.
    + unfold is_spilled. by rewrite Hs.
Qed.

(** ** Runs of the write protocol *)

Lemma put_run_ok s data s' :
  put_run s data s' → ∀ b r w c ks, s = (b, r, w) → ar_inv r w (held b ++ ks) → buf_ok r w b c →
  let '(b', r', w') := s' in
  buf_ok r' w' b' (c ++ data) ∧ ar_inv r' w' (held b' ++ ks) ∧ same_regions r r' ∧
  only_touches r w (held b) w' ∧ held b' ⊆ held b ∧ b_auto_spill b' = b_auto_spill b ∧
  b_allocation b' = b_allocation b ∧ b_capacity b' = b_capacity b ∧
  (is_spilled b' = true → is_spilled b = true ∨ b_capacity b < Z.of_nat (length (c ++ data))).
Proof.
  induction 1 as [[[b0 r0] w0]|b0 r0 w0 ch b1 r1 w1 b2 w2 b3 bs rest s' Hne Hch Hlen Hwr Hadv _ IH];
    intros b r w c ks Heq Hi Hb; injection Heq as -> -> ->.
  { rewrite app_nil_r. split_and!; try done. by left. }
  destruct (chunk_mut_ok r w b c ks _ _ _ _ Hi Hb Hch) as (Hck & Hb1 & Hi1 & Hr1 & Ht1 & Hh1 & Ha1 & Hal1 & Hcp1 & Hsp1).
  destruct (commit_ok r1 w1 b1 c ch ks bs Hi1 Hb1 Hck Hlen) as (b2' & w2' & b3' & Hw' & Hadv' & Hb3 & Hi3 & Ht3 & Hh3 & Ha3 & Hal3 & Hcp3 & Hsp3).
  rewrite Hwr in Hw'. injection Hw' as <- <-. rewrite Hadv in Hadv'. injection Hadv' as <-.
  specialize (IH b3 r1 w2 (c ++ bs) ks eq_refl Hi3 Hb3). destruct s' as [[b' r'] w'].
  destruct IH as (Hb' & Hi' & Hr' & Ht' & Hh' & Ha' & Hal' & Hcp' & Hsp'). rewrite Hh3 in *.
  rewrite app_assoc. split_and!; [done|done|by eapply same_regions_trans| |by etrans|congruence..|].
  - eapply (only_touches_trans r r1); [done|exact Hh1| |exact Ht'].
    by eapply (only_touches_trans r r1 w w1 w2).
  - intros Hs. destruct bs as [|z bs]; [done|]. rewrite Hcp3, Hcp1, Hsp3 in Hsp'.
    destruct (Hsp' Hs) as [H1|H1]; [|by right]. destruct (Hsp1 H1) as [|H2]; [by left|right].
    rewrite !length_app. simpl. lia.
Qed.

Lemma put_ready_ok r w b c ks :
  ar_inv r w (held b ++ ks) → buf_ok r w b c →
  (b_auto_spill b = false → Z.of_nat (length c) < b_capacity b) →
  (b_auto_spill b = true → 2 * Z.of_nat (length c) < BytesMut_limit) → put_ready (b, r, w).
Proof.
  intros Hi Hb Hroom Hlim.
  destruct (chunk_mut_returns r w b c ks Hi Hb Hlim) as (ch & b1 & r1 & w1 & Hex & Hheap).
  destruct (chunk_mut_ok r w b c ks _ _ _ _ Hi Hb Hex) as (Hck & Hb1 & Hi1 & _ & _ & _ & Ha1 & _ & Hcp1 & _).
  exists ch, b1, r1, w1. split; [done|]. split.
  - destruct ch as [addr n|n]; simpl in *; [|done].
    destruct Hck as (Hs & _ & -> & Hpos). destruct (b_auto_spill b) eqn:Ea; [by apply Hpos|].
    unfold buf_ok in Hb1. rewrite Hs in Hb1. destruct Hb1 as (_ & _ & _ & _ & _ & _ & Hc & _).
    specialize (Hroom eq_refl). lia.
  - intros bs Hbs. destruct (commit_ok r1 w1 b1 c ch ks bs Hi1 Hb1 Hck Hbs) as (b2 & w2 & b3 & -> & Hadv & _).
    by exists b3.
Qed.

(** ** [put_slice] and [try_put_slice] *)

(** The room [remaining_mut] reports, where it is not the heap's to say. *)
Lemma remaining_mut_ok r w b c ks :
  ar_inv r w (held b ++ ks) → buf_ok r w b c →
  ∃ rem, remaining_mut b = Ret rem ∧
    (is_spilled b = false → rem = if b_auto_spill b then usize_MAX else b_capacity b - Z.of_nat (length c)).
Proof.
  intros Hi Hb. unfold remaining_mut, is_spilled, buf_ok in *.
  destruct (b_spilled b) as [buf|]; [by eexists|].
  destruct Hb as (Hrel & _ & _ & _ & Hl & Hcap & Hc & _). destruct (b_auto_spill b); [by eexists|].
  destruct (ar_bounds _ _ _ (b_allocation b) Hi) as (_ & _ & Hsz); [unfold held; rewrite Hrel; by left|].
  unfold isize_MAX in Hsz. rewrite usz_sub_ok by ulia. eexists. split; [done|]. intros _. lia.
Qed.

Lemma put_slice_returns put r w b c ks data rem :
  put_slice_law put → ar_inv r w (held b ++ ks) → buf_ok r w b c →
  remaining_mut b = Ret rem → Z.of_nat (length data) ≤ rem →
  (b_auto_spill b = true → 2 * Z.of_nat (length (c ++ data)) ≤ BytesMut_limit) →
  ∃ s', put (b, r, w) data = Ret s'.
Proof.
  intros Hput Hi Hb Hrem Hfit Hlim. apply (put_total _ Hput).
  intros pre rest [[b1 r1] w1] -> Hrest Hrun.
  destruct (put_run_ok _ _ _ Hrun b r w c ks eq_refl Hi Hb) as (Hb1 & Hi1 & _ & _ & _ & Ha & _ & Hcp & _).
  destruct rest as [|z rest]; [done|]. rewrite !length_app in *. simpl in Hfit, Hlim.
  eapply put_ready_ok; [done|done|..]; rewrite length_app, Ha.
  - intros Hna. rewrite Hcp. assert (Hs : is_spilled b = false).
    { unfold buf_ok, is_spilled in *. destruct (b_spilled b); [destruct Hb as (_ & Hb & _); congruence|done]. }
    destruct (remaining_mut_ok r w b c ks Hi Hb) as (rem' & Hrem' & Hr). rewrite Hrem in Hrem'.
    injection Hrem' as <-. rewrite (Hr Hs), Hna in Hfit. lia.
  - intros Hsp. specialize (Hlim Hsp). lia.
Qed.

(** ** Frozen bytes *)

Definition frozen_held (f : Frozen) : list AllocationKind :=
  match f with FHeap _ => [] | FArena h => [h_allocation h] end.

(** [f] derefs to [c], and its bytes lie in the allocation it owns. *)
Definition frozen_ok r w (f : Frozen) (c : list Z) : Prop :=
  match f with
  | FHeap bs => bs = c
  | FArena h =>
      ar_addr r (h_allocation h) ≤ h_ptr h + h_offset h ∧ 0 ≤ h_len h ∧
      h_ptr h + h_offset h + h_len h ≤ ar_addr r (h_allocation h) + ar_size r (h_allocation h) ∧
      handle_as_ref h w = Some c
  end.

Lemma frozen_ok_read r w f c : frozen_ok r w f c → frozen_as_ref f w = Some c.
Proof. destruct f; simpl; [by intros ->|naive_solver]. Qed.

Lemma buffer_drop_ok r w b c ks :
  ar_inv r w (held b ++ ks) → buf_ok r w b c →
  ∃ r' w', buffer_drop b r w = Ret (r', w') ∧ ar_inv r' w' ks ∧ same_regions r r' ∧
    only_touches r w (held b) w'.
Proof.
  intros Hi _. unfold buffer_drop, held in *. destruct (b_released b); cbn [negb].
  - by exists r, w.
  - destruct (ar_release_ok _ _ _ _ Hi) as (r' & w' & -> & Hi' & Hreg & Hso).
    exists r', w'. split_and!; try done. by apply only_touches_one.
Qed.

Lemma freeze_ok r w b c ks :
  ar_inv r w (held b ++ ks) → buf_ok r w b c →
  ∃ f r', freeze b r w = Ret (f, r', w) ∧ frozen_ok r' w f c ∧ ar_inv r' w (frozen_held f ++ ks) ∧
    same_regions r r' ∧ frozen_held f = held b.
Proof.
  intros Hi Hb. unfold freeze, buf_ok in *. destruct (b_spilled b) as [buf|] eqn:Es.
  - destruct Hb as (Hrel & _ & Hv). unfold buffer_drop, held in *. simpl. rewrite Hrel in *. cbn [negb obind].
    do 2 eexists. split; [reflexivity|]. simpl. by rewrite view_freeze.
  - destruct Hb as (Hrel & Hp & Hoff & Hat & Hl & Hcap & Hc & Hread).
    unfold held in *. rewrite Hrel in *. destruct (ar_frozen_ok _ _ _ Hi) as [Hi' Hreg].
    do 2 eexists. split; [reflexivity|]. simpl. destruct (Hreg (b_allocation b)) as [-> ->].
    split_and!; try done; lia.
Qed.

Lemma frozen_drop_ok r w f c ks :
  ar_inv r w (frozen_held f ++ ks) → frozen_ok r w f c →
  ∃ r' w', frozen_drop f r w = Ret (r', w') ∧ ar_inv r' w' ks ∧ same_regions r r' ∧
    only_touches r w (frozen_held f) w'.
Proof.
  intros Hi _. destruct f as [bs|h]; simpl in *; [by exists r, w|]. unfold handle_drop.
  destruct (ar_release_ok _ _ _ _ Hi) as (r' & w' & -> & Hi' & Hreg & Hso).
  exists r', w'. split_and!; try done. by apply only_touches_one.
Qed.

Lemma into_owned_ok r w f c ks o r' w' :
  ar_inv r w (frozen_held f ++ ks) → frozen_ok r w f c → into_owned f r w = Ret (o, r', w') →
  view o = c ∧ ar_inv r' w' ks ∧ same_regions r r' ∧ only_touches r w (frozen_held f) w'.
Proof.
  intros Hi Hf. unfold into_owned. rewrite (frozen_ok_read _ _ _ _ Hf). intros (o' & Ho & He)%obind_Ret_inv.
  destruct (frozen_drop_ok _ _ _ _ _ Hi Hf) as (r1 & w1 & Hd & Hi' & Hreg & Ht). rewrite Hd in He.
  injection He as <- <- <-. by rewrite (view_from _ _ Ho).
Qed.

Lemma into_owned_returns r w f c ks :
  ar_inv r w (frozen_held f ++ ks) → frozen_ok r w f c → Z.of_nat (length c) ≤ BytesMut_limit →
  ∃ x, into_owned f r w = Ret x.
Proof.
  intros Hi Hf Hlim. unfold into_owned. rewrite (frozen_ok_read _ _ _ _ Hf).
  destruct (from_grows c Hlim) as [o ->]. cbn [obind].
  destruct (frozen_drop_ok _ _ _ _ _ Hi Hf) as (r' & w' & -> & _). by eexists.
Qed.

(** Memory changed elsewhere leaves an owner's contents alone. *)
Lemma only_touches_read r w w0 ks w' ks0 k addr n :
  ar_inv r w0 ks0 → only_touches r w ks w' → k ∈ ks0 → ks ⊆ ks0 → k ∉ ks →
  ar_addr r k ≤ addr → addr + n ≤ ar_addr r k + ar_size r k →
  read_bytes (w_mem w') addr n = read_bytes (w_mem w) addr n.
Proof.
  intros Hi Ht Hk Hsub Hn Hlo Hhi. apply read_bytes_ext. intros x Hx. apply Ht. intros k' Hk' Hin.
  pose proof (ar_disjoint _ _ _ k k' Hi Hk (Hsub _ Hk') ltac:(congruence)) as Hd.
  unfold disjoint_ranges in Hd. lia.
Qed.

Lemma buf_ok_frame r w w0 b c ks0 ks r' w' :
  buf_ok r w b c → ar_inv r w0 ks0 → held b ⊆ ks0 → ks ⊆ ks0 → (∀ k, k ∈ held b → k ∉ ks) →
  same_regions r r' → only_touches r w ks w' → buf_ok r' w' b c.
Proof.
  intros Hb Hi Hh Hks Hdis Hreg Ht. unfold buf_ok in *. destruct (b_spilled b); [done|].
  destruct Hb as (Hrel & Hp & Hoff & Hat & Hl & Hcap & Hc & Hread). unfold held in *. rewrite Hrel in *.
  destruct (Hreg (b_allocation b)) as [-> ->]. split_and!; try done; try lia.
  rewrite <- Hread. eapply (only_touches_read r w w0 ks w' ks0 (b_allocation b)); try done.
  - apply Hh. by left.
  - apply Hdis. by left.
  - lia.
  - lia.
Qed.

Lemma frozen_ok_frame r w w0 f c ks0 ks r' w' :
  frozen_ok r w f c → ar_inv r w0 ks0 → frozen_held f ⊆ ks0 → ks ⊆ ks0 →
  (∀ k, k ∈ frozen_held f → k ∉ ks) → same_regions r r' → only_touches r w ks w' →
  frozen_ok r' w' f c.
Proof.
  intros Hf Hi Hh Hks Hdis Hreg Ht. destruct f as [bs|h]; [done|]. simpl in *.
  destruct Hf as (Hlo & Hn & Hhi & Hread). destruct (Hreg (h_allocation h)) as [-> ->].
  split_and!; try done. unfold handle_as_ref in *. rewrite <- Hread.
  eapply (only_touches_read r w w0 ks w' ks0 (h_allocation h)); try done.
  - apply Hh. by left.
  - apply Hdis. by left.
Qed.

(** ** Raw regions *)

Definition raw_ok r (rr : RawRegion) : Prop :=
  0 < rr_ptr rr ∧ 0 ≤ rr_offset rr ∧ rr_ptr rr + rr_offset rr = ar_addr r (rr_allocation rr) ∧
  0 ≤ rr_capacity rr ≤ ar_size r (rr_allocation rr).

Lemma raw_freeze_ok r w rr ks start end_ :
  ar_inv r w (rr_allocation rr :: ks) → raw_ok r rr → is_usize start → is_usize end_ →
  (start ≤ end_ ≤ rr_capacity rr ∧
   ∃ f r', raw_freeze rr r w start end_ = Ret (Ok f, r', w) ∧ frozen_held f = [rr_allocation rr] ∧
     ar_inv r' w (rr_allocation rr :: ks) ∧ same_regions r r' ∧
     frozen_as_ref f w = read_bytes (w_mem w) (raw_as_ptr rr + start) (end_ - start) ∧
     ∀ c, read_bytes (w_mem w) (raw_as_ptr rr + start) (end_ - start) = Some c → frozen_ok r' w f c) ∨
  (¬ (start ≤ end_ ≤ rr_capacity rr) ∧
   ∃ r' w', raw_freeze rr r w start end_ = Ret (Err (mkRawFreezeError start end_ (rr_capacity rr)), r', w') ∧
     ar_inv r' w' ks ∧ same_regions r r' ∧ only_touches r w [rr_allocation rr] w').
Proof.
  intros Hi (Hp & Hoff & Hat & Hcap) Hs He. unfold raw_freeze.
  destruct (Z.ltb_spec end_ start) as [|Hle]; [|destruct (Z.ltb_spec (rr_capacity rr) end_) as [|Hle2]];
    cbn [orb].
  1, 2: right; split; [lia|]; unfold raw_drop;
    destruct (ar_release_ok _ _ _ _ Hi) as (r' & w' & -> & Hi' & Hreg & Hso); cbn [obind];
    do 2 eexists; (split; [reflexivity|]); split_and!; try done; by apply only_touches_one.
  left. split; [lia|].
  destruct (ar_bounds _ _ _ (rr_allocation rr) Hi) as (_ & Hend & _); [by left|].
  rewrite usz_add_ok by ulia. cbn [obind]. rewrite usz_sub_ok by ulia. cbn [obind].
  destruct (ar_frozen_ok _ _ _ Hi) as [Hi' Hreg].
  do 2 eexists. split; [reflexivity|]. split_and!; try done.
  { simpl. unfold handle_as_ref, raw_as_ptr. simpl. by rewrite Z.add_assoc. }
  intros c Hc. simpl. destruct (Hreg (rr_allocation rr)) as [-> ->]. unfold handle_as_ref, raw_as_ptr in *. simpl.
  rewrite Z.add_assoc. split_and!; [ulia|lia|lia|exact Hc].
Qed.
End owners.

(** ** An implementation of [put_slice]: fill each chunk as far as it goes. *)

Fixpoint put_loop {P : Profile} {B : BytesLib} {R} {O : ArenaOps R} (fuel : nat) (s : @buf_state B R)
    (data : list Z) : outcome buf_state :=
  match data with
  | [] => Ret s
  | _ =>
      match fuel with
      | O => OutOfFuel
      | S fuel' =>
          let '(b, r, w) := s in
          let! (c, b1, r1, w1) := chunk_mut b r w in
          let n := Z.to_nat (Z.min (chunk_len c) (Z.of_nat (length data))) in
          let '(b2, w2) := write_chunk b1 w1 c (take n data) in
          let! b3 := advance_mut b2 (Z.of_nat (length (take n data))) in
          if decide (n = 0%nat) then OutOfFuel else put_loop fuel' (b3, r1, w2) (drop n data)
      end
  end.

Lemma put_loop_sound {P : Profile} {B : BytesLib} {R} {O : ArenaOps R} fuel s data s' :
  put_loop fuel s data = Ret s' → put_run s data s'.
Proof.
  revert s data. induction fuel as [|fuel IH]; intros [[b r] w] data He.
  { destruct data; [injection He as <-; constructor|done]. }
  destruct data as [|z data]; [injection He as <-; constructor|]. cbn [put_loop] in He.
  apply obind_Ret_inv in He as ([[[c b1] r1] w1] & Hc & He).
  set (n := Z.to_nat _) in He. destruct (write_chunk b1 w1 c (take n (z :: data))) as [b2 w2] eqn:Ew.
  apply obind_Ret_inv in He as (b3 & Hadv & He). destruct (decide (n = 0%nat)) as [|Hn]; [done|].
  rewrite <- (take_drop n (z :: data)). eapply (put_chunk b r w c b1 r1 w1 b2 w2 b3); [|done| |done|done|by apply IH].
  - destruct n; [done|]. simpl. done.
  - rewrite length_take. lia.
Qed.

Lemma put_loop_total {P : Profile} {B : BytesLib} {R} {O : ArenaOps R} fuel (s : @buf_state B R) data :
  (length data ≤ fuel)%nat →
  (∀ pre rest s1, data = pre ++ rest → rest ≠ [] → put_run s pre s1 → put_ready s1) →
  ∃ s', put_loop fuel s data = Ret s'.
Proof.
  revert s data. induction fuel as [|fuel IH]; intros s data Hf Hready.
  { destruct data; [by eexists|simpl in Hf; lia]. }
  destruct data as [|z data]; [by eexists|]. destruct s as [[b r] w].
  destruct (Hready [] (z :: data) (b, r, w)) as (c & b1 & r1 & w1 & Hc & Hpos & Hadv); [done|done|constructor|].
  cbn [put_loop]. rewrite Hc. cbn [obind]. set (n := Z.to_nat _).
  assert (Hn : (1 ≤ n ≤ length (z :: data))%nat) by (subst n; simpl; lia).
  assert (Hln : length (take n (z :: data)) = n) by (rewrite length_take; lia).
  destruct (Hadv (take n (z :: data))) as [b3 Hb3]; [rewrite Hln; subst n; lia|].
  destruct (write_chunk b1 w1 c (take n (z :: data))) as [b2 w2] eqn:Ew. simpl in Hb3.
  rewrite Hb3. cbn [obind]. destruct (decide (n = 0%nat)); [lia|]. apply IH.
  { rewrite length_drop. lia. }
  intros pre rest s1 Hd Hrest Hrun. apply (Hready (take n (z :: data) ++ pre) rest s1); [|done|].
  - by rewrite <- app_assoc, <- Hd, take_drop.
  - eapply (put_chunk b r w c b1 r1 w1 b2 w2 b3); [|done| |done|done|done].
    + intros Hnil. rewrite Hnil in Hln. simpl in Hln. lia.
    + rewrite Hln. subst n. lia.
Qed.

Definition put_default {P : Profile} {B : BytesLib} {R} {O : ArenaOps R} (s : @buf_state B R)
    (data : list Z) : outcome buf_state := put_loop (length data) s data.

Lemma put_default_law {P : Profile} {B : BytesLib} {R} {O : ArenaOps R} :
  put_slice_law (B := B) (R := R) put_default.
Proof.
  split.
  - intros s data s'. apply put_loop_sound.
  - intros s data. by apply put_loop_total.
Qed.
