(* ===== verification/BufferClaims.v ===== *)
(** * What a caller can rely on of buffers, frozen bytes and raw regions

    Stated for any arena that keeps the [ArenaLaws] interface and any [bytes]
    library that keeps [BytesLaws]. *)

From stdpp Require Import prelude numbers list gmap.
From S2P Require Import Prelude Usize Errors SlotSpec Memory Config Buffer FixedArena.
From S2P Require Import FixedProps ArenaRef BufferOps BufferProps.
Local Open Scope Z_scope.

Lemma buf_ok_len {P : Profile} {B : BytesLib} {BL : BytesLaws B} {R} {O : ArenaOps R}
    {L : ArenaLaws R} r w b c :
  buf_ok r w b c → buffer_len b = Z.of_nat (length c) ∧
    (is_spilled b = true → b_auto_spill b = true) ∧
    (is_spilled b = false → Z.of_nat (length c) ≤ b_capacity b).
Proof.
  unfold buf_ok, buffer_len, is_spilled. destruct (b_spilled b) as [buf|].
  - intros (_ & ? & Hv). rewrite BytesMut_len_view, Hv. done.
  - intros (_ & _ & _ & _ & ? & _ & ? & _). split_and!; [done|done|lia].
Qed.

(** What a completed [put_slice] leaves. *)
Lemma put_run_result {P : Profile} {B : BytesLib} {BL : BytesLaws B} {R} {O : ArenaOps R}
    {L : ArenaLaws R} r w b c ks data b' r' w' :
  ar_inv r w (held b ++ ks) → buf_ok r w b c → put_run (b, r, w) data (b', r', w') →
  buf_ok r' w' b' (c ++ data) ∧ buffer_len b' = Z.of_nat (length (c ++ data)) ∧
  ar_inv r' w' (held b' ++ ks) ∧ same_regions r r' ∧ only_touches r w (held b) w' ∧
  (is_spilled b' = true →
     b_auto_spill b = true ∧ (is_spilled b = true ∨ b_capacity b < Z.of_nat (length (c ++ data)))) ∧
  (is_spilled b' = false → Z.of_nat (length (c ++ data)) ≤ b_capacity b).
Proof.
  intros Hi Hb Hrun.
  destruct (put_run_ok _ _ _ Hrun b r w c ks eq_refl Hi Hb) as (Hb' & Hi' & Hreg & Ht & _ & Ha & _ & Hcp & Hsp).
  destruct (buf_ok_len _ _ _ _ Hb') as (Hl' & Hs1 & Hs2).
  split_and!; try done.
  - intros Hs. split; [|by apply Hsp]. rewrite <- Ha. by apply Hs1.
  - intros Hs. rewrite <- Hcp. by apply Hs2.
Qed.

Lemma try_put_slice_spec {P : Profile} {B : BytesLib} {BL : BytesLaws B} {R} {O : ArenaOps R}
    {L : ArenaLaws R} put r w b c ks data :
  put_slice_law put → ar_inv r w (held b ++ ks) → buf_ok r w b c →
  Z.of_nat (length data) ≤ isize_MAX →
  match try_put_slice put (b, r, w) data with
  | Ret (Ok _, (b', r', w')) =>
      buf_ok r' w' b' (c ++ data) ∧ buffer_len b' = Z.of_nat (length (c ++ data)) ∧
      ar_inv r' w' (held b' ++ ks) ∧ same_regions r r' ∧ only_touches r w (held b) w' ∧
      (is_spilled b' = true →
         b_auto_spill b = true ∧ (is_spilled b = true ∨ b_capacity b < Z.of_nat (length (c ++ data)))) ∧
      (is_spilled b' = false → Z.of_nat (length (c ++ data)) ≤ b_capacity b)
  | Ret (Err e, s') =>
      s' = (b, r, w) ∧ requested e = Z.of_nat (length data) ∧ remaining_mut b = Ret (remaining e) ∧
      remaining e < Z.of_nat (length data) ∧
      (is_spilled b = false →
         b_auto_spill b = false ∧ b_capacity b < Z.of_nat (length c) + Z.of_nat (length data)) ∧
      (is_spilled b = true → BytesMut_limit < Z.of_nat (length (c ++ data)))
  | _ => b_auto_spill b = true ∧ BytesMut_limit < 2 * Z.of_nat (length (c ++ data))
  end.
Proof.
  intros Hput Hi Hb Hlen. unfold try_put_slice. cbn [fst].
  destruct (remaining_mut_ok r w b c ks Hi Hb) as (rem & Hrem & Hr). rewrite Hrem. cbn [obind].
  destruct (Z.ltb_spec rem (Z.of_nat (length data))) as [Hlt|Hge].
  - split_and!; try done.
    + intros Hs. specialize (Hr Hs). destruct (b_auto_spill b).
      * unfold isize_MAX in *. subst rem. ulia.
      * split; [done|lia].
    + unfold is_spilled, remaining_mut, buf_ok in *. destruct (b_spilled b) as [buf|]; [|done]. intros _.
      injection Hrem as <-. pose proof (remaining_grows buf). destruct Hb as (_ & _ & Hv).
      rewrite length_app, Hv in *. lia.
  - destruct (decide (b_auto_spill b = true ∧ BytesMut_limit < 2 * Z.of_nat (length (c ++ data)))) as [Hbig|Hfit].
    { destruct (put (b, r, w) data) as [[[b' r'] w']| |] eqn:Hex; cbn [obind]; [|done..].
      apply (put_sound _ Hput) in Hex. by eapply put_run_result. }
    destruct (put_slice_returns put r w b c ks data rem Hput Hi Hb Hrem Hge) as [[[b' r'] w'] Hex].
    { intros Ha. apply Z.nlt_ge. intros Hx. by apply Hfit. }
    rewrite Hex. cbn [obind]. apply (put_sound _ Hput) in Hex. by eapply put_run_result.
Qed.

(** C29: [Buffer::try_put_slice], over any [put_slice] that follows the
    [BufMut] protocol.  It appends exactly the data, moving to the heap exactly
    when auto-spill is on and the capacity is exceeded, and then giving the slot
    back; or it refuses, leaving everything as it was, with the room left and
    the size asked for: a buffer in the arena exactly when it does not spill and
    its capacity is exceeded, a spilled one only past what the heap serves.  It
    returns in every other case, so a buffer that does not spill never panics,
    and one that does returns as long as twice its length is a size the heap
    serves ([BytesMut_limit]; the spill asks for twice the length written).  No
    memory but the buffer's own allocation is written. *)
Theorem try_put_slice_correct {P : Profile} {B : BytesLib} {BL : BytesLaws B} {R} {O : ArenaOps R}
    {L : ArenaLaws R} put r w b c ks data :
  put_slice_law put → ar_inv r w (held b ++ ks) → buf_ok r w b c →
  Z.of_nat (length data) ≤ isize_MAX →
  match try_put_slice put (b, r, w) data with
  | Ret (Ok _, (b', r', w')) =>
      buf_ok r' w' b' (c ++ data) ∧ buffer_len b' = Z.of_nat (length (c ++ data)) ∧
      ar_inv r' w' (held b' ++ ks) ∧ same_regions r r' ∧ only_touches r w (held b) w' ∧
      (is_spilled b' = true →
         b_auto_spill b = true ∧ (is_spilled b = true ∨ b_capacity b < Z.of_nat (length (c ++ data)))) ∧
      (is_spilled b' = false → Z.of_nat (length (c ++ data)) ≤ b_capacity b)
  | Ret (Err e, s') =>
      s' = (b, r, w) ∧ requested e = Z.of_nat (length data) ∧ remaining_mut b = Ret (remaining e) ∧
      remaining e < Z.of_nat (length data) ∧
      (is_spilled b = false →
         b_auto_spill b = false ∧ b_capacity b < Z.of_nat (length c) + Z.of_nat (length data)) ∧
      (is_spilled b = true → BytesMut_limit < Z.of_nat (length (c ++ data)))
  | _ => b_auto_spill b = true ∧ BytesMut_limit < 2 * Z.of_nat (length (c ++ data))
  end.
Proof. apply try_put_slice_spec. Qed.

(** A fresh 128-byte buffer over the first slot of the example arena. *)
Definition demo_ref : ArenaRef := RFixed demo_claimed.1.
Definition demo_buffer (spill : bool) : @Buffer list_bytes := new_fixed 262144 spill 0 0 128.

Lemma demo_ref_inv : ref_inv demo_ref demo_claimed.2 ([KFixed 0] ++ []).
Proof. exists [0]. split; [done|apply demo_claimed_inv]. Qed.

Lemma demo_ref_region : ref_addr demo_ref (KFixed 0) = 262144 ∧ ref_size demo_ref (KFixed 0) = 128.
Proof. split; by vm_compute. Qed.

Lemma demo_buffer_ok spill :
  @buf_ok list_bytes list_bytes_laws ArenaRef (@ArenaRef_ops dev) ArenaRef_laws
    demo_ref demo_claimed.2 (demo_buffer spill) [].
Proof.
  destruct demo_ref_region as [H1 H2]. unfold buf_ok. cbn [b_spilled demo_buffer new_fixed].
  split; [done|]. split; [done|]. split; [done|]. split; [exact (eq_sym H1)|].
  split; [done|]. split; [|by split].
  change (128 ≤ ref_size demo_ref (KFixed 0)). rewrite H2. done.
Qed.

Lemma try_put_slice_correct_witness :
  ∃ b' r' w',
    @try_put_slice dev list_bytes ArenaRef (@put_default dev list_bytes ArenaRef (@ArenaRef_ops dev))
      (demo_buffer false, demo_ref, demo_claimed.2) [104; 105] = Ret (Ok (), (b', r', w')) ∧
    buffer_len b' = 2.
Proof.
  pose proof (@try_put_slice_correct dev list_bytes list_bytes_laws ArenaRef (@ArenaRef_ops dev)
    ArenaRef_laws put_default demo_ref demo_claimed.2 (demo_buffer false) [] [] [104; 105]
    put_default_law demo_ref_inv (demo_buffer_ok false) ltac:(unfold isize_MAX; simpl; lia)) as H.
  assert (Hk : match @try_put_slice dev list_bytes ArenaRef
                       (@put_default dev list_bytes ArenaRef (@ArenaRef_ops dev))
                       (demo_buffer false, demo_ref, demo_claimed.2) [104; 105] with
               | Ret (Ok _, _) => true | _ => false end = true) by (vm_compute; reflexivity).
  destruct (try_put_slice _ _ _) as [[[e|[]] [[b' r'] w']]| |];
    [discriminate Hk| |discriminate Hk|discriminate Hk].
  exists b', r', w'. split; [reflexivity|exact (proj1 (proj2 H))].
Defined.

(** C28: [Buffer::freeze] yields bytes equal to what was written and keeps the
    allocation, unless it was spilled; dropping the last handle to the bytes
    gives the allocation back exactly once and touches nothing else. *)
Theorem freeze_correct {P : Profile} {B : BytesLib} {BL : BytesLaws B} {R} {O : ArenaOps R}
    {L : ArenaLaws R} r w b c ks :
  ar_inv r w (held b ++ ks) → buf_ok r w b c →
  ∃ f r1, freeze b r w = Ret (f, r1, w) ∧ frozen_as_ref f w = Some c ∧
    ar_inv r1 w (held b ++ ks) ∧ frozen_held f = held b ∧
    ∃ r2 w2, frozen_drop f r1 w = Ret (r2, w2) ∧ ar_inv r2 w2 ks ∧ only_touches r w (held b) w2.
Proof.
  intros Hi Hb. destruct (freeze_ok r w b c ks Hi Hb) as (f & r1 & Hex & Hf & Hi1 & Hreg & Hh).
  destruct (frozen_drop_ok r1 w f c ks Hi1 Hf) as (r2 & w2 & Hd & Hi2 & _ & Ht).
  rewrite Hh in Hi1, Ht. exists f, r1. split_and!; [done|by eapply frozen_ok_read|done|done|].
  exists r2, w2. split_and!; [done..|]. eapply (only_touches_trans r r1 w w); try done.
Qed.

(** The same buffer after two bytes were written. *)
Definition demo_written : @Buffer list_bytes * ArenaRef * World :=
  match @put_default dev list_bytes ArenaRef (@ArenaRef_ops dev)
          (demo_buffer false, demo_ref, demo_claimed.2) [104; 105] with
  | Ret s => s
  | _ => (demo_buffer false, demo_ref, demo_claimed.2)
  end.

Lemma demo_written_ok :
  @buf_ok list_bytes list_bytes_laws ArenaRef (@ArenaRef_ops dev) ArenaRef_laws
    demo_written.1.2 demo_written.2 demo_written.1.1 [104; 105] ∧
  ref_inv demo_written.1.2 demo_written.2 (held demo_written.1.1 ++ []).
Proof.
  pose proof (@put_slice_returns dev list_bytes list_bytes_laws ArenaRef (@ArenaRef_ops dev) ArenaRef_laws
    put_default demo_ref demo_claimed.2 (demo_buffer false) [] [] [104; 105] 128 put_default_law
    demo_ref_inv (demo_buffer_ok false) eq_refl ltac:(simpl; lia) ltac:(done))
    as [[[b' r'] w'] Hex]. pose proof (put_sound _ put_default_law _ _ _ Hex) as Hrun.
  destruct (@put_run_ok dev list_bytes list_bytes_laws ArenaRef (@ArenaRef_ops dev) ArenaRef_laws
    _ _ _ Hrun (demo_buffer false) demo_ref demo_claimed.2 [] [] eq_refl demo_ref_inv
    (demo_buffer_ok false)) as (Hb & Hi & _).
  unfold demo_written. rewrite Hex. by split.
Qed.

Lemma freeze_correct_witness :
  ∃ f r1, @freeze list_bytes ArenaRef (@ArenaRef_ops dev) demo_written.1.1 demo_written.1.2 demo_written.2 =
      Ret (f, r1, demo_written.2) ∧ frozen_as_ref f demo_written.2 = Some [104; 105].
Proof.
  destruct demo_written_ok as [Hb Hi].
  destruct (@freeze_correct dev list_bytes list_bytes_laws ArenaRef (@ArenaRef_ops dev) ArenaRef_laws
    demo_written.1.2 demo_written.2 demo_written.1.1 [104; 105] [] Hi Hb) as (f & r1 & H1 & H2 & _).
  exists f, r1. split; [exact H1|exact H2].
Defined.

(** Dropping or abandoning a buffer, and taking frozen bytes into owned
    heap storage, each give the allocation back exactly once (not at all when
    it was already given back by a spill); the owned copy has the same bytes,
    and is made whenever the heap serves its length. *)
Theorem drop_into_owned_correct {P : Profile} {B : BytesLib} {BL : BytesLaws B} {R} {O : ArenaOps R}
    {L : ArenaLaws R} r w b c ks :
  ar_inv r w (held b ++ ks) → buf_ok r w b c →
  (∃ r1 w1, abandon b r w = Ret (r1, w1) ∧ ar_inv r1 w1 ks ∧ only_touches r w (held b) w1) ∧
  ∃ f r1, freeze b r w = Ret (f, r1, w) ∧
    match into_owned f r1 w with
    | Ret (o, r2, w2) => view o = c ∧ ar_inv r2 w2 ks ∧ only_touches r w (held b) w2
    | _ => BytesMut_limit < Z.of_nat (length c)
    end.
Proof.
  intros Hi Hb. split.
  - destruct (buffer_drop_ok r w b c ks Hi Hb) as (r1 & w1 & ? & ? & _ & ?). by exists r1, w1.
  - destruct (freeze_ok r w b c ks Hi Hb) as (f & r1 & Hex & Hf & Hi1 & Hreg & Hh).
    exists f, r1. split; [done|]. destruct (Z.le_gt_cases (Z.of_nat (length c)) BytesMut_limit) as [Hle|Hgt].
    2: { destruct (into_owned f r1 w) as [[[o r2] w2]| |] eqn:Ho; [|done..].
         destruct (into_owned_ok r1 w f c ks _ _ _ Hi1 Hf Ho) as (Hv & Hi2 & _ & Ht). rewrite Hh in Ht.
         split_and!; [done..|]. eapply (only_touches_trans r r1 w w); try done. }
    destruct (into_owned_returns r1 w f c ks Hi1 Hf Hle) as [[[o r2] w2] Ho]. rewrite Ho.
    destruct (into_owned_ok r1 w f c ks _ _ _ Hi1 Hf Ho) as (Hv & Hi2 & _ & Ht). rewrite Hh in Ht.
    split_and!; [done..|]. eapply (only_touches_trans r r1 w w); try done.
Qed.

Lemma drop_into_owned_correct_witness :
  ∃ r1 w1, @abandon list_bytes ArenaRef (@ArenaRef_ops dev) demo_written.1.1 demo_written.1.2
             demo_written.2 = Ret (r1, w1) ∧ ref_inv r1 w1 [].
Proof.
  destruct demo_written_ok as [Hb Hi].
  destruct (@drop_into_owned_correct dev list_bytes list_bytes_laws ArenaRef (@ArenaRef_ops dev)
    ArenaRef_laws demo_written.1.2 demo_written.2 demo_written.1.1 [104; 105] [] Hi Hb)
    as [(r1 & w1 & H1 & H2 & _) _].
  exists r1, w1. split; [exact H1|exact H2].
Defined.

(** C30: [RawRegion::freeze] accepts exactly the ranges inside the visible
    capacity.  The frozen bytes are those of the range and keep the allocation
    pinned; a refused range reports itself and the capacity, and the region's
    drop gives the allocation back. *)
Theorem raw_freeze_correct {P : Profile} {R} {O : ArenaOps R} {L : ArenaLaws R}
    r w rr ks start end_ :
  ar_inv r w (rr_allocation rr :: ks) → raw_ok r rr → is_usize start → is_usize end_ →
  (start ≤ end_ ≤ rr_capacity rr ∧
   ∃ f r', raw_freeze rr r w start end_ = Ret (Ok f, r', w) ∧ frozen_held f = [rr_allocation rr] ∧
     ar_inv r' w (rr_allocation rr :: ks) ∧
     frozen_as_ref f w = read_bytes (w_mem w) (raw_as_ptr rr + start) (end_ - start)) ∨
  (¬ (start ≤ end_ ≤ rr_capacity rr) ∧
   ∃ r' w', raw_freeze rr r w start end_ =
              Ret (Err (mkRawFreezeError start end_ (rr_capacity rr)), r', w') ∧
     ar_inv r' w' ks ∧ only_touches r w [rr_allocation rr] w').
Proof.
  intros Hi Hrr Hs He.
  destruct (raw_freeze_ok r w rr ks start end_ Hi Hrr Hs He)
    as [(Hle & f & r' & Hex & Hh & Hi' & _ & Hread & _)|(Hn & r' & w' & Hex & Hi' & _ & Ht)].
  - left. split; [done|]. by exists f, r'.
  - right. split; [done|]. by exists r', w'.
Qed.

Lemma raw_freeze_correct_witness :
  ∃ f r', @raw_freeze dev ArenaRef (@ArenaRef_ops dev) (mkRawRegion (KFixed 0) 262144 0 128) demo_ref
            demo_claimed.2 0 16 = Ret (Ok f, r', demo_claimed.2) ∧ frozen_held f = [KFixed 0].
Proof.
  destruct demo_ref_region as [Ha Hs].
  assert (Hrr : @raw_ok ArenaRef (@ArenaRef_ops dev) ArenaRef_laws demo_ref
                  (mkRawRegion (KFixed 0) 262144 0 128)).
  { split; [reflexivity|]. split; [done|]. split; [exact (eq_sym Ha)|].
    change (0 ≤ 128 ≤ ref_size demo_ref (KFixed 0)). rewrite Hs. lia. }
  destruct (@raw_freeze_correct dev ArenaRef (@ArenaRef_ops dev) ArenaRef_laws demo_ref demo_claimed.2
    (mkRawRegion (KFixed 0) 262144 0 128) [] 0 16 demo_ref_inv Hrr ltac:(ulia) ltac:(ulia))
    as [(_ & f & r' & H1 & H2 & _)|(Hn & _)].
  - exists f, r'. split; [exact H1|exact H2].
  - exfalso. apply Hn. simpl. lia.
Defined.
