(* ===== verification/Lifecycle.v ===== *)
(** * The arena and its users as one system

    Any number of buffers, frozen bytes and raw regions over one arena, used in
    any order.  The abstract system is a map from object names to contents;
    the code refines it: writes to one object never show in another, frozen
    bytes never change, and what is dropped is free again.  A call may panic: an
    allocation whose size overflows when rounded, or one that asks the heap for
    more than it has. *)

From stdpp Require Import prelude numbers list gmap.
From S2P Require Import Prelude Usize Errors SlotSpec Memory Config Buffer FixedArena.
From S2P Require Import FixedProps BuddyTiling Buddy BuddyCore BuddyArena ArenaRef BufferOps.
From S2P Require Import BufferProps.
Local Open Scope Z_scope.

Section system.
Context {P : Profile} {B : BytesLib}.

(** ** Allocation through [FixedArena], [BuddyArena] and the raw wrappers *)

Definition ref_allocate (r : ArenaRef) (w : World) (len : Z)
    : outcome (result AllocError Buffer * ArenaRef * World) :=
  match r with
  | RFixed a => let! (x, a', w') := fixed_allocate a w in Ret (x, RFixed a', w')
  | RBuddy bd => let! (x, bd', w') := buddy_allocate bd w len in Ret (x, RBuddy bd', w')
  end.

Definition raw_fixed_alloc (a : ArenaInner) (w : World)
    : outcome (result AllocError RawRegion * ArenaInner * World) :=
  let! (x, a', w') := fixed_claim a w in
  match x with
  | Err e => Ret (Err e, a', w')
  | Ok (slot_idx, offset) =>
      Ret (Ok (mkRawRegion (KFixed slot_idx) (a_ptr a) offset (a_slot_capacity a)), a', w')
  end.

Definition raw_buddy_alloc (bd : BuddyArenaInner) (w : World) (len : Z)
    : outcome (result AllocError RawRegion * BuddyArenaInner * World) :=
  let! (x, bd', w') := buddy_claim bd w len in
  match x with
  | Err e => Ret (Err e, bd', w')
  | Ok (order, block_idx, offset, capacity) =>
      Ret (Ok (mkRawRegion (KBuddy order block_idx) (bd_ptr bd) offset capacity), bd', w')
  end.

Definition ref_raw_alloc (r : ArenaRef) (w : World) (len : Z)
    : outcome (result AllocError RawRegion * ArenaRef * World) :=
  match r with
  | RFixed a => let! (x, a', w') := raw_fixed_alloc a w in Ret (x, RFixed a', w')
  | RBuddy bd => let! (x, bd', w') := raw_buddy_alloc bd w len in Ret (x, RBuddy bd', w')
  end.

(** ** The system *)

Inductive owner :=
| OBuffer (b : Buffer)
| OFrozen (f : Frozen)
| ORaw (rr : RawRegion).

Record sys := mkSys {
  s_ref : ArenaRef;
  s_world : World;
  s_objs : gmap nat owner;
}.

(** One call by a user, on the object named [id]. *)
Inductive sys_op :=
| OpAllocate (id : nat) (len : Z)
| OpPut (id : nat) (data : list Z)
| OpFreeze (id : nat)
| OpRead (id : nat)
| OpDrop (id : nat)
| OpIntoOwned (id : nat)
| OpRawAllocate (id : nat) (len : Z)
| OpRawWrite (id : nat) (off : Z) (bs : list Z)
| OpRawFreeze (id : nat) (start end_ : Z).

Inductive sys_res :=
| ResDone
| ResRefused
| ResBytes (bs : list Z).

Definition put_impl : Type := @buf_state B ArenaRef → list Z → outcome (@buf_state B ArenaRef).

Definition set_obj (s : sys) (id : nat) (o : owner) : gmap nat owner := <[id := o]> (s_objs s).
Definition del_obj (s : sys) (id : nat) : gmap nat owner := delete id (s_objs s).

(** [Ret None]: the call is not possible (no such object, a name in use, or
    an argument its type or safety contract excludes: [NonZeroUsize], the length
    of a slice, the bounds of a raw region). *)
Definition sys_step (put : put_impl) (s : sys) (op : sys_op) : outcome (option (sys_res * sys)) :=
  let r := s_ref s in
  let w := s_world s in
  match op with
  | OpAllocate id len =>
      match s_objs s !! id with
      | None =>
          if (0 <? len) && (len <=? usize_MAX) then
            let! (x, r', w') := ref_allocate r w len in
            match x with
            | Ok b => Ret (Some (ResDone, mkSys r' w' (set_obj s id (OBuffer b))))
            | Err _ => Ret (Some (ResRefused, mkSys r' w' (s_objs s)))
            end
          else Ret None
      | Some _ => Ret None
      end
  | OpPut id data =>
      match s_objs s !! id with
      | Some (OBuffer b) =>
          if Z.of_nat (length data) <=? isize_MAX then
            let! (x, s') := try_put_slice put (b, r, w) data in
            let '(b', r', w') := s' in
            Ret (Some (match x with Ok _ => ResDone | Err _ => ResRefused end,
                       mkSys r' w' (set_obj s id (OBuffer b'))))
          else Ret None
      | _ => Ret None
      end
  | OpFreeze id =>
      match s_objs s !! id with
      | Some (OBuffer b) =>
          let! (f, r', w') := freeze b r w in
          Ret (Some (ResDone, mkSys r' w' (set_obj s id (OFrozen f))))
      | _ => Ret None
      end
  | OpRead id =>
      match s_objs s !! id with
      | Some (OFrozen f) =>
          match frozen_as_ref f w with
          | Some bs => Ret (Some (ResBytes bs, s))
          | None => Panic
          end
      | _ => Ret None
      end
  | OpDrop id =>
      match s_objs s !! id with
      | Some o =>
          let! (r', w') :=
            (match o with
             | OBuffer b => buffer_drop b r w
             | OFrozen f => frozen_drop f r w
             | ORaw rr => raw_drop rr r w
             end) in
          Ret (Some (ResDone, mkSys r' w' (del_obj s id)))
      | None => Ret None
      end
  | OpIntoOwned id =>
      match s_objs s !! id with
      | Some (OFrozen f) =>
          let! (o, r', w') := into_owned f r w in
          Ret (Some (ResBytes (BytesMut_freeze o), mkSys r' w' (del_obj s id)))
      | _ => Ret None
      end
  | OpRawAllocate id len =>
      match s_objs s !! id with
      | None =>
          if (0 <? len) && (len <=? usize_MAX) then
            let! (x, r', w') := ref_raw_alloc r w len in
            match x with
            | Ok rr => Ret (Some (ResDone, mkSys r' w' (set_obj s id (ORaw rr))))
            | Err _ => Ret (Some (ResRefused, mkSys r' w' (s_objs s)))
            end
          else Ret None
      | Some _ => Ret None
      end
  | OpRawWrite id off bs =>
      match s_objs s !! id with
      | Some (ORaw rr) =>
          if (0 <=? off) && (off + Z.of_nat (length bs) <=? rr_capacity rr) then
            Ret (Some (ResDone,
              mkSys r (set_mem w (write_bytes (w_mem w) (raw_as_ptr rr + off) bs)) (s_objs s)))
          else Ret None
      | _ => Ret None
      end
  | OpRawFreeze id start end_ =>
      match s_objs s !! id with
      | Some (ORaw rr) =>
          if (0 <=? start) && (start <=? usize_MAX) && (0 <=? end_) && (end_ <=? usize_MAX) then
            let! (x, r', w') := raw_freeze rr r w start end_ in
            match x with
            | Ok f =>
                match frozen_as_ref f w' with
                | Some bs => Ret (Some (ResBytes bs, mkSys r' w' (set_obj s id (OFrozen f))))
                | None => Ret None
                end
            | Err _ => Ret (Some (ResRefused, mkSys r' w' (del_obj s id)))
            end
          else Ret None
      | _ => Ret None
      end
  end.

(** ** The abstract system *)

(** What a call does to the contents of the named buffers and frozen bytes. *)
Inductive spec_step (G : gmap nat (list Z)) : sys_op → sys_res → gmap nat (list Z) → Prop :=
| SpAllocate id len : spec_step G (OpAllocate id len) ResDone (<[id := []]> G)
| SpAllocateFail id len : spec_step G (OpAllocate id len) ResRefused G
| SpPut id data c :
    G !! id = Some c → spec_step G (OpPut id data) ResDone (<[id := c ++ data]> G)
| SpPutFull id data : spec_step G (OpPut id data) ResRefused G
| SpFreeze id : spec_step G (OpFreeze id) ResDone G
| SpRead id c : G !! id = Some c → spec_step G (OpRead id) (ResBytes c) G
| SpDrop id : spec_step G (OpDrop id) ResDone (delete id G)
| SpIntoOwned id c :
    G !! id = Some c → spec_step G (OpIntoOwned id) (ResBytes c) (delete id G)
| SpRawAllocate id len : spec_step G (OpRawAllocate id len) ResDone (delete id G)
| SpRawAllocateFail id len : spec_step G (OpRawAllocate id len) ResRefused G
| SpRawWrite id off bs : spec_step G (OpRawWrite id off bs) ResDone G
| SpRawFreeze id start end_ c :
    Z.of_nat (length c) = end_ - start →
    spec_step G (OpRawFreeze id start end_) (ResBytes c) (<[id := c]> G)
| SpRawFreezeFail id start end_ :
    spec_step G (OpRawFreeze id start end_) ResRefused (delete id G).
End system.
