(* ===== verification/LifecycleProps.v ===== *)
(** * The whole system refines the map of contents *)

From stdpp Require Import prelude numbers list gmap.
From S2P Require Import Prelude Usize Errors SlotSpec Memory Config Buffer FixedArena.
From S2P Require Import FixedProps BuddyTiling Buddy BuddyCore BuddyArena BuddyProps ArenaRef.
From S2P Require Import BufferOps BufferProps BufferClaims Lifecycle.
Local Open Scope Z_scope.

Section invariant.
Context {P : Profile} {B : BytesLib} {BL : BytesLaws B}.
Implicit Types (r : ArenaRef) (w : World) (o : owner) (G : gmap nat (list Z)).

Definition owner_held o : list AllocationKind :=
  match o with
  | OBuffer b => held b
  | OFrozen f => frozen_held f
  | ORaw rr => [rr_allocation rr]
  end.

Definition owner_ok r w o (g : option (list Z)) : Prop :=
  match o with
  | OBuffer b => ∃ c, g = Some c ∧ buf_ok r w b c
  | OFrozen f => ∃ c, g = Some c ∧ frozen_ok r w f c
  | ORaw rr => raw_ok r rr
  end.

(** Everything the objects own. *)
Definition all_held (objs : gmap nat owner) : list AllocationKind :=
  map_to_list objs ≫= (λ p, owner_held p.2).

Record sys_inv (s : sys) G : Prop := {
  si_arena : ref_inv (s_ref s) (s_world s) (all_held (s_objs s));
  si_owners : ∀ id o, s_objs s !! id = Some o → owner_ok (s_ref s) (s_world s) o (G !! id);
}.

Lemma all_held_insert objs id o :
  objs !! id = None → all_held (<[id := o]> objs) ≡ₚ owner_held o ++ all_held objs.
Proof. intros Hid. unfold all_held. by rewrite map_to_list_insert. Qed.

Lemma all_held_delete objs id o :
  objs !! id = Some o → all_held objs ≡ₚ owner_held o ++ all_held (delete id objs).
Proof.
  intros Hid. rewrite <- (insert_delete_id _ _ _ Hid) at 1.
  by rewrite all_held_insert by apply lookup_delete_eq.
Qed.

Lemma owner_held_sub objs id o : objs !! id = Some o → owner_held o ⊆ all_held objs.
Proof. intros Hid k Hk. rewrite (all_held_delete _ _ _ Hid). set_solver. Qed.

(** An owner keeps its contents while memory of other allocations changes. *)
Lemma owner_ok_frame r w w0 o g ks0 ks r' w' :
  owner_ok r w o g → ref_inv r w0 ks0 → owner_held o ⊆ ks0 → ks ⊆ ks0 →
  (∀ k, k ∈ owner_held o → k ∉ ks) → same_regions r r' → only_touches r w ks w' →
  owner_ok r' w' o g.
Proof.
  intros Ho Hi Hsub Hks Hdis Hreg Ht. destruct o as [b|f|rr]; simpl in *.
  - destruct Ho as (c & -> & Hb). exists c. split; [done|]. by eapply buf_ok_frame.
  - destruct Ho as (c & -> & Hf). exists c. split; [done|]. by eapply frozen_ok_frame.
  - unfold raw_ok in *. destruct (Hreg (rr_allocation rr)) as [-> ->]. done.
Qed.

(** Replacing object [id] by [o'] (or removing it) after a call that touched
    only its own allocations. *)
Lemma sys_inv_update s G id o r' w' (o' : option owner) G' :
  sys_inv s G → s_objs s !! id = Some o →
  ref_inv r' w' (default [] (owner_held <$> o') ++ all_held (delete id (s_objs s))) →
  same_regions (s_ref s) r' → only_touches (s_ref s) (s_world s) (owner_held o) w' →
  (∀ o1, o' = Some o1 → owner_ok r' w' o1 (G' !! id)) →
  (∀ id', id' ≠ id → G' !! id' = G !! id') →
  sys_inv (mkSys r' w' (match o' with Some o1 => <[id := o1]> (s_objs s) | None => delete id (s_objs s) end)) G'.
Proof.
  intros [Hi Ho] Hid Hi' Hreg Ht Hok HG.
  assert (Hsplit := all_held_delete _ _ _ Hid).
  assert (Hnd := ref_nodup _ _ _ (ref_perm _ _ _ _ Hsplit Hi)). apply NoDup_app in Hnd as (_ & Hdis & _).
  (* every other owner is framed *)
  assert (Hother : ∀ id' o1, id' ≠ id → s_objs s !! id' = Some o1 → owner_ok r' w' o1 (G' !! id')).
  { intros id' o1 Hne Hid'. rewrite HG by done.
    apply (owner_ok_frame (s_ref s) (s_world s) (s_world s) o1 (G !! id') (all_held (s_objs s)) (owner_held o));
      try done; [by apply Ho|by eapply owner_held_sub|by eapply owner_held_sub|].
    intros k Hk Hk'. apply (Hdis k Hk').
    eapply (owner_held_sub _ id' o1); [by rewrite lookup_delete_ne|done]. }
  destruct o' as [o1|]; split; simpl in *.
  - eapply ref_perm; [|exact Hi']. rewrite <- insert_delete_eq. symmetry.
    apply all_held_insert, lookup_delete_eq.
  - intros id' o2 Hl. destruct (decide (id' = id)) as [->|Hne].
    + rewrite lookup_insert_eq in Hl. injection Hl as <-. by apply Hok.
    + rewrite lookup_insert_ne in Hl by done. by apply Hother.
  - done.
  - intros id' o2 Hl. destruct (decide (id' = id)) as [->|Hne]; [by rewrite lookup_delete_eq in Hl|].
    rewrite lookup_delete_ne in Hl by done. by apply Hother.
Qed.

(** Adding an object under a fresh name, over a freshly claimed allocation. *)
Lemma sys_inv_add s G id o r' w' k G' :
  sys_inv s G → s_objs s !! id = None → owner_held o = [k] →
  ref_inv r' w' (k :: all_held (s_objs s)) → same_regions (s_ref s) r' →
  same_outside (s_world s) w' (ref_addr r' k) (ref_size r' k) →
  owner_ok r' w' o (G' !! id) → (∀ id', id' ≠ id → G' !! id' = G !! id') →
  sys_inv (mkSys r' w' (<[id := o]> (s_objs s))) G'.
Proof.
  intros [Hi Ho] Hid Hh Hi' Hreg Hso Hok HG.
  assert (Hnd := ref_nodup _ _ _ Hi'). apply NoDup_cons in Hnd as [Hnk _]. split; simpl.
  - eapply ref_perm; [|exact Hi']. rewrite all_held_insert, Hh by done. done.
  - intros id' o2 Hl. destruct (decide (id' = id)) as [->|Hne].
    { rewrite lookup_insert_eq in Hl. by injection Hl as <-. }
    rewrite lookup_insert_ne in Hl by done. rewrite HG by done.
    assert (Hsub := owner_held_sub _ _ _ Hl).
    assert (Hmid : owner_ok r' (s_world s) o2 (G !! id')).
    { apply (owner_ok_frame (s_ref s) (s_world s) (s_world s) o2 (G !! id') (all_held (s_objs s)) []);
        try done; [by apply Ho|set_solver|set_solver]. }
    apply (owner_ok_frame r' (s_world s) w' o2 (G !! id') (k :: all_held (s_objs s)) [k]); try done.
    + set_solver.
    + set_solver.
    + intros k' Hk' ->%list_elem_of_singleton. by apply Hnk, Hsub.
    + by apply only_touches_one.
Qed.

(** A refused call that left memory alone. *)
Lemma sys_inv_refused s G r' :
  sys_inv s G → ref_inv r' (s_world s) (all_held (s_objs s)) → same_regions (s_ref s) r' →
  sys_inv (mkSys r' (s_world s) (s_objs s)) G.
Proof.
  intros [Hi Ho] Hi' Hreg. split; simpl; [done|]. intros id o Hid.
  apply (owner_ok_frame (s_ref s) (s_world s) (s_world s) o (G !! id) (all_held (s_objs s)) []);
    try done; [by apply Ho|by eapply owner_held_sub|set_solver|set_solver].
Qed.

(** ** Allocation *)

Lemma a_same_regions a a' : a_same a a' → same_regions (RFixed a) (RFixed a').
Proof. intros (Hp & _ & Hc & _) [s|o i]; simpl; [|done]. unfold slot_addr. by rewrite Hp, Hc. Qed.

Lemma bd_same_regions bd bd' : bd_same bd bd' → same_regions (RBuddy bd) (RBuddy bd').
Proof. intros (? & ? & ? & ? & ->). by intros [s|o i]. Qed.

Lemma same_regions_ref r r' k :
  same_regions r r' → ref_addr r' k = ref_addr r k ∧ ref_size r' k = ref_size r k.
Proof. intros H. apply (H k). Qed.

(** A size whose rounding does not overflow, or does so without a check. *)
Definition len_fits (len : Z) : Prop := len ≤ 2 ^ 63 ∨ debug_assertions = false.

(** What a claim promises, whichever arena served it. *)
Definition claim_spec {X} (alloc : X → AllocationKind) (good : ArenaRef → World → X → Prop)
    r w ks (len : Z) (out : outcome (result AllocError X * ArenaRef * World)) : Prop :=
  match out with
  | Ret (Ok x, r', w') =>
      ref_inv r' w' (alloc x :: ks) ∧ same_regions r r' ∧
      same_outside w w' (ref_addr r' (alloc x)) (ref_size r' (alloc x)) ∧ good r' w' x
  | Ret (Err _, r', w') => w' = w ∧ ref_inv r' w ks ∧ same_regions r r'
  | _ => ¬ len_fits len
  end.

Lemma fixed_claim_spec a w slots :
  fixed_inv a w slots →
  match fixed_claim a w with
  | Ret (Ok (s, off), a', w') =>
      ref_inv (RFixed a') w' (KFixed s :: (KFixed <$> slots)) ∧ same_regions (RFixed a) (RFixed a') ∧
      same_outside w w' (ref_addr (RFixed a') (KFixed s)) (ref_size (RFixed a') (KFixed s)) ∧
      0 < a_ptr a ∧ 0 ≤ off ∧ a_ptr a + off = ref_addr (RFixed a') (KFixed s) ∧
      0 ≤ a_slot_capacity a ≤ ref_size (RFixed a') (KFixed s)
  | Ret (Err _, a', w') =>
      w' = w ∧ ref_inv (RFixed a') w (KFixed <$> slots) ∧ same_regions (RFixed a) (RFixed a')
  | _ => False
  end.
Proof.
  intros Hi. pose proof (fi_geo _ _ _ Hi) as Hg.
  destruct (fixed_claim_ok a w slots Hi)
    as [(s & a' & w' & -> & Hs & _ & Hi' & Hsame & _ & Hso & _)|(a' & -> & _ & Hi' & Hsame & _)].
  - pose proof (a_same_regions _ _ Hsame) as Hreg. destruct (same_regions_ref _ _ (KFixed s) Hreg) as [-> ->].
    destruct Hg. simpl.
    split_and!; try done; try lia; by exists (s :: slots).
  - split_and!; [done|by exists slots|by apply a_same_regions].
Qed.

Lemma buddy_claim_spec bd w A len :
  buddy_inv bd w A → 0 < len ≤ usize_MAX →
  match buddy_claim bd w len with
  | Ret (Ok (o, i, off, cap), bd', w') =>
      ref_inv (RBuddy bd') w' (KBuddy o i :: (kind_of_block <$> A)) ∧
      same_regions (RBuddy bd) (RBuddy bd') ∧
      same_outside w w' (ref_addr (RBuddy bd') (KBuddy o i)) (ref_size (RBuddy bd') (KBuddy o i)) ∧
      0 < bd_ptr bd ∧ 0 ≤ off ∧ bd_ptr bd + off = ref_addr (RBuddy bd') (KBuddy o i) ∧
      0 ≤ cap ≤ ref_size (RBuddy bd') (KBuddy o i)
  | Ret (Err _, bd', w') =>
      w' = w ∧ ref_inv (RBuddy bd') w (kind_of_block <$> A) ∧ same_regions (RBuddy bd) (RBuddy bd')
  | _ => ¬ len_fits len
  end.
Proof.
  intros Hi Hlen. pose proof (bi_geo _ _ _ Hi) as Hg. destruct (Z.le_gt_cases len (2 ^ 63)) as [Hle|Hgt].
  2: { rewrite (buddy_claim_huge bd w A len Hi) by lia. unfold len_fits. destruct debug_assertions.
       { intros [?|?]; [lia|done]. }
       split_and!; [done| |by intros [s|o i]]. exists A. split; [done|]. destruct (bi_core _ _ _ Hi) as [F Hco].
       by eapply inv_failure. }
  pose proof (buddy_claim_ok bd w A len Hi ltac:(lia)) as Hc.
  destruct (buddy_claim bd w len) as [[[[e|[[[o i] off] cap]] bd'] w']| |]; try done.
  - destruct e; [destruct Hc as (-> & Hi' & Hs & _)|destruct Hc as (_ & -> & Hi' & Hs)];
      (split_and!; [done|by exists A|by apply bd_same_regions]).
  - destruct Hc as [Hin _ Hi' Hs Hoff Hcap Hfit _ Hso _ _].
    destruct (same_regions_ref _ _ (KBuddy o i) (bd_same_regions _ _ Hs)) as [-> ->]. simpl.
    destruct (block_in_arena bd (o, i) Hg Hin) as [Hlo _]. destruct Hg.
    split_and!; try done; try lia; [by exists ((o, i) :: A)|by apply bd_same_regions| |];
      subst cap; destruct (bd_cap_capacity bd); lia.
Qed.

(** A fresh buffer is empty and well placed. *)
Lemma fresh_buf_ok r w (b : Buffer) :
  b_spilled b = None → b_released b = false → b_len b = 0 → 0 < b_ptr b → 0 ≤ b_offset b →
  b_ptr b + b_offset b = ref_addr r (b_allocation b) →
  0 ≤ b_capacity b ≤ ref_size r (b_allocation b) → buf_ok r w b [].
Proof. intros Hs Hr Hl Hp Ho Ha Hc. unfold buf_ok. rewrite Hs, Hl. split_and!; try done; try lia; apply Hc. Qed.

Lemma ref_allocate_spec r w ks len :
  ref_inv r w ks → 0 < len ≤ usize_MAX →
  claim_spec b_allocation (λ r' w' b, b_released b = false ∧ buf_ok r' w' b []) r w ks len
    (ref_allocate r w len).
Proof.
  intros Hi Hlen. destruct r as [a|bd]; destruct Hi as (l & -> & Hi); simpl.
  - pose proof (fixed_claim_spec a w l Hi) as Hc. unfold fixed_allocate.
    destruct (fixed_claim a w) as [[[[e|[s off]] a'] w']| |]; cbn [obind]; try done.
    destruct Hc as (Hi' & Hreg & Hso & Hp & Ho & Hat & Hcap). simpl. split_and!; try done.
    by apply fresh_buf_ok.
  - pose proof (buddy_claim_spec bd w l len Hi Hlen) as Hc. unfold buddy_allocate.
    destruct (buddy_claim bd w len) as [[[[e|[[[o i] off] cap]] bd'] w']| |]; cbn [obind]; try done.
    destruct Hc as (Hi' & Hreg & Hso & Hp & Ho & Hat & Hcap). simpl. split_and!; try done.
    by apply fresh_buf_ok.
Qed.

Lemma ref_raw_alloc_spec r w ks len :
  ref_inv r w ks → 0 < len ≤ usize_MAX →
  claim_spec rr_allocation (λ r' _ rr, raw_ok r' rr) r w ks len (ref_raw_alloc r w len).
Proof.
  intros Hi Hlen. destruct r as [a|bd]; destruct Hi as (l & -> & Hi); simpl.
  - pose proof (fixed_claim_spec a w l Hi) as Hc. unfold raw_fixed_alloc.
    destruct (fixed_claim a w) as [[[[e|[s off]] a'] w']| |]; cbn [obind]; try done.
  - pose proof (buddy_claim_spec bd w l len Hi Hlen) as Hc. unfold raw_buddy_alloc.
    destruct (buddy_claim bd w len) as [[[[e|[[[o i] off] cap]] bd'] w']| |]; cbn [obind]; try done.
Qed.

(** ** Every call refines the abstract system *)

(** The calls that cannot panic.  A buffer needs the heap for twice its length
    when it spills, and [into_owned] for the length it copies. *)
Definition op_fits G (op : sys_op) : Prop :=
  match op with
  | OpAllocate _ len | OpRawAllocate _ len => len_fits len
  | OpPut id data => ∀ c, G !! id = Some c → 2 * Z.of_nat (length (c ++ data)) ≤ BytesMut_limit
  | OpIntoOwned id => ∀ c, G !! id = Some c → Z.of_nat (length c) ≤ BytesMut_limit
  | _ => True
  end.

Definition step_refines (put : put_impl) (s : sys) G (op : sys_op) : Prop :=
  match sys_step put s op with
  | Ret (Some (res, s')) => ∃ G', spec_step G op res G' ∧ sys_inv s' G'
  | Ret None => True
  | _ => ¬ op_fits G op
  end.

Lemma not_possible put s G op : sys_step put s op = Ret None → step_refines put s G op.
Proof. intros He. unfold step_refines. by rewrite He. Qed.

Lemma possible put s G op res s' G' :
  sys_step put s op = Ret (Some (res, s')) → spec_step G op res G' → sys_inv s' G' →
  step_refines put s G op.
Proof. intros He Hsp Hi. unfold step_refines. rewrite He. by exists G'. Qed.

Lemma inv_split s G id o :
  sys_inv s G → s_objs s !! id = Some o →
  ref_inv (s_ref s) (s_world s) (owner_held o ++ all_held (delete id (s_objs s))) ∧
  owner_ok (s_ref s) (s_world s) o (G !! id).
Proof.
  intros [Hi Ho] Hid. split; [|by apply Ho]. eapply ref_perm; [|exact Hi]. by apply all_held_delete.
Qed.

Lemma lookup_upd_ne G id (g : list Z) : ∀ id', id' ≠ id → <[id := g]> G !! id' = G !! id'.
Proof. intros. by rewrite lookup_insert_ne. Qed.

Lemma lookup_del_ne G id : ∀ id', id' ≠ id → delete id G !! id' = G !! id'.
Proof. intros. by rewrite lookup_delete_ne. Qed.

Lemma allocate_refines put s G id len : sys_inv s G → step_refines put s G (OpAllocate id len).
Proof.
  intros Hi. destruct (s_objs s !! id) as [o|] eqn:Eid; [apply not_possible; simpl; by rewrite Eid|].
  destruct ((0 <? len) && (len <=? usize_MAX)) eqn:El; [|apply not_possible; simpl; by rewrite Eid, El].
  assert (Hlen : 0 < len ≤ usize_MAX) by (apply andb_true_iff in El as []; lia).
  pose proof (ref_allocate_spec (s_ref s) (s_world s) _ len (si_arena _ _ Hi) Hlen) as Hc.
  destruct (ref_allocate (s_ref s) (s_world s) len) as [[[[e|b] r'] w']| |] eqn:Ea; simpl in Hc;
    [..|unfold step_refines; simpl; by rewrite Eid, El, Ea|unfold step_refines; simpl; by rewrite Eid, El, Ea].
  - destruct Hc as (-> & Hi' & Hreg). eapply possible;
      [simpl; rewrite Eid, El, Ea; reflexivity|constructor|by apply sys_inv_refused].
  - destruct Hc as (Hi' & Hreg & Hso & Hrel & Hb). eapply possible;
      [simpl; rewrite Eid, El, Ea; reflexivity|constructor|].
    eapply sys_inv_add; [done|done| |done|done|done| |apply lookup_upd_ne].
    + simpl. unfold held. by rewrite Hrel.
    + simpl. exists []. by rewrite lookup_insert_eq.
Qed.

Lemma raw_allocate_refines put s G id len : sys_inv s G → step_refines put s G (OpRawAllocate id len).
Proof.
  intros Hi. destruct (s_objs s !! id) as [o|] eqn:Eid; [apply not_possible; simpl; by rewrite Eid|].
  destruct ((0 <? len) && (len <=? usize_MAX)) eqn:El; [|apply not_possible; simpl; by rewrite Eid, El].
  assert (Hlen : 0 < len ≤ usize_MAX) by (apply andb_true_iff in El as []; lia).
  pose proof (ref_raw_alloc_spec (s_ref s) (s_world s) _ len (si_arena _ _ Hi) Hlen) as Hc.
  destruct (ref_raw_alloc (s_ref s) (s_world s) len) as [[[[e|rr] r'] w']| |] eqn:Ea; simpl in Hc;
    [..|unfold step_refines; simpl; by rewrite Eid, El, Ea|unfold step_refines; simpl; by rewrite Eid, El, Ea].
  - destruct Hc as (-> & Hi' & Hreg). eapply possible;
      [simpl; rewrite Eid, El, Ea; reflexivity|constructor|by apply sys_inv_refused].
  - destruct Hc as (Hi' & Hreg & Hso & Hok). eapply possible;
      [simpl; rewrite Eid, El, Ea; reflexivity|constructor|].
    eapply sys_inv_add; [done|done|done|done|done|done|done|apply lookup_del_ne].
Qed.

Lemma put_refines put s G id data :
  put_slice_law put → sys_inv s G → step_refines put s G (OpPut id data).
Proof.
  intros Hput Hi. destruct (s_objs s !! id) as [[b|f|rr]|] eqn:Eid;
    try (apply not_possible; simpl; by rewrite Eid).
  destruct (Z.leb_spec (Z.of_nat (length data)) isize_MAX) as [Hlen|Hlen].
  2: { apply not_possible. simpl. rewrite Eid. by rewrite (proj2 (Z.leb_gt _ _)). }
  destruct (inv_split _ _ _ _ Hi Eid) as [Hi0 (c & Hg & Hb)]. simpl in Hi0.
  pose proof (try_put_slice_spec put (s_ref s) (s_world s) b c _ data Hput Hi0 Hb Hlen) as Hp.
  destruct (try_put_slice put (b, s_ref s, s_world s) data) as [[[e|u] [[b' r'] w']]| |] eqn:Ep.
  3, 4: unfold step_refines; simpl; rewrite Eid, (proj2 (Z.leb_le _ _)), Ep by done; cbn [obind];
    intros Hfit; specialize (Hfit c Hg); destruct Hp; lia.
  - destruct Hp as ([= -> -> ->] & _). eapply possible.
    { simpl. rewrite Eid, (proj2 (Z.leb_le _ _)), Ep by done. reflexivity. }
    + constructor.
    + unfold set_obj. rewrite insert_id by done. by destruct s.
  - destruct Hp as (Hb' & _ & Hi' & Hreg & Ht & _). eapply possible.
    { simpl. rewrite Eid, (proj2 (Z.leb_le _ _)), Ep by done. reflexivity. }
    + by constructor.
    + apply (sys_inv_update s G id (OBuffer b) r' w' (Some (OBuffer b'))); try done.
      * intros o1 [= <-]. exists (c ++ data). by rewrite lookup_insert_eq.
      * apply lookup_upd_ne.
Qed.

Lemma freeze_refines put s G id : sys_inv s G → step_refines put s G (OpFreeze id).
Proof.
  intros Hi. destruct (s_objs s !! id) as [[b|f|rr]|] eqn:Eid;
    try (apply not_possible; simpl; by rewrite Eid).
  destruct (inv_split _ _ _ _ Hi Eid) as [Hi0 (c & Hg & Hb)]. simpl in Hi0.
  destruct (freeze_ok (L := ArenaRef_laws) (s_ref s) (s_world s) b c (all_held (delete id (s_objs s))) Hi0 Hb) as (f & r' & Hex & Hf & Hi' & Hreg & Hh).
  eapply possible; [simpl; rewrite Eid, Hex; reflexivity|constructor|].
  apply (sys_inv_update s G id (OBuffer b) r' (s_world s) (Some (OFrozen f))); try done.
  intros o1 [= <-]. exists c. by split.
Qed.

Lemma read_refines put s G id : sys_inv s G → step_refines put s G (OpRead id).
Proof.
  intros Hi. destruct (s_objs s !! id) as [[b|f|rr]|] eqn:Eid;
    try (apply not_possible; simpl; by rewrite Eid).
  destruct (inv_split _ _ _ _ Hi Eid) as [_ (c & Hg & Hf)].
  eapply possible; [simpl; rewrite Eid, (frozen_ok_read _ _ _ _ Hf); reflexivity|by constructor|done].
Qed.

Lemma drop_refines put s G id : sys_inv s G → step_refines put s G (OpDrop id).
Proof.
  intros Hi. destruct (s_objs s !! id) as [o|] eqn:Eid; [|apply not_possible; simpl; by rewrite Eid].
  destruct (inv_split _ _ _ _ Hi Eid) as [Hi0 Hok].
  assert (∃ r' w', match o with
                   | OBuffer b => buffer_drop b (s_ref s) (s_world s)
                   | OFrozen f => frozen_drop f (s_ref s) (s_world s)
                   | ORaw rr => raw_drop rr (s_ref s) (s_world s)
                   end = Ret (r', w') ∧ ref_inv r' w' (all_held (delete id (s_objs s))) ∧
    same_regions (s_ref s) r' ∧ only_touches (s_ref s) (s_world s) (owner_held o) w')
    as (r' & w' & Hex & Hi' & Hreg & Ht).
  { destruct o as [b|f|rr]; simpl in *.
    - destruct Hok as (c & _ & Hb). exact (buffer_drop_ok (L := ArenaRef_laws) _ _ b c _ Hi0 Hb).
    - destruct Hok as (c & _ & Hf). exact (frozen_drop_ok (L := ArenaRef_laws) _ _ f c _ Hi0 Hf).
    - unfold raw_drop. destruct (ref_release_ok _ _ _ _ Hi0) as (r' & w' & Hex & Hi' & Hreg & Hso).
      exists r', w'. split_and!; try done. by apply only_touches_one. }
  eapply possible; [unfold sys_step; cbn zeta; rewrite Eid, Hex; reflexivity|constructor|].
  apply (sys_inv_update s G id o r' w' None); try done. apply lookup_del_ne.
Qed.

Lemma into_owned_refines put s G id : sys_inv s G → step_refines put s G (OpIntoOwned id).
Proof.
  intros Hi. destruct (s_objs s !! id) as [[b|f|rr]|] eqn:Eid;
    try (apply not_possible; simpl; by rewrite Eid).
  destruct (inv_split _ _ _ _ Hi Eid) as [Hi0 (c & Hg & Hf)].
  destruct (into_owned f (s_ref s) (s_world s)) as [[[o r'] w']| |] eqn:Eo.
  2, 3: unfold step_refines; simpl; rewrite Eid, Eo; cbn [obind]; intros Hfit;
    destruct (into_owned_returns (L := ArenaRef_laws) _ _ _ _ _ Hi0 Hf (Hfit c Hg)) as [x Hx]; congruence.
  destruct (into_owned_ok (L := ArenaRef_laws) _ _ _ _ _ _ _ _ Hi0 Hf Eo) as (Hv & Hi' & Hreg & Ht).
  eapply possible; [simpl; rewrite Eid, Eo; reflexivity| |].
  - rewrite view_freeze, Hv. by constructor.
  - apply (sys_inv_update s G id (OFrozen f) r' w' None); try done. apply lookup_del_ne.
Qed.

Lemma raw_write_refines put s G id off bs : sys_inv s G → step_refines put s G (OpRawWrite id off bs).
Proof.
  intros Hi. destruct (s_objs s !! id) as [[b|f|rr]|] eqn:Eid;
    try (apply not_possible; simpl; by rewrite Eid).
  destruct ((0 <=? off) && (off + Z.of_nat (length bs) <=? rr_capacity rr)) eqn:El;
    [|apply not_possible; simpl; by rewrite Eid, El].
  destruct (inv_split _ _ _ _ Hi Eid) as [Hi0 Hok]. simpl in Hi0, Hok.
  pose proof Hok as (Hp & Hoff & Hat & Hcap). apply andb_true_iff in El as Hr. destruct Hr as [Hr1 Hr2].
  apply Z.leb_le in Hr1, Hr2.
  set (w' := set_mem (s_world s) (write_bytes (w_mem (s_world s)) (raw_as_ptr rr + off) bs)).
  assert (Hso : same_outside (s_world s) w' (ref_addr (s_ref s) (rr_allocation rr))
                  (ref_size (s_ref s) (rr_allocation rr))).
  { intros x Hx. apply lookup_write_bytes_out. unfold raw_as_ptr. 
    change (ar_addr (s_ref s) (rr_allocation rr)) with (ref_addr (s_ref s) (rr_allocation rr)) in Hat.
    change (ar_size (s_ref s) (rr_allocation rr)) with (ref_size (s_ref s) (rr_allocation rr)) in Hcap.
    lia. }
  eapply possible; [simpl; rewrite Eid, El; reflexivity|constructor|].
  rewrite <- (insert_id (s_objs s) id (ORaw rr)) by done.
  apply (sys_inv_update s G id (ORaw rr) (s_ref s) w' (Some (ORaw rr))); try done.
  - eapply ref_write; [exact Hi0|by left|exact Hso].
  - by apply only_touches_one.
  - by intros o1 [= <-].
Qed.

Lemma raw_freeze_refines put s G id start end_ :
  sys_inv s G → step_refines put s G (OpRawFreeze id start end_).
Proof.
  intros Hi. destruct (s_objs s !! id) as [[b|f|rr]|] eqn:Eid;
    try (apply not_possible; simpl; by rewrite Eid).
  destruct ((0 <=? start) && (start <=? usize_MAX) && (0 <=? end_) && (end_ <=? usize_MAX)) eqn:El;
    [|apply not_possible; simpl; by rewrite Eid, El].
  destruct (inv_split _ _ _ _ Hi Eid) as [Hi0 Hok]. simpl in Hi0, Hok.
  assert (is_usize start ∧ is_usize end_) as [Hs He].
  { rewrite !andb_true_iff, !Z.leb_le in El. unfold is_usize. lia. }
  destruct (raw_freeze_ok (L := ArenaRef_laws) (s_ref s) (s_world s) rr (all_held (delete id (s_objs s))) start end_ Hi0 Hok Hs He)
    as [(Hle & f & r' & Hex & Hh & Hi' & Hreg & Hrd & Hf)|(_ & r' & w' & Hex & Hi' & Hreg & Ht)].
  - destruct (read_bytes (w_mem (s_world s)) (raw_as_ptr rr + start) (end_ - start)) as [c|] eqn:Ec.
    2: { apply not_possible. unfold sys_step. cbn zeta. rewrite Eid, El, Hex. cbn [obind]. by rewrite Hrd. }
    eapply possible; [unfold sys_step; cbn zeta; rewrite Eid, El, Hex; cbn [obind]; rewrite Hrd; reflexivity| |].
    + constructor. by apply read_bytes_Some in Ec as [-> _]; [|lia].
    + apply (sys_inv_update s G id (ORaw rr) r' (s_world s) (Some (OFrozen f))); try done.
      * simpl. by rewrite Hh.
      * intros o1 [= <-]. exists c. rewrite lookup_insert_eq. split; [done|]. by apply Hf.
      * apply lookup_upd_ne.
  - eapply possible; [unfold sys_step; cbn zeta; rewrite Eid, El, Hex; reflexivity|constructor|].
    apply (sys_inv_update s G id (ORaw rr) r' w' None); try done. apply lookup_del_ne.
Qed.

Lemma sys_step_refines put s G op :
  put_slice_law put → sys_inv s G → step_refines put s G op.
Proof.
  intros Hput Hi. destruct op; eauto using allocate_refines, put_refines, freeze_refines, read_refines,
    drop_refines, into_owned_refines, raw_allocate_refines, raw_write_refines, raw_freeze_refines.
Qed.

(** ** Runs *)

(** A sequence of calls; one that is not possible is skipped. *)
Fixpoint sys_run (put : put_impl) (s : sys) (ops : list sys_op) : outcome (list (sys_op * sys_res) * sys) :=
  match ops with
  | [] => Ret ([], s)
  | op :: ops' =>
      let! x := sys_step put s op in
      match x with
      | None => sys_run put s ops'
      | Some (res, s') =>
          let! (tr, s'') := sys_run put s' ops' in
          Ret ((op, res) :: tr, s'')
      end
  end.

(** The trace of a run is one of the abstract system's. *)
Inductive spec_trace : gmap nat (list Z) → list (sys_op * sys_res) → gmap nat (list Z) → Prop :=
| TrNil G : spec_trace G [] G
| TrCons G op res G' tr G'' :
    spec_step G op res G' → spec_trace G' tr G'' → spec_trace G ((op, res) :: tr) G''.

(** Contents an object gains by a call. *)
Definition op_gain (id : nat) (op : sys_op) : Z :=
  match op with
  | OpPut id' data => if decide (id' = id) then Z.of_nat (length data) else 0
  | OpRawFreeze id' start end_ => if decide (id' = id) then Z.max 0 (end_ - start) else 0
  | _ => 0
  end.

(** The bytes a sequence of calls puts into, or freezes in, the object [id]. *)
Definition bytes_used (id : nat) (ops : list sys_op) : Z := foldr (λ op n, op_gain id op + n) 0 ops.

Lemma op_gain_nonneg id op : 0 ≤ op_gain id op.
Proof. destruct op; simpl; try case_decide; lia. Qed.

Lemma bytes_used_nonneg id ops : 0 ≤ bytes_used id ops.
Proof. induction ops as [|op ops IH]; simpl; [lia|]. pose proof (op_gain_nonneg id op). lia. Qed.

Lemma spec_step_gain G op res G' id c' :
  spec_step G op res G' → G' !! id = Some c' →
  ∃ c, (G !! id = Some c ∨ c = []) ∧ Z.of_nat (length c') ≤ Z.of_nat (length c) + op_gain id op.
Proof.
  pose proof (op_gain_nonneg id op). destruct 1; intros Hl; simpl in *;
    try (exists c'; split; [by left|lia]);
    try (apply lookup_delete_Some in Hl as [_ Hl]; exists c'; split; [by left|lia]).
  all: apply lookup_insert_Some in Hl as [[-> <-]|[Hne Hl]];
    [|exists c'; split; [by left|rewrite ?decide_False by done; lia]].
  - exists []. split; [by right|done].
  - exists c. split; [by left|]. rewrite decide_True by done. rewrite length_app. lia.
  - exists []. split; [by right|]. rewrite decide_True by done. simpl. lia.
Qed.

(** What is left to do fits: the sizes asked for can be rounded, and the heap
    serves twice the bytes any one object comes to hold. *)
Record run_fits G (ops : list sys_op) : Prop := {
  rf_lens : ∀ id len, OpAllocate id len ∈ ops ∨ OpRawAllocate id len ∈ ops → len_fits len;
  rf_bytes : ∀ id c, G !! id = Some c ∨ c = [] →
    2 * (Z.of_nat (length c) + bytes_used id ops) ≤ BytesMut_limit;
}.

Lemma run_fits_op G op ops : run_fits G (op :: ops) → op_fits G op.
Proof.
  intros [Hl Hb]. destruct op; simpl; try done.
  - apply (Hl id). left. by left.
  - intros c Hc. specialize (Hb id c (or_introl Hc)). simpl in Hb. rewrite decide_True in Hb by done.
    pose proof (bytes_used_nonneg id ops). rewrite length_app. lia.
  - intros c Hc. specialize (Hb id c (or_introl Hc)). simpl in Hb. pose proof (bytes_used_nonneg id ops). lia.
  - apply (Hl id). right. by left.
Qed.

Lemma run_fits_skip G op ops : run_fits G (op :: ops) → run_fits G ops.
Proof.
  intros [Hl Hb]. split.
  - intros id len [?|?]; apply (Hl id); [left|right]; by right.
  - intros id c Hc. specialize (Hb id c Hc). simpl in Hb. pose proof (op_gain_nonneg id op). lia.
Qed.

Lemma run_fits_step G op ops res G' : run_fits G (op :: ops) → spec_step G op res G' → run_fits G' ops.
Proof.
  intros Hf Hsp. pose proof (run_fits_skip _ _ _ Hf) as [Hl' Hb']. split; [done|].
  intros id c' [Hc'| ->]; [|by apply Hb'; right].
  destruct (spec_step_gain _ _ _ _ _ _ Hsp Hc') as (c & Hc & Hle).
  pose proof (rf_bytes _ _ Hf id c Hc) as Hb. simpl in Hb. lia.
Qed.

(** A run that returns is a run of the abstract system, and one that fits
    returns. *)
Definition run_refines (put : put_impl) (s : sys) G (ops : list sys_op) : Prop :=
  match sys_run put s ops with
  | Ret (tr, s') => ∃ G', spec_trace G tr G' ∧ sys_inv s' G'
  | _ => ¬ run_fits G ops
  end.

Lemma sys_run_refines put s G ops :
  put_slice_law put → sys_inv s G → run_refines put s G ops.
Proof.
  intros Hput. revert s G. induction ops as [|op ops IH]; intros s G Hi; unfold run_refines in *; simpl.
  { exists G. split; [constructor|done]. }
  pose proof (sys_step_refines put s G op Hput Hi) as Hx. unfold step_refines in Hx.
  destruct (sys_step put s op) as [[[res s1]|]| |]; cbn [obind].
  - destruct Hx as (G1 & Hsp & Hi1). specialize (IH s1 G1 Hi1).
    destruct (sys_run put s1 ops) as [[tr s']| |]; cbn [obind]; [|eauto using run_fits_step..].
    destruct IH as (G' & Htr & Hi'). exists G'. split; [by econstructor|done].
  - specialize (IH s G Hi). destruct (sys_run put s ops) as [[tr s']| |]; eauto using run_fits_skip.
  - eauto using run_fits_op.
  - eauto using run_fits_op.
Qed.

Lemma sys_inv_init r w : ref_inv r w [] → sys_inv (mkSys r w ∅) ∅.
Proof. intros Hi. by split. Qed.
End invariant.

(** C1: the whole system.  Take a fresh arena of either kind and any sequence of
    calls by any number of users.  If the run returns, what the users saw is
    what the map of contents prescribes: a buffer holds the bytes put into it,
    in order, frozen bytes read back as written however the arena is used
    meanwhile, and once every object is dropped every allocation is free.  And
    it returns, without a panic in any call, provided that no allocation of more
    than [2^63] bytes is asked for in a build with overflow checks (such a call
    panics on a buddy arena) and that the heap serves buffers of twice the bytes
    written to, or frozen in, any one object. *)
Theorem lifecycle_correct {P : Profile} {B : BytesLib} {BL : BytesLaws B} (put : put_impl) r w ops :
  put_slice_law put → ref_inv r w [] →
  match sys_run put (mkSys r w ∅) ops with
  | Ret (tr, s') =>
      ∃ G, spec_trace ∅ tr G ∧
        (∀ id f, s_objs s' !! id = Some (OFrozen f) → frozen_as_ref f (s_world s') = G !! id) ∧
        (∀ id b, s_objs s' !! id = Some (OBuffer b) →
           ∃ c, G !! id = Some c ∧ buffer_len b = Z.of_nat (length c)) ∧
        (s_objs s' = ∅ → ref_inv (s_ref s') (s_world s') [])
  | _ =>
      ¬ ((∀ id len, OpAllocate id len ∈ ops ∨ OpRawAllocate id len ∈ ops →
            len ≤ 2 ^ 63 ∨ debug_assertions = false) ∧
         ∀ id, 2 * bytes_used id ops ≤ BytesMut_limit)
  end.
Proof.
  intros Hput Hi. pose proof (sys_run_refines put _ _ ops Hput (sys_inv_init r w Hi)) as H.
  unfold run_refines in H. destruct (sys_run put (mkSys r w ∅) ops) as [[tr s']| |].
  2, 3: intros [Hl Hb]; apply H; split; [exact Hl|]; intros id c [Hc| ->]; [by rewrite lookup_empty in Hc|exact (Hb id)].
  destruct H as (G & Htr & Hi'). exists G. split_and!; [done|..].
  - intros id f Hid. destruct (si_owners _ _ Hi' _ _ Hid) as (c & -> & Hf). by eapply frozen_ok_read.
  - intros id b Hid. destruct (si_owners _ _ Hi' _ _ Hid) as (c & Hg & Hb). exists c.
    split; [done|]. by apply (buf_ok_len _ _ _ _ Hb).
  - intros He. pose proof (si_arena _ _ Hi') as Ha. by rewrite He in Ha.
Qed.

Lemma demo_arena_ref w : ref_inv (RFixed demo_arena) w [].
Proof. exists []. split; [done|apply demo_arena_inv]. Qed.

(** Two buffers, one of them frozen and read back after the other was taken. *)
Definition demo_ops : list sys_op :=
  [OpAllocate 1 100; OpPut 1 [7; 8]; OpFreeze 1; OpAllocate 2 5; OpRead 1].

Lemma lifecycle_correct_witness :
  ∃ tr s' G,
    @sys_run dev list_bytes (@put_default dev list_bytes ArenaRef (@ArenaRef_ops dev))
      (mkSys (RFixed demo_arena) (mkWorld ∅ []) ∅) demo_ops = Ret (tr, s') ∧
    spec_trace ∅ tr G.
Proof.
  pose proof (@lifecycle_correct dev list_bytes list_bytes_laws put_default (RFixed demo_arena)
    (mkWorld ∅ []) demo_ops put_default_law (demo_arena_ref _)) as H.
  assert (Hl : ∀ id len, OpAllocate id len ∈ demo_ops ∨ OpRawAllocate id len ∈ demo_ops →
                 len ≤ 2 ^ 63 ∨ @debug_assertions dev = false).
  { intros id len Hin. left. unfold demo_ops in Hin.
    destruct Hin as [Hin|Hin]; repeat (apply elem_of_cons in Hin as [Hin|Hin]; [try discriminate Hin; injection Hin as _ ->; lia|]);
      by apply not_elem_of_nil in Hin. }
  assert (Hb : ∀ id, 2 * bytes_used id demo_ops ≤ @BytesMut_limit list_bytes list_bytes_laws).
  { intros id. change (@BytesMut_limit list_bytes list_bytes_laws) with isize_MAX. unfold isize_MAX.
    simpl. case_decide; lia. }
  destruct (@sys_run dev list_bytes put_default (mkSys (RFixed demo_arena) (mkWorld ∅ []) ∅) demo_ops)
    as [[tr s']| |]; [|by destruct (H (conj Hl Hb))|by destruct (H (conj Hl Hb))].
  destruct H as (G & Htr & _). exists tr, s', G. split; [reflexivity|exact Htr].
Defined.

(** C2: exclusive access.  In every state the system reaches, allocations
    owned by different objects are disjoint, so no write through one object
    reaches memory of another, and every allocation is inside the address
    space. *)
Theorem lifecycle_exclusive {P : Profile} {B : BytesLib} {BL : BytesLaws B} (put : put_impl) r w ops tr s' :
  put_slice_law put → ref_inv r w [] → sys_run put (mkSys r w ∅) ops = Ret (tr, s') →
  ∀ id1 id2 o1 o2 k1 k2, s_objs s' !! id1 = Some o1 → s_objs s' !! id2 = Some o2 → id1 ≠ id2 →
    k1 ∈ owner_held o1 → k2 ∈ owner_held o2 →
    k1 ≠ k2 ∧
    disjoint_ranges (ref_addr (s_ref s') k1) (ref_size (s_ref s') k1)
      (ref_addr (s_ref s') k2) (ref_size (s_ref s') k2) ∧
    0 < ref_addr (s_ref s') k1 ∧ ref_addr (s_ref s') k1 + ref_size (s_ref s') k1 ≤ usize_MAX + 1.
Proof.
  intros Hput Hi Hrun id1 id2 o1 o2 k1 k2 H1 H2 Hne Hk1 Hk2.
  pose proof (sys_run_refines put _ _ ops Hput (sys_inv_init r w Hi)) as Hr.
  unfold run_refines in Hr. rewrite Hrun in Hr. destruct Hr as (G & _ & Hi'). pose proof (si_arena _ _ Hi') as Ha.
  assert (Hin1 := owner_held_sub _ _ _ H1 _ Hk1). assert (Hin2 := owner_held_sub _ _ _ H2 _ Hk2).
  assert (Hnk : k1 ≠ k2).
  { intros ->. pose proof (ref_nodup _ _ _ (ref_perm _ _ _ _ (all_held_delete _ _ _ H1) Ha)) as Hnd.
    apply NoDup_app in Hnd as (_ & Hd & _). apply (Hd k2 Hk1).
    eapply (owner_held_sub _ id2 o2); [by rewrite lookup_delete_ne|done]. }
  destruct (ref_bounds _ _ _ k1 Ha Hin1) as (? & ? & _).
  split_and!; [done|by eapply ref_disjoint|done|done].
Qed.

Lemma lifecycle_exclusive_witness :
  ∃ tr s',
    @sys_run dev list_bytes (@put_default dev list_bytes ArenaRef (@ArenaRef_ops dev))
      (mkSys (RFixed demo_arena) (mkWorld ∅ []) ∅) [OpAllocate 1 100; OpAllocate 2 5] = Ret (tr, s') ∧
    ∀ o1 o2 k1 k2, s_objs s' !! 1%nat = Some o1 → s_objs s' !! 2%nat = Some o2 →
      k1 ∈ owner_held o1 → k2 ∈ owner_held o2 → k1 ≠ k2.
Proof.
  assert (Hk : match @sys_run dev list_bytes (@put_default dev list_bytes ArenaRef (@ArenaRef_ops dev))
                       (mkSys (RFixed demo_arena) (mkWorld ∅ []) ∅) [OpAllocate 1 100; OpAllocate 2 5] with
               | Ret _ => true | _ => false end = true) by (vm_compute; reflexivity).
  destruct (sys_run _ _ _) as [[tr s']| |] eqn:Hrun; [|discriminate Hk|discriminate Hk].
  exists tr, s'. split; [reflexivity|]. intros o1 o2 k1 k2 H1 H2 Hk1 Hk2.
  exact (proj1 (@lifecycle_exclusive dev list_bytes list_bytes_laws put_default (RFixed demo_arena)
    (mkWorld ∅ []) [OpAllocate 1 100; OpAllocate 2 5] tr s' put_default_law (demo_arena_ref _) Hrun
    1%nat 2%nat o1 o2 k1 k2 H1 H2 ltac:(done) Hk1 Hk2)).
Defined.
