(* ===== verification/Async.v ===== *)
(** * Waiting for a block ([src/async_alloc.rs])

    The waiters of an async buddy arena: one queue of entries per order, an
    entry shared between its queue and the registration of the task that waits,
    and the scoring that decides whom a freed block wakes.  Each operation is
    one step; the tokio channel is a parameter. *)

From stdpp Require Import prelude numbers list gmap.
From S2P Require Import Prelude Usize Errors Memory Config Buffer Buddy.
Local Open Scope Z_scope.

(** ** The oneshot channel of tokio *)

Class OneshotLib := {
  Chan : Type;
  chan_new : Chan;
  (** [Sender::send]: whether the value was accepted. *)
  chan_send : Chan → Z → bool * Chan;
  chan_drop_tx : Chan → Chan;
  chan_drop_rx : Chan → Chan;
  (** Whether polling the receiver is [Ready], with a value or an error. *)
  chan_poll : Chan → bool;
}.

(** [rx_open c]: the receiver has not been dropped. *)
Class OneshotLaws (O : OneshotLib) := {
  rx_open : Chan → bool;
  rx_open_new : rx_open chan_new = true;
  chan_poll_new : chan_poll chan_new = false;
  chan_send_open c v : (chan_send c v).1 = rx_open c;
  rx_open_send c v : rx_open (chan_send c v).2 = rx_open c;
  chan_poll_send c v : rx_open c = true → chan_poll (chan_send c v).2 = true;
  rx_open_drop_tx c : rx_open (chan_drop_tx c) = rx_open c;
  chan_poll_drop_tx c : chan_poll (chan_drop_tx c) = true;
  rx_open_drop_rx c : rx_open (chan_drop_rx c) = false;
}.

(** ** Data *)

Inductive waiter_state := LIVE | WOKEN | REVOKED.

#[export] Instance waiter_state_eq_dec : EqDecision waiter_state.
Proof. solve_decision. Defined.

Definition NO_WAITERS_TIMESTAMP : Z := 18446744073709551615.
Definition MAX_POPS_PER_WAKE : Z := 8.
Definition MAX_CONSECUTIVE : Z := 10.
Definition ORDER_BONUS_NS : Z := 50000.
Definition DEPTH_BONUS_NS : Z := 5000.

(** Entries and channels are shared by reference; a reference is a name in a
    store.  [we_tx] is the sender, the name of its channel. *)
Record WaiterEntry := mkWaiterEntry {
  we_state : waiter_state;
  we_tx : option nat;
  we_timestamp : Z;
}.

Record BuddyOrderSlot := mkBuddyOrderSlot {
  bo_queue : list nat;
  bo_count : Z;
  bo_head_timestamp : Z;
}.

Record BuddyRegistration := mkBuddyRegistration {
  br_entry : option nat;
  br_rx : option nat;
  br_order : Z;
  br_registered : bool;
  br_pending_entry : option nat;
}.

Section waiters.
Context {P : Profile} {O : OneshotLib}.

Record NotifyWaiters := mkNotifyWaiters {
  nw_buddy_orders : list BuddyOrderSlot;
  nw_streak_state : Z;
  nw_entries : gmap nat WaiterEntry;
  nw_chans : gmap nat Chan;
}.

Definition set_order (n : NotifyWaiters) (order : Z) (s : BuddyOrderSlot) : NotifyWaiters :=
  mkNotifyWaiters (set_index (nw_buddy_orders n) order s) (nw_streak_state n) (nw_entries n) (nw_chans n).
Definition set_streak (n : NotifyWaiters) (z : Z) : NotifyWaiters :=
  mkNotifyWaiters (nw_buddy_orders n) z (nw_entries n) (nw_chans n).
Definition set_entry (n : NotifyWaiters) (e : nat) (x : WaiterEntry) : NotifyWaiters :=
  mkNotifyWaiters (nw_buddy_orders n) (nw_streak_state n) (<[e := x]> (nw_entries n)) (nw_chans n).
Definition set_chan (n : NotifyWaiters) (c : nat) (x : Chan) : NotifyWaiters :=
  mkNotifyWaiters (nw_buddy_orders n) (nw_streak_state n) (nw_entries n) (<[c := x]> (nw_chans n)).

(** Following a reference; a dangling one would be a bug of the model. *)
Definition get {A} (m : gmap nat A) (k : nat) : outcome A :=
  match m !! k with Some x => Ret x | None => Panic end.

Definition BuddyOrderSlot_new : BuddyOrderSlot := mkBuddyOrderSlot [] 0 NO_WAITERS_TIMESTAMP.

Definition NotifyWaiters_new (num_orders : Z) : outcome NotifyWaiters :=
  let! _ := assert_ (0 <? num_orders) in
  Ret (mkNotifyWaiters (replicate (Z.to_nat num_orders) BuddyOrderSlot_new) 0 ∅ ∅).

(** ** Scoring *)

(** [u64::saturating_sub] and [saturating_mul]. *)
Definition saturating_sub (a b : Z) : Z := Z.max 0 (a - b).
Definition saturating_mul (a b : Z) : Z := Z.min usize_MAX (a * b).

(** The low half of the packed streak, [streak as u32]. *)
Definition as_u32 (x : Z) : Z := x mod 2 ^ 32.

Definition effective_age (ts order count : Z) : Z :=
  saturating_sub (saturating_sub ts (saturating_mul order ORDER_BONUS_NS))
    (saturating_mul count DEPTH_BONUS_NS).

(** The orders with visible waiters, with their effective age. *)
Fixpoint collect_candidates (n : NotifyWaiters) (orders : list Z) : outcome (list (Z * Z)) :=
  match orders with
  | [] => Ret []
  | order :: orders' =>
      let! slot := index (nw_buddy_orders n) order in
      let! rest := collect_candidates n orders' in
      if bo_count slot =? 0 then Ret rest
      else if bo_head_timestamp slot =? NO_WAITERS_TIMESTAMP then Ret rest
      else Ret ((order, effective_age (bo_head_timestamp slot) order (bo_count slot)) :: rest)
  end.

Definition streak_ban (streak : Z) (candidates : list (Z * Z)) : list (Z * Z) :=
  let last_winner := Z.shiftr streak 32 in
  let streak_count := as_u32 streak in
  if (MAX_CONSECUTIVE <=? streak_count) && (1 <? Z.of_nat (length candidates)) &&
     existsb (λ c, c.1 =? last_winner) candidates
  then filter (λ c, c.1 ≠ last_winner) candidates
  else candidates.

(** [sort_by_key] is stable: an element goes in front of its equals. *)
Fixpoint insert_by_age (c : Z * Z) (l : list (Z * Z)) : list (Z * Z) :=
  match l with
  | [] => [c]
  | d :: l' => if c.2 <=? d.2 then c :: d :: l' else d :: insert_by_age c l'
  end.

Definition sort_by_age (l : list (Z * Z)) : list (Z * Z) := foldr insert_by_age [] l.

Definition score_orders (n : NotifyWaiters) (freed_order : Z) : outcome (list Z) :=
  let! last := usz_sub (Z.of_nat (length (nw_buddy_orders n))) 1 in
  let max := Z.min freed_order last in
  let! candidates := collect_candidates n (seqZ 0 (max + 1)) in
  Ret (sort_by_age (streak_ban (nw_streak_state n) candidates)).*1.

Definition update_streak (n : NotifyWaiters) (winner_order : Z) : NotifyWaiters :=
  let current := nw_streak_state n in
  let last_winner := Z.shiftr current 32 in
  set_streak n
    (if winner_order =? last_winner then
       let streak := Z.min (2 ^ 32 - 1) (as_u32 current + 1) in
       Z.lor (wrap (Z.shiftl winner_order 32)) streak
     else Z.lor (wrap (Z.shiftl winner_order 32)) 1).

(** The timestamp of the first live entry of a queue. *)
Fixpoint first_live (n : NotifyWaiters) (queue : list nat) : outcome Z :=
  match queue with
  | [] => Ret NO_WAITERS_TIMESTAMP
  | e :: queue' =>
      let! entry := get (nw_entries n) e in
      if decide (we_state entry = LIVE) then Ret (we_timestamp entry) else first_live n queue'
  end.

Definition update_head_timestamp (n : NotifyWaiters) (queue : list nat) (order : Z)
    : outcome NotifyWaiters :=
  let! ts := first_live n queue in
  let! slot := index (nw_buddy_orders n) order in
  Ret (set_order n order (mkBuddyOrderSlot (bo_queue slot) (bo_count slot) ts)).

(** ** Entries *)

(** [state.compare_exchange(LIVE, new)]: whether it was won. *)
Definition compare_exchange (n : NotifyWaiters) (e : nat) (new : waiter_state)
    : outcome (bool * NotifyWaiters) :=
  let! entry := get (nw_entries n) e in
  if decide (we_state entry = LIVE)
  then Ret (true, set_entry n e (mkWaiterEntry new (we_tx entry) (we_timestamp entry)))
  else Ret (false, n).

Definition take_tx (n : NotifyWaiters) (e : nat) : outcome (option nat * NotifyWaiters) :=
  let! entry := get (nw_entries n) e in
  Ret (we_tx entry, set_entry n e (mkWaiterEntry (we_state entry) None (we_timestamp entry))).

(** [count.fetch_sub(1)] and [fetch_add(1)] of an order; the latter with the
    previous value. *)
Definition count_sub (n : NotifyWaiters) (order : Z) : outcome NotifyWaiters :=
  let! slot := index (nw_buddy_orders n) order in
  Ret (set_order n order (mkBuddyOrderSlot (bo_queue slot) (wrap (bo_count slot - 1)) (bo_head_timestamp slot))).

Definition set_queue (n : NotifyWaiters) (order : Z) (queue : list nat) : outcome NotifyWaiters :=
  let! slot := index (nw_buddy_orders n) order in
  Ret (set_order n order (mkBuddyOrderSlot queue (bo_count slot) (bo_head_timestamp slot))).

(** [tx.send(v).is_ok()] and the drop of a sender. *)
Definition send (n : NotifyWaiters) (c : nat) (v : Z) : outcome (bool * NotifyWaiters) :=
  let! ch := get (nw_chans n) c in
  let '(ok, ch') := chan_send ch v in
  Ret (ok, set_chan n c ch').

Definition drop_tx (n : NotifyWaiters) (tx : option nat) : outcome NotifyWaiters :=
  match tx with
  | Some c => let! ch := get (nw_chans n) c in Ret (set_chan n c (chan_drop_tx ch))
  | None => Ret n
  end.

(** ** Waking *)

(** The tail of a won exchange: the waiter is told, and counts towards the
    streak if it was still listening. *)
Definition deliver (n : NotifyWaiters) (e : nat) (freed_order order : Z) : outcome NotifyWaiters :=
  let! (tx, n) := take_tx n e in
  match tx with
  | Some c =>
      let! (ok, n) := send n c freed_order in
      Ret (if ok then update_streak n order else n)
  | None => Ret n
  end.

(** The inner loop, over the locked queue; [pops] is checked before each pop. *)
Fixpoint wake_order (n : NotifyWaiters) (queue : list nat) (freed_order order pops : Z)
    : outcome (Z * NotifyWaiters) :=
  if pops <? MAX_POPS_PER_WAKE then
    match queue with
    | [] => let! n := set_queue n order [] in Ret (pops, n)
    | e :: queue' =>
        let pops := pops + 1 in
        let! entry := get (nw_entries n) e in
        if decide (we_state entry ≠ LIVE) then wake_order n queue' freed_order order pops
        else
          let! (won, n) := compare_exchange n e WOKEN in
          if won then
            let! n := count_sub n order in
            let! n := update_head_timestamp n queue' order in
            let! n := set_queue n order queue' in
            let! n := deliver n e freed_order order in
            Ret (pops, n)
          else wake_order n queue' freed_order order pops
    end
  else let! n := set_queue n order queue in Ret (pops, n).

Fixpoint wake_orders (n : NotifyWaiters) (candidates : list Z) (freed_order pops : Z)
    : outcome NotifyWaiters :=
  match candidates with
  | [] => Ret n
  | order :: candidates' =>
      if MAX_POPS_PER_WAKE <=? pops then Ret n
      else
        let! slot := index (nw_buddy_orders n) order in
        let! (pops, n) := wake_order n (bo_queue slot) freed_order order pops in
        wake_orders n candidates' freed_order pops
  end.

Definition buddy_wake (n : NotifyWaiters) (freed_order : Z) : outcome NotifyWaiters :=
  let! candidates := score_orders n freed_order in
  wake_orders n candidates freed_order 0.

(** ** Registrations *)

(** [now] is the reading of the clock; the entry and its channel share a fresh
    name. *)
Definition buddy_register (n : NotifyWaiters) (order now : Z)
    : outcome (BuddyRegistration * NotifyWaiters) :=
  let! last := usz_sub (Z.of_nat (length (nw_buddy_orders n))) 1 in
  let order := Z.min order last in
  let id := fresh (dom (nw_entries n) ∪ dom (nw_chans n)) in
  let n := set_chan n id chan_new in
  let n := set_entry n id (mkWaiterEntry LIVE (Some id) now) in
  Ret (mkBuddyRegistration (Some id) (Some id) order false (Some id), n).

Definition prepare (n : NotifyWaiters) (reg : BuddyRegistration)
    : outcome (BuddyRegistration * NotifyWaiters) :=
  match br_registered reg, br_pending_entry reg with
  | false, Some e =>
      let! slot := index (nw_buddy_orders n) (br_order reg) in
      let queue := bo_queue slot ++ [e] in
      let prev := bo_count slot in
      let! head :=
        (match prev =? 0, br_entry reg with
         | true, Some e => let! entry := get (nw_entries n) e in Ret (we_timestamp entry)
         | _, _ => Ret (bo_head_timestamp slot)
         end) in
      Ret (mkBuddyRegistration (br_entry reg) (br_rx reg) (br_order reg) true None,
           set_order n (br_order reg) (mkBuddyOrderSlot queue (wrap (prev + 1)) head))
  | _, _ => Ret (reg, n)
  end.

(** What [revoke] and [Drop] share: giving the place in the queue up, unless
    a wake won the entry first. *)
Definition revoke_entry (n : NotifyWaiters) (reg : BuddyRegistration) : outcome NotifyWaiters :=
  match br_entry reg with
  | Some e =>
      let! (won, n) := compare_exchange n e REVOKED in
      if won then
        let! (tx, n) := take_tx n e in
        let! n := count_sub n (br_order reg) in
        drop_tx n tx
      else Ret n
  | None => Ret n
  end.

Definition revoke (n : NotifyWaiters) (reg : BuddyRegistration)
    : outcome (BuddyRegistration * NotifyWaiters) :=
  if br_registered reg then
    let! n := revoke_entry n reg in
    Ret (mkBuddyRegistration (br_entry reg) (br_rx reg) (br_order reg) false (br_pending_entry reg), n)
  else Ret (reg, n).

(** [true] is [Poll::Ready]. *)
Definition registration_poll (n : NotifyWaiters) (reg : BuddyRegistration)
    : outcome (bool * BuddyRegistration * NotifyWaiters) :=
  match br_rx reg with
  | Some c =>
      let! ch := get (nw_chans n) c in
      if chan_poll ch then
        Ret (true, mkBuddyRegistration (br_entry reg) None (br_order reg) false (br_pending_entry reg),
             set_chan n c (chan_drop_rx ch))
      else Ret (false, reg, n)
  | None => Ret (true, reg, n)
  end.

(** [Drop], and then the drop of the receiver. *)
Definition registration_drop (n : NotifyWaiters) (reg : BuddyRegistration) : outcome NotifyWaiters :=
  let! n := (if br_registered reg then revoke_entry n reg else Ret n) in
  match br_rx reg with
  | Some c => let! ch := get (nw_chans n) c in Ret (set_chan n c (chan_drop_rx ch))
  | None => Ret n
  end.
End waiters.

Arguments NotifyWaiters : clear implicits.
Arguments NotifyWaiters {_}.
