(* ===== verification/AsyncArena.v ===== *)
(** * The async buddy arena ([src/async_alloc.rs], [src/buddy.rs])

    [AsyncBuddyArena] is a buddy arena whose releases wake its waiters.  A task
    in [allocate_async] runs until it has a buffer or awaits its registration;
    it is resumed when it is polled. *)

From stdpp Require Import prelude numbers list gmap.
From S2P Require Import Prelude Usize Errors Bitmap Geometry Memory Config Buffer Buddy BuddyProps.
From S2P Require Import Async.
Local Open Scope Z_scope.

(** A channel: the value sent, the sender dropped, the receiver open. *)
Definition list_oneshot : OneshotLib := {|
  Chan := option Z * bool * bool;
  chan_new := (None, false, true);
  chan_send c v := match c with (_, d, r) => (r, (if r then Some v else None, d, r)) end;
  chan_drop_tx c := match c with (s, _, r) => (s, true, r) end;
  chan_drop_rx c := match c with (s, d, _) => (s, d, false) end;
  chan_poll c := match c with (s, d, _) => d || match s with Some _ => true | None => false end end;
|}.

Definition list_oneshot_laws : OneshotLaws list_oneshot.
Proof.
  refine {| rx_open := λ c : @Chan list_oneshot, (c : option Z * bool * bool).2 |}; try done.
  - by intros [[s d] r] v.
  - by intros [[s d] r] v.
  - intros [[s d] r] v. simpl. intros ->. by destruct d.
  - by intros [[s d] r].
  - by intros [[s d] r].
  - by intros [[s d] r].
Defined.

Section arena.
Context {P : Profile} {B : BytesLib} {O : OneshotLib}.

Record AsyncBuddyArena := mkAsyncBuddyArena {
  ab_inner : BuddyArenaInner;
  ab_waiters : NotifyWaiters;
}.

Definition build_buddy_async_with {PF : Platform} {GA : GlobalAlloc} {m} (b : BuddyArenaBuilder m)
    (waiters : NotifyWaiters) (w : World) : outcome (result BuildError (AsyncBuddyArena * World)) :=
  let! page_size := PageSize_resolve (bc_page_size (bb_config b)) in
  let? arena := build_raw b true in
  let! w' := prefault_if page_size w (bd_ptr arena) (bd_total_size arena) in
  Ret (Ok (mkAsyncBuddyArena arena waiters, w')).

(** [build_async]: waiters for every order. *)
Definition build_buddy_async {PF : Platform} {GA : GlobalAlloc} {m} (b : BuddyArenaBuilder m) (w : World)
    : outcome (result BuildError (AsyncBuddyArena * World)) :=
  let! num_orders := usz_add (max_order (bb_geometry b)) 1 in
  let! waiters := NotifyWaiters_new num_orders in
  build_buddy_async_with b waiters w.

(** Where a task is after it ran: done, or parked on a registration. *)
Inductive async_result :=
| Ready (r : result AllocError Buffer)
| Parked (order : Z) (reg : BuddyRegistration).

(** One turn of [allocate_with_buddy_waiter], up to the [await]: register,
    arm, try, and revoke when the try succeeds; the registration is dropped on
    the way out. *)
Definition allocate_turn (a : AsyncBuddyArena) (w : World) (len order now : Z)
    : outcome (async_result * AsyncBuddyArena * World) :=
  let! (reg, n) := buddy_register (ab_waiters a) order now in
  let! (reg, n) := prepare n reg in
  let! (r, bd, w) := buddy_allocate (ab_inner a) w len in
  match r with
  | Ok buf =>
      let! (reg, n) := revoke n reg in
      let! n := registration_drop n reg in
      Ret (Ready (Ok buf), mkAsyncBuddyArena bd n, w)
  | Err _ => Ret (Parked order reg, mkAsyncBuddyArena bd n, w)
  end.

Definition allocate_async (a : AsyncBuddyArena) (w : World) (len now : Z)
    : outcome (async_result * AsyncBuddyArena * World) :=
  let! order := order_for_request (ab_inner a) len in
  match order with
  | None =>
      let! (r, bd, w) := buddy_allocate (ab_inner a) w len in
      Ret (Ready r, mkAsyncBuddyArena bd (ab_waiters a), w)
  | Some order => allocate_turn a w len order now
  end.

(** The task is polled: a finished [await] drops the registration and takes
    the next turn. *)
Definition resume (a : AsyncBuddyArena) (w : World) (len order now : Z) (reg : BuddyRegistration)
    : outcome (async_result * AsyncBuddyArena * World) :=
  let! (ready, reg, n) := registration_poll (ab_waiters a) reg in
  if ready then
    let! n := registration_drop n reg in
    allocate_turn (mkAsyncBuddyArena (ab_inner a) n) w len order now
  else Ret (Parked order reg, mkAsyncBuddyArena (ab_inner a) n, w).

(** The future is dropped while it waits. *)
Definition cancel (a : AsyncBuddyArena) (reg : BuddyRegistration) : outcome AsyncBuddyArena :=
  let! n := registration_drop (ab_waiters a) reg in
  Ret (mkAsyncBuddyArena (ab_inner a) n).

(** A block comes back; the wakes the release makes reach the waiters. *)
Definition wake_call_order (c : wake_call) : option Z :=
  match c with WakeBuddy order => Some order | WakeFixed => None end.

Definition async_release (a : AsyncBuddyArena) (w : World) (order block_idx : Z)
    : outcome (AsyncBuddyArena * World) :=
  let! (bd, w') := buddy_release (ab_inner a) w order block_idx in
  let orders := omap wake_call_order (drop (length (w_wakes w)) (w_wakes w')) in
  let! n := ofoldM buddy_wake (ab_waiters a) orders in
  Ret (mkAsyncBuddyArena bd n, w').

(** ** Tasks *)

Inductive task :=
| TDone (buf : Buffer)
| TParked (len order : Z) (reg : BuddyRegistration).

Record async_sys := mkAsyncSys {
  y_arena : AsyncBuddyArena;
  y_world : World;
  y_tasks : gmap nat task;
}.

Inductive async_op :=
| AAllocate (id : nat) (len now : Z)
| AResume (id : nat) (now : Z)
| ACancel (id : nat)
| ADropBuffer (id : nat).

Definition settle (s : async_sys) (id : nat) (len : Z) (x : async_result * AsyncBuddyArena * World)
    : async_sys :=
  match x with
  | (Ready (Ok buf), a, w) => mkAsyncSys a w (<[id := TDone buf]> (y_tasks s))
  | (Ready (Err _), a, w) => mkAsyncSys a w (delete id (y_tasks s))
  | (Parked order reg, a, w) => mkAsyncSys a w (<[id := TParked len order reg]> (y_tasks s))
  end.

(** One step of one task; [Ret None] when the task cannot take it.  A buffer
    that was not spilled is released by its drop. *)
Definition async_step (s : async_sys) (op : async_op) : outcome (option async_sys) :=
  match op with
  | AAllocate id len now =>
      match y_tasks s !! id with
      | None =>
          let! x := allocate_async (y_arena s) (y_world s) len now in Ret (Some (settle s id len x))
      | Some _ => Ret None
      end
  | AResume id now =>
      match y_tasks s !! id with
      | Some (TParked len order reg) =>
          let! x := resume (y_arena s) (y_world s) len order now reg in Ret (Some (settle s id len x))
      | _ => Ret None
      end
  | ACancel id =>
      match y_tasks s !! id with
      | Some (TParked len order reg) =>
          let! a := cancel (y_arena s) reg in
          Ret (Some (mkAsyncSys a (y_world s) (delete id (y_tasks s))))
      | _ => Ret None
      end
  | ADropBuffer id =>
      match y_tasks s !! id with
      | Some (TDone buf) =>
          match b_allocation buf with
          | KBuddy order block_idx =>
              let! (a, w) := async_release (y_arena s) (y_world s) order block_idx in
              Ret (Some (mkAsyncSys a w (delete id (y_tasks s))))
          | KFixed _ => Panic
          end
      | _ => Ret None
      end
  end.

Fixpoint async_run (s : async_sys) (ops : list async_op) : outcome async_sys :=
  match ops with
  | [] => Ret s
  | op :: ops' => let! x := async_step s op in async_run (default s x) ops'
  end.

Definition is_parked (s : async_sys) (id : nat) : bool :=
  match y_tasks s !! id with Some (TParked _ _ _) => true | _ => false end.
End arena.

Arguments AsyncBuddyArena : clear implicits.
Arguments AsyncBuddyArena {_}.
