(* ===== verification/AsyncProps.v ===== *)
(** * No waiter is lost

    The counters and head timestamps of the queues agree with the entries in
    them under every sequence of operations, so a waiter that has not been told
    stays queued where scoring sees it. *)

From stdpp Require Import prelude numbers list gmap.
From S2P Require Import Prelude Usize Errors Bitmap Geometry Memory Config Buffer Buddy BuddyProps.
From S2P Require Import Async AsyncArena.
Local Open Scope Z_scope.

Section live.
Context {P : Profile} {O : OneshotLib}.
Implicit Types (n : NotifyWaiters) (q : list nat) (e : nat).

(** ** Live entries *)

Definition live n e : bool :=
  match nw_entries n !! e with
  | Some x => bool_decide (we_state x = LIVE)
  | None => false
  end.

Definition live_count n q : nat := length (filter (λ e, live n e = true) q).

Lemma live_count_app n q1 q2 : live_count n (q1 ++ q2) = (live_count n q1 + live_count n q2)%nat.
Proof. unfold live_count. by rewrite filter_app, length_app. Qed.

Lemma live_count_cons n e q :
  live_count n (e :: q) = ((if live n e then 1 else 0) + live_count n q)%nat.
Proof. unfold live_count. rewrite filter_cons. by destruct (live n e). Qed.

Lemma live_count_ext n n' q :
  (∀ e, e ∈ q → live n' e = live n e) → live_count n' q = live_count n q.
Proof.
  induction q as [|e q IH]; intros He; [done|]. rewrite !live_count_cons, He by left.
  f_equal. apply IH. intros e' He'. apply He. by right.
Qed.

Lemma live_count_in n q e : e ∈ q → live n e = true → live_count n q ≠ 0%nat.
Proof.
  intros Hin Hl Hz. apply nil_length_inv in Hz. apply (elem_of_nil e).
  rewrite <- Hz. by apply list_elem_of_filter.
Qed.

Lemma live_count_le n q : (live_count n q ≤ length q)%nat.
Proof. apply length_filter. Qed.

(** An entry that stops being live is one less in the queue it is in. *)
Lemma live_count_kill n n' q e :
  NoDup q → e ∈ q → live n e = true → live n' e = false →
  (∀ e', e' ≠ e → live n' e' = live n e') → live_count n q = S (live_count n' q).
Proof.
  intros Hnd Hin Hl Hl' Ho. apply list_elem_of_split in Hin as (q1 & q2 & ->).
  apply NoDup_app in Hnd as (_ & Hd1 & [Hd2 _]%NoDup_cons).
  rewrite !live_count_app, !live_count_cons, Hl, Hl'.
  rewrite (live_count_ext n n' q1), (live_count_ext n n' q2); [lia|..]; intros e' He'; apply Ho; intros ->.
  - done.
  - apply (Hd1 e He'). by left.
Qed.

Definition known n q : Prop := ∀ e, e ∈ q → is_Some (nw_entries n !! e).

Lemma first_live_ok n q :
  known n q → (∀ e x, nw_entries n !! e = Some x → we_timestamp x ≠ NO_WAITERS_TIMESTAMP) →
  ∃ ts, first_live n q = Ret ts ∧ (live_count n q ≠ 0%nat → ts ≠ NO_WAITERS_TIMESTAMP).
Proof.
  intros Hk Hts. induction q as [|e q IH]; simpl; [by exists NO_WAITERS_TIMESTAMP|].
  destruct (Hk e) as [x Hx]; [by left|]. unfold get. rewrite Hx. cbn [obind].
  rewrite live_count_cons. unfold live. rewrite Hx.
  destruct (decide (we_state x = LIVE)) as [Hl|Hl].
  - exists (we_timestamp x). split; [done|]. intros _. by eapply Hts.
  - rewrite bool_decide_false by done. apply IH. intros e' He'. apply Hk. by right.
Qed.

(** ** The invariant *)

(** One queue: entries that exist, none twice, counted, and visible. *)
Record slot_ok n (s : BuddyOrderSlot) : Prop := {
  so_known : known n (bo_queue s);
  so_nodup : NoDup (bo_queue s);
  so_count : bo_count s = Z.of_nat (live_count n (bo_queue s));
  so_visible : live_count n (bo_queue s) ≠ 0%nat → bo_head_timestamp s ≠ NO_WAITERS_TIMESTAMP;
}.

Lemma slot_ok_entries n n' s : nw_entries n' = nw_entries n → slot_ok n s → slot_ok n' s.
Proof.
  intros He [Hk Hnd Hc Hv].
  assert (Hl : live_count n' (bo_queue s) = live_count n (bo_queue s))
    by (apply live_count_ext; intros e _; unfold live; by rewrite He).
  split; rewrite ?Hl; try done. intros e Hin. rewrite He. by apply Hk.
Qed.

Record queues_ok (k : nat) (T : Z) n : Prop := {
  qo_length : length (nw_buddy_orders n) = k;
  qo_slots : ∀ i s, nw_buddy_orders n !! i = Some s → slot_ok n s ∧ Z.of_nat (length (bo_queue s)) ≤ T;
  qo_apart : ∀ i j s s' e, nw_buddy_orders n !! i = Some s → nw_buddy_orders n !! j = Some s' →
    e ∈ bo_queue s → e ∈ bo_queue s' → i = j;
  qo_times : ∀ e x, nw_entries n !! e = Some x → we_timestamp x ≠ NO_WAITERS_TIMESTAMP;
  qo_tx : ∀ e x, nw_entries n !! e = Some x → is_Some (nw_chans n !! e) ∧
    we_tx x = if decide (we_state x = LIVE) then Some e else None;
}.

Context {OL : OneshotLaws O}.

Definition queue_at n (o : Z) (q : list nat) : Prop :=
  ∃ s, nw_buddy_orders n !! Z.to_nat o = Some s ∧ bo_queue s = q.

(** What a registration knows of its entry: queued while it is live, told once
    it is woken; before [prepare] it is in no queue. *)
Record reg_ok (k : nat) n (reg : BuddyRegistration) (e : nat) : Prop := {
  ro_entry : br_entry reg = Some e;
  ro_order : 0 ≤ br_order reg < Z.of_nat k;
  ro_rx : br_rx reg = None ∨ br_rx reg = Some e ∧ ∃ c, nw_chans n !! e = Some c ∧ rx_open c = true;
  ro_known : is_Some (nw_entries n !! e);
  ro_pending : br_pending_entry reg = None ∨
    br_pending_entry reg = Some e ∧ br_registered reg = false ∧ br_rx reg = Some e ∧
    live n e = true ∧ (∃ c, nw_chans n !! e = Some c ∧ chan_poll c = false) ∧
    ∀ i s, nw_buddy_orders n !! i = Some s → e ∉ bo_queue s;
  ro_registered : br_registered reg = true →
    br_rx reg = Some e ∧
    (live n e = true → ∃ q, queue_at n (br_order reg) q ∧ e ∈ q) ∧
    (live n e = false → ∃ c, nw_chans n !! e = Some c ∧ chan_poll c = true);
}.

Record waiters_inv (k : nat) (T : Z) n (R : gmap nat BuddyRegistration) : Prop := {
  wi_queues : queues_ok k T n;
  wi_regs : ∀ id reg, R !! id = Some reg → ∃ e, reg_ok k n reg e;
  wi_own : ∀ id id' reg reg', R !! id = Some reg → R !! id' = Some reg' →
    br_entry reg = br_entry reg' → id = id';
}.

Lemma reg_ok_frame k n n' reg e :
  nw_entries n' !! e = nw_entries n !! e → nw_chans n' !! e = nw_chans n !! e →
  (live n e = true → ∀ o q, queue_at n o q → e ∈ q → ∃ q', queue_at n' o q' ∧ e ∈ q') →
  ((∀ i s, nw_buddy_orders n !! i = Some s → e ∉ bo_queue s) →
   ∀ i s, nw_buddy_orders n' !! i = Some s → e ∉ bo_queue s) →
  reg_ok k n reg e → reg_ok k n' reg e.
Proof.
  intros He Hc Hq Hn [Hent Hord Hrx Hk Hp Hr].
  assert (Hl : live n' e = live n e) by (unfold live; by rewrite He).
  split; rewrite ?He, ?Hc, ?Hl; try done.
  - destruct Hp as [|(? & ? & ? & ? & ? & ?)]; [by left|right]. split_and!; try done. by apply Hn.
  - intros Hreg. destruct (Hr Hreg) as (? & Hq1 & ?). split_and!; try done.
    intros Hlive. destruct (Hq1 Hlive) as (q & Hat & Hin). by eapply Hq.
Qed.

(** ** Entries leaving a queue *)

(** A queue loses entries that are not live. *)
Lemma drop_dead_ok k T n o s dead rest :
  queues_ok k T n → nw_buddy_orders n !! Z.to_nat o = Some s → bo_queue s = dead ++ rest →
  Forall (λ e, live n e = false) dead →
  queues_ok k T (set_order n o (mkBuddyOrderSlot rest (bo_count s) (bo_head_timestamp s))).
Proof.
  intros [Hlen Hs Ha Ht Hx] Ho Hq Hd. destruct (Hs _ _ Ho) as [[Hk Hnd Hc Hv] HT].
  assert (Hz : live_count n dead = 0%nat).
  { clear -Hd. induction Hd as [|e dead He _ IH]; [done|]. by rewrite live_count_cons, He. }
  rewrite Hq, live_count_app, Hz in *. simpl in *.
  split; unfold set_order, set_index; simpl; try done.
  - by rewrite length_insert.
  - intros i s' Hi. apply list_lookup_insert_Some in Hi as [(<- & <- & _)|[_ Hi]].
    2: { destruct (Hs _ _ Hi) as [Hok ?]. split; [by apply (slot_ok_entries n)|done]. }
    split; [eapply (slot_ok_entries n); [done|]; split; simpl; try done|].
    + intros e He. apply Hk. apply elem_of_app. by right.
    + by apply NoDup_app in Hnd as (_ & _ & ?).
    + simpl. rewrite length_app in HT. lia.
  - intros i j s1 s2 e Hi Hj H1 H2.
    assert (Hsub : ∀ i' s', <[Z.to_nat o := mkBuddyOrderSlot rest (bo_count s) (bo_head_timestamp s)]>
        (nw_buddy_orders n) !! i' = Some s' → e ∈ bo_queue s' →
        ∃ s'', nw_buddy_orders n !! i' = Some s'' ∧ e ∈ bo_queue s'').
    { intros i' s' Hi' He. apply list_lookup_insert_Some in Hi' as [(<- & <- & _)|[_ Hi']]; [|by exists s'].
      exists s. split; [done|]. rewrite Hq. apply elem_of_app. by right. }
    destruct (Hsub _ _ Hi H1) as (t1 & ? & ?). destruct (Hsub _ _ Hj H2) as (t2 & ? & ?). by eapply Ha.
Qed.

(** A live entry is settled: it leaves [LIVE] and gives its sender up, and the
    count of its order follows. *)
Definition settled n (o : Z) (s' : BuddyOrderSlot) e (x : WaiterEntry) (c : Chan) (z : Z) : NotifyWaiters :=
  mkNotifyWaiters (<[Z.to_nat o := s']> (nw_buddy_orders n)) z (<[e := x]> (nw_entries n))
    (<[e := c]> (nw_chans n)).

Lemma live_settled n o s' e x c z e' :
  we_state x ≠ LIVE → live (settled n o s' e x c z) e' = (if decide (e' = e) then false else live n e').
Proof.
  intros Hx. unfold live, settled. simpl. destruct (decide (e' = e)) as [->|Hne].
  - rewrite lookup_insert_eq. by rewrite bool_decide_false.
  - by rewrite lookup_insert_ne.
Qed.

Lemma settle_ok k T n o s rest h e x x' c z :
  queues_ok k T n → nw_buddy_orders n !! Z.to_nat o = Some s →
  bo_queue s = rest ∨ bo_queue s = e :: rest → e ∈ bo_queue s →
  nw_entries n !! e = Some x → we_state x = LIVE →
  we_state x' ≠ LIVE → we_tx x' = None → we_timestamp x' = we_timestamp x →
  let n' := settled n o (mkBuddyOrderSlot rest (wrap (bo_count s - 1)) h) e x' c z in
  (live_count n' rest ≠ 0%nat → h ≠ NO_WAITERS_TIMESTAMP) → T ≤ usize_MAX → queues_ok k T n'.
Proof.
  intros [Hlen Hs Ha Ht Hx] Ho Hq Hin Hent Hlive Hst Htx Hts n' Hv' HT.
  destruct (Hs _ _ Ho) as [[Hk Hnd Hc Hv] HTq].
  assert (Hle : live n e = true) by (unfold live; rewrite Hent; by rewrite bool_decide_true).
  assert (Hl' : ∀ e', live n' e' = if decide (e' = e) then false else live n e')
    by (intros; by apply live_settled).
  assert (Hcnt : live_count n (bo_queue s) = S (live_count n' rest)).
  { rewrite (live_count_kill n n' (bo_queue s) e); try done.
    - f_equal. destruct Hq as [->| ->]; [done|]. rewrite live_count_cons, Hl'. by rewrite decide_True.
    - rewrite Hl'. by rewrite decide_True.
    - intros e' Hne. rewrite Hl'. by rewrite decide_False. }
  assert (Hsub : ∀ e', e' ∈ rest → e' ∈ bo_queue s) by (destruct Hq as [->| ->]; set_solver).
  assert (HNDr : NoDup rest) by (destruct Hq as [Hq|Hq]; rewrite Hq in Hnd; [done|by apply NoDup_cons in Hnd as []]).
  assert (Hlr : (length rest ≤ length (bo_queue s))%nat) by (destruct Hq as [->| ->]; simpl; lia).
  pose proof (live_count_le n (bo_queue s)).
  assert (Hkn : ∀ q, known n q → known n' q).
  { intros q Hkq e' He'. simpl. destruct (decide (e' = e)) as [->|]; [by rewrite lookup_insert_eq|].
    rewrite lookup_insert_ne by done. by apply Hkq. }
  split; simpl.
  - by rewrite length_insert.
  - intros i s' Hi. apply list_lookup_insert_Some in Hi as [(<- & <- & _)|[Hne Hi]].
    + split; [split; simpl|simpl; lia]; try done.
      * apply Hkn. intros e' He'. by apply Hk, Hsub.
      * rewrite Hc, Hcnt. rewrite wrap_small; [lia|]. rewrite Hcnt in *. unfold is_usize. lia.
    + destruct (Hs _ _ Hi) as [[Hk1 Hnd1 Hc1 Hv1] HT1].
      assert (Heq : live_count n' (bo_queue s') = live_count n (bo_queue s')).
      { apply live_count_ext. intros e' He'. rewrite Hl'. rewrite decide_False; [done|]. intros ->.
        apply Hne. by eapply Ha. }
      split; [|done]. split; rewrite ?Heq; try done. by apply Hkn.
  - intros i j s1 s2 e' Hi Hj H1 H2.
    assert (Hold : ∀ i' s', <[Z.to_nat o := mkBuddyOrderSlot rest (wrap (bo_count s - 1)) h]>
        (nw_buddy_orders n) !! i' = Some s' → e' ∈ bo_queue s' →
        ∃ s'', nw_buddy_orders n !! i' = Some s'' ∧ e' ∈ bo_queue s'').
    { intros i' s' Hi' He'. apply list_lookup_insert_Some in Hi' as [(<- & <- & _)|[_ Hi']]; [|by exists s'].
      exists s. split; [done|]. by apply Hsub. }
    destruct (Hold _ _ Hi H1) as (t1 & ? & ?). destruct (Hold _ _ Hj H2) as (t2 & ? & ?). by eapply Ha.
  - intros e' y Hy. apply lookup_insert_Some in Hy as [[_ <-]|[_ Hy]]; [rewrite Hts|]; by eapply Ht.
  - intros e' y Hy. apply lookup_insert_Some in Hy as [[<- <-]|[Hne Hy]].
    + rewrite lookup_insert_eq. split; [done|]. by rewrite decide_False.
    + rewrite lookup_insert_ne by done. by apply Hx.
Qed.

(** ** Waking one order *)

(** The entry the exchange wins is settled as woken, its channel sent to. *)
Definition woken n (o : Z) (s : BuddyOrderSlot) e (x : WaiterEntry) (c : Chan) (rest : list nat)
    (f ts z : Z) : NotifyWaiters :=
  settled n o (mkBuddyOrderSlot rest (wrap (bo_count s - 1)) ts) e
    (mkWaiterEntry WOKEN None (we_timestamp x)) (chan_send c f).2 z.

Lemma index_slot n o s : nw_buddy_orders n !! Z.to_nat o = Some s → index (nw_buddy_orders n) o = Ret s.
Proof. intros Ho. unfold index. by rewrite Ho. Qed.

Lemma set_order_twice n o s s' : set_order (set_order n o s) o s' = set_order n o s'.
Proof. unfold set_order, set_index. simpl. by rewrite list_insert_insert_eq. Qed.

Lemma lookup_set_order n o s s0 :
  nw_buddy_orders n !! Z.to_nat o = Some s0 → nw_buddy_orders (set_order n o s) !! Z.to_nat o = Some s.
Proof.
  intros Ho. unfold set_order, set_index. simpl. apply list_lookup_insert_eq. by apply lookup_lt_Some in Ho.
Qed.

(** The steps after a won exchange. *)
Lemma won_ok k T n o s e x rest f :
  queues_ok k T n → nw_buddy_orders n !! Z.to_nat o = Some s → known n rest →
  nw_entries n !! e = Some x → we_state x = LIVE →
  ∃ c ts z, nw_chans n !! e = Some c ∧
    (let! (won, n) := compare_exchange n e WOKEN in
     if won then
       let! n := count_sub n o in
       let! n := update_head_timestamp n rest o in
       let! n := set_queue n o rest in
       deliver n e f o
     else Panic) = Ret (woken n o s e x c rest f ts z) ∧
    (live_count (woken n o s e x c rest f ts z) rest ≠ 0%nat → ts ≠ NO_WAITERS_TIMESTAMP).
Proof.
  intros Hq Ho Hk Hx Hl. destruct (qo_tx _ _ _ Hq _ _ Hx) as [[c Hc] Htx]. rewrite decide_True in Htx by done.
  unfold compare_exchange, get. rewrite Hx. cbn [obind]. rewrite decide_True by done. cbn [obind].
  set (x1 := mkWaiterEntry WOKEN (we_tx x) (we_timestamp x)). set (n1 := set_entry n e x1).
  unfold count_sub. rewrite (index_slot n1 o s Ho). cbn [obind].
  set (n2 := set_order n1 o _).
  assert (Hk2 : known n2 rest).
  { intros e' He'. simpl. destruct (decide (e' = e)) as [->|]; [by rewrite lookup_insert_eq|].
    rewrite lookup_insert_ne by done. by apply Hk. }
  destruct (first_live_ok n2 rest Hk2) as (ts & Hts & Hvis).
  { intros e' y Hy. simpl in Hy. apply lookup_insert_Some in Hy as [[_ <-]|[_ Hy]].
    - exact (qo_times _ _ _ Hq _ _ Hx).
    - exact (qo_times _ _ _ Hq _ _ Hy). }
  unfold update_head_timestamp. rewrite Hts. cbn [obind].
  rewrite (index_slot n2 o _ (lookup_set_order n1 o _ s Ho)). cbn [obind bo_queue bo_count].
  unfold n2 at 1. rewrite set_order_twice. unfold set_queue.
  rewrite (index_slot _ o _ (lookup_set_order n1 o _ s Ho)). cbn [obind bo_count bo_head_timestamp].
  rewrite set_order_twice. unfold deliver, take_tx, get. simpl. rewrite lookup_insert_eq. cbn [obind].
  simpl. rewrite Htx. unfold send, get. simpl. rewrite Hc. cbn [obind].
  destruct (chan_send c f) as [ok c'] eqn:Es. cbn [obind].
  assert (Hlc : ∀ z, live_count (woken n o s e x c rest f ts z) rest = live_count n2 rest).
  { intros z. apply live_count_ext. intros e' _. unfold live. simpl.
    destruct (decide (e' = e)) as [->|]; [by rewrite !lookup_insert_eq|by rewrite !lookup_insert_ne]. }
  exists c, ts. unfold woken, settled. rewrite Es.
  destruct ok; eexists; (split_and!; [done| |]).
  - unfold update_streak, set_streak, set_chan, set_entry, set_order, set_index. simpl.
    rewrite insert_insert_eq. reflexivity.
  - intros Hne. apply Hvis. by rewrite <- (Hlc 0).
  - unfold set_chan, set_entry, set_order, set_index. simpl. rewrite insert_insert_eq. reflexivity.
  - intros Hne. apply Hvis. by rewrite <- (Hlc 0).
Qed.

(** One pass over a queue: entries that are not live are dropped until a live
    one is woken, the queue is exhausted, or the bound on pops is reached. *)
Lemma wake_order_spec k T n o s f q pops :
  queues_ok k T n → nw_buddy_orders n !! Z.to_nat o = Some s → known n q →
  ∃ dead rest, q = dead ++ rest ∧ Forall (λ e, live n e = false) dead ∧
    ((wake_order n q f o pops =
        Ret (pops + Z.of_nat (length dead),
             set_order n o (mkBuddyOrderSlot rest (bo_count s) (bo_head_timestamp s))) ∧
      (rest = [] ∨ MAX_POPS_PER_WAKE ≤ pops + Z.of_nat (length dead))) ∨
     (∃ e rest' x c ts z, rest = e :: rest' ∧ nw_entries n !! e = Some x ∧ we_state x = LIVE ∧
        nw_chans n !! e = Some c ∧ pops + Z.of_nat (length dead) < MAX_POPS_PER_WAKE ∧
        wake_order n q f o pops =
          Ret (pops + Z.of_nat (length dead) + 1, woken n o s e x c rest' f ts z) ∧
        (live_count (woken n o s e x c rest' f ts z) rest' ≠ 0%nat → ts ≠ NO_WAITERS_TIMESTAMP))).
Proof.
  intros Hq Ho. revert pops. induction q as [|e q IH]; intros pops Hk; simpl;
    destruct (Z.ltb_spec pops MAX_POPS_PER_WAKE) as [Hp|Hp].
  - exists [], []. split_and!; [done|done|]. left. unfold set_queue. rewrite (index_slot n o s Ho).
    cbn [obind]. rewrite Z.add_0_r. split; [done|by left].
  - exists [], []. split_and!; [done|done|]. left. unfold set_queue. rewrite (index_slot n o s Ho).
    cbn [obind]. rewrite Z.add_0_r. split; [done|by left].
  - destruct (Hk e) as [x Hx]; [by left|]. unfold get. rewrite Hx. cbn [obind].
    assert (Hkq : known n q) by (intros e' He'; apply Hk; by right).
    destruct (decide (we_state x ≠ LIVE)) as [Hl|Hl].
    + destruct (IH (pops + 1) Hkq) as (dead & rest & -> & Hd & Hcase).
      exists (e :: dead), rest. simpl. split; [done|]. split.
      { constructor; [|done]. unfold live. rewrite Hx. by rewrite bool_decide_false. }
      replace (pops + Z.of_nat (S (length dead))) with (pops + 1 + Z.of_nat (length dead)) by lia. done.
    + apply dec_stable in Hl. exists [], (e :: q). split_and!; [done|done|]. right.
      destruct (won_ok k T n o s e x q f Hq Ho Hkq Hx Hl) as (c & ts & z & Hc & Hw & Hv).
      exists e, q, x, c, ts, z. rewrite Z.add_0_r. split_and!; try done.
      revert Hw. unfold compare_exchange, get. rewrite Hx. cbn [obind]. rewrite !decide_True by done. cbn [obind].
      destruct (count_sub _ _) as [m1| |]; cbn [obind]; [|done..].
      destruct (update_head_timestamp _ _ _) as [m2| |]; cbn [obind]; [|done..].
      destruct (set_queue _ _ _) as [m3| |]; cbn [obind]; [|done..].
      by intros ->.
  - exists [], (e :: q). split_and!; [done|done|]. left. unfold set_queue. rewrite (index_slot n o s Ho).
    cbn [obind]. rewrite Z.add_0_r. split; [done|by right].
Qed.

(** ** Waking keeps the invariant *)

Lemma queue_at_eq n o q q' : queue_at n o q → queue_at n o q' → q = q'.
Proof. intros (s & Hs & <-) (s' & Hs' & <-). by simplify_eq. Qed.

(** Registrations other than the settled one see the same queues, less dead
    entries. *)
Lemma reg_ok_shrink k n n' reg e o s s' :
  nw_buddy_orders n !! Z.to_nat o = Some s → nw_buddy_orders n' = <[Z.to_nat o := s']> (nw_buddy_orders n) →
  nw_entries n' !! e = nw_entries n !! e → nw_chans n' !! e = nw_chans n !! e →
  (live n e = true → e ∈ bo_queue s → e ∈ bo_queue s') → (e ∈ bo_queue s' → e ∈ bo_queue s) →
  reg_ok k n reg e → reg_ok k n' reg e.
Proof.
  intros Ho Hn' He Hc Hkeep Hsub. apply reg_ok_frame; try done.
  - intros Hl o' q (t & Ht & <-) Hin. unfold queue_at. rewrite Hn'.
    destruct (decide (Z.to_nat o' = Z.to_nat o)) as [Heq|Hne].
    + rewrite Heq in *. simplify_eq. exists (bo_queue s'). split; [|by apply Hkeep].
      exists s'. split; [|done]. apply list_lookup_insert_eq. by apply lookup_lt_Some in Ho.
    + exists (bo_queue t). split; [|done]. exists t. split; [|done]. by rewrite list_lookup_insert_ne.
  - intros Hno i t Ht Hin. rewrite Hn' in Ht.
    apply list_lookup_insert_Some in Ht as [(<- & <- & _)|[_ Ht]]; [by eapply Hno; [|apply Hsub]|by eapply Hno].
Qed.

Lemma wake_order_inv k T n R o s f pops :
  waiters_inv k T n R → T ≤ usize_MAX → nw_buddy_orders n !! Z.to_nat o = Some s →
  ∃ pops' n', wake_order n (bo_queue s) f o pops = Ret (pops', n') ∧ waiters_inv k T n' R.
Proof.
  intros [Hq Hr Hown] HT Ho. destruct (qo_slots _ _ _ Hq _ _ Ho) as [Hs _].
  destruct (wake_order_spec k T n o s f (bo_queue s) pops Hq Ho (so_known _ _ Hs))
    as (dead & rest & Hqs & Hd & Hcase). pose proof (drop_dead_ok k T n o s dead rest Hq Ho Hqs Hd) as Hq1.
  assert (Hdead : ∀ e, live n e = true → e ∈ bo_queue s → e ∈ rest).
  { intros e Hl Hin. rewrite Hqs in Hin. apply elem_of_app in Hin as [Hin|Hin]; [|done].
    rewrite Forall_forall in Hd. rewrite Hd in Hl by done. done. }
  destruct Hcase as [[Hw _]|(e & rest' & x & c & ts & z & -> & Hx & Hlx & Hc & _ & Hw & Hv)].
  - do 2 eexists. split; [done|]. split; [done| |done]. intros id reg Hid.
    destruct (Hr id reg Hid) as (e & He). exists e.
    eapply (reg_ok_shrink k n _ reg e o s); try done; simpl; [by apply Hdead|].
    rewrite Hqs. intros ?. apply elem_of_app. by right.
  - do 2 eexists. split; [done|].
    set (s1 := mkBuddyOrderSlot (e :: rest') (bo_count s) (bo_head_timestamp s)) in *.
    assert (Heq : woken (set_order n o s1) o s1 e x c rest' f ts z = woken n o s e x c rest' f ts z).
    { unfold woken, settled, set_order, set_index. simpl. by rewrite list_insert_insert_eq. }
    assert (Hin : e ∈ bo_queue s) by (rewrite Hqs; apply elem_of_app; right; by left).
    split; [|intros id reg Hid|done].
    + rewrite <- Heq in Hv |- *. apply (settle_ok k T _ o s1 rest' ts e x); try done.
      * by eapply lookup_set_order.
      * by right.
      * by left.
    + destruct (Hr id reg Hid) as (e0 & He0). exists e0. destruct (decide (e0 = e)) as [->|Hne].
      * assert (Hle : live n e = true) by (unfold live; rewrite Hx; by rewrite bool_decide_true).
        destruct He0 as [H1 H2 Hrx Hk Hp Hreg].
        assert (Hl' : live (woken n o s e x c rest' f ts z) e = false)
          by (unfold woken; rewrite live_settled by done; by rewrite decide_True).
        split; rewrite ?Hl'; simpl; rewrite ?lookup_insert_eq; try done.
        -- destruct Hrx as [|(? & c0 & Hc0 & Hop)]; [by left|right]. simplify_eq. split; [done|].
           eexists. split; [done|]. by rewrite rx_open_send.
        -- destruct Hp as [|(_ & _ & _ & _ & _ & Hno)]; [by left|]. by destruct (Hno _ _ Ho).
        -- intros Hg. destruct (Hreg Hg) as (Hrx' & _ & _). split_and!; [done|done|]. intros _.
           destruct Hrx as [|(? & c0 & Hc0 & Hop)]; [congruence|]. simplify_eq.
           eexists. split; [done|]. by apply chan_poll_send.
      * eapply (reg_ok_shrink k n _ reg e0 o s); try done; simpl; rewrite ?lookup_insert_ne by done; try done.
        -- intros Hl Hi. apply Hdead in Hi; [|done]. apply elem_of_cons in Hi as [|]; done.
        -- rewrite Hqs. intros ?. apply elem_of_app. right. by right.
Qed.

Lemma wake_orders_inv k T n R cs f pops :
  waiters_inv k T n R → T ≤ usize_MAX → Forall (λ o, 0 ≤ o < Z.of_nat k) cs →
  ∃ n', wake_orders n cs f pops = Ret n' ∧ waiters_inv k T n' R.
Proof.
  intros Hi HT Hcs. revert n pops Hi. induction Hcs as [|o cs Ho _ IH]; intros n pops Hi; simpl; [by exists n|].
  case_match; [by exists n|].
  destruct (lookup_lt_is_Some_2 (nw_buddy_orders n) (Z.to_nat o)) as [s Hs].
  { rewrite (qo_length _ _ _ (wi_queues _ _ _ _ Hi)). lia. }
  rewrite (index_slot n o s Hs). cbn [obind].
  destruct (wake_order_inv k T n R o s f pops Hi HT Hs) as (pops' & n' & -> & Hi'). cbn [obind]. by apply IH.
Qed.
End live.
