(* ===== verification/AsyncRegs.v ===== *)
(** * Registrations of the async buddy arena

    [register], [prepare], [revoke], polling and dropping a registration keep
    the invariant of the queues. *)

From stdpp Require Import prelude numbers list gmap.
From S2P Require Import Prelude Usize Async AsyncProps.
Local Open Scope Z_scope.

Section regs.
Context {P : Profile} {O : OneshotLib} {OL : OneshotLaws O}.
Implicit Types (n : NotifyWaiters) (q : list nat) (e : nat).

Lemma queues_ok_mono k T T' n : T ≤ T' → queues_ok k T n → queues_ok k T' n.
Proof.
  intros HT [H1 H2 H3 H4 H5]. split; try done. intros i s Hi. destruct (H2 i s Hi). split; [done|lia].
Qed.

Lemma waiters_inv_mono k T T' n R : T ≤ T' → waiters_inv k T n R → waiters_inv k T' n R.
Proof. intros HT [Hq Hr Ho]. split; try done. by eapply queues_ok_mono. Qed.

(** Changing channels only. *)
Lemma queues_ok_chan k T n e c :
  queues_ok k T n → queues_ok k T (set_chan n e c).
Proof.
  intros [H1 H2 H3 H4 H5]. split; try done.
  - intros i s Hi. destruct (H2 i s Hi). split; [by apply (slot_ok_entries n)|done].
  - intros e' x Hx. destruct (H5 e' x Hx) as [Hc Htx]. split; [|done]. simpl.
    destruct (decide (e' = e)) as [->|]; [by rewrite lookup_insert_eq|by rewrite lookup_insert_ne].
Qed.

Lemma reg_ok_chan k n reg e e' c : e ≠ e' → reg_ok k n reg e → reg_ok k (set_chan n e' c) reg e.
Proof.
  intros Hne. apply reg_ok_frame; try done.
  - simpl. by rewrite lookup_insert_ne.
  - intros _ o q Hq Hin. by exists q.
Qed.

(** The names of entries in a queue, or held by a registration, are taken. *)
Lemma register_ok k T n R id order now :
  waiters_inv k T n R → (0 < k)%nat → Z.of_nat k ≤ usize_MAX → 0 ≤ order →
  now ≠ NO_WAITERS_TIMESTAMP → R !! id = None →
  ∃ reg n', buddy_register n order now = Ret (reg, n') ∧ waiters_inv k T n' (<[id := reg]> R).
Proof.
  intros [Hq Hr Hown] Hk Hku Hord Hnow Hid. unfold buddy_register. rewrite (qo_length _ _ _ Hq).
  rewrite usz_sub_ok by (unfold is_usize; lia). cbn [obind].
  set (e := fresh _). assert (He : e ∉ dom (nw_entries n) ∪ dom (nw_chans n)) by apply is_fresh.
  clearbody e. do 2 eexists. split; [done|]. apply not_elem_of_union in He as [He Hce].
  apply not_elem_of_dom in He, Hce.
  set (n' := set_entry _ _ _).
  assert (Hl : ∀ e', e' ≠ e → live n' e' = live n e')
    by (intros e' Hne; unfold live; simpl; by rewrite lookup_insert_ne).
  assert (Hnq : ∀ i s, nw_buddy_orders n !! i = Some s → e ∉ bo_queue s).
  { intros i s Hi Hin. destruct (qo_slots _ _ _ Hq _ _ Hi) as [[Hkn _ _ _] _].
    destruct (Hkn e Hin) as [x Hx]. congruence. }
  split.
  - destruct Hq as [H1 H2 H3 H4 H5]. split; try done.
    + intros i s Hi. destruct (H2 i s Hi) as [[Hkn Hnd Hc Hv] HT]. split; [|done].
      assert (Heq : live_count n' (bo_queue s) = live_count n (bo_queue s)).
      { apply live_count_ext. intros e' He'. apply Hl. intros ->. by eapply Hnq. }
      split; rewrite ?Heq; try done. intros e' He'. simpl.
      destruct (decide (e' = e)) as [->|]; [by rewrite lookup_insert_eq|].
      rewrite lookup_insert_ne by done. by apply Hkn.
    + intros e' x Hx. simpl in Hx. apply lookup_insert_Some in Hx as [[_ <-]|[_ Hx]]; [done|by eapply H4].
    + intros e' x Hx. simpl in Hx |- *. apply lookup_insert_Some in Hx as [[<- <-]|[Hne Hx]].
      * by rewrite lookup_insert_eq.
      * rewrite lookup_insert_ne by done. by apply H5.
  - intros id' reg Hid'. apply lookup_insert_Some in Hid' as [[_ <-]|[_ Hid']].
    + exists e. split; simpl; try done.
      * lia.
      * right. rewrite lookup_insert_eq. split; [done|]. eexists. split; [done|]. apply rx_open_new.
      * by rewrite lookup_insert_eq.
      * right. split_and!; try done.
        -- unfold live. simpl. by rewrite lookup_insert_eq, bool_decide_true.
        -- rewrite lookup_insert_eq. eexists. split; [done|]. apply chan_poll_new.
    + destruct (Hr id' reg Hid') as (e' & He'). exists e'.
      assert (e' ≠ e) by (intros ->; destruct (ro_known _ _ _ _ He') as [x Hx]; congruence).
      eapply (reg_ok_frame k n); try done; simpl; rewrite ?lookup_insert_ne by done; try done.
      intros _ o q Hqa Hin. by exists q.
  - intros i j ri rj Hi Hj Heq.
    assert (Hold : ∀ i' r', R !! i' = Some r' → br_entry r' ≠ Some e).
    { intros i' r' Hi' Hbr. destruct (Hr i' r' Hi') as (e' & He'). rewrite (ro_entry _ _ _ _ He') in Hbr.
      simplify_eq. destruct (ro_known _ _ _ _ He') as [x Hx]. congruence. }
    apply lookup_insert_Some in Hi as [[<- <-]|[_ Hi]]; apply lookup_insert_Some in Hj as [[<- <-]|[_ Hj]].
    + done.
    + simpl in Heq. by destruct (Hold _ _ Hj).
    + simpl in Heq. by destruct (Hold _ _ Hi).
    + by eapply Hown.
Qed.

(** Replacing one registration by another over the same entry. *)
Lemma replace_reg k n n' (R : gmap nat BuddyRegistration) id reg reg' e :
  (∀ i r, R !! i = Some r → ∃ e, reg_ok k n r e) →
  (∀ i j r r', R !! i = Some r → R !! j = Some r' → br_entry r = br_entry r' → i = j) →
  R !! id = Some reg → br_entry reg = Some e → reg_ok k n' reg' e →
  (∀ r e', e' ≠ e → reg_ok k n r e' → reg_ok k n' r e') →
  (∀ i r, <[id := reg']> R !! i = Some r → ∃ e, reg_ok k n' r e) ∧
  (∀ i j r r', <[id := reg']> R !! i = Some r → <[id := reg']> R !! j = Some r' →
     br_entry r = br_entry r' → i = j).
Proof.
  intros Hr Hown Hid He Hok Hframe. split.
  - intros i r Hi. apply lookup_insert_Some in Hi as [[<- <-]|[Hne Hi]]; [by exists e|].
    destruct (Hr i r Hi) as (e' & He'). exists e'. apply Hframe; [|done]. intros ->.
    apply Hne. apply (Hown id i reg r); try done. by rewrite He, (ro_entry _ _ _ _ He').
  - intros i j r r' Hi Hj Heq. pose proof (ro_entry _ _ _ _ Hok) as He'.
    apply lookup_insert_Some in Hi as [[<- <-]|[Hni Hi]]; apply lookup_insert_Some in Hj as [[<- <-]|[Hnj Hj]].
    + done.
    + apply (Hown id j reg r'); try done. congruence.
    + apply (Hown i id r reg); try done. congruence.
    + by eapply Hown.
Qed.

(** A queue takes a new entry at its end. *)
Lemma push_ok k T n o s s' e :
  queues_ok k T n → nw_buddy_orders n !! Z.to_nat o = Some s →
  (∀ i t, nw_buddy_orders n !! i = Some t → e ∉ bo_queue t) →
  bo_queue s' = bo_queue s ++ [e] → slot_ok n s' → queues_ok k (T + 1) (set_order n o s').
Proof.
  intros [H1 H2 H3 H4 H5] Ho Hno Hq Hs. split; unfold set_order, set_index; simpl; try done.
  - by rewrite length_insert.
  - intros i t Hi. apply list_lookup_insert_Some in Hi as [(<- & <- & _)|[_ Hi]].
    + split; [by apply (slot_ok_entries n)|]. rewrite Hq, length_app. simpl.
      destruct (H2 _ _ Ho). lia.
    + destruct (H2 _ _ Hi). split; [by apply (slot_ok_entries n)|lia].
  - intros i j t t' e' Hi Hj Hin Hin'.
    apply list_lookup_insert_Some in Hi as [(<- & <- & _)|[Hni Hi]];
      apply list_lookup_insert_Some in Hj as [(<- & <- & _)|[Hnj Hj]]; [done|..|by eapply H3];
      rewrite Hq in *.
    + apply elem_of_app in Hin as [Hin|Heq%list_elem_of_singleton]; [by eapply (H3 _ _ s t')|].
      subst. by destruct (Hno _ _ Hj).
    + apply elem_of_app in Hin' as [Hin'|Heq%list_elem_of_singleton]; [by eapply (H3 _ _ t s)|].
      subst. by destruct (Hno _ _ Hi).
Qed.

Lemma prepare_ok k T n R id reg :
  waiters_inv k T n R → R !! id = Some reg → T + 1 ≤ usize_MAX →
  ∃ reg' n', prepare n reg = Ret (reg', n') ∧ waiters_inv k (T + 1) n' (<[id := reg']> R).
Proof.
  intros Hi Hid HT. pose proof (waiters_inv_mono k T (T + 1) n R ltac:(lia) Hi) as Hmono.
  destruct (wi_regs _ _ _ _ Hi id reg Hid) as (e & Hreg). pose proof Hreg as [He Hord Hrx Hkn Hpend _].
  unfold prepare. destruct (br_registered reg) eqn:Eg;
    [do 2 eexists; split; [done|]; by rewrite insert_id|].
  destruct Hpend as [->|(-> & _ & Hrxs & Hl & Hch & Hno)];
    [do 2 eexists; split; [done|]; by rewrite insert_id|].
  destruct Hi as [Hq Hr Hown].
  destruct (lookup_lt_is_Some_2 (nw_buddy_orders n) (Z.to_nat (br_order reg))) as [s Hs].
  { rewrite (qo_length _ _ _ Hq). lia. }
  rewrite (index_slot n _ s Hs). cbn [obind]. rewrite He. destruct Hkn as [x Hx].
  destruct (qo_slots _ _ _ Hq _ _ Hs) as [[Hkn Hnd Hc Hv] HTq]. pose proof (live_count_le n (bo_queue s)).
  set (head := if bo_count s =? 0 then we_timestamp x else bo_head_timestamp s).
  exists (mkBuddyRegistration (Some e) (br_rx reg) (br_order reg) true None),
    (set_order n (br_order reg) (mkBuddyOrderSlot (bo_queue s ++ [e]) (wrap (bo_count s + 1)) head)).
  split. { unfold get. rewrite Hx. unfold head. by destruct (bo_count s =? 0). }
  assert (Hhead : head ≠ NO_WAITERS_TIMESTAMP).
  { unfold head. destruct (Z.eqb_spec (bo_count s) 0); [by eapply (qo_times _ _ _ Hq)|]. apply Hv. lia. }
  assert (Hlc : live_count n (bo_queue s ++ [e]) = S (live_count n (bo_queue s)))
    by (rewrite live_count_app, live_count_cons, Hl; unfold live_count at 2; simpl; lia).
  set (s' := mkBuddyOrderSlot _ _ _). set (n' := set_order _ _ _).
  assert (Hreg' : reg_ok k n' (mkBuddyRegistration (Some e) (br_rx reg) (br_order reg) true None) e).
  { split; simpl; try done; [by left|]. intros _. split_and!; [done| |].
    - intros _. exists (bo_queue s ++ [e]). split; [|apply elem_of_app; right; by left].
      exists s'. split; [|done]. by eapply lookup_set_order.
    - change (live n' e) with (live n e). congruence. }
  destruct (replace_reg k n n' R id reg _ e Hr Hown Hid He Hreg') as [Hr' Hown'].
  { intros r e' Hne. eapply (reg_ok_shrink k n n' r e' (br_order reg) s s'); try done; simpl.
    - intros _ ?. apply elem_of_app. by left.
    - intros [|Heq%list_elem_of_singleton]%elem_of_app; done. }
  split; [|done|done]. apply (push_ok k T n _ s s' e); try done. split; simpl; try done.
  - intros e' [Hin|Hin%list_elem_of_singleton]%elem_of_app; [by apply Hkn|subst; by exists x].
  - apply NoDup_app. split_and!; [done| |apply NoDup_singleton].
    intros e' Hin Heq%list_elem_of_singleton. subst. by eapply Hno.
  - rewrite Hlc, Hc, wrap_small; [lia|]. unfold is_usize. lia.
Qed.

(** Giving a place in the queue up. *)
Lemma revoke_entry_ok k T n R id reg e :
  waiters_inv k T n R → T ≤ usize_MAX → R !! id = Some reg → br_entry reg = Some e →
  br_registered reg = true →
  ∃ n', revoke_entry n reg = Ret n' ∧ queues_ok k T n' ∧ live n' e = false ∧
    nw_streak_state n' = nw_streak_state n ∧
    (∀ c, nw_chans n !! e = Some c → ∃ c', nw_chans n' !! e = Some c' ∧ rx_open c' = rx_open c) ∧
    is_Some (nw_entries n' !! e) ∧
    (∀ r e', e' ≠ e → reg_ok k n r e' → reg_ok k n' r e').
Proof.
  intros [Hq Hr Hown] HT Hid He Hg. destruct (Hr id reg Hid) as (e1 & Hreg).
  pose proof Hreg as [He1 Hord Hrx [x Hx] _ Hregd]. rewrite He in He1. simplify_eq.
  destruct (Hregd Hg) as (Hrxs & Hlive & Hdead).
  unfold revoke_entry, compare_exchange, get. rewrite He, Hx. cbn [obind].
  destruct (qo_tx _ _ _ Hq _ _ Hx) as [[c Hc] Htx].
  destruct (decide (we_state x = LIVE)) as [Hl|Hl]; cbn [obind].
  2: { exists n. assert (live n e1 = false) by (unfold live; rewrite Hx; by rewrite bool_decide_false).
       split_and!; try done; intros c0 Hc0; by exists c0. }
  assert (Hle : live n e1 = true) by (unfold live; rewrite Hx; by rewrite bool_decide_true).
  destruct (Hlive Hle) as (q & (s & Hs & <-) & Hin).
  unfold take_tx, get. simpl. rewrite lookup_insert_eq. cbn [obind we_tx we_state we_timestamp].
  rewrite Htx. unfold count_sub. erewrite index_slot by exact Hs. cbn [obind].
  unfold drop_tx, get. simpl. rewrite Hc. cbn [obind].
  set (x' := mkWaiterEntry REVOKED None (we_timestamp x)).
  exists (settled n (br_order reg) (mkBuddyOrderSlot (bo_queue s) (wrap (bo_count s - 1)) (bo_head_timestamp s))
            e1 x' (chan_drop_tx c) (nw_streak_state n)).
  destruct (qo_slots _ _ _ Hq _ _ Hs) as [[Hkn Hnd Hcn Hv] _].
  split_and!.
  - unfold settled, set_order, set_chan, set_entry, set_index. simpl. by rewrite insert_insert_eq.
  - apply (settle_ok k T n (br_order reg) s (bo_queue s) _ e1 x); try done; [by left|].
    intros _. apply Hv. by eapply live_count_in.
  - rewrite live_settled by done. by rewrite decide_True.
  - done.
  - intros c0 Hc0. simplify_eq. simpl. rewrite lookup_insert_eq. eexists. split; [done|].
    apply rx_open_drop_tx.
  - simpl. by rewrite lookup_insert_eq.
  - intros r e' Hne. eapply (reg_ok_shrink k n _ r e' (br_order reg) s); try done; simpl;
      by rewrite lookup_insert_ne.
Qed.

(** A registration that has given everything up. *)
Lemma reg_ok_idle k n reg e :
  br_entry reg = Some e → 0 ≤ br_order reg < Z.of_nat k → is_Some (nw_entries n !! e) →
  br_rx reg = None ∨ br_rx reg = Some e ∧ (∃ c, nw_chans n !! e = Some c ∧ rx_open c = true) →
  br_registered reg = false → br_pending_entry reg = None → reg_ok k n reg e.
Proof. intros H1 H2 H3 H4 H5 H6. split; try done; [by left|congruence]. Qed.

Lemma revoke_ok k T n R id reg :
  waiters_inv k T n R → T ≤ usize_MAX → R !! id = Some reg →
  ∃ reg' n', revoke n reg = Ret (reg', n') ∧ waiters_inv k T n' (<[id := reg']> R).
Proof.
  intros Hi HT Hid. destruct (wi_regs _ _ _ _ Hi id reg Hid) as (e & Hreg).
  pose proof (ro_entry _ _ _ _ Hreg) as He. unfold revoke.
  destruct (br_registered reg) eqn:Eg; [|do 2 eexists; split; [done|]; by rewrite insert_id].
  destruct (revoke_entry_ok k T n R id reg e Hi HT Hid He Eg) as (n' & -> & Hq' & _ & _ & Hch & Hkn & Hfr).
  cbn [obind]. do 2 eexists. split; [done|]. set (reg' := mkBuddyRegistration _ _ _ _ _).
  assert (Hreg' : reg_ok k n' reg' e).
  { pose proof Hreg as [_ Hord Hrx _ Hp _]. apply reg_ok_idle; try done; simpl.
    - destruct Hrx as [|(? & c & Hc & Hop)]; [by left|right]. split; [done|].
      destruct (Hch c Hc) as (c' & Hc' & Hop'). exists c'. by rewrite Hop'.
    - destruct Hp as [|(_ & ? & _)]; [done|congruence]. }
  destruct Hi as [_ Hr Hown].
  destruct (replace_reg k n n' R id reg reg' e Hr Hown Hid He Hreg' Hfr) as [Hr' Hown']. by split.
Qed.

(** Polling: ready exactly when the channel is; a finished registration lets
    go of its receiver. *)
Lemma poll_ok k T n R id reg :
  waiters_inv k T n R → R !! id = Some reg →
  ∃ b reg' n', registration_poll n reg = Ret (b, reg', n') ∧ waiters_inv k T n' (<[id := reg']> R) ∧
    (br_registered reg = true → ∀ e, br_entry reg = Some e → live n e = false → b = true).
Proof.
  intros Hi Hid. destruct (wi_regs _ _ _ _ Hi id reg Hid) as (e & Hreg).
  pose proof Hreg as [He Hord Hrx Hkn Hp Hregd]. unfold registration_poll.
  destruct Hrx as [Hrx|(Hrx & c & Hc & Hop)]; rewrite Hrx.
  { do 3 eexists. split; [done|]. split; [by rewrite insert_id|done]. }
  unfold get. rewrite Hc. cbn [obind]. destruct (chan_poll c) eqn:Ec.
  - do 3 eexists. split; [done|]. split; [|done]. set (reg' := mkBuddyRegistration _ _ _ _ _).
    set (n' := set_chan _ _ _).
    assert (Hreg' : reg_ok k n' reg' e).
    { apply reg_ok_idle; try done; [by left|]. simpl.
      destruct Hp as [|(_ & _ & _ & _ & (c1 & Hc1 & Hpoll) & _)]; [done|congruence]. }
    destruct Hi as [Hq Hr Hown].
    destruct (replace_reg k n n' R id reg reg' e Hr Hown Hid He Hreg') as [Hr' Hown'].
    { intros r e' Hne. by apply reg_ok_chan. }
    split; [by apply queues_ok_chan|done..].
  - do 3 eexists. split; [done|]. split; [by rewrite insert_id|].
    intros Hg e' He' Hl. rewrite He in He'. simplify_eq. destruct (Hregd Hg) as (_ & _ & Hdead).
    destruct (Hdead Hl) as (c' & Hc' & Hpoll). congruence.
Qed.

Lemma drop_ok k T n R id reg :
  waiters_inv k T n R → T ≤ usize_MAX → R !! id = Some reg →
  ∃ n', registration_drop n reg = Ret n' ∧ waiters_inv k T n' (delete id R).
Proof.
  intros Hi HT Hid. destruct (wi_regs _ _ _ _ Hi id reg Hid) as (e & Hreg).
  pose proof Hreg as [He Hord Hrx Hkn Hp _].
  assert (Hstep : ∃ n1, (if br_registered reg then revoke_entry n reg else Ret n) = Ret n1 ∧
    queues_ok k T n1 ∧ (∀ c, nw_chans n !! e = Some c → is_Some (nw_chans n1 !! e)) ∧
    (∀ r e', e' ≠ e → reg_ok k n r e' → reg_ok k n1 r e')).
  { destruct (br_registered reg) eqn:Eg; [|exists n; split_and!; [done|apply Hi|by eexists|done]].
    destruct (revoke_entry_ok k T n R id reg e Hi HT Hid He Eg) as (n' & -> & Hq' & _ & _ & Hch & _ & Hfr).
    exists n'. split_and!; try done. intros c Hc. destruct (Hch c Hc) as (c' & Hc' & _). by eexists. }
  destruct Hstep as (n1 & Hs & Hq1 & Hch & Hfr). unfold registration_drop. rewrite Hs. cbn [obind].
  assert (Hreg1 : ∀ i r, delete id R !! i = Some r → ∃ e', e' ≠ e ∧ reg_ok k n1 r e').
  { intros i r [Hne Hir]%lookup_delete_Some. destruct (wi_regs _ _ _ _ Hi i r Hir) as (e' & He').
    assert (e' ≠ e).
    { intros ->. apply Hne. eapply (wi_own _ _ _ _ Hi); try done. by rewrite He, (ro_entry _ _ _ _ He'). }
    exists e'. split; [done|]. by apply Hfr. }
  assert (Hown1 : ∀ i j r r', delete id R !! i = Some r → delete id R !! j = Some r' →
    br_entry r = br_entry r' → i = j).
  { intros i j r r' [_ Hir]%lookup_delete_Some [_ Hjr]%lookup_delete_Some. by apply (wi_own _ _ _ _ Hi). }
  destruct Hrx as [Hrx|(Hrx & c & Hc & _)]; rewrite Hrx.
  - exists n1. split; [done|]. split; [done| |done]. intros i r Hir. destruct (Hreg1 i r Hir) as (e' & _ & ?).
    by exists e'.
  - destruct (Hch c Hc) as [c1 Hc1]. unfold get. rewrite Hc1. cbn [obind]. eexists. split; [done|].
    split; [by apply queues_ok_chan| |done]. intros i r Hir. destruct (Hreg1 i r Hir) as (e' & Hne & ?).
    exists e'. by apply reg_ok_chan.
Qed.
End regs.
