(* ===== verification/AsyncScore.v ===== *)
(** * Scoring

    Whom a freed block is offered to: the orders it can serve that have a
    waiter, oldest first, the winner of a long streak left out while there is
    another. *)

From stdpp Require Import prelude numbers list gmap sorting.
From S2P Require Import Prelude Usize Async AsyncProps.
Local Open Scope Z_scope.

(** ** The sort *)

Definition by_age (c d : Z * Z) : Prop := c.2 ≤ d.2.

Lemma insert_by_age_perm c l : insert_by_age c l ≡ₚ c :: l.
Proof.
  induction l as [|d l IH]; simpl; [done|]. case_match; [done|]. rewrite IH. by rewrite Permutation_swap.
Qed.

Lemma sort_by_age_perm l : sort_by_age l ≡ₚ l.
Proof. induction l as [|c l IH]; simpl; [done|]. by rewrite insert_by_age_perm, IH. Qed.

Lemma insert_by_age_sorted c l : StronglySorted by_age l → StronglySorted by_age (insert_by_age c l).
Proof.
  induction 1 as [|d l Hl IH Hd]; simpl; [by repeat constructor|].
  destruct (Z.leb_spec c.2 d.2) as [Hle|Hlt].
  - constructor; [by constructor|]. constructor; [done|]. eapply Forall_impl; [exact Hd|].
    unfold by_age. intros; lia.
  - constructor; [done|]. rewrite insert_by_age_perm. constructor; [unfold by_age; lia|done].
Qed.

Lemma sort_by_age_sorted l : StronglySorted by_age (sort_by_age l).
Proof. induction l; simpl; [constructor|by apply insert_by_age_sorted]. Qed.

Section score.
Context {P : Profile} {O : OneshotLib}.
Implicit Types n : NotifyWaiters.

(** An order scoring can choose, and the age it is given. *)
Definition waiting n (o : Z) : Prop :=
  ∃ s, nw_buddy_orders n !! Z.to_nat o = Some s ∧ bo_count s ≠ 0 ∧
    bo_head_timestamp s ≠ NO_WAITERS_TIMESTAMP.

Definition age n (o : Z) : Z :=
  match nw_buddy_orders n !! Z.to_nat o with
  | Some s => effective_age (bo_head_timestamp s) o (bo_count s)
  | None => 0
  end.

Lemma collect_candidates_ok n os :
  Forall (λ o, is_Some (nw_buddy_orders n !! Z.to_nat o)) os → NoDup os →
  ∃ cs, collect_candidates n os = Ret cs ∧ NoDup cs.*1 ∧
    (∀ o a, (o, a) ∈ cs ↔ o ∈ os ∧ waiting n o ∧ a = age n o).
Proof.
  intros Hos. induction Hos as [|o os [s Hs] _ IH]; intros Hnd; simpl.
  { exists []. split_and!; [done|constructor|]. set_solver. }
  apply NoDup_cons in Hnd as [Hni Hnd]. destruct (IH Hnd) as (cs & -> & Hnc & Hcs).
  unfold index. rewrite Hs. cbn [obind].
  assert (Hskip : ¬ waiting n o → ∀ o' a, (o', a) ∈ cs ↔ o' ∈ o :: os ∧ waiting n o' ∧ a = age n o').
  { intros Hnw o' a. rewrite Hcs. split; [set_solver|]. intros (Hin & Hw & Ha).
    apply elem_of_cons in Hin as [->|Hin]; [by destruct Hnw|done]. }
  destruct (Z.eqb_spec (bo_count s) 0) as [Hz|Hz].
  { exists cs. split_and!; [done..|]. apply Hskip. intros (s' & Hs' & Hc & _). by simplify_eq. }
  destruct (Z.eqb_spec (bo_head_timestamp s) NO_WAITERS_TIMESTAMP) as [Ht|Ht].
  { exists cs. split_and!; [done..|]. apply Hskip. intros (s' & Hs' & _ & Hh). by simplify_eq. }
  assert (Hw : waiting n o) by (by exists s).
  assert (Ha : effective_age (bo_head_timestamp s) o (bo_count s) = age n o) by (unfold age; by rewrite Hs).
  eexists. split_and!; [done|..].
  - simpl. constructor; [|done]. intros ((o', a) & -> & Hin)%list_elem_of_fmap. apply Hcs in Hin as [? _].
    done.
  - intros o' a. rewrite elem_of_cons, Hcs, elem_of_cons, Ha. split.
    + intros [[= -> ->]|(? & ? & ?)]; split_and!; auto.
    + intros ([->|?] & ? & ->); [by left|right; done].
Qed.

(** What the ban leaves: everything, or all but the winner of the streak. *)
Definition banned n (cs : list (Z * Z)) (o : Z) : Prop :=
  o = Z.shiftr (nw_streak_state n) 32 ∧ MAX_CONSECUTIVE ≤ as_u32 (nw_streak_state n) ∧
  ∃ c, c ∈ cs ∧ c.1 ≠ o.

Lemma streak_ban_ok n cs :
  NoDup cs.*1 →
  sublist (streak_ban (nw_streak_state n) cs) cs ∧
  ∀ c, c ∈ cs → (c ∈ streak_ban (nw_streak_state n) cs ↔ ¬ banned n cs c.1).
Proof.
  intros Hnd. unfold streak_ban, banned. set (lw := Z.shiftr _ 32). set (k := as_u32 _).
  destruct ((MAX_CONSECUTIVE <=? k) && (1 <? Z.of_nat (length cs)) && existsb (λ c, c.1 =? lw) cs) eqn:Eb.
  - apply andb_true_iff in Eb as [[Hk Hlen]%andb_true_iff Hex].
    apply Z.leb_le in Hk. apply Z.ltb_lt in Hlen.
    split; [apply sublist_filter|]. intros c Hc. rewrite list_elem_of_filter. split.
    + intros [Hne _] (Heq & _). by apply Hne.
    + intros Hb. split; [|done]. intros Heq. apply Hb. split_and!; [done..|].
      destruct cs as [|c1 [|c2 cs]]; simpl in Hlen; [lia..|].
      destruct (decide (c1.1 = c.1)) as [E1|E1]; [|exists c1; split; [by left|done]].
      exists c2. split; [right; by left|]. intros E2. simpl in Hnd.
      apply NoDup_cons in Hnd as [Hni _]. apply Hni. rewrite E1, <- E2. by left.
  - split; [done|]. intros c Hc. split; [|done]. intros _ (Heq & Hk & c' & Hc' & Hne).
    apply not_true_iff_false in Eb. apply Eb. rewrite !andb_true_iff. split_and!.
    + by apply Z.leb_le.
    + apply Z.ltb_lt. destruct cs as [|c1 [|c2 cs]]; simpl; [set_solver| |lia].
      apply list_elem_of_singleton in Hc, Hc'. congruence.
    + apply existsb_exists. exists c. split; [by apply list_elem_of_In|]. by apply Z.eqb_eq.
Qed.

(** The orders a freed block of order [f] is offered to. *)
Definition offered n (f o : Z) : Prop :=
  0 ≤ o ≤ f ∧ o < Z.of_nat (length (nw_buddy_orders n)) ∧ waiting n o.

Lemma score_orders_ok n f :
  0 ≤ f → (0 < length (nw_buddy_orders n))%nat → Z.of_nat (length (nw_buddy_orders n)) ≤ usize_MAX →
  ∃ l, score_orders n f = Ret l ∧ NoDup l ∧ StronglySorted (λ o o', age n o ≤ age n o') l ∧
    (∀ o, o ∈ l → offered n f o) ∧
    (∀ o, offered n f o → o ∉ l →
       o = Z.shiftr (nw_streak_state n) 32 ∧ MAX_CONSECUTIVE ≤ as_u32 (nw_streak_state n) ∧ l ≠ []) ∧
    (Z.shiftr (nw_streak_state n) 32 ∈ l → MAX_CONSECUTIVE ≤ as_u32 (nw_streak_state n) →
       l = [Z.shiftr (nw_streak_state n) 32]).
Proof.
  intros Hf Hlen Hu. unfold score_orders. rewrite usz_sub_ok by (unfold is_usize; lia). cbn [obind].
  set (m := Z.min f _). set (os := seqZ 0 (m + 1)).
  assert (Hos : ∀ o, o ∈ os ↔ 0 ≤ o ≤ m) by (intros o; unfold os; rewrite elem_of_seqZ; lia).
  destruct (collect_candidates_ok n os) as (cs & -> & Hnd & Hcs).
  { apply Forall_forall. intros o Ho%Hos. apply lookup_lt_is_Some. lia. }
  { apply NoDup_seqZ. }
  cbn [obind]. destruct (streak_ban_ok n cs Hnd) as [Hsub Hban].
  set (bs := streak_ban _ cs) in *. eexists. split; [done|].
  assert (Hperm : (sort_by_age bs).*1 ≡ₚ bs.*1) by (by rewrite sort_by_age_perm).
  assert (Hbs : ∀ o, o ∈ bs.*1 ↔ offered n f o ∧ ¬ banned n cs o).
  { intros o. rewrite list_elem_of_fmap. split.
    - intros ((o', a) & -> & Hin). assert (Hc : (o', a) ∈ cs) by (by eapply sublist_subseteq).
      apply (Hban _ Hc) in Hin. apply Hcs in Hc as (Ho%Hos & Hw & _).
      split; [|done]. simpl. split_and!; [lia..|done].
    - intros ((Hr & Hl & Hw) & Hnb). assert (Hc : (o, age n o) ∈ cs) by (apply Hcs; rewrite Hos; split_and!; [lia|lia|done|done]).
      exists (o, age n o). split; [done|]. by apply Hban. }
  assert (Hother : ∀ o, banned n cs o → ∃ o', o' ∈ bs.*1 ∧ o' ≠ o).
  { intros o (Ho & Hk & (o', a') & Hc & Hne). exists o'. split; [|done]. apply list_elem_of_fmap.
    exists (o', a'). split; [done|]. apply Hban; [done|]. intros (Heq & _). simpl in *. congruence. }
  split_and!.
  - rewrite Hperm. eapply sublist_NoDup; [|by apply fmap_sublist]. done.
  - assert (Hage : Forall (λ c, c.2 = age n c.1) (sort_by_age bs)).
    { apply Forall_forall. intros [o a] Hin. rewrite sort_by_age_perm in Hin.
      apply (sublist_subseteq _ _ Hsub) in Hin. by apply Hcs in Hin as (_ & _ & ->). }
    pose proof (sort_by_age_sorted bs) as Hss. clear -Hage Hss.
    induction Hss as [|c l Hl IH Hc]; simpl; [constructor|].
    apply Forall_cons in Hage as [Hca Hage]. constructor; [by apply IH|].
    apply Forall_fmap. rewrite Forall_forall in Hc, Hage |- *. intros d Hd. simpl.
    rewrite <- Hca, <- (Hage d Hd). by apply Hc.
  - intros o Ho. rewrite Hperm, Hbs in Ho. apply Ho.
  - intros o Ho Hno. rewrite Hperm, Hbs in Hno.
    assert (Hb : banned n cs o).
    { destruct (decide (o = Z.shiftr (nw_streak_state n) 32 ∧ MAX_CONSECUTIVE ≤ as_u32 (nw_streak_state n) ∧
        Exists (λ c, c.1 ≠ o) cs)) as [(? & ? & He%Exists_exists)|Hnb]; [by split_and!|].
      destruct Hno. split; [done|]. intros (? & ? & He). apply Hnb. split_and!; [done..|].
      by apply Exists_exists. }
    destruct (Hother o Hb) as (o' & Ho' & _). destruct Hb as (? & ? & _). split_and!; [done..|].
    intros Hnil. rewrite <- Hperm, Hnil in Ho'. by apply elem_of_nil in Ho'.
  - set (lw := Z.shiftr _ 32). intros Hin Hk. assert (Hin' := Hin). rewrite Hperm, Hbs in Hin'.
    destruct Hin' as [_ Hnb].
    assert (Hall : ∀ o, o ∈ (sort_by_age bs).*1 → o = lw).
    { intros o Ho. destruct (decide (o = lw)) as [|Hne]; [done|]. destruct Hnb. split_and!; [done..|].
      rewrite Hperm in Ho. apply list_elem_of_fmap in Ho as (c & -> & Hc). exists c. split; [|done].
      by eapply sublist_subseteq. }
    assert (HndL : NoDup (sort_by_age bs).*1)
      by (rewrite Hperm; eapply sublist_NoDup; [|by apply fmap_sublist]; done).
    destruct ((sort_by_age bs).*1) as [|o1 [|o2 l]]; [by apply elem_of_nil in Hin|..].
    + f_equal. apply Hall. by left.
    + apply NoDup_cons in HndL as [Hni _]. destruct Hni.
      rewrite (Hall o1), (Hall o2); [by left|right; by left|by left].
Qed.
End score.
