(* ===== verification/AsyncClaims.v ===== *)
(** * What the async buddy arena promises its waiters, and what it does not *)

From stdpp Require Import prelude numbers list gmap sorting.
From S2P Require Import Prelude Usize Errors Bitmap Geometry Memory Config Buffer BuddyTiling Buddy.
From S2P Require Import BuddyCore BuddyArena BuddyProps.
From S2P Require Import Async AsyncArena AsyncProps AsyncRegs AsyncScore.
Local Open Scope Z_scope.

(** ** Any use of the waiters *)

Section run.
Context {P : Profile} {O : OneshotLib}.

Inductive waiter_op :=
| WRegister (id : nat) (order now : Z)
| WPrepare (id : nat)
| WRevoke (id : nat)
| WPoll (id : nat)
| WDrop (id : nat)
| WWake (freed_order : Z).

Record waiter_sys := mkWaiterSys {
  ws_waiters : NotifyWaiters;
  ws_regs : gmap nat BuddyRegistration;
}.

(** [Ret None] when there is no such registration, its name is in use, or an
    argument is no [usize] or clock reading. *)
Definition waiter_step (s : waiter_sys) (op : waiter_op) : outcome (option waiter_sys) :=
  let n := ws_waiters s in
  let R := ws_regs s in
  match op with
  | WRegister id order now =>
      if (0 <=? order) && (0 <=? now) && (now <? NO_WAITERS_TIMESTAMP) && bool_decide (R !! id = None) then
        let! (reg, n) := buddy_register n order now in
        Ret (Some (mkWaiterSys n (<[id := reg]> R)))
      else Ret None
  | WPrepare id =>
      match R !! id with
      | Some reg => let! (reg, n) := prepare n reg in Ret (Some (mkWaiterSys n (<[id := reg]> R)))
      | None => Ret None
      end
  | WRevoke id =>
      match R !! id with
      | Some reg => let! (reg, n) := revoke n reg in Ret (Some (mkWaiterSys n (<[id := reg]> R)))
      | None => Ret None
      end
  | WPoll id =>
      match R !! id with
      | Some reg =>
          let! (_, reg, n) := registration_poll n reg in Ret (Some (mkWaiterSys n (<[id := reg]> R)))
      | None => Ret None
      end
  | WDrop id =>
      match R !! id with
      | Some reg => let! n := registration_drop n reg in Ret (Some (mkWaiterSys n (delete id R)))
      | None => Ret None
      end
  | WWake freed_order =>
      if 0 <=? freed_order then let! n := buddy_wake n freed_order in Ret (Some (mkWaiterSys n R))
      else Ret None
  end.

Fixpoint waiter_run (s : waiter_sys) (ops : list waiter_op) : outcome waiter_sys :=
  match ops with
  | [] => Ret s
  | op :: ops' => let! x := waiter_step s op in waiter_run (default s x) ops'
  end.

Context {OL : OneshotLaws O}.

Lemma buddy_wake_ok k T n R f :
  waiters_inv k T n R → T ≤ usize_MAX → (0 < k)%nat → Z.of_nat k ≤ usize_MAX → 0 ≤ f →
  ∃ n', buddy_wake n f = Ret n' ∧ waiters_inv k T n' R.
Proof.
  intros Hi HT Hk Hku Hf. unfold buddy_wake. pose proof (qo_length _ _ _ (wi_queues _ _ _ _ Hi)) as Hlen.
  destruct (score_orders_ok n f) as (l & -> & _ & _ & Hl & _); [done|lia|lia|]. cbn [obind].
  apply wake_orders_inv; [done|done|]. apply Forall_forall. intros o Ho.
  destruct (Hl o Ho) as (? & ? & _). lia.
Qed.

Lemma waiter_step_ok k T s op :
  waiters_inv k T (ws_waiters s) (ws_regs s) → T + 1 ≤ usize_MAX → (0 < k)%nat → Z.of_nat k ≤ usize_MAX →
  ∃ x, waiter_step s op = Ret x ∧
    ∀ s', x = Some s' → waiters_inv k (T + 1) (ws_waiters s') (ws_regs s').
Proof.
  intros Hi HT Hk Hku.
  assert (Hm : ∀ n R, waiters_inv k T n R → waiters_inv k (T + 1) n R)
    by (intros n R; apply waiters_inv_mono; lia).
  destruct op as [id order now|id|id|id|id|f]; simpl.
  - case_match eqn:Eg; [|by exists None]. rewrite !andb_true_iff, bool_decide_eq_true in Eg.
    destruct Eg as [[[Ho Hn1] Hn2] Hid]. apply Z.leb_le in Ho, Hn1. apply Z.ltb_lt in Hn2.
    destruct (register_ok k T _ _ id order now Hi Hk Hku Ho ltac:(lia) Hid) as (reg & n' & -> & Hi').
    cbn [obind]. eexists. split; [done|]. intros s' [= <-]. by apply Hm.
  - destruct (ws_regs s !! id) as [reg|] eqn:Eid; [|by exists None].
    destruct (prepare_ok k T _ _ id reg Hi Eid HT) as (reg' & n' & -> & Hi'). cbn [obind].
    eexists. split; [done|]. by intros s' [= <-].
  - destruct (ws_regs s !! id) as [reg|] eqn:Eid; [|by exists None].
    destruct (revoke_ok k T _ _ id reg Hi ltac:(lia) Eid) as (reg' & n' & -> & Hi'). cbn [obind].
    eexists. split; [done|]. intros s' [= <-]. by apply Hm.
  - destruct (ws_regs s !! id) as [reg|] eqn:Eid; [|by exists None].
    destruct (poll_ok k T _ _ id reg Hi Eid) as (b & reg' & n' & -> & Hi' & _). cbn [obind].
    eexists. split; [done|]. intros s' [= <-]. by apply Hm.
  - destruct (ws_regs s !! id) as [reg|] eqn:Eid; [|by exists None].
    destruct (drop_ok k T _ _ id reg Hi ltac:(lia) Eid) as (n' & -> & Hi'). cbn [obind].
    eexists. split; [done|]. intros s' [= <-]. by apply Hm.
  - destruct (Z.leb_spec 0 f) as [Hf|Hf]; [|by exists None].
    destruct (buddy_wake_ok k T _ _ f Hi ltac:(lia) Hk Hku Hf) as (n' & -> & Hi'). cbn [obind].
    eexists. split; [done|]. intros s' [= <-]. by apply Hm.
Qed.

Lemma waiter_run_ok k T s ops :
  waiters_inv k T (ws_waiters s) (ws_regs s) → T + Z.of_nat (length ops) ≤ usize_MAX → 0 ≤ T →
  (0 < k)%nat → Z.of_nat k ≤ usize_MAX →
  ∃ s', waiter_run s ops = Ret s' ∧
    waiters_inv k (T + Z.of_nat (length ops)) (ws_waiters s') (ws_regs s').
Proof.
  intros Hi HT HT0 Hk Hku. revert s T Hi HT HT0. induction ops as [|op ops IH]; intros s T Hi HT HT0; simpl in *.
  { exists s. split; [done|]. by rewrite Z.add_0_r. }
  destruct (waiter_step_ok k T s op Hi ltac:(lia) Hk Hku) as (x & -> & Hx). cbn [obind].
  assert (Hi1 : waiters_inv k (T + 1) (ws_waiters (default s x)) (ws_regs (default s x))).
  { destruct x as [s1|]; simpl; [by apply Hx|]. eapply waiters_inv_mono; [|exact Hi]. lia. }
  destruct (IH _ (T + 1) Hi1 ltac:(lia) ltac:(lia)) as (s' & Hrun & Hi'). exists s'. split; [done|].
  replace (T + Z.of_nat (S (length ops))) with (T + 1 + Z.of_nat (length ops)) by lia. done.
Qed.

Lemma waiters_new_inv k :
  (0 < k)%nat → ∃ n, NotifyWaiters_new (Z.of_nat k) = Ret n ∧ waiters_inv k 0 n ∅ ∧
    length (nw_buddy_orders n) = k.
Proof.
  intros Hk. unfold NotifyWaiters_new. rewrite assert_true by (apply Z.ltb_lt; lia). cbn [obind].
  eexists. split; [done|]. rewrite Nat2Z.id. split; [|simpl; by rewrite length_replicate].
  split; [split|..]; simpl; try done.
  - by rewrite length_replicate.
  - intros i s [-> _]%lookup_replicate. split; [|simpl; lia].
    split; simpl; [by intros e ?%not_elem_of_nil|apply NoDup_nil_2|done|done].
  - intros i j s s' e [-> _]%lookup_replicate _ He. simpl in He. by apply not_elem_of_nil in He.
Qed.
(** An armed registration has been told or is queued where scoring sees it. *)
Lemma told_or_queued k T n R id reg :
  waiters_inv k T n R → R !! id = Some reg → br_registered reg = true →
  ∃ e, br_entry reg = Some e ∧
    ((∃ reg' n', registration_poll n reg = Ret (true, reg', n')) ∨
     (live n e = true ∧ waiting n (br_order reg) ∧ ∃ q, queue_at n (br_order reg) q ∧ e ∈ q)).
Proof.
  intros Hi Hid Hg. destruct (wi_regs _ _ _ _ Hi id reg Hid) as (e & Hreg). exists e.
  split; [apply Hreg|]. destruct (ro_registered _ _ _ _ Hreg Hg) as (_ & Hlive & _).
  destruct (live n e) eqn:El.
  - right. destruct (Hlive eq_refl) as (q & Hq & Hin). split_and!; [done| |by exists q].
    destruct Hq as (sl & Hsl & <-). exists sl. split; [done|].
    destruct (qo_slots _ _ _ (wi_queues _ _ _ _ Hi) _ _ Hsl) as [[_ _ Hc Hv] _].
    assert (live_count n (bo_queue sl) ≠ 0%nat) by (by eapply live_count_in).
    split; [lia|by apply Hv].
  - left. destruct (poll_ok _ _ _ _ id reg Hi Hid) as (b & reg' & n' & Hp & _ & Hb).
    rewrite (Hb Hg e (ro_entry _ _ _ _ Hreg) El) in Hp. by exists reg', n'.
Qed.

(** ** Whom a wake reaches *)

(** Waking revives no entry. *)
Lemma wake_order_dead k T n o s f pops :
  queues_ok k T n → nw_buddy_orders n !! Z.to_nat o = Some s →
  ∀ p n' e, wake_order n (bo_queue s) f o pops = Ret (p, n') → live n e = false → live n' e = false.
Proof.
  intros Hq Ho p n' e Hw Hl. destruct (qo_slots _ _ _ Hq _ _ Ho) as [[Hk _ _ _] _].
  destruct (wake_order_spec k T n o s f (bo_queue s) pops Hq Ho Hk)
    as (dead & rest & _ & _ & [[Hw' _]|(e0 & rest' & x & c & ts & z & _ & _ & _ & _ & _ & Hw' & _)]);
    rewrite Hw in Hw'; injection Hw' as -> ->; [done|].
  unfold woken. rewrite live_settled by done. by case_match.
Qed.

Lemma wake_orders_dead k T n R cs f pops e n' :
  waiters_inv k T n R → T ≤ usize_MAX → Forall (λ o, 0 ≤ o < Z.of_nat k) cs →
  wake_orders n cs f pops = Ret n' → live n e = false → live n' e = false.
Proof.
  intros Hi HT Hcs. revert n pops Hi. induction Hcs as [|o cs Ho _ IH]; intros n pops Hi; simpl; [by intros [= <-]|].
  case_match; [by intros [= <-]|].
  destruct (lookup_lt_is_Some_2 (nw_buddy_orders n) (Z.to_nat o)) as [s Hs].
  { rewrite (qo_length _ _ _ (wi_queues _ _ _ _ Hi)). lia. }
  rewrite (index_slot n o s Hs). cbn [obind].
  destruct (wake_order_inv k T n R o s f pops Hi HT Hs) as (pops' & n1 & Hw & Hi'). rewrite Hw. cbn [obind].
  intros Hrest Hl. eapply IH; [exact Hi'|exact Hrest|]. by eapply (wake_order_dead k T n o s f pops (wi_queues _ _ _ _ Hi) Hs).
Qed.

(** The first live entry of a queue is woken when the bound allows its pop. *)
Lemma wake_order_first k T n o s f dead e rest :
  queues_ok k T n → nw_buddy_orders n !! Z.to_nat o = Some s → bo_queue s = dead ++ e :: rest →
  Forall (λ e, live n e = false) dead → live n e = true → Z.of_nat (length dead) < MAX_POPS_PER_WAKE →
  ∃ p n', wake_order n (bo_queue s) f o 0 = Ret (p, n') ∧ live n' e = false.
Proof.
  intros Hq Ho Hqs Hd Hl Hb. destruct (qo_slots _ _ _ Hq _ _ Ho) as [[Hk _ _ _] _].
  destruct (wake_order_spec k T n o s f (bo_queue s) 0 Hq Ho Hk)
    as (dead' & rest' & Hqs' & Hd' & Hcase).
  rewrite Hqs in Hqs'. rewrite Forall_forall in Hd, Hd'.
  assert (Hle : (length dead' ≤ length dead)%nat).
  { destruct (decide (length dead' ≤ length dead)%nat) as [|Hgt]; [done|]. exfalso.
    assert (He : e ∈ dead').
    { apply list_elem_of_lookup. exists (length dead). rewrite <- (lookup_app_l dead' rest') by lia.
      rewrite <- Hqs'. by apply list_lookup_middle. }
    by rewrite (Hd' e He) in Hl. }
  destruct Hcase as [[_ [->|Hp]]|(e0 & rest0 & x & c & ts & z & -> & Hx & Hlx & _ & _ & Hw & _)].
  - exfalso. apply (f_equal length) in Hqs'. rewrite !length_app in Hqs'. simpl in Hqs'. lia.
  - lia.
  - exists (0 + Z.of_nat (length dead') + 1), (woken n o s e0 x c rest0 f ts z). split; [done|].
    unfold woken. rewrite live_settled by done. case_match eqn:Ee; [done|]. exfalso.
    assert (Hlt : (length dead' < length dead)%nat ∨ length dead' = length dead) by lia.
    assert (Hat : (dead ++ e :: rest) !! length dead' = Some e0) by (rewrite Hqs'; by apply list_lookup_middle).
    destruct Hlt as [Hlt|Heq].
    + rewrite lookup_app_l in Hat by done. apply list_elem_of_lookup_2, Hd in Hat.
      unfold live in Hat. rewrite Hx, bool_decide_true in Hat by done. done.
    + rewrite Heq, list_lookup_middle in Hat by done. congruence.
Qed.

Lemma buddy_wake_first k T n R f o os dead e rest :
  waiters_inv k T n R → T ≤ usize_MAX → (0 < k)%nat → Z.of_nat k ≤ usize_MAX → 0 ≤ f →
  score_orders n f = Ret (o :: os) → queue_at n o (dead ++ e :: rest) →
  Forall (λ e, live n e = false) dead → live n e = true → Z.of_nat (length dead) < MAX_POPS_PER_WAKE →
  ∃ n', buddy_wake n f = Ret n' ∧ waiters_inv k T n' R ∧ live n' e = false.
Proof.
  intros Hi HT Hk Hku Hf Hsc (s & Hs & Hqs) Hd Hl Hb. pose proof (qo_length _ _ _ (wi_queues _ _ _ _ Hi)) as Hlen.
  destruct (buddy_wake_ok k T n R f Hi HT Hk Hku Hf) as (n' & Hw & Hi'). exists n'. split_and!; [done|done|].
  destruct (score_orders_ok n f) as (l & Hl' & _ & _ & Hoff & _); [done|lia|lia|].
  rewrite Hsc in Hl'. injection Hl' as <-.
  assert (Hos : Forall (λ o, 0 ≤ o < Z.of_nat k) os).
  { apply Forall_forall. intros o' Ho'. destruct (Hoff o') as (? & ? & _); [by right|]. lia. }
  revert Hw. unfold buddy_wake. rewrite Hsc. cbn [obind wake_orders].
  rewrite (index_slot n o s Hs). cbn [obind].
  destruct (wake_order_first k T n o s f dead e rest (wi_queues _ _ _ _ Hi) Hs Hqs Hd Hl Hb) as (p & n1 & Hw1 & Hl1).
  destruct (wake_order_inv k T n R o s f 0 Hi HT Hs) as (p' & n1' & Hw1' & Hi1).
  rewrite Hw1 in Hw1'. injection Hw1' as <- <-. rewrite Hw1. cbn [obind]. change (MAX_POPS_PER_WAKE <=? 0) with false.
  cbn [obind]. intros Hrest. by eapply (wake_orders_dead k T n1 R os f p).
Qed.
End run.

(** C16: no waiter is lost.  Under any sequence of registering, arming,
    revoking, polling, dropping and waking, each call made whole before the next
    (calls that overlap are the business of [AsyncConcClaims], and of
    [AsyncConcRace] where this fails), nothing panics, the counter of
    every order is the number of live entries in its queue, and an armed
    registration has either been told, so that its next poll is ready, or is
    still queued at its order, where the counter and the head timestamp let
    scoring see it. *)
Theorem no_waiter_lost {P : Profile} {O : OneshotLib} {OL : OneshotLaws O} k ops :
  (0 < k)%nat → Z.of_nat k ≤ usize_MAX → Z.of_nat (length ops) ≤ usize_MAX →
  ∃ n s, NotifyWaiters_new (Z.of_nat k) = Ret n ∧ waiter_run (mkWaiterSys n ∅) ops = Ret s ∧
    (∀ i sl, nw_buddy_orders (ws_waiters s) !! i = Some sl →
       bo_count sl = Z.of_nat (live_count (ws_waiters s) (bo_queue sl))) ∧
    ∀ id reg, ws_regs s !! id = Some reg → br_registered reg = true →
      ∃ e, br_entry reg = Some e ∧
        ((∃ reg' n', registration_poll (ws_waiters s) reg = Ret (true, reg', n')) ∨
         (live (ws_waiters s) e = true ∧ waiting (ws_waiters s) (br_order reg) ∧
          ∃ q, queue_at (ws_waiters s) (br_order reg) q ∧ e ∈ q)).
Proof.
  intros Hk Hku Hops. destruct (waiters_new_inv k Hk) as (n & Hn & Hi0 & _).
  destruct (waiter_run_ok k 0 (mkWaiterSys n ∅) ops Hi0 ltac:(lia) ltac:(lia) Hk Hku) as (s & Hrun & Hi).
  exists n, s. split_and!; [done|done|..].
  - intros i sl Hsl. by destruct (qo_slots _ _ _ (wi_queues _ _ _ _ Hi) _ _ Hsl) as [[] _].
  - intros id reg Hid Hg. by eapply told_or_queued.
Qed.

Lemma no_waiter_lost_witness :
  ∃ n s, NotifyWaiters_new 2 = Ret n ∧
    @waiter_run dev list_oneshot (mkWaiterSys n ∅)
      [WRegister 1 0 5; WPrepare 1; WRegister 2 7 6; WPrepare 2; WWake 1; WDrop 1] = Ret s.
Proof.
  destruct (@no_waiter_lost dev list_oneshot list_oneshot_laws 2
    [WRegister 1 0 5; WPrepare 1; WRegister 2 7 6; WPrepare 2; WWake 1; WDrop 1])
    as (n & s & H1 & H2 & _); [lia|unfold usize_MAX; lia|unfold usize_MAX; simpl; lia|].
  exists n, s. split; [exact H1|exact H2].
Defined.

(** C24: whom a freed block is offered to.  [score_orders] never panics and
    lists, without repetition and oldest effective age first, orders not above
    the freed one that have visible waiters; it leaves out none of them but the
    winner of a streak of ten, and that one only when another order is listed. *)
Theorem score_orders_correct {P : Profile} {O : OneshotLib} n f :
  0 ≤ f → (0 < length (nw_buddy_orders n))%nat → Z.of_nat (length (nw_buddy_orders n)) ≤ usize_MAX →
  ∃ l, score_orders n f = Ret l ∧ NoDup l ∧ StronglySorted (λ o o', age n o ≤ age n o') l ∧
    (∀ o, o ∈ l → offered n f o) ∧
    (∀ o, offered n f o → o ∉ l →
       o = Z.shiftr (nw_streak_state n) 32 ∧ MAX_CONSECUTIVE ≤ as_u32 (nw_streak_state n) ∧ l ≠ []) ∧
    (Z.shiftr (nw_streak_state n) 32 ∈ l → MAX_CONSECUTIVE ≤ as_u32 (nw_streak_state n) →
       l = [Z.shiftr (nw_streak_state n) 32]).
Proof. apply score_orders_ok. Qed.

(** Waiters at orders 0, 1 and 3; order 1 has won ten times in a row. *)
Definition demo_waiters : @NotifyWaiters list_oneshot :=
  @mkNotifyWaiters list_oneshot
    [mkBuddyOrderSlot [0%nat] 1 900000; mkBuddyOrderSlot [1%nat] 1 100000; mkBuddyOrderSlot [] 0 NO_WAITERS_TIMESTAMP;
     mkBuddyOrderSlot [2%nat] 1 950000] (2 ^ 32 + 10) ∅ ∅.

Lemma score_orders_correct_witness :
  ∃ l, @score_orders dev list_oneshot demo_waiters 3 = Ret l ∧ l = [3; 0] ∧ 1 ∉ l ∧ NoDup l.
Proof.
  destruct (@score_orders_correct dev list_oneshot demo_waiters 3) as (l & H1 & H2 & _);
    [lia|simpl; lia|unfold usize_MAX; simpl; lia|].
  exists l. assert (H : @score_orders dev list_oneshot demo_waiters 3 = Ret [3; 0]) by (vm_compute; reflexivity).
  rewrite H in H1. injection H1 as <-. split; [exact H|]. split; [reflexivity|]. split; [|exact H2].
  apply not_elem_of_cons. split; [lia|]. apply not_elem_of_cons. split; [lia|]. apply not_elem_of_nil.
Defined.

(** C22: a wake is delivered.  In every state the waiters reach, when scoring
    puts an order first and its first live entry is behind fewer than
    [MAX_POPS_PER_WAKE] settled ones, [buddy_wake] settles that entry, and the
    next poll of the registration it belongs to is ready. *)
Theorem wake_delivers {P : Profile} {O : OneshotLib} {OL : OneshotLaws O} k ops n s f o os dead e rest :
  (0 < k)%nat → Z.of_nat k ≤ usize_MAX → Z.of_nat (length ops) ≤ usize_MAX → 0 ≤ f →
  NotifyWaiters_new (Z.of_nat k) = Ret n → waiter_run (mkWaiterSys n ∅) ops = Ret s →
  score_orders (ws_waiters s) f = Ret (o :: os) → queue_at (ws_waiters s) o (dead ++ e :: rest) →
  Forall (λ e, live (ws_waiters s) e = false) dead → live (ws_waiters s) e = true →
  Z.of_nat (length dead) < MAX_POPS_PER_WAKE →
  ∃ n', buddy_wake (ws_waiters s) f = Ret n' ∧ live n' e = false ∧
    ∀ id reg, ws_regs s !! id = Some reg → br_entry reg = Some e → br_registered reg = true →
      ∃ reg' n'', registration_poll n' reg = Ret (true, reg', n'').
Proof.
  intros Hk Hku Hops Hf Hn Hrun Hsc Hq Hd Hl Hb. destruct (waiters_new_inv k Hk) as (n0 & Hn0 & Hi0 & _).
  rewrite Hn in Hn0. injection Hn0 as <-.
  destruct (waiter_run_ok k 0 (mkWaiterSys n ∅) ops Hi0 ltac:(lia) ltac:(lia) Hk Hku) as (s' & Hrun' & Hi).
  rewrite Hrun in Hrun'. injection Hrun' as <-.
  destruct (buddy_wake_first k _ _ _ f o os dead e rest Hi ltac:(lia) Hk Hku Hf Hsc Hq Hd Hl Hb)
    as (n' & Hw & Hi' & Hl'). exists n'. split_and!; [done|done|]. intros id reg Hid He Hg.
  destruct (poll_ok _ _ _ _ id reg Hi' Hid) as (b & reg' & n'' & Hp & _ & Hbt).
  rewrite (Hbt Hg e He Hl') in Hp. by exists reg', n''.
Qed.

Definition demo_ops : list waiter_op :=
  [WRegister 1 0 5; WPrepare 1; WRegister 2 0 6; WPrepare 2; WRevoke 1].

Definition demo_run : @waiter_sys list_oneshot :=
  match @NotifyWaiters_new list_oneshot 2 with
  | Ret n => match @waiter_run dev list_oneshot (mkWaiterSys n ∅) demo_ops with Ret s => s | _ => mkWaiterSys n ∅ end
  | _ => mkWaiterSys demo_waiters ∅
  end.

Lemma wake_delivers_witness :
  ∃ n', @buddy_wake dev list_oneshot (ws_waiters demo_run) 1 = Ret n' ∧ live n' 1%nat = false.
Proof.
  assert (Hn : ∃ n, @NotifyWaiters_new list_oneshot 2 = Ret n ∧
    @waiter_run dev list_oneshot (mkWaiterSys n ∅) demo_ops = Ret demo_run)
    by (eexists; split; [reflexivity|vm_compute; reflexivity]).
  destruct Hn as (n & Hn & Hrun).
  destruct (@wake_delivers dev list_oneshot list_oneshot_laws 2 demo_ops n demo_run 1 0 [] [0%nat] 1%nat [])
    as (n' & H1 & H2 & _); try assumption; try (unfold usize_MAX; simpl; lia).
  - vm_compute; reflexivity.
  - exists (mkBuddyOrderSlot [0%nat; 1%nat] 1 5). split; vm_compute; reflexivity.
  - constructor; [vm_compute; reflexivity|constructor].
  - vm_compute; reflexivity.
  - vm_compute; reflexivity.
  - exists n'. split; [exact H1|exact H2].
Defined.
