(* ===== verification/AsyncSystem.v ===== *)
(** * Tasks on an async buddy arena

    Every run of tasks that allocate, wait, are cancelled and drop their
    buffers keeps the arena and its waiters consistent: [async_inv]. *)

From stdpp Require Import prelude numbers list gmap.
From S2P Require Import Prelude Tasks Usize Errors Bitmap Geometry Metrics Memory Config Buffer BuddyTiling Buddy.
From S2P Require Import BuddyCore BuddyArena BuddyProps.
From S2P Require Import Async AsyncArena AsyncProps AsyncRegs AsyncScore AsyncClaims.
Local Open Scope Z_scope.

(** ** What tasks hold *)

Definition task_block {B : BytesLib} (t : task) : option block :=
  match t with
  | TDone buf => match b_allocation buf with KBuddy o i => Some (o, i) | KFixed _ => None end
  | TParked _ _ _ => None
  end.

Definition task_reg {B : BytesLib} (t : task) : option BuddyRegistration :=
  match t with TDone _ => None | TParked _ _ reg => Some reg end.

Abbreviation blocks_of := (held task_block).
Abbreviation regs_of := (parts task_reg).

(** ** The invariant *)

Section sys.
Context {P : Profile} {B : BytesLib} {O : OneshotLib} {OL : OneshotLaws O}.

(** No free region holds [len] bytes. *)
Definition no_room (bd : BuddyArenaInner) (A : list block) (len : Z) : Prop :=
  ∀ b, in_arena (bd_max_order bd) b → len ≤ block_len bd b → ¬ region_free A b.

(** A task that is done holds a block; one that is parked is armed at the order
    of its request. *)
Definition task_ok (bd : BuddyArenaInner) (t : task) : Prop :=
  match t with
  | TDone buf =>
      ∃ o i off cap, buf = new_buddy (bd_ptr bd) (bd_auto_spill bd) o i off cap ∧
        bd_ptr bd + off = block_addr bd (o, i) ∧ cap ≤ block_len bd (o, i)
  | TParked len order reg =>
      0 < len ≤ 2 ^ 63 ∧ br_registered reg = true ∧ br_order reg = order ∧
      order_for_request bd len = Ret (Some order)
  end.

Record async_inv (bd0 : BuddyArenaInner) (T : Z) (s : async_sys) : Prop := {
  ai_same : bd_same bd0 (ab_inner (y_arena s));
  ai_waiters : waiters_inv (S (Z.to_nat (bd_max_order bd0))) T (ab_waiters (y_arena s)) (regs_of (y_tasks s));
  ai_buddy : buddy_inv (ab_inner (y_arena s)) (y_world s) (blocks_of (y_tasks s));
  ai_tasks : ∀ id t, y_tasks s !! id = Some t → task_ok bd0 t;
}.

(** ** One turn *)

Lemma register_fields n order now reg n' k :
  length (nw_buddy_orders n) = S k → Z.of_nat (S k) ≤ usize_MAX → 0 ≤ order ≤ Z.of_nat k →
  buddy_register n order now = Ret (reg, n') →
  br_registered reg = false ∧ is_Some (br_pending_entry reg) ∧ br_order reg = order.
Proof.
  intros Hlen Hk Ho. unfold buddy_register. rewrite Hlen, usz_sub_ok by (unfold is_usize; lia). cbn [obind].
  intros [= <- <-]. simpl. split_and!; [done|done|lia].
Qed.

Lemma prepare_fields n reg reg' n' :
  prepare n reg = Ret (reg', n') → br_registered reg = false → is_Some (br_pending_entry reg) →
  br_registered reg' = true ∧ br_order reg' = br_order reg.
Proof.
  unfold prepare. intros Hp Hr [e He]. rewrite Hr, He in Hp.
  destruct (index _ _) as [sl| |]; cbn [obind] in Hp; [|done..].
  destruct (match bo_count sl =? 0 with true => _ | false => _ end) as [h| |]; cbn [obind] in Hp; [|done..].
  by simplify_eq.
Qed.

Definition turn_result (bd : BuddyArenaInner) w (A : list block) n (R : gmap nat BuddyRegistration) id
    (len T : Z) (x : async_result * AsyncBuddyArena * World) : Prop :=
  let '(r, a', w') := x in
  let k := S (Z.to_nat (bd_max_order bd)) in
  match r with
  | Ready (Ok buf) =>
      ∃ o i off cap, buf = new_buddy (bd_ptr bd) (bd_auto_spill bd) o i off cap ∧
        buddy_granted bd w A len o i off cap (ab_inner a') w' ∧ waiters_inv k (T + 1) (ab_waiters a') R
  | Ready (Err e) =>
      e = RequestTooLarge ∧ bd_total_size bd < len ∧ w' = w ∧ buddy_inv (ab_inner a') w A ∧
      bd_same bd (ab_inner a') ∧ ab_waiters a' = n
  | Parked o reg =>
      w' = w ∧ buddy_inv (ab_inner a') w A ∧ bd_same bd (ab_inner a') ∧ no_room bd A len ∧
      waiters_inv k (T + 1) (ab_waiters a') (<[id := reg]> R) ∧ br_registered reg = true ∧
      br_order reg = o ∧ order_for_request bd len = Ret (Some o)
  end.

Lemma allocate_turn_ok a w A R id len order now T :
  let bd := ab_inner a in
  buddy_inv bd w A → waiters_inv (S (Z.to_nat (bd_max_order bd))) T (ab_waiters a) R →
  T + 1 ≤ usize_MAX → R !! id = None → 0 < len ≤ 2 ^ 63 → order_for_request bd len = Ret (Some order) →
  now ≠ NO_WAITERS_TIMESTAMP →
  ∃ x, allocate_turn a w len order now = Ret x ∧ turn_result bd w A (ab_waiters a) R id len T x.
Proof.
  intros bd Hinv Hi HT Hid Hlen Hreq Hnow. set (k := S (Z.to_nat (bd_max_order bd))) in *.
  pose proof (bi_geo _ _ _ Hinv) as Hg. pose proof (bg_order _ Hg). pose proof (bg_log _ Hg). pose proof (bg_bound _ Hg).
  pose proof (order_for_request_ok bd len Hg Hlen) as Ho. rewrite Hreq in Ho. destruct Ho as [Ho _].
  assert (Hku : Z.of_nat k ≤ usize_MAX) by (unfold k, usize_MAX; lia).
  unfold allocate_turn.
  destruct (register_ok k T _ R id order now Hi ltac:(lia) Hku ltac:(lia) Hnow Hid) as (reg & n1 & Hreg & Hi1).
  destruct (register_fields _ order now _ _ (Z.to_nat (bd_max_order bd)) (qo_length _ _ _ (wi_queues _ _ _ _ Hi))
    Hku ltac:(lia) Hreg) as (Hf & Hpe & Hor).
  rewrite Hreg. cbn [obind].
  destruct (prepare_ok k T _ _ id reg Hi1 (lookup_insert_eq _ _ _) HT) as (reg2 & n2 & Hp & Hi2).
  destruct (prepare_fields _ _ _ _ Hp Hf Hpe) as (Hf2 & Hor2). rewrite insert_insert_eq in Hi2.
  rewrite Hp. cbn [obind]. unfold buddy_allocate. pose proof (buddy_claim_ok bd w A len Hinv Hlen) as Hcl.
  destruct (buddy_claim (ab_inner a) w len) as [[[[e|[[[o i] off] cap]] bd'] w']| |] eqn:Ec;
    fold bd in Ec; rewrite Ec in Hcl; cbn [obind]; try done.
  - eexists. split; [done|]. simpl.
    assert (Hno : w' = w ∧ buddy_inv bd' w A ∧ bd_same bd bd' ∧ no_room bd A len).
    { destruct e; destruct Hcl as (Hc1 & Hc2 & Hc3 & Hc4); [by split_and!|].
      split_and!; [done|done|done|]. intros b Hb Hbl. exfalso.
      pose proof (block_in_arena bd b Hg Hb). lia. }
    destruct Hno as (-> & ? & ? & ?). split_and!; try done. lia.
  - destruct (revoke_ok k (T + 1) _ _ id reg2 Hi2 ltac:(lia) (lookup_insert_eq _ _ _)) as (reg3 & n3 & -> & Hi3).
    rewrite insert_insert_eq in Hi3. cbn [obind].
    destruct (drop_ok k (T + 1) _ _ id reg3 Hi3 ltac:(lia) (lookup_insert_eq _ _ _)) as (n4 & -> & Hi4).
    rewrite delete_insert_id in Hi4 by done. cbn [obind]. eexists. split; [done|]. simpl.
    by exists o, i, off, cap.
Qed.
Lemma allocate_async_ok a w A R id len now T :
  let bd := ab_inner a in
  buddy_inv bd w A → waiters_inv (S (Z.to_nat (bd_max_order bd))) T (ab_waiters a) R →
  T + 1 ≤ usize_MAX → R !! id = None → 0 < len ≤ 2 ^ 63 → now ≠ NO_WAITERS_TIMESTAMP →
  ∃ x, allocate_async a w len now = Ret x ∧ turn_result bd w A (ab_waiters a) R id len T x.
Proof.
  intros bd Hinv Hi HT Hid Hlen Hnow. unfold allocate_async.
  pose proof (order_for_request_ok bd len (bi_geo _ _ _ Hinv) Hlen) as Hreq. fold bd.
  destruct (order_for_request bd len) as [[t|]| |] eqn:Et; cbn [obind]; [|..|done|done].
  - by apply allocate_turn_ok.
  - unfold buddy_allocate. pose proof (buddy_claim_ok bd w A len Hinv Hlen) as Hcl.
    unfold buddy_claim in *. rewrite Et in *. cbn [obind] in *. eexists. split; [done|].
    destruct Hcl as (? & _ & ? & ?). by split_and!.
Qed.

(** The result of a turn, recorded for a task that is new or gives up its old
    state. *)
Lemma settle_inv bd0 T s id len x m :
  m !! id = None → bd_same bd0 (ab_inner (y_arena s)) →
  (∀ i t, m !! i = Some t → task_ok bd0 t) → y_tasks s = m ∨ delete id (y_tasks s) = m →
  waiters_inv (S (Z.to_nat (bd_max_order bd0))) (T + 1) (ab_waiters (y_arena s)) (regs_of m) →
  0 < len ≤ 2 ^ 63 →
  turn_result (ab_inner (y_arena s)) (y_world s) (blocks_of m) (ab_waiters (y_arena s)) (regs_of m) id len T x →
  async_inv bd0 (T + 1) (settle s id len x).
Proof.
  intros Hid Hsame Hm Hts Hw Hlen Hx. destruct x as [[r a'] w'].
  assert (Hins : ∀ t, <[id := t]> (y_tasks s) = <[id := t]> m)
    by (intros t; destruct Hts as [->|<-]; [done|by rewrite insert_delete_eq]).
  assert (Hdel : delete id (y_tasks s) = m) by (destruct Hts as [->|]; [by apply delete_id|done]).
  assert (Hmo : bd_max_order (ab_inner (y_arena s)) = bd_max_order bd0) by (by destruct Hsame as (? & ? & ? & ? & ->)).
  assert (Hok : ∀ t, task_ok bd0 t → ∀ i t', <[id := t]> m !! i = Some t' → task_ok bd0 t').
  { intros t Ht i t' [[_ <-]|[_ Hi]]%lookup_insert_Some; [done|by eapply Hm]. }
  unfold turn_result in Hx. rewrite Hmo in Hx. destruct r as [[e|buf]|o reg]; simpl.
  - destruct Hx as (_ & _ & -> & Hinv & Hs & Hwa). split; simpl; rewrite ?Hdel, ?Hwa; try done. by etrans.
  - destruct Hx as (o & i & off & cap & -> & Hgr & Hi). split; simpl; rewrite ?Hins.
    + etrans; [done|apply Hgr].
    + by rewrite parts_insert.
    + eapply buddy_inv_perm; [|apply Hgr]. by rewrite held_insert.
    + apply Hok. simpl. destruct Hgr as [_ _ _ _ Hoff Hcap Hfit _ _ _ _].
      destruct Hsame as (? & ? & ? & ? & Heq). rewrite Heq in *. exists o, i, off, cap.
      split_and!; [done|done|]. change (block_len _ (o, i)) with (block_len bd0 (o, i)) in Hcap, Hfit.
      destruct (bd_cap_capacity _) in Hcap; lia.
  - destruct Hx as (-> & Hinv & Hs & Hno & Hi & Hreg & Hor & Hreq). split; simpl; rewrite ?Hins.
    + by etrans.
    + by rewrite parts_insert.
    + eapply buddy_inv_perm; [|exact Hinv]. by rewrite held_insert.
    + apply Hok. simpl. split_and!; try done; [lia..|].
      by destruct Hsame as (? & ? & ? & ? & Heq); rewrite Heq in Hreq.
Qed.
(** ** Every step *)

(** A request the arena could be asked for, and a reading of the clock. *)
Definition op_ok (op : async_op) : Prop :=
  match op with
  | AAllocate _ len now => 0 < len ≤ 2 ^ 63 ∧ 0 ≤ now < NO_WAITERS_TIMESTAMP
  | AResume _ now => 0 ≤ now < NO_WAITERS_TIMESTAMP
  | ACancel _ | ADropBuffer _ => True
  end.

Lemma poll_pending n reg reg' n' : registration_poll n reg = Ret (false, reg', n') → reg' = reg ∧ n' = n.
Proof.
  unfold registration_poll. destruct (br_rx reg) as [c|]; [|done]. destruct (get _ _) as [ch| |]; cbn [obind]; [|done..].
  destruct (chan_poll ch); [done|]. by intros [= <- <-].
Qed.

Lemma ai_mono bd0 T T' s : T ≤ T' → async_inv bd0 T s → async_inv bd0 T' s.
Proof. intros HT [H1 H2 H3 H4]. split; try done. by eapply waiters_inv_mono. Qed.

Lemma ai_max_order bd0 T s : async_inv bd0 T s → bd_max_order (ab_inner (y_arena s)) = bd_max_order bd0.
Proof. intros [(? & ? & ? & ? & ->) _ _ _]. done. Qed.

(** A task that is not holding a block is taken out. *)
Lemma sys_without bd0 T s id t :
  async_inv bd0 T s → y_tasks s !! id = Some t → task_block t = None →
  buddy_inv (ab_inner (y_arena s)) (y_world s) (blocks_of (delete id (y_tasks s))) ∧
  ∀ i t', delete id (y_tasks s) !! i = Some t' → task_ok bd0 t'.
Proof.
  intros [_ _ Hb Ht] Hid Hn. split.
  - eapply buddy_inv_perm; [|exact Hb]. rewrite (held_delete _ _ _ _ Hid), Hn. done.
  - intros i t' [_ Hi]%lookup_delete_Some. by eapply Ht.
Qed.

Lemma resume_ok bd0 T s id len order reg now :
  async_inv bd0 T s → T + 1 ≤ usize_MAX → y_tasks s !! id = Some (TParked len order reg) →
  0 ≤ now < NO_WAITERS_TIMESTAMP →
  ∃ x, resume (y_arena s) (y_world s) len order now reg = Ret x ∧ async_inv bd0 (T + 1) (settle s id len x).
Proof.
  intros Hs HT Hid Hnow. pose proof Hs as [Hsame Hw Hb Ht].
  pose proof (parts_lookup task_reg _ _ _ Hid) as Hreg. simpl in Hreg.
  destruct (Ht _ _ Hid) as (Hlen & Hg & Hor & Hreq).
  unfold resume. destruct (poll_ok _ _ _ _ id reg Hw Hreg) as (b & reg' & n' & Hp & Hw' & _). rewrite Hp. cbn [obind].
  destruct b.
  - destruct (drop_ok _ _ _ _ id reg' Hw' ltac:(lia) (lookup_insert_eq _ _ _)) as (n2 & -> & Hw2). cbn [obind].
    rewrite delete_insert_eq, <- (parts_delete task_reg) in Hw2.
    destruct (sys_without _ _ _ _ _ Hs Hid eq_refl) as [Hb' Ht'].
    set (a := mkAsyncBuddyArena (ab_inner (y_arena s)) n2).
    destruct (allocate_turn_ok a (y_world s) (blocks_of (delete id (y_tasks s))) (regs_of (delete id (y_tasks s)))
      id len order now T) as (x & -> & Hx); simpl; try done.
    + by rewrite (ai_max_order _ _ _ Hs).
    + apply parts_none, lookup_delete_eq.
    + destruct Hsame as (? & ? & ? & ? & Heq). by rewrite Heq.
    + lia.
    + exists x. split; [done|].
      apply (settle_inv bd0 T (mkAsyncSys a (y_world s) (y_tasks s)) id len x (delete id (y_tasks s))); try done.
      * apply lookup_delete_eq.
      * by right.
      * eapply waiters_inv_mono; [|exact Hw2]. lia.
  - apply poll_pending in Hp as [-> ->]. eexists. split; [done|]. simpl. rewrite insert_id by done.
    eapply (ai_mono _ T); [lia|]. by split.
Qed.

Lemma async_release_ok bd0 T s id buf o i :
  async_inv bd0 T s → T ≤ usize_MAX → y_tasks s !! id = Some (TDone buf) → b_allocation buf = KBuddy o i →
  ∃ a w, async_release (y_arena s) (y_world s) o i = Ret (a, w) ∧
    async_inv bd0 T (mkAsyncSys a w (delete id (y_tasks s))).
Proof.
  intros Hs HT Hid Hk. pose proof Hs as [Hsame Hw Hb Ht].
  assert (Hblk : task_block (TDone buf) = Some (o, i)) by (simpl; by rewrite Hk).
  eapply buddy_inv_perm in Hb; [|apply (held_delete task_block _ _ _ Hid)]. rewrite Hblk in Hb. simpl in Hb.
  pose proof (bi_geo _ _ _ Hb) as Hgeo. pose proof (bg_order _ Hgeo).
  pose proof (bg_log _ Hgeo). pose proof (bg_bound _ Hgeo). rewrite (ai_max_order _ _ _ Hs) in *.
  destruct (bi_core _ _ _ Hb) as [F Hco]. pose proof (core_range_out _ _ _ (o, i) Hco ltac:(by left)) as [Ho _].
  simpl in Ho.
  destruct (buddy_release_ok _ _ _ _ _ Hb) as (bd' & w' & o' & Hr & Hb' & Hs' & Ho' & _ & Hwk & _).
  unfold async_release. rewrite Hr. cbn [obind]. rewrite Hwk, drop_app_length.
  assert (Hwake : ∃ n', ofoldM buddy_wake (ab_waiters (y_arena s))
      (omap wake_call_order (if bd_wake_handle (ab_inner (y_arena s)) then [WakeBuddy o'] else [])) = Ret n' ∧
    waiters_inv (S (Z.to_nat (bd_max_order bd0))) T n' (regs_of (y_tasks s))).
  { destruct (bd_wake_handle _); simpl; [|by eexists].
    destruct (buddy_wake_ok _ T _ _ o' Hw) as (n' & -> & Hw'); [lia|lia|unfold usize_MAX; lia|lia|].
    by exists n'. }
  destruct Hwake as (n' & -> & Hw'). cbn [obind]. do 2 eexists. split; [done|]. split; simpl; try done.
  - by etrans.
  - rewrite parts_delete, delete_id; [done|]. by rewrite (parts_lookup task_reg _ _ _ Hid).
  - intros j t' [_ Hj]%lookup_delete_Some. by eapply Ht.
Qed.

Lemma async_step_ok bd0 T s op :
  async_inv bd0 T s → T + 1 ≤ usize_MAX → op_ok op →
  ∃ x, async_step s op = Ret x ∧ async_inv bd0 (T + 1) (default s x).
Proof.
  intros Hs HT Hop. pose proof Hs as [Hsame Hw Hb Ht].
  assert (Hsame' : ∃ x, Ret None = Ret x ∧ async_inv bd0 (T + 1) (default s x))
    by (exists None; split; [done|]; eapply ai_mono; [|exact Hs]; lia).
  destruct op as [id len now|id now|id|id]; simpl in Hop |- *; destruct (y_tasks s !! id) as [t|] eqn:Eid; try done.
  - destruct Hop as [Hlen Hnow].
    destruct (allocate_async_ok (y_arena s) (y_world s) (blocks_of (y_tasks s)) (regs_of (y_tasks s)) id len now T)
      as (x & -> & Hx); try done.
    + by rewrite (ai_max_order _ _ _ Hs).
    + by apply parts_none.
    + lia.
    + cbn [obind]. eexists. split; [done|]. simpl.
      apply (settle_inv bd0 T s id len x (y_tasks s)); try done; [by left|].
      eapply waiters_inv_mono; [|exact Hw]. lia.
  - destruct t as [buf|len order reg]; [done|].
    destruct (resume_ok bd0 T s id len order reg now Hs HT Eid Hop) as (x & -> & Hx). cbn [obind].
    eexists. split; [done|]. exact Hx.
  - destruct t as [buf|len order reg]; [done|]. unfold cancel.
    destruct (drop_ok _ T _ _ id reg Hw ltac:(lia)) as (n' & -> & Hw'); [by rewrite (parts_lookup task_reg _ _ _ Eid)|].
    cbn [obind]. eexists. split; [done|]. simpl.
    destruct (sys_without _ _ _ _ _ Hs Eid eq_refl) as [Hb' Ht']. eapply (ai_mono _ T); [lia|].
    split; simpl; try done. by rewrite parts_delete.
  - destruct t as [buf|len order reg]; [|done]. destruct (Ht _ _ Eid) as (o & i & off & cap & Hbuf & _).
    assert (Ek : b_allocation buf = KBuddy o i) by (by rewrite Hbuf). rewrite Ek.
    destruct (async_release_ok bd0 T s id buf o i Hs ltac:(lia) Eid Ek) as (a & w & -> & Hs'). cbn [obind].
    eexists. split; [done|]. eapply (ai_mono _ T); [lia|done].
Qed.

Lemma async_run_ok bd0 T s ops :
  async_inv bd0 T s → T + Z.of_nat (length ops) ≤ usize_MAX → Forall op_ok ops →
  ∃ s', async_run s ops = Ret s' ∧ async_inv bd0 (T + Z.of_nat (length ops)) s'.
Proof.
  intros Hs HT Hops. revert s T Hs HT. induction Hops as [|op ops Hop _ IH]; intros s T Hs HT; simpl in *.
  { exists s. by rewrite Z.add_0_r. }
  destruct (async_step_ok bd0 T s op Hs ltac:(lia) Hop) as (x & -> & Hx). cbn [obind].
  destruct (IH _ (T + 1) Hx ltac:(lia)) as (s' & Hrun & Hs'). exists s'. split; [done|].
  by replace (T + Z.of_nat (S (length ops))) with (T + 1 + Z.of_nat (length ops)) by lia.
Qed.
Lemma async_init bd w n :
  buddy_inv bd w [] → waiters_inv (S (Z.to_nat (bd_max_order bd))) 0 n ∅ →
  async_inv bd 0 (mkAsyncSys (mkAsyncBuddyArena bd n) w ∅).
Proof. intros Hb Hw. by split. Qed.

(** Buffers of two tasks. *)
Lemma async_disjoint bd0 T s id id' buf buf' :
  async_inv bd0 T s → id ≠ id' → y_tasks s !! id = Some (TDone buf) → y_tasks s !! id' = Some (TDone buf') →
  disjoint_ranges (b_ptr buf + b_offset buf) (b_capacity buf) (b_ptr buf' + b_offset buf') (b_capacity buf').
Proof.
  intros [Hsame _ Hb Ht] Hne Hid Hid'.
  destruct (Ht _ _ Hid) as (o & i & off & cap & -> & Hoff & Hcap).
  destruct (Ht _ _ Hid') as (o' & i' & off' & cap' & -> & Hoff' & Hcap'). simpl.
  eapply buddy_inv_perm in Hb; [|apply (held_delete task_block _ _ _ Hid)]. simpl in Hb.
  destruct (bi_core _ _ _ Hb) as [F Hco]. pose proof (t_nodup _ _ _ (co_tiling _ _ _ Hco)) as Hnd.
  assert (Hin : (o', i') ∈ blocks_of (delete id (y_tasks s))).
  { rewrite (held_delete _ _ id' _ (eq_trans (lookup_delete_ne _ _ _ Hne) Hid')). by left. }
  destruct Hsame as (? & ? & ? & ? & Heq). rewrite Heq in *. apply NoDup_cons in Hnd as [Hnd _].
  assert (Hd := blocks_disjoint _ _ _ (o, i) (o', i') Hco ltac:(right; by left) ltac:(right; by right) ltac:(congruence)).
  unfold disjoint_ranges in *. change (block_len (bd_set _ _ _ _ _)) with (block_len bd0) in Hd.
  change (block_addr (bd_set _ _ _ _ _)) with (block_addr bd0) in Hd. lia.
Qed.

(** A parked task. *)
Lemma async_parked bd0 T s id len order reg :
  async_inv bd0 T s → y_tasks s !! id = Some (TParked len order reg) →
  (∃ reg' n', registration_poll (ab_waiters (y_arena s)) reg = Ret (true, reg', n')) ∨
  (waiting (ab_waiters (y_arena s)) order ∧
   ∃ e q, br_entry reg = Some e ∧ queue_at (ab_waiters (y_arena s)) order q ∧ e ∈ q ∧
     live (ab_waiters (y_arena s)) e = true).
Proof.
  intros [_ Hw _ Ht] Hid. destruct (Ht _ _ Hid) as (_ & Hg & <- & _).
  pose proof (parts_lookup task_reg _ _ _ Hid) as Hreg. simpl in Hreg.
  destruct (told_or_queued _ _ _ _ id reg Hw Hreg Hg) as (e & He & [Hp|(Hl & Hwt & q & Hq & Hin)]);
    [by left|right]. split; [done|]. by exists e, q.
Qed.
End sys.

(** ** What it means *)

Lemma build_buddy_async_eq {P : Profile} {O : OneshotLib} {PF : Platform} {GA : GlobalAlloc} {m}
    (b : BuddyArenaBuilder m) n w :
  build_buddy_async_with b n w = let? (a, w') := build_buddy b true w in Ret (Ok (mkAsyncBuddyArena a n, w')).
Proof.
  unfold build_buddy_async_with, build_buddy. destruct (PageSize_resolve _) as [ps| |]; [|done..]. cbn [obind].
  destruct (build_raw b true) as [[e|a]| |]; cbn [rbind obind]; [done| |done..].
  by destruct (prefault_if ps w (bd_ptr a) (bd_total_size a)).
Qed.

(** C4: tasks on an async buddy arena.  Build one from a valid geometry and
    run any sequence of [allocate_async] calls of at most [2^63] bytes, polls,
    cancellations and buffer drops: nothing panics, the buffers of different
    tasks never share a byte, and a task that is still parked has either been
    told, so that its next poll is ready, or has a live entry in the queue of
    the order of its request, where scoring sees it. *)
Theorem async_correct {P : Profile} {PF : Platform} {GA : GlobalAlloc} {B : BytesLib} {O : OneshotLib}
    {OL : OneshotLaws O} {m} (b : BuddyArenaBuilder m) w0 ops :
  PlatformLaws PF → GlobalAllocLaws GA → geometry_valid (bb_geometry b) →
  match bc_page_size (bb_config b) with PSize n => 0 < n ≤ usize_MAX | _ => True end →
  Forall op_ok ops → Z.of_nat (length ops) ≤ usize_MAX →
  match build_buddy_async b w0 with
  | Ret (Ok (a, w)) =>
      ∃ s, async_run (mkAsyncSys a w ∅) ops = Ret s ∧
        (∀ id id' buf buf', id ≠ id' →
           y_tasks s !! id = Some (TDone buf) → y_tasks s !! id' = Some (TDone buf') →
           disjoint_ranges (b_ptr buf + b_offset buf) (b_capacity buf)
             (b_ptr buf' + b_offset buf') (b_capacity buf')) ∧
        ∀ id len order reg, y_tasks s !! id = Some (TParked len order reg) →
          order_for_request (ab_inner a) len = Ret (Some order) ∧
          let n := ab_waiters (y_arena s) in
          ((∃ reg' n', registration_poll n reg = Ret (true, reg', n')) ∨
           (waiting n order ∧ ∃ e q, br_entry reg = Some e ∧ queue_at n order q ∧ e ∈ q ∧ live n e = true))
  | Ret (Err e) => e = SizeOverflow
  | Panic => global_alloc (total_size (bb_geometry b)) (alignment (bb_geometry b)) = 0
  | OutOfFuel => False
  end.
Proof.
  intros PL GL Hb Hps Hops Hlen. unfold build_buddy_async.
  assert (Hmo : 0 ≤ max_order (bb_geometry b) < 64) by (destruct Hb as (k & al & ? & ? & ? & ? & _); lia).
  rewrite usz_add_ok by (unfold is_usize, usize_MAX; lia). cbn [obind].
  destruct (waiters_new_inv (S (Z.to_nat (max_order (bb_geometry b)))) ltac:(lia)) as (n & Hn & Hi & _).
  replace (Z.of_nat (S (Z.to_nat (max_order (bb_geometry b))))) with (max_order (bb_geometry b) + 1) in Hn by lia.
  rewrite Hn. cbn [obind]. rewrite build_buddy_async_eq. pose proof (build_buddy_ok b true w0 PL GL Hb Hps) as Hbuild.
  destruct (build_buddy b true w0) as [[e|[bd w]]| |]; cbn [rbind obind]; try done; [by destruct Hbuild|].
  destruct Hbuild as [(_ & _ & _ & Hord & _) [Hinv _]]. rewrite <- Hord in Hi.
  destruct (async_run_ok bd 0 _ ops (async_init bd w n Hinv Hi) ltac:(lia) Hops) as (s & Hrun & Hs).
  exists s. split_and!; [done|..].
  - intros id id' buf buf'. by eapply async_disjoint.
  - intros id len order reg Hid. destruct (ai_tasks _ _ _ Hs _ _ Hid) as (_ & _ & _ & Hreq).
    split; [done|]. by eapply async_parked.
Qed.

Lemma async_correct_witness :
  ∃ a w s, @build_buddy_async dev list_oneshot demo_platform demo_alloc Standard demo_buddy_builder (mkWorld ∅ []) =
      Ret (Ok (a, w)) ∧
    @async_run dev list_bytes list_oneshot (mkAsyncSys a w ∅)
      [AAllocate 1 4000 10; AAllocate 2 500 20; ADropBuffer 1; AResume 2 30] = Ret s.
Proof.
  pose proof (@async_correct dev demo_platform demo_alloc list_bytes list_oneshot list_oneshot_laws Standard
    demo_buddy_builder (mkWorld ∅ []) [AAllocate 1 4000 10; AAllocate 2 500 20; ADropBuffer 1; AResume 2 30]
    demo_platform_laws demo_alloc_laws demo_geometry_valid I) as H.
  assert (Hops : Forall op_ok [AAllocate 1 4000 10; AAllocate 2 500 20; ADropBuffer 1; AResume 2 30])
    by (repeat constructor; simpl; unfold NO_WAITERS_TIMESTAMP; lia).
  specialize (H Hops ltac:(unfold usize_MAX; simpl; lia)).
  assert (Hk : match @build_buddy_async dev list_oneshot demo_platform demo_alloc Standard demo_buddy_builder
                       (mkWorld ∅ []) with
               | Ret (Ok _) => true | _ => false end = true) by (vm_compute; reflexivity).
  destruct (build_buddy_async demo_buddy_builder (mkWorld ∅ [])) as [[e|[a w]]| |];
    [discriminate Hk| |discriminate Hk|discriminate Hk].
  destruct H as (s & H & _). exists a, w, s. split; [reflexivity|exact H].
Defined.

Lemma allocate_async_huge {P : Profile} {B : BytesLib} {O : OneshotLib} {OL : OneshotLaws O}
    a w A R T len now :
  let bd := ab_inner a in
  buddy_inv bd w A → waiters_inv (S (Z.to_nat (bd_max_order bd))) T (ab_waiters a) R → T + 1 ≤ usize_MAX →
  2 ^ 63 < len ≤ usize_MAX → now ≠ NO_WAITERS_TIMESTAMP →
  if debug_assertions then allocate_async a w len now = Panic
  else ∃ order reg a', allocate_async a w len now = Ret (Parked order reg, a', w) ∧
         br_registered reg = true ∧ buddy_inv (ab_inner a') w A.
Proof.
  intros bd Hinv Hi HT Hlen Hnow. pose proof (bi_geo _ _ _ Hinv) as Hg.
  pose proof (bg_order _ Hg). pose proof (bg_log _ Hg). pose proof (bg_bound _ Hg).
  unfold allocate_async. rewrite order_for_request_huge by done.
  pose proof (buddy_claim_huge bd w A len Hinv Hlen) as Hcl.
  destruct debug_assertions; cbn [obind]; [done|]. unfold allocate_turn. fold bd.
  assert (Hid : R !! fresh (dom R) = None) by (apply not_elem_of_dom, is_fresh).
  destruct (register_ok _ T _ R (fresh (dom R)) (64 - bd_unit_log bd) now Hi ltac:(lia)
    ltac:(unfold usize_MAX; lia) ltac:(lia) Hnow Hid) as (reg & n1 & Hreg & Hi1). rewrite Hreg. cbn [obind].
  destruct (prepare_ok _ T _ _ _ reg Hi1 (lookup_insert_eq _ _ _) HT) as (reg2 & n2 & Hp & _).
  rewrite Hp. cbn [obind]. unfold buddy_allocate. rewrite Hcl. cbn [obind].
  do 3 eexists. split; [done|]. split.
  - eapply (prepare_fields n1 reg reg2 n2 Hp); revert Hreg; unfold buddy_register;
      destruct (usz_sub _ _); cbn [obind]; try done; by intros [= <- <-].
  - destruct (bi_core _ _ _ Hinv) as [F Hco]. by eapply inv_failure.
Qed.

(** C23: one [allocate_async], of any size.  It returns a buffer at once when the
    arena has room, leaving no registration behind.  Of at most [2^63] bytes, it
    fails at once, with [RequestTooLarge] and without registering, exactly when
    the request exceeds the arena, and otherwise parks, armed at the order of its
    request, only when no free region of the arena holds the request.  A larger
    request is not refused: it panics in a build with overflow checks, and parks
    in one without. *)
Theorem allocate_async_correct {P : Profile} {B : BytesLib} {O : OneshotLib} {OL : OneshotLaws O}
    a w A R T len now :
  let bd := ab_inner a in
  buddy_inv bd w A → waiters_inv (S (Z.to_nat (bd_max_order bd))) T (ab_waiters a) R → T + 1 ≤ usize_MAX →
  0 < len ≤ usize_MAX → now ≠ NO_WAITERS_TIMESTAMP →
  match allocate_async a w len now with
  | Ret (Ready (Ok buf), a', w') =>
      (∃ o i off cap, buf = new_buddy (bd_ptr bd) (bd_auto_spill bd) o i off cap ∧
         buddy_granted bd w A len o i off cap (ab_inner a') w') ∧
      waiters_inv (S (Z.to_nat (bd_max_order bd))) (T + 1) (ab_waiters a') R
  | Ret (Ready (Err e), a', w') =>
      e = RequestTooLarge ∧ bd_total_size bd < len ≤ 2 ^ 63 ∧ w' = w ∧ buddy_inv (ab_inner a') w A ∧
      ab_waiters a' = ab_waiters a
  | Ret (Parked order reg, a', w') =>
      w' = w ∧ buddy_inv (ab_inner a') w A ∧ br_registered reg = true ∧
      (len ≤ 2 ^ 63 →
         no_room bd A len ∧ len ≤ bd_total_size bd ∧ br_order reg = order ∧
         order_for_request bd len = Ret (Some order)) ∧
      (2 ^ 63 < len → debug_assertions = false)
  | Panic => 2 ^ 63 < len ∧ debug_assertions = true
  | OutOfFuel => False
  end.
Proof.
  intros bd Hinv Hi HT Hlen Hnow. destruct (Z.le_gt_cases len (2 ^ 63)) as [Hle|Hgt].
  2: { pose proof (allocate_async_huge a w A R T len now Hinv Hi HT ltac:(lia) Hnow) as Hh.
       destruct debug_assertions; [by rewrite Hh|]. destruct Hh as (order & reg & a' & -> & ? & ?).
       split_and!; done || lia. }
  destruct (allocate_async_ok a w A R (fresh (dom R)) len now T Hinv Hi HT) as (((r & a') & w') & -> & Hr);
    [apply not_elem_of_dom, is_fresh|lia|done|].
  destruct r as [[e|buf]|order reg]; simpl in Hr.
  - destruct Hr as (-> & ? & -> & ? & _ & ->). by split_and!.
  - destruct Hr as (o & i & off & cap & -> & ? & ?). split; [by exists o, i, off, cap|done].
  - destruct Hr as (-> & ? & _ & ? & _ & ? & <- & Hreq). pose proof (bi_geo _ _ _ Hinv) as Hg.
    pose proof (order_for_request_ok bd len Hg ltac:(lia)) as Ho. fold bd in Hreq. rewrite Hreq in Ho.
    destruct Ho as (Ho & Hfit & _). pose proof (bg_log _ Hg). split_and!; try done; [|lia]. intros _.
    split_and!; try done.
    rewrite (bg_total _ Hg). pose proof (pow2_mono (bd_unit_log bd + br_order reg) (bd_unit_log bd + bd_max_order bd)).
    lia.
Qed.

Lemma allocate_async_correct_witness :
  let n := match @NotifyWaiters_new list_oneshot 4 with Ret n => n | _ => demo_waiters end in
  let a := mkAsyncBuddyArena demo_buddy n in
  ∃ x, @allocate_async dev list_bytes list_oneshot a (mkWorld ∅ []) 5000 7 = Ret x ∧
    bd_total_size demo_buddy < 5000.
Proof.
  intros n a.
  assert (Hn : @waiters_inv list_oneshot list_oneshot_laws 4 0 n ∅).
  { destruct (@waiters_new_inv list_oneshot list_oneshot_laws 4 ltac:(lia)) as (n0 & H0 & Hi & _).
    change (@NotifyWaiters_new list_oneshot (Z.of_nat 4)) with (Ret n) in H0. injection H0 as <-. exact Hi. }
  pose proof (@allocate_async_correct dev list_bytes list_oneshot list_oneshot_laws a (mkWorld ∅ []) [] ∅ 0 5000 7
    (demo_buddy_inv _) Hn ltac:(unfold usize_MAX; lia) ltac:(unfold usize_MAX; lia)
    ltac:(unfold NO_WAITERS_TIMESTAMP; lia)) as H.
  assert (Hk : match @allocate_async dev list_bytes list_oneshot a (mkWorld ∅ []) 5000 7 with
               | Ret (Ready (Err _), _, _) => true | _ => false end = true) by (vm_compute; reflexivity).
  destruct (allocate_async a (mkWorld ∅ []) 5000 7) as [x| |]; [|discriminate Hk|discriminate Hk].
  exists x. split; [reflexivity|]. destruct x as [[[[e|buf]|o r] a'] w']; [|discriminate Hk|discriminate Hk].
  destruct H as (_ & [H _] & _). exact H.
Defined.

(** ** Two runs that strand a waiter *)

Definition demo_async (ops : list async_op) : outcome (@async_sys list_bytes list_oneshot) :=
  match @build_buddy_async dev list_oneshot demo_platform demo_alloc Standard
          (@buddy_builder demo_platform demo_geometry) (mkWorld ∅ []) with
  | Ret (Ok (a, w)) => @async_run dev list_bytes list_oneshot (mkAsyncSys a w ∅) ops
  | _ => Panic
  end.

(** The task is parked, cannot go on when polled at the time given, and a block
    of order 0 is free. *)
Definition stranded (s : @async_sys list_bytes list_oneshot) (id : nat) (now : Z) : bool :=
  match @async_step dev list_bytes list_oneshot s (AResume id now),
        @free_block_count dev (ab_inner (y_arena s)) 0 with
  | Ret (Some s'), Ret c => is_parked s id && is_parked s' id && (0 <? c)
  | _, _ => false
  end.

Definition fill : list async_op :=
  [AAllocate 1 500 1; AAllocate 2 500 2; AAllocate 3 500 3; AAllocate 4 500 4;
   AAllocate 5 500 5; AAllocate 6 500 6; AAllocate 7 500 7; AAllocate 8 500 8].

(** A task goes on waiting for a block that is free: the eight allocations that
    succeeded at once left eight settled entries in the queue, and a wake pops
    no more than eight. *)
Lemma wake_bound_strands_waiter :
  match demo_async (fill ++ [AAllocate 9 500 100; ADropBuffer 3]) with
  | Ret s => stranded s 9 200
  | _ => false
  end = true.
Proof. vm_compute. reflexivity. Qed.

(** A cancelled task takes the wake it was sent with it: task 11 goes on
    waiting although a block is free, because the release that freed it woke
    task 10 alone. *)
Lemma cancel_loses_wake :
  match demo_async (fill ++ [AAllocate 9 500 100; ADropBuffer 3; ADropBuffer 5; AResume 9 200;
                             AAllocate 3 500 201; AAllocate 10 500 210; AAllocate 11 500 220;
                             ADropBuffer 1; ACancel 10]) with
  | Ret s => stranded s 11 300
  | _ => false
  end = true.
Proof. vm_compute. reflexivity. Qed.
