(* ===== verification/AsyncFixed.v ===== *)
(** * Waiting for a slot ([src/async_alloc.rs], [src/arena.rs])

    The async fixed arena is generic in its waiters, the traits [Waiter] and
    [WaitRegistration]: [WaiterOps].  [NotifyWaiters] implements them with a
    tokio [Notify], a parameter.  Tasks run as on the buddy arena: a turn up to
    the [await], then polls of the registration. *)

From stdpp Require Import prelude numbers list gmap.
From S2P Require Import Prelude Usize Errors Bitmap Geometry Memory Config Buffer FixedArena FixedProps.
Local Open Scope Z_scope.

(** ** The traits *)

(** [W] is the state of the waiters, [Reg] a registration; [true] is
    [Poll::Ready]. *)
Class WaiterOps (W Reg : Type) := {
  w_register : W → outcome (Reg * W);
  w_wake : W → outcome W;
  r_prepare : W → Reg → outcome (Reg * W);
  r_revoke : W → Reg → outcome (Reg * W);
  r_poll : W → Reg → outcome (bool * Reg * W);
  r_drop : W → Reg → outcome W;
}.

(** ** The [Notify] of tokio *)

Class NotifyLib := {
  Notify : Type;
  notify_new : Notify;
  (** A new future, named. *)
  notified_owned : Notify → nat * Notify;
  notified_enable : Notify → nat → bool * Notify;
  notified_poll : Notify → nat → bool * Notify;
  notify_one : Notify → Notify;
  notified_drop : Notify → nat → Notify;
}.

(** Where a future is: created, in the queue, notified, or completed. *)
Inductive fut := FInit | FWaiting | FTold | FDone.

#[export] Instance fut_eq_dec : EqDecision fut.
Proof. solve_decision. Defined.

(** The documented state: the one stored permit, the futures that wait in the
    order they were enabled in, and where every future is. *)
Record notify_state := mkNotifyState {
  ns_permit : bool;
  ns_queue : list nat;
  ns_futs : gmap nat fut;
}.

(** [notify_one] tells the first that waits, or stores a permit. *)
Definition ns_notify (s : notify_state) : notify_state :=
  match ns_queue s with
  | i :: q => mkNotifyState (ns_permit s) q (<[i := FTold]> (ns_futs s))
  | [] => mkNotifyState true [] (ns_futs s)
  end.

(** Enabling or polling takes the permit or joins the queue the first time,
    and completes once told. *)
Definition ns_poll (s : notify_state) (i : nat) : bool * notify_state :=
  match ns_futs s !! i with
  | Some FInit =>
      if ns_permit s then (true, mkNotifyState false (ns_queue s) (<[i := FDone]> (ns_futs s)))
      else (false, mkNotifyState false (ns_queue s ++ [i]) (<[i := FWaiting]> (ns_futs s)))
  | Some FTold => (true, mkNotifyState (ns_permit s) (ns_queue s) (<[i := FDone]> (ns_futs s)))
  | Some FDone => (true, s)
  | Some FWaiting | None => (false, s)
  end.

(** A dropped future leaves the queue; one that was told and never completed
    passes the notification on. *)
Definition ns_drop (s : notify_state) (i : nat) : notify_state :=
  let s' := mkNotifyState (ns_permit s) (filter (λ j, j ≠ i) (ns_queue s)) (delete i (ns_futs s)) in
  match ns_futs s !! i with Some FTold => ns_notify s' | _ => s' end.

Class NotifyLaws (N : NotifyLib) := {
  nview : Notify → notify_state;
  nview_new : nview notify_new = mkNotifyState false [] ∅;
  nview_owned n : ns_futs (nview n) !! (notified_owned n).1 = None ∧
    nview (notified_owned n).2 =
      mkNotifyState (ns_permit (nview n)) (ns_queue (nview n)) (<[(notified_owned n).1 := FInit]> (ns_futs (nview n)));
  nview_enable n i : ((notified_enable n i).1, nview (notified_enable n i).2) = ns_poll (nview n) i;
  nview_poll n i : ((notified_poll n i).1, nview (notified_poll n i).2) = ns_poll (nview n) i;
  nview_notify n : nview (notify_one n) = ns_notify (nview n);
  nview_drop n i : nview (notified_drop n i) = ns_drop (nview n) i;
}.

(** A [Notify] that is its own documentation. *)
Definition list_notify : NotifyLib := {|
  Notify := notify_state;
  notify_new := mkNotifyState false [] ∅;
  notified_owned s :=
    let i := fresh (dom (ns_futs s)) in
    (i, mkNotifyState (ns_permit s) (ns_queue s) (<[i := FInit]> (ns_futs s)));
  notified_enable := ns_poll;
  notified_poll := ns_poll;
  notify_one := ns_notify;
  notified_drop := ns_drop;
|}.

Definition list_notify_laws : NotifyLaws list_notify.
Proof.
  refine {| nview := λ s : @Notify list_notify, (s : notify_state) |}; try done.
  - intros n. split; [|done]. apply not_elem_of_dom, is_fresh.
  - intros n i. simpl. by destruct (ns_poll n i).
  - intros n i. simpl. by destruct (ns_poll n i).
Defined.

(** ** [NotifyWaiters] as a [Waiter] *)

Section notify.
Context {N : NotifyLib}.

Record FixedOrderSlot := mkFixedOrderSlot {
  fo_notify : Notify;
  fo_count : Z;
}.

Definition FixedOrderSlot_new : FixedOrderSlot := mkFixedOrderSlot notify_new 0.

Record NotifyRegistration := mkNotifyRegistration {
  nr_future : nat;
  nr_registered : bool;
  nr_woken : bool;
}.

Definition notify_register (w : FixedOrderSlot) : outcome (NotifyRegistration * FixedOrderSlot) :=
  let '(future, n) := notified_owned (fo_notify w) in
  Ret (mkNotifyRegistration future false false, mkFixedOrderSlot n (fo_count w)).

Definition notify_wake (w : FixedOrderSlot) : outcome FixedOrderSlot :=
  if 0 <? fo_count w then Ret (mkFixedOrderSlot (notify_one (fo_notify w)) (fo_count w)) else Ret w.

Definition notify_prepare (w : FixedOrderSlot) (r : NotifyRegistration)
    : outcome (NotifyRegistration * FixedOrderSlot) :=
  let '(_, n) := notified_enable (fo_notify w) (nr_future r) in
  if negb (nr_registered r) then
    Ret (mkNotifyRegistration (nr_future r) true (nr_woken r), mkFixedOrderSlot n (wrap (fo_count w + 1)))
  else Ret (r, mkFixedOrderSlot n (fo_count w)).

Definition notify_revoke (w : FixedOrderSlot) (r : NotifyRegistration)
    : outcome (NotifyRegistration * FixedOrderSlot) :=
  let w := if nr_registered r then mkFixedOrderSlot (fo_notify w) (wrap (fo_count w - 1)) else w in
  Ret (mkNotifyRegistration (nr_future r) false false, w).

Definition notify_poll (w : FixedOrderSlot) (r : NotifyRegistration)
    : outcome (bool * NotifyRegistration * FixedOrderSlot) :=
  let '(ready, n) := notified_poll (fo_notify w) (nr_future r) in
  if ready then
    let count := if nr_registered r then wrap (fo_count w - 1) else fo_count w in
    Ret (true, mkNotifyRegistration (nr_future r) false true, mkFixedOrderSlot n count)
  else Ret (false, r, mkFixedOrderSlot n (fo_count w)).

(** [Drop], and then the drop of the future. *)
Definition notify_drop (w : FixedOrderSlot) (r : NotifyRegistration) : outcome FixedOrderSlot :=
  let count := if nr_registered r then wrap (fo_count w - 1) else fo_count w in
  let n := if nr_woken r && (0 <? count) then notify_one (fo_notify w) else fo_notify w in
  Ret (mkFixedOrderSlot (notified_drop n (nr_future r)) count).

#[export] Instance notify_waiter : WaiterOps FixedOrderSlot NotifyRegistration := {|
  w_register := notify_register;
  w_wake := notify_wake;
  r_prepare := notify_prepare;
  r_revoke := notify_revoke;
  r_poll := notify_poll;
  r_drop := notify_drop;
|}.
End notify.

Arguments FixedOrderSlot : clear implicits.
Arguments FixedOrderSlot {_}.

(** ** The async fixed arena *)

Section arena.
Context {P : Profile} {B : BytesLib} {W Reg : Type} {WO : WaiterOps W Reg}.

Record AsyncFixedArena := mkAsyncFixedArena {
  af_inner : ArenaInner;
  af_waiters : W;
}.

Definition build_fixed_async_with {PF : Platform} {GA : GlobalAlloc} {m} (b : FixedArenaBuilder m)
    (waiters : W) (w : World) : outcome (result BuildError (AsyncFixedArena * World)) :=
  let! page_size := PageSize_resolve (bc_page_size (fb_config b)) in
  let? arena := build_inner b true in
  let! w' := prefault_slots page_size w arena in
  Ret (Ok (mkAsyncFixedArena arena waiters, w')).

Inductive fixed_result :=
| FReady (buf : Buffer)
| FParked (reg : Reg).

(** One turn of [allocate_with_waiter], up to the [await]. *)
Definition fixed_turn (a : AsyncFixedArena) (w : World) : outcome (fixed_result * AsyncFixedArena * World) :=
  let! (reg, ws) := w_register (af_waiters a) in
  let! (reg, ws) := r_prepare ws reg in
  let! (r, inner, w) := fixed_allocate (af_inner a) w in
  match r with
  | Ok buf =>
      let! (reg, ws) := r_revoke ws reg in
      let! ws := r_drop ws reg in
      Ret (FReady buf, mkAsyncFixedArena inner ws, w)
  | Err _ => Ret (FParked reg, mkAsyncFixedArena inner ws, w)
  end.

Definition fixed_allocate_async := fixed_turn.

(** The [await] is polled; when it is over the registration is dropped and the
    loop goes round. *)
Definition fixed_resume (a : AsyncFixedArena) (w : World) (reg : Reg)
    : outcome (fixed_result * AsyncFixedArena * World) :=
  let! (ready, reg, ws) := r_poll (af_waiters a) reg in
  if ready then
    let! ws := r_drop ws reg in
    fixed_turn (mkAsyncFixedArena (af_inner a) ws) w
  else Ret (FParked reg, mkAsyncFixedArena (af_inner a) ws, w).

Definition fixed_cancel (a : AsyncFixedArena) (reg : Reg) : outcome AsyncFixedArena :=
  let! ws := r_drop (af_waiters a) reg in
  Ret (mkAsyncFixedArena (af_inner a) ws).

(** A slot comes back; [WakeHandle::wake] reaches the waiters as often as the
    release calls it. *)
Definition fixed_async_release (a : AsyncFixedArena) (w : World) (slot_idx : Z)
    : outcome (AsyncFixedArena * World) :=
  let! (inner, w') := fixed_release (af_inner a) w slot_idx in
  let! ws := ofoldM (λ ws _, w_wake ws) (af_waiters a) (drop (length (w_wakes w)) (w_wakes w')) in
  Ret (mkAsyncFixedArena inner ws, w').

(** ** Tasks *)

Inductive ftask :=
| FTDone (buf : Buffer)
| FTParked (reg : Reg).

Record fixed_sys := mkFixedSys {
  z_arena : AsyncFixedArena;
  z_world : World;
  z_tasks : gmap nat ftask;
}.

(** [FSync] is [FixedArena::allocate] through [Deref]. *)
Inductive fixed_op :=
| FAllocate (id : nat)
| FSync (id : nat)
| FResume (id : nat)
| FCancel (id : nat)
| FDropBuffer (id : nat).

Definition fsettle (s : fixed_sys) (id : nat) (x : fixed_result * AsyncFixedArena * World) : fixed_sys :=
  let '(r, a, w) := x in
  mkFixedSys a w (<[id := match r with FReady buf => FTDone buf | FParked reg => FTParked reg end]> (z_tasks s)).

Definition fixed_step (s : fixed_sys) (op : fixed_op) : outcome (option fixed_sys) :=
  match op with
  | FAllocate id =>
      match z_tasks s !! id with
      | None => let! x := fixed_allocate_async (z_arena s) (z_world s) in Ret (Some (fsettle s id x))
      | Some _ => Ret None
      end
  | FSync id =>
      match z_tasks s !! id with
      | None =>
          let! (r, inner, w) := fixed_allocate (af_inner (z_arena s)) (z_world s) in
          let a := mkAsyncFixedArena inner (af_waiters (z_arena s)) in
          Ret (Some (match r with
                     | Ok buf => mkFixedSys a w (<[id := FTDone buf]> (z_tasks s))
                     | Err _ => mkFixedSys a w (z_tasks s)
                     end))
      | Some _ => Ret None
      end
  | FResume id =>
      match z_tasks s !! id with
      | Some (FTParked reg) => let! x := fixed_resume (z_arena s) (z_world s) reg in Ret (Some (fsettle s id x))
      | _ => Ret None
      end
  | FCancel id =>
      match z_tasks s !! id with
      | Some (FTParked reg) =>
          let! a := fixed_cancel (z_arena s) reg in
          Ret (Some (mkFixedSys a (z_world s) (delete id (z_tasks s))))
      | _ => Ret None
      end
  | FDropBuffer id =>
      match z_tasks s !! id with
      | Some (FTDone buf) =>
          match b_allocation buf with
          | KFixed slot_idx =>
              let! (a, w) := fixed_async_release (z_arena s) (z_world s) slot_idx in
              Ret (Some (mkFixedSys a w (delete id (z_tasks s))))
          | KBuddy _ _ => Panic
          end
      | _ => Ret None
      end
  end.

Fixpoint fixed_run (s : fixed_sys) (ops : list fixed_op) : outcome fixed_sys :=
  match ops with
  | [] => Ret s
  | op :: ops' => let! x := fixed_step s op in fixed_run (default s x) ops'
  end.
End arena.

Arguments AsyncFixedArena : clear implicits.
Arguments ftask : clear implicits.
Arguments ftask {_}.
Arguments fixed_sys : clear implicits.
Arguments fixed_sys {_}.

Definition build_fixed_async {P : Profile} {N : NotifyLib} {PF : Platform} {GA : GlobalAlloc} {m}
    (b : FixedArenaBuilder m) (w : World) : outcome (result BuildError (AsyncFixedArena FixedOrderSlot * World)) :=
  build_fixed_async_with b FixedOrderSlot_new w.
