(* ===== verification/AsyncFixedProps.v ===== *)
(** * No task of an async fixed arena is stranded

    [WaiterLaws] is what the arena needs of its waiters; a client theorem is
    proved against it, and [NotifyWaiters] provides it. *)

From stdpp Require Import prelude numbers list gmap.
From S2P Require Import Prelude Tasks Usize Errors Bitmap Geometry Metrics Memory Config Buffer.
From S2P Require Import FixedArena FixedProps AsyncFixed.
Local Open Scope Z_scope.

(** ** What the arena needs of its waiters *)

(** [R] holds the armed registrations.  [alert] is what a wake establishes and
    nothing but a failed attempt may destroy: when tasks wait, one of them is
    ready. *)
Class WaiterLaws {W Reg : Type} (WO : WaiterOps W Reg) := {
  waiter_inv : W → gmap nat Reg → Prop;
  alert : W → gmap nat Reg → Prop;
  (** Arming, and disarming again when the attempt succeeds. *)
  wl_arm w R id : waiter_inv w R → R !! id = None → Z.of_nat (size R) < usize_MAX →
    ∃ reg0 w0 reg w1, w_register w = Ret (reg0, w0) ∧ r_prepare w0 reg0 = Ret (reg, w1) ∧
      waiter_inv w1 (<[id := reg]> R) ∧
      ∃ reg2 w2 w3, r_revoke w1 reg = Ret (reg2, w2) ∧ r_drop w2 reg2 = Ret w3 ∧ waiter_inv w3 R ∧
        (alert w R → alert w3 R);
  wl_wake w R : waiter_inv w R → ∃ w', w_wake w = Ret w' ∧ waiter_inv w' R ∧ alert w' R;
  (** A registration that is ready is dropped, and someone else is told. *)
  wl_poll w R id reg : waiter_inv w R → R !! id = Some reg →
    ∃ b reg' w', r_poll w reg = Ret (b, reg', w') ∧
      if b : bool
      then ∃ w'', r_drop w' reg' = Ret w'' ∧ waiter_inv w'' (delete id R) ∧ alert w'' (delete id R)
      else waiter_inv w' (<[id := reg']> R) ∧ (alert w R → alert w' (<[id := reg']> R));
  wl_drop w R id reg : waiter_inv w R → R !! id = Some reg →
    ∃ w', r_drop w reg = Ret w' ∧ waiter_inv w' (delete id R) ∧ (alert w R → alert w' (delete id R));
  wl_alert w R : waiter_inv w R → alert w R → R ≠ ∅ →
    ∃ id reg reg' w', R !! id = Some reg ∧ r_poll w reg = Ret (true, reg', w');
}.

(** ** The client *)

Definition ftask_slot {B : BytesLib} {Reg} (t : ftask Reg) : option Z :=
  match t with
  | FTDone buf => match b_allocation buf with KFixed s => Some s | KBuddy _ _ => None end
  | FTParked _ => None
  end.

Definition ftask_reg {B : BytesLib} {Reg} (t : ftask Reg) : option Reg :=
  match t with FTDone _ => None | FTParked reg => Some reg end.

Section client.
Context {P : Profile} {B : BytesLib} {W Reg : Type} {WO : WaiterOps W Reg} {WL : WaiterLaws WO}.

Abbreviation slots_of := (held ftask_slot).
Abbreviation regs_of := (parts ftask_reg).

Definition ftask_ok (a : ArenaInner) (t : ftask Reg) : Prop :=
  match t with
  | FTDone buf => ∃ s off, buf = new_fixed (a_ptr a) (a_auto_spill a) s off (a_slot_capacity a) ∧
      a_ptr a + off = slot_addr a s
  | FTParked _ => True
  end.

Record fixed_async_inv (a0 : ArenaInner) (T : Z) (z : fixed_sys W Reg) : Prop := {
  fx_same : a_same a0 (af_inner (z_arena z));
  fx_arena : fixed_inv (af_inner (z_arena z)) (z_world z) (slots_of (z_tasks z));
  fx_waiters : waiter_inv (af_waiters (z_arena z)) (regs_of (z_tasks z));
  fx_alert : Z.of_nat (length (slots_of (z_tasks z))) < a_slot_count a0 →
    alert (af_waiters (z_arena z)) (regs_of (z_tasks z));
  fx_tasks : ∀ id t, z_tasks z !! id = Some t → ftask_ok a0 t;
  fx_size : Z.of_nat (size (z_tasks z)) ≤ T;
}.

(** A turn: a slot for the task, or a full arena and an armed registration. *)
Definition fturn_result (a0 : ArenaInner) (ws : W) w (slots : list Z) (R : gmap nat Reg) id
    (x : fixed_result * AsyncFixedArena W * World) : Prop :=
  let '(r, a', w') := x in
  a_same a0 (af_inner a') ∧ w_wakes w' = w_wakes w ∧
  match r with
  | FReady buf =>
      ∃ s off, buf = new_fixed (a_ptr a0) (a_auto_spill a0) s off (a_slot_capacity a0) ∧
        a_ptr a0 + off = slot_addr a0 s ∧ fixed_inv (af_inner a') w' (s :: slots) ∧
        waiter_inv (af_waiters a') R ∧ (alert ws R → alert (af_waiters a') R)
  | FParked reg =>
      fixed_inv (af_inner a') w' slots ∧ Z.of_nat (length slots) = a_slot_count a0 ∧
      waiter_inv (af_waiters a') (<[id := reg]> R)
  end.

Lemma fixed_turn_ok a0 ws a w slots R id :
  a_same a0 a → fixed_inv a w slots → waiter_inv ws R → R !! id = None → Z.of_nat (size R) < usize_MAX →
  ∃ x, fixed_turn (mkAsyncFixedArena a ws) w = Ret x ∧ fturn_result a0 ws w slots R id x.
Proof.
  intros Hsame Hinv Hi Hid Hsz. unfold fixed_turn. simpl.
  destruct (wl_arm ws R id Hi Hid Hsz)
    as (reg0 & w0 & reg & w1 & -> & Hp & Hi1 & reg2 & w2 & w3 & Hr & Hd & Hi3 & Hal). cbn [obind].
  rewrite Hp. cbn [obind]. unfold fixed_allocate. pose proof Hsame as (Hptr & _ & Hcap & Hcnt & Hsp & _).
  assert (Htr : ∀ a', a_same a a' → a_same a0 a') by (intros a'; unfold a_same in *; intuition congruence).
  destruct (fixed_claim_ok a w slots Hinv)
    as [(s & a' & w' & -> & _ & _ & Hi' & Hs' & Hw & _)|(a' & -> & Hl & Hi' & Hs' & _)]; cbn [obind].
  - rewrite Hr. cbn [obind]. rewrite Hd. cbn [obind]. eexists. split; [done|]. split_and!; [by apply Htr|done|].
    exists s, (s * a_slot_capacity a). rewrite Hptr, Hcap, Hsp. split_and!; try done.
  - eexists. split; [done|]. split_and!; [by apply Htr|done|done|congruence|done].
Qed.

(** The result of a turn, recorded. *)
Lemma fsettle_inv a0 T z id x m ws :
  m !! id = None → z_tasks z = m ∨ delete id (z_tasks z) = m → (∀ i t, m !! i = Some t → ftask_ok a0 t) →
  Z.of_nat (size m) < T →
  (Z.of_nat (length (slots_of m)) < a_slot_count a0 → alert ws (regs_of m)) →
  fturn_result a0 ws (z_world z) (slots_of m) (regs_of m) id x →
  fixed_async_inv a0 T (fsettle z id x).
Proof.
  intros Hid Hts Hm Hsz Hal Hx. destruct x as [[r a'] w'].
  assert (Hins : ∀ t, <[id := t]> (z_tasks z) = <[id := t]> m)
    by (intros t; destruct Hts as [->|<-]; [done|by rewrite insert_delete_eq]).
  assert (Hok : ∀ t, ftask_ok a0 t → ∀ i t', <[id := t]> m !! i = Some t' → ftask_ok a0 t').
  { intros t Ht i t' [[_ <-]|[_ Hi]]%lookup_insert_Some; [done|by eapply Hm]. }
  assert (Hsz' : ∀ t, Z.of_nat (size (<[id := t]> m)) ≤ T)
    by (intros t; rewrite map_size_insert_None by done; lia).
  destruct Hx as (Hsame & Hw & Hx). destruct r as [buf|reg].
  - destruct Hx as (s & off & -> & Hoff & Hinv & Hi & Hkeep). split; simpl; rewrite ?Hins; try done.
    + eapply fixed_inv_perm; [|exact Hinv]. by rewrite held_insert.
    + by rewrite parts_insert.
    + rewrite parts_insert, held_insert by done. simpl. intros Hl. apply Hkeep, Hal. lia.
    + apply Hok. by exists s, off.
  - destruct Hx as (Hinv & Hfull & Hi). split; simpl; rewrite ?Hins; try done.
    + eapply fixed_inv_perm; [|exact Hinv]. by rewrite held_insert.
    + by rewrite parts_insert.
    + rewrite held_insert by done. simpl. lia.
    + by apply Hok.
Qed.
(** A task that holds no slot gives up its registration. *)
Lemma fixed_without a0 T z id reg :
  fixed_async_inv a0 T z → z_tasks z !! id = Some (FTParked reg) →
  fixed_inv (af_inner (z_arena z)) (z_world z) (slots_of (delete id (z_tasks z))) ∧
  slots_of (z_tasks z) ≡ₚ slots_of (delete id (z_tasks z)) ∧
  (∀ i t, delete id (z_tasks z) !! i = Some t → ftask_ok a0 t) ∧
  Z.of_nat (size (delete id (z_tasks z))) < T.
Proof.
  intros [_ Ha _ _ Ht Hsz] Hid. pose proof (held_delete ftask_slot _ _ _ Hid) as Hp. simpl in Hp. split_and!.
  - by eapply fixed_inv_perm.
  - done.
  - intros i t [_ Hi]%lookup_delete_Some. by eapply Ht.
  - rewrite map_size_delete_Some by (by eexists).
    assert (size (z_tasks z) ≠ 0%nat) by (intros Hs%map_size_empty_iff; by rewrite Hs in Hid). lia.
Qed.

(** Polling a parked task: it takes a turn with the arena as it is and someone
    else alerted, or nothing changes. *)
Lemma fixed_resume_ok a0 T z id reg :
  fixed_async_inv a0 T z → T ≤ usize_MAX → z_tasks z !! id = Some (FTParked reg) →
  ∃ b reg' w' x, r_poll (af_waiters (z_arena z)) reg = Ret (b, reg', w') ∧
    fixed_resume (z_arena z) (z_world z) reg = Ret x ∧ fixed_async_inv a0 T (fsettle z id x) ∧
    (b = true → Z.of_nat (length (slots_of (z_tasks z))) < a_slot_count a0 → ∃ buf a' w', x = (FReady buf, a', w')).
Proof.
  intros Hz HT Hid. pose proof Hz as [Hsame Ha Hw Hal Ht Hsz].
  pose proof (parts_lookup ftask_reg _ _ _ Hid) as Hreg. simpl in Hreg. unfold fixed_resume.
  destruct (wl_poll _ _ id reg Hw Hreg) as (b & reg' & w' & -> & Hb). exists b, reg', w'. cbn [obind].
  destruct b.
  - destruct Hb as (w'' & -> & Hw'' & Hal''). cbn [obind]. rewrite <- parts_delete in Hw'', Hal''.
    destruct (fixed_without _ _ _ _ _ Hz Hid) as (Ha' & Hperm & Ht' & Hsz').
    pose proof (parts_size ftask_reg (delete id (z_tasks z))).
    destruct (fixed_turn_ok a0 w'' (af_inner (z_arena z)) (z_world z) (slots_of (delete id (z_tasks z)))
      (regs_of (delete id (z_tasks z))) id) as (x & -> & Hx); try done.
    { apply parts_none, lookup_delete_eq. }
    { lia. }
    exists x. split_and!; [done|done| |].
    + eapply (fsettle_inv a0 T z id x (delete id (z_tasks z)) w''); try done; [apply lookup_delete_eq|by right].
    + intros _ Hl. destruct x as [[[buf|reg1] a'] w1]; [by do 3 eexists|].
      destruct Hx as (_ & _ & _ & Hfull & _). rewrite Hperm in Hl. lia.
  - destruct Hb as [Hw' Hal']. eexists. split_and!; [done|done| |done].
    assert (Hslots : slots_of (<[id := FTParked reg']> (z_tasks z)) ≡ₚ slots_of (z_tasks z))
      by (by eapply held_update).
    split; simpl; rewrite ?(parts_update ftask_reg _ id _ reg') by done; try done.
    + by eapply fixed_inv_perm.
    + rewrite Hslots. intros Hl. by apply Hal', Hal.
    + intros i t [[_ <-]|[_ Hi]]%lookup_insert_Some; [done|by eapply Ht].
    + by rewrite map_size_insert_Some by (by eexists).
Qed.

Lemma fixed_release_step a0 T z id buf s :
  fixed_async_inv a0 T z → a_wake_handle a0 = true → z_tasks z !! id = Some (FTDone buf) →
  b_allocation buf = KFixed s →
  ∃ a w, fixed_async_release (z_arena z) (z_world z) s = Ret (a, w) ∧
    fixed_async_inv a0 T (mkFixedSys a w (delete id (z_tasks z))).
Proof.
  intros [Hsame Ha Hw Hal Ht Hsz] Hh Hid Hk.
  assert (Hslot : ftask_slot (FTDone buf : ftask Reg) = Some s) by (simpl; by rewrite Hk).
  eapply fixed_inv_perm in Ha; [|apply (held_delete ftask_slot _ _ _ Hid)]. rewrite Hslot in Ha. simpl in Ha.
  destruct (fixed_release_ok _ _ _ _ Ha) as (a' & w' & Hr & Ha' & Hs' & _ & Hwk & _).
  unfold fixed_async_release. rewrite Hr. cbn [obind]. rewrite Hwk, drop_app_length.
  assert (Hhandle : a_wake_handle (af_inner (z_arena z)) = true) by (unfold a_same in Hsame; intuition congruence).
  rewrite Hhandle. simpl. destruct (wl_wake _ _ Hw) as (ws & -> & Hws & Halert). cbn [obind].
  assert (Hregs : regs_of (delete id (z_tasks z)) = regs_of (z_tasks z)).
  { rewrite parts_delete, delete_id; [done|]. by rewrite (parts_lookup ftask_reg _ _ _ Hid). }
  do 2 eexists. split; [done|]. split; simpl; rewrite ?Hregs; try done.
  - unfold a_same in *. intuition congruence.
  - intros i t [_ Hi]%lookup_delete_Some. by eapply Ht.
  - rewrite map_size_delete_Some by (by eexists). lia.
Qed.

Lemma fx_mono a0 T T' z : T ≤ T' → fixed_async_inv a0 T z → fixed_async_inv a0 T' z.
Proof. intros HT [H1 H2 H3 H4 H5 H6]. split; try done. lia. Qed.
Lemma fixed_step_ok a0 T z op :
  fixed_async_inv a0 T z → a_wake_handle a0 = true → T + 1 ≤ usize_MAX →
  ∃ x, fixed_step z op = Ret x ∧ fixed_async_inv a0 (T + 1) (default z x).
Proof.
  intros Hz Hh HT. pose proof Hz as [Hsame Ha Hw Hal Ht Hsz].
  assert (Hsame' : ∃ x, Ret None = Ret x ∧ fixed_async_inv a0 (T + 1) (default z x))
    by (exists None; split; [done|]; eapply fx_mono; [|exact Hz]; lia).
  destruct op as [id|id|id|id|id]; simpl; destruct (z_tasks z !! id) as [t|] eqn:Eid; try done.
  - pose proof (parts_size ftask_reg (z_tasks z)). unfold fixed_allocate_async.
    destruct (fixed_turn_ok a0 (af_waiters (z_arena z)) (af_inner (z_arena z)) (z_world z) (slots_of (z_tasks z))
      (regs_of (z_tasks z)) id) as (x & Hx & Hr); try done; [by apply parts_none|lia|].
    replace (mkAsyncFixedArena _ _) with (z_arena z) in Hx by (by destruct (z_arena z)). rewrite Hx. cbn [obind].
    eexists. split; [done|]. simpl.
    eapply (fsettle_inv a0 (T + 1) z id x (z_tasks z) (af_waiters (z_arena z))); try done; [by left|lia].
  - pose proof (fixed_claim_ok _ _ _ Ha) as Hcl. unfold fixed_allocate.
    assert (Htr : ∀ a', a_same (af_inner (z_arena z)) a' → a_same a0 a')
      by (intros a'; unfold a_same in *; intuition congruence).
    destruct Hcl as [(s & a' & w' & -> & _ & _ & Hi' & Hs' & Hwk & _)|(a' & -> & Hl & Hi' & Hs' & _)]; cbn [obind].
    + eexists. split; [done|]. pose proof Hsame as (Hptr & _ & Hcap & Hcnt & Hsp & _). split; simpl.
      * by apply Htr.
      * eapply fixed_inv_perm; [|exact Hi']. by rewrite held_insert.
      * by rewrite parts_insert.
      * rewrite parts_insert, held_insert by done. simpl. intros Hl. apply Hal. lia.
      * intros i t [[_ <-]|[_ Hi]]%lookup_insert_Some; [|by eapply Ht]. exists s, (s * a_slot_capacity a0).
        by rewrite Hptr, Hcap, Hsp.
      * rewrite map_size_insert_None by done. lia.
    + eexists. split; [done|]. split; simpl; try done; [by apply Htr|lia].
  - destruct t as [buf|reg]; [done|].
    destruct (fixed_resume_ok a0 T z id reg Hz ltac:(lia) Eid) as (_ & _ & _ & x & _ & -> & Hx & _). cbn [obind].
    eexists. split; [done|]. simpl. eapply fx_mono; [|exact Hx]. lia.
  - destruct t as [buf|reg]; [done|]. unfold fixed_cancel.
    destruct (wl_drop _ _ id reg Hw) as (ws & -> & Hws & Halert); [by rewrite (parts_lookup ftask_reg _ _ _ Eid)|].
    cbn [obind]. destruct (fixed_without _ _ _ _ _ Hz Eid) as (Ha' & Hperm & Ht' & Hsz').
    eexists. split; [done|]. split; simpl; rewrite ?parts_delete; try done; [|lia].
    rewrite <- Hperm. intros Hl. by apply Halert, Hal.
  - destruct t as [buf|reg]; [|done]. destruct (Ht _ _ Eid) as (s & off & Hbuf & _).
    assert (Ek : b_allocation buf = KFixed s) by (by rewrite Hbuf). rewrite Ek.
    destruct (fixed_release_step a0 T z id buf s Hz Hh Eid Ek) as (a & w & -> & Hz'). cbn [obind].
    eexists. split; [done|]. simpl. eapply fx_mono; [|exact Hz']. lia.
Qed.

Lemma fixed_run_ok a0 T z ops :
  fixed_async_inv a0 T z → a_wake_handle a0 = true → T + Z.of_nat (length ops) ≤ usize_MAX →
  ∃ z', fixed_run z ops = Ret z' ∧ fixed_async_inv a0 (T + Z.of_nat (length ops)) z'.
Proof.
  intros Hz Hh. revert z T Hz. induction ops as [|op ops IH]; intros z T Hz HT; simpl in *.
  { exists z. by rewrite Z.add_0_r. }
  destruct (fixed_step_ok a0 T z op Hz Hh ltac:(lia)) as (x & -> & Hx). cbn [obind].
  destruct (IH _ (T + 1) Hx ltac:(lia)) as (z' & Hrun & Hz'). exists z'. split; [done|].
  by replace (T + Z.of_nat (S (length ops))) with (T + 1 + Z.of_nat (length ops)) by lia.
Qed.

(** When a slot is free and tasks wait, one of them gets it as soon as it is
    polled. *)
Lemma fixed_progress a0 T z id reg :
  fixed_async_inv a0 T z → T ≤ usize_MAX → z_tasks z !! id = Some (FTParked reg) →
  Z.of_nat (length (slots_of (z_tasks z))) < a_slot_count a0 →
  ∃ id' reg' buf z', z_tasks z !! id' = Some (FTParked reg') ∧ fixed_step z (FResume id') = Ret (Some z') ∧
    z_tasks z' !! id' = Some (FTDone buf).
Proof.
  intros Hz HT Hid Hl. pose proof Hz as [_ _ Hw Hal _ _].
  destruct (wl_alert _ _ Hw (Hal Hl)) as (id' & reg' & reg1 & w1 & Hid' & Hp).
  { intros He. pose proof (parts_lookup ftask_reg _ _ _ Hid) as Hreg. by rewrite He in Hreg. }
  apply parts_Some in Hid' as (t & Hid' & Ht). destruct t as [buf|reg2]; [done|]. simplify_eq/=.
  destruct (fixed_resume_ok a0 T z id' reg' Hz HT Hid') as (b & reg2 & w2 & x & Hp' & Hres & _ & Hx).
  rewrite Hp in Hp'. injection Hp' as <- <- <-. destruct (Hx eq_refl Hl) as (buf & a' & w' & ->).
  exists id', reg', buf. rewrite Hid'. rewrite Hres. cbn [obind]. eexists. split_and!; [done|done|].
  simpl. apply lookup_insert_eq.
Qed.
End client.
