(* ===== verification/AsyncNotify.v ===== *)
(** * [NotifyWaiters] keeps the waiters of a fixed arena alert

    The laws of [WaiterLaws] for the [Notify]-based waiters, and what they mean
    for the tasks of the arena. *)

From stdpp Require Import prelude numbers list gmap.
From S2P Require Import Prelude Tasks Usize Errors Bitmap Geometry Metrics Memory Config Buffer.
From S2P Require Import FixedArena FixedProps AsyncFixed AsyncFixedProps.
Local Open Scope Z_scope.

Lemma filter_not_in (i : nat) (q : list nat) : i ∉ q → filter (λ j, j ≠ i) q = q.
Proof.
  induction q as [|j q IH]; [done|]. intros [Hne Hq]%not_elem_of_cons.
  rewrite filter_cons, decide_True by congruence. by rewrite IH.
Qed.

(** ** The state of a [Notify] *)

(** Every future belongs to someone in [F], has been enabled, and is in the
    queue exactly while it waits. *)
Record ns_ok (v : notify_state) (F : nat → Prop) : Prop := {
  ns_own : ∀ i, is_Some (ns_futs v !! i) ↔ F i;
  ns_enabled : ∀ i, ns_futs v !! i ≠ Some FInit;
  ns_waiting : ∀ i, i ∈ ns_queue v ↔ ns_futs v !! i = Some FWaiting;
  ns_nodup : NoDup (ns_queue v);
}.

(** Nobody waits, or somebody was told. *)
Definition ns_alert (v : notify_state) : Prop := ns_queue v = [] ∨ ∃ i, ns_futs v !! i = Some FTold.

Lemma ns_ok_ext v F F' : (∀ i, F i ↔ F' i) → ns_ok v F → ns_ok v F'.
Proof. intros HF [H1 H2 H3 H4]. split; try done. intros i. by rewrite H1. Qed.

Lemma ns_notify_ok v F : ns_ok v F → ns_ok (ns_notify v) F ∧ ns_alert (ns_notify v).
Proof.
  intros [Hown Hen Hw Hnd]. unfold ns_notify, ns_alert. destruct (ns_queue v) as [|i q] eqn:Eq; simpl.
  { split; [|by left]. split; simpl; try done. }
  apply NoDup_cons in Hnd as [Hni Hnd].
  assert (Hi : ns_futs v !! i = Some FWaiting) by (apply Hw; by left).
  split; [|right; exists i; apply lookup_insert_eq]. split; simpl; try done.
  - intros j. rewrite <- Hown. destruct (decide (i = j)) as [<-|Hne]; [|by rewrite lookup_insert_ne].
    rewrite lookup_insert_eq, Hi. split; by eexists.
  - intros j. destruct (decide (i = j)) as [<-|Hne]; [by rewrite lookup_insert_eq|by rewrite lookup_insert_ne].
  - intros j. destruct (decide (i = j)) as [<-|Hne]; [by rewrite lookup_insert_eq|].
    rewrite lookup_insert_ne, <- Hw by done. set_solver.
Qed.

(** A future leaves. *)
Lemma ns_leave v F i :
  ns_ok v F → ns_ok (mkNotifyState (ns_permit v) (filter (λ j, j ≠ i) (ns_queue v)) (delete i (ns_futs v)))
                (λ j, F j ∧ j ≠ i).
Proof.
  intros [Hown Hen Hw Hnd]. split; simpl.
  - intros j. rewrite <- Hown. destruct (decide (j = i)) as [->|Hne].
    + rewrite lookup_delete_eq. split; [by intros []|naive_solver].
    + rewrite lookup_delete_ne by done. naive_solver.
  - intros j [_ Hj]%lookup_delete_Some. by apply (Hen j).
  - intros j. rewrite list_elem_of_filter, Hw, lookup_delete_Some. naive_solver.
  - by apply NoDup_filter.
Qed.

Lemma ns_drop_ok v F i :
  ns_ok v F → ns_ok (ns_drop v i) (λ j, F j ∧ j ≠ i) ∧ (ns_alert v → ns_alert (ns_drop v i)).
Proof.
  intros Hv. pose proof (ns_leave v F i Hv) as Hl. unfold ns_drop.
  destruct (decide (ns_futs v !! i = Some FTold)) as [->|Hi]; [by apply ns_notify_ok in Hl as [? ?]|].
  assert (Heq : ∀ s, match ns_futs v !! i with Some FTold => ns_notify s | _ => s end = s)
    by (intros s; by destruct (ns_futs v !! i) as [[]|]).
  rewrite Heq. split; [done|]. intros [Hq|(j & Hj)]; [left; simpl; by rewrite Hq|right].
  exists j. simpl. apply lookup_delete_Some. split; [by intros ->|done].
Qed.

(** A new future is enabled, and dropped again. *)
Lemma ns_join v F i :
  ns_ok v F → ns_futs v !! i = None →
  let v1 := mkNotifyState (ns_permit v) (ns_queue v) (<[i := FInit]> (ns_futs v)) in
  ns_ok (ns_poll v1 i).2 (λ j, F j ∨ j = i) ∧
  ns_ok (ns_drop (ns_poll v1 i).2 i) F ∧ (ns_alert v → ns_alert (ns_drop (ns_poll v1 i).2 i)).
Proof.
  intros [Hown Hen Hw Hnd] Hi v1.
  assert (Hni : i ∉ ns_queue v) by (rewrite Hw, Hi; done).
  assert (Hpoll : ns_poll v1 i = if ns_permit v then (true, mkNotifyState false (ns_queue v) (<[i := FDone]> (ns_futs v)))
    else (false, mkNotifyState false (ns_queue v ++ [i]) (<[i := FWaiting]> (ns_futs v)))).
  { unfold ns_poll, v1. simpl. rewrite lookup_insert_eq. by rewrite !insert_insert_eq. }
  assert (Hfil : ∀ q, filter (λ j, j ≠ i) (ns_queue v ++ q) = ns_queue v ++ filter (λ j, j ≠ i) q).
  { intros q. rewrite filter_app. by rewrite filter_not_in. }
  assert (Hdrop : ns_drop (ns_poll v1 i).2 i = mkNotifyState false (ns_queue v) (ns_futs v)).
  { rewrite Hpoll. unfold ns_drop. destruct (ns_permit v); simpl; rewrite lookup_insert_eq, delete_insert_id by done.
    - rewrite <- (app_nil_r (ns_queue v)) at 1. by rewrite Hfil, app_nil_r.
    - rewrite Hfil, filter_cons, decide_False by naive_solver. by rewrite filter_nil, app_nil_r. }
  rewrite Hdrop. split_and!; [|by split|done].
  assert (Hd : ∀ f j, is_Some (<[i := f]> (ns_futs v) !! j) ↔ F j ∨ j = i).
  { intros f j. rewrite <- Hown. destruct (decide (i = j)) as [<-|Hne].
    - rewrite lookup_insert_eq. naive_solver.
    - rewrite lookup_insert_ne by done. naive_solver. }
  rewrite Hpoll. destruct (ns_permit v); split; simpl; try done.
  - intros j. destruct (decide (i = j)) as [<-|Hne]; [by rewrite lookup_insert_eq|by rewrite lookup_insert_ne].
  - intros j. rewrite Hw. destruct (decide (i = j)) as [<-|Hne]; [by rewrite lookup_insert_eq, Hi|by rewrite lookup_insert_ne].
  - intros j. destruct (decide (i = j)) as [<-|Hne]; [by rewrite lookup_insert_eq|by rewrite lookup_insert_ne].
  - intros j. rewrite elem_of_app, list_elem_of_singleton, Hw. destruct (decide (i = j)) as [<-|Hne].
    + rewrite lookup_insert_eq. naive_solver.
    + rewrite lookup_insert_ne by done. naive_solver.
  - apply NoDup_app. split_and!; [done| |apply NoDup_singleton]. by intros j Hj ->%list_elem_of_singleton.
Qed.

(** A completed future, and the notification that goes with its drop. *)
Lemma ns_complete v F i :
  ns_ok v F → F i →
  (ns_futs v !! i = Some FWaiting ∧ ns_poll v i = (false, v)) ∨
  (ns_futs v !! i ≠ Some FWaiting ∧ (ns_poll v i).1 = true ∧ ns_ok (ns_poll v i).2 F ∧ ns_futs (ns_poll v i).2 !! i = Some FDone).
Proof.
  intros Hv Hi. pose proof Hv as [Hown Hen Hw Hnd]. apply Hown in Hi as [f Hf]. unfold ns_poll. rewrite Hf.
  destruct f; [by destruct (Hen i)|by left|right|by right]. simpl. rewrite lookup_insert_eq.
  split_and!; [done|done| |done]. split; simpl; try done.
  - intros j. rewrite <- Hown. destruct (decide (i = j)) as [<-|Hne]; [|by rewrite lookup_insert_ne].
    rewrite lookup_insert_eq, Hf. split; by eexists.
  - intros j. destruct (decide (i = j)) as [<-|Hne]; [by rewrite lookup_insert_eq|by rewrite lookup_insert_ne].
  - intros j. rewrite Hw. destruct (decide (i = j)) as [<-|Hne]; [by rewrite lookup_insert_eq, Hf|by rewrite lookup_insert_ne].
Qed.

Lemma ns_nobody v F : ns_ok v F → (∀ i, ¬ F i) → ns_queue v = [].
Proof.
  intros [Hown _ Hw _] HF. apply elem_of_nil_inv. intros i Hi%Hw. apply (HF i), Hown. by eexists.
Qed.

(** ** The registrations *)

Section laws.
Context {N : NotifyLib} {NL : NotifyLaws N}.
Implicit Types (w : FixedOrderSlot) (R : gmap nat NotifyRegistration).

Definition owned R (i : nat) : Prop := ∃ id r, R !! id = Some r ∧ nr_future r = i.

(** The counter counts the armed registrations, and each has a future. *)
Record notify_inv w R : Prop := {
  ni_count : fo_count w = Z.of_nat (size R);
  ni_bound : Z.of_nat (size R) ≤ usize_MAX;
  ni_regs : ∀ id r, R !! id = Some r → nr_registered r = true ∧ nr_woken r = false;
  ni_futs : ns_ok (nview (fo_notify w)) (owned R);
  ni_inj : ∀ id id' r r', R !! id = Some r → R !! id' = Some r' → nr_future r = nr_future r' → id = id';
}.

Lemma owned_insert R id r i : R !! id = None → owned (<[id := r]> R) i ↔ owned R i ∨ i = nr_future r.
Proof.
  intros Hid. split.
  - intros (j & r' & [[_ <-]|[_ Hj]]%lookup_insert_Some & <-); [by right|left; by exists j, r'].
  - intros [(j & r' & Hj & <-)| ->].
    + exists j, r'. split; [|done]. rewrite lookup_insert_ne; [done|]. intros ->. congruence.
    + exists id, r. by rewrite lookup_insert_eq.
Qed.

Lemma owned_delete w R id r i :
  notify_inv w R → R !! id = Some r → owned R i ∧ i ≠ nr_future r ↔ owned (delete id R) i.
Proof.
  intros Hi Hid. split.
  - intros [(j & r' & Hj & <-) Hne]. exists j, r'. split; [|done]. apply lookup_delete_Some.
    split; [|done]. intros ->. congruence.
  - intros (j & r' & [Hne Hj]%lookup_delete_Some & <-). split; [by exists j, r'|].
    intros Heq. apply Hne. by eapply (ni_inj _ _ Hi).
Qed.

(** Dropping a registration shrinks the invariant. *)
Lemma notify_inv_delete w R id r n :
  notify_inv w R → R !! id = Some r → ns_ok (nview n) (owned (delete id R)) →
  notify_inv (mkFixedOrderSlot n (wrap (fo_count w - 1))) (delete id R) ∧
  wrap (fo_count w - 1) = Z.of_nat (size (delete id R)).
Proof.
  intros [Hc Hb Hr Hf Hinj] Hid Hn.
  assert (Hsz : Z.of_nat (size (delete id R)) = Z.of_nat (size R) - 1).
  { rewrite map_size_delete_Some by (by eexists).
    assert (size R ≠ 0%nat) by (intros Hs%map_size_empty_iff; by rewrite Hs in Hid). lia. }
  assert (Hw : wrap (fo_count w - 1) = Z.of_nat (size (delete id R)))
    by (rewrite Hc, wrap_small; [lia|unfold is_usize; lia]).
  split; [|done]. split; simpl; try done; [lia|..].
  - intros j r' [_ Hj]%lookup_delete_Some. by eapply Hr.
  - intros j j' r1 r2 [_ H1]%lookup_delete_Some [_ H2]%lookup_delete_Some. by apply Hinj.
Qed.

Definition notify_alert w R : Prop := ns_alert (nview (fo_notify w)).

Lemma notify_arm w R id :
  notify_inv w R → R !! id = None → Z.of_nat (size R) < usize_MAX →
  ∃ reg0 w0 reg w1, notify_register w = Ret (reg0, w0) ∧ notify_prepare w0 reg0 = Ret (reg, w1) ∧
    notify_inv w1 (<[id := reg]> R) ∧
    ∃ reg2 w2 w3, notify_revoke w1 reg = Ret (reg2, w2) ∧ notify_drop w2 reg2 = Ret w3 ∧ notify_inv w3 R ∧
      (notify_alert w R → notify_alert w3 R).
Proof.
  intros [Hc Hb Hr Hf Hinj] Hid Hsz. unfold notify_register, notify_prepare.
  destruct (nview_owned (fo_notify w)) as [Hfresh Hv1].
  destruct (notified_owned (fo_notify w)) as [i n1]. simpl in *.
  destruct (ns_join _ _ _ Hf Hfresh) as (Hj & Hd & Hal). rewrite <- Hv1 in Hj, Hd, Hal.
  pose proof (nview_enable n1 i) as He. destruct (notified_enable n1 i) as [b n2] eqn:En. simpl in He.
  rewrite <- He in Hj, Hd, Hal. cbn [snd] in Hj, Hd, Hal.
  do 4 eexists. split; [done|]. simpl. rewrite En. split; [done|].
  assert (Hw : wrap (fo_count w + 1) = Z.of_nat (size R) + 1) by (rewrite Hc, wrap_small; [lia|unfold is_usize; lia]).
  split.
  - split; simpl.
    + rewrite map_size_insert_None, Hw by done. lia.
    + rewrite map_size_insert_None by done. lia.
    + intros j r [[_ <-]|[_ Hjr]]%lookup_insert_Some; [done|by eapply Hr].
    + eapply ns_ok_ext; [|exact Hj]. intros j. by rewrite owned_insert.
    + assert (Hno : ∀ j r, R !! j = Some r → nr_future r ≠ i).
      { intros j r Hjr Heq. assert (owned R i) as [x Hx]%(ns_own _ _ Hf) by (by exists j, r). congruence. }
      intros j j' r r' [[<- <-]|[? H1]]%lookup_insert_Some [[<- <-]|[? H2]]%lookup_insert_Some; simpl; try done.
      * intros Heq. by destruct (Hno _ _ H2).
      * intros Heq. by destruct (Hno _ _ H1).
      * by apply Hinj.
  - do 3 eexists. split; [done|]. simpl. split; [done|]. unfold notify_alert. simpl. rewrite nview_drop. split; [|done].
    split; simpl; rewrite ?nview_drop; try done. rewrite Hw, wrap_small; [lia|unfold is_usize; lia].
Qed.

Lemma notify_wake_ok w R :
  notify_inv w R → ∃ w', notify_wake w = Ret w' ∧ notify_inv w' R ∧ notify_alert w' R.
Proof.
  intros Hi. pose proof Hi as [Hc Hb Hr Hf Hinj]. unfold notify_wake, notify_alert.
  destruct (Z.ltb_spec 0 (fo_count w)) as [Hpos|Hz]; eexists; (split; [done|]); simpl.
  - rewrite nview_notify. destruct (ns_notify_ok _ _ Hf) as [Hok Hal]. split; [|done].
    split; simpl; try done. by rewrite nview_notify.
  - split; [done|]. left. apply (ns_nobody _ _ Hf). intros i (id & r & Hid & _).
    assert (size R = 0%nat) as Hs%map_size_empty_iff by lia. by rewrite Hs in Hid.
Qed.

Lemma notify_poll_ok w R id reg :
  notify_inv w R → R !! id = Some reg →
  ∃ b reg' w', notify_poll w reg = Ret (b, reg', w') ∧
    (b = true ↔ ns_futs (nview (fo_notify w)) !! nr_future reg ≠ Some FWaiting) ∧
    if b : bool
    then ∃ w'', notify_drop w' reg' = Ret w'' ∧ notify_inv w'' (delete id R) ∧ notify_alert w'' (delete id R)
    else notify_inv w' (<[id := reg']> R) ∧ (notify_alert w R → notify_alert w' (<[id := reg']> R)).
Proof.
  intros Hi Hid. pose proof Hi as [Hc Hb Hr Hf Hinj]. destruct (Hr _ _ Hid) as [Hrg Hwk].
  unfold notify_poll, notify_alert. pose proof (nview_poll (fo_notify w) (nr_future reg)) as Hp.
  destruct (notified_poll (fo_notify w) (nr_future reg)) as [ready n]. simpl in Hp.
  destruct (ns_complete _ _ (nr_future reg) Hf) as [[Hw Heq]|(Hw & Hready & Hok & Hdone)].
  { by exists id, reg. }
  - rewrite Heq in Hp. injection Hp as -> Hn. do 3 eexists. split; [done|]. simpl. rewrite Hn.
    split; [naive_solver|]. split; [|done]. rewrite insert_id by done. split; simpl; rewrite ?Hn; done.
  - rewrite <- Hp in Hready, Hok, Hdone. simpl in *. subst ready. do 3 eexists. split; [done|]. split; [done|].
    rewrite Hrg. unfold notify_drop. simpl.
    set (n' := if 0 <? wrap (fo_count w - 1) then notify_one n else n).
    assert (Hn' : ns_ok (nview n') (owned R) ∧ (0 < wrap (fo_count w - 1) → ns_alert (nview n'))).
    { unfold n'. destruct (Z.ltb_spec 0 (wrap (fo_count w - 1))); [|by split; [|lia]].
      rewrite nview_notify. destruct (ns_notify_ok _ _ Hok). by split. }
    destruct Hn' as [Hok' Hal']. destruct (ns_drop_ok _ _ (nr_future reg) Hok') as [Hd Hdal].
    rewrite <- nview_drop in Hd, Hdal.
    eapply ns_ok_ext in Hd; [|intros i; by apply (owned_delete w R id reg i)].
    destruct (notify_inv_delete w R id reg _ Hi Hid Hd) as [Hinv Hsz].
    eexists. split; [done|]. split; [done|]. simpl.
    destruct (Z.ltb_spec 0 (wrap (fo_count w - 1))) as [Hpos|Hz]; [by apply Hdal, Hal'|].
    left. apply (ns_nobody _ _ Hd). intros i (j & r & Hj & _).
    assert (size (delete id R) = 0%nat) as Hs%map_size_empty_iff by lia. by rewrite Hs in Hj.
Qed.

Lemma notify_drop_ok w R id reg :
  notify_inv w R → R !! id = Some reg →
  ∃ w', notify_drop w reg = Ret w' ∧ notify_inv w' (delete id R) ∧
    (notify_alert w R → notify_alert w' (delete id R)).
Proof.
  intros Hi Hid. pose proof Hi as [Hc Hb Hr Hf Hinj]. destruct (Hr _ _ Hid) as [Hrg Hwk].
  unfold notify_drop, notify_alert. rewrite Hrg, Hwk. simpl. eexists. split; [done|].
  destruct (ns_drop_ok _ _ (nr_future reg) Hf) as [Hd Hdal]. rewrite <- nview_drop in Hd, Hdal. split; [|done].
  eapply ns_ok_ext in Hd; [|intros i; by apply (owned_delete w R id reg i)].
  by eapply notify_inv_delete.
Qed.

Lemma notify_alert_told w R :
  notify_inv w R → notify_alert w R → R ≠ ∅ →
  ∃ id reg reg' w', R !! id = Some reg ∧ notify_poll w reg = Ret (true, reg', w').
Proof.
  intros Hi Hal Hne. pose proof Hi as [Hc Hb Hr Hf Hinj].
  assert (Hex : ∃ id reg, R !! id = Some reg ∧ ns_futs (nview (fo_notify w)) !! nr_future reg ≠ Some FWaiting).
  { destruct Hal as [Hq|(i & Hi')].
    - apply map_choose in Hne as (id & reg & Hid). exists id, reg. split; [done|].
      rewrite <- (ns_waiting _ _ Hf), Hq. apply not_elem_of_nil.
    - assert (owned R i) as (id & reg & Hid & <-) by (apply (ns_own _ _ Hf); by eexists).
      exists id, reg. split; [done|]. by rewrite Hi'. }
  destruct Hex as (id & reg & Hid & Hw). exists id, reg.
  destruct (notify_poll_ok w R id reg Hi Hid) as (b & reg' & w' & Hp & Hb' & _).
  apply Hb' in Hw as ->. by exists reg', w'.
Qed.

#[export] Instance notify_laws : WaiterLaws notify_waiter.
Proof.
  refine {| waiter_inv := notify_inv; alert := notify_alert |}.
  - apply notify_arm.
  - apply notify_wake_ok.
  - intros w R id reg Hi Hid. destruct (notify_poll_ok w R id reg Hi Hid) as (b & reg' & w' & Hp & _ & Hb).
    by exists b, reg', w'.
  - apply notify_drop_ok.
  - apply notify_alert_told.
Defined.

Lemma notify_new_inv : notify_inv FixedOrderSlot_new ∅.
Proof.
  split; simpl; try done.
  rewrite nview_new. split; simpl; try done.
  - intros i. split; [by intros []|]. by intros (id & r & ? & _).
  - intros i. by rewrite elem_of_nil, lookup_empty.
  - apply NoDup_nil_2.
Qed.
End laws.

(** ** What it means *)

Lemma build_fixed_async_eq {P : Profile} {W} {PF : Platform} {GA : GlobalAlloc} {m} (b : FixedArenaBuilder m)
    (ws : W) w :
  build_fixed_async_with b ws w = let? (a, w') := build_fixed b true w in Ret (Ok (mkAsyncFixedArena a ws, w')).
Proof.
  unfold build_fixed_async_with, build_fixed. destruct (PageSize_resolve _) as [ps| |]; [|done..]. cbn [obind].
  destruct (build_inner b true) as [[e|a]| |]; cbn [rbind obind]; [done| |done..].
  by destruct (prefault_slots ps w a).
Qed.

Lemma fixed_async_init {B : BytesLib} {W Reg} {WO : WaiterOps W Reg} {WL : WaiterLaws WO} a w ws :
  fixed_inv a w [] → waiter_inv ws ∅ → alert ws ∅ →
  fixed_async_inv a 0 (mkFixedSys (mkAsyncFixedArena a ws) w ∅).
Proof. intros Ha Hw Hal. by split. Qed.

(** Buffers of two tasks. *)
Lemma fixed_async_disjoint {B : BytesLib} {W Reg} {WO : WaiterOps W Reg} {WL : WaiterLaws WO} a0 T z id id' buf buf' :
  fixed_async_inv a0 T z → id ≠ id' → z_tasks z !! id = Some (FTDone buf) → z_tasks z !! id' = Some (FTDone buf') →
  disjoint_ranges (b_ptr buf + b_offset buf) (b_capacity buf) (b_ptr buf' + b_offset buf') (b_capacity buf').
Proof.
  intros [Hsame Ha _ _ Ht _] Hne Hid Hid'.
  destruct (Ht _ _ Hid) as (s & off & -> & Hoff). destruct (Ht _ _ Hid') as (s' & off' & -> & Hoff'). simpl.
  eapply fixed_inv_perm in Ha; [|apply (held_delete ftask_slot _ _ _ Hid)]. simpl in Ha.
  pose proof (fi_nodup _ _ _ Ha) as [Hni _]%NoDup_cons.
  assert (Hin : s' ∈ held ftask_slot (delete id (z_tasks z))).
  { rewrite (held_delete _ _ id' _ (eq_trans (lookup_delete_ne _ _ _ Hne) Hid')). by left. }
  rewrite Hoff, Hoff'. pose proof (slot_disjoint _ s s' (fi_geo _ _ _ Ha) ltac:(congruence)) as Hd.
  unfold a_same in Hsame. destruct Hsame as (Hp & _ & Hc & _). unfold slot_addr in *. by rewrite Hp, Hc in Hd.
Qed.

(** C5: no task of an async fixed arena is stranded.  Build one and run any
    sequence of asynchronous and synchronous allocations, polls, cancellations
    and buffer drops: nothing panics, the buffers of different tasks never
    share a byte, and whenever a slot is free while tasks are parked, one of
    them has been told and gets a buffer as soon as it is polled. *)
Theorem async_fixed_progress {P : Profile} {PF : Platform} {GA : GlobalAlloc} {B : BytesLib} {N : NotifyLib}
    {NL : NotifyLaws N} {m} (b : FixedArenaBuilder m) w0 ops :
  PlatformLaws PF → GlobalAllocLaws GA → builder_args b → Z.of_nat (length ops) ≤ usize_MAX →
  match build_fixed_async b w0 with
  | Ret (Ok (a, w)) =>
      ∃ z, fixed_run (mkFixedSys a w ∅) ops = Ret z ∧
        (∀ id id' buf buf', id ≠ id' →
           z_tasks z !! id = Some (FTDone buf) → z_tasks z !! id' = Some (FTDone buf') →
           disjoint_ranges (b_ptr buf + b_offset buf) (b_capacity buf)
             (b_ptr buf' + b_offset buf') (b_capacity buf')) ∧
        ∀ id reg s, z_tasks z !! id = Some (FTParked reg) →
          0 ≤ s < a_slot_count (af_inner a) → bit (a_bitmap (af_inner (z_arena z))) s = true →
          ∃ id' reg' buf z', z_tasks z !! id' = Some (FTParked reg') ∧
            fixed_step z (FResume id') = Ret (Some z') ∧ z_tasks z' !! id' = Some (FTDone buf)
  | Ret (Err e) => e = InvalidAlignment ∨ e = SizeOverflow
  | Panic => global_alloc (fb_slot_count b * rounded_capacity b) (bc_alignment (fb_config b)) = 0
  | OutOfFuel => False
  end.
Proof.
  intros PL GL Hb Hlen. unfold build_fixed_async. rewrite build_fixed_async_eq.
  pose proof (build_fixed_ok b true w0 PL GL Hb) as Hbuild.
  destruct (build_fixed b true w0) as [[e|[a w]]| |]; cbn [rbind obind]; try done; [naive_solver|].
  destruct Hbuild as (Hbuilt & Hinv & _).
  assert (Hh : a_wake_handle a = true) by apply Hbuilt.
  assert (Hal : notify_alert FixedOrderSlot_new ∅) by (left; simpl; by rewrite nview_new).
  destruct (fixed_run_ok a 0 _ ops (fixed_async_init (WL := notify_laws) a w FixedOrderSlot_new Hinv notify_new_inv Hal) Hh ltac:(lia))
    as (z & Hrun & Hz). exists z. split_and!; [done|..].
  - intros id id' buf buf'. by eapply fixed_async_disjoint.
  - intros id reg s Hid Hs Hbit. pose proof Hz as [Hsame Ha _ _ _ _].
    assert (Hcnt : a_slot_count (af_inner (z_arena z)) = a_slot_count a) by apply Hsame.
    eapply (fixed_progress a _ z id reg Hz); [lia|done|]. rewrite <- Hcnt.
    apply (slots_length_lt _ _ _ s Ha); [by rewrite Hcnt|]. apply (fi_exact _ _ _ Ha); [by rewrite Hcnt|done].
Qed.

Lemma async_fixed_progress_witness :
  ∃ a w z, @build_fixed_async dev list_notify demo_platform demo_alloc Standard demo_builder (mkWorld ∅ []) =
      Ret (Ok (a, w)) ∧
    @fixed_run dev list_bytes _ _ (@notify_waiter list_notify) (mkFixedSys a w ∅)
      [FAllocate 1; FSync 2; FAllocate 3; FAllocate 4; FAllocate 5; FAllocate 6; FDropBuffer 2; FCancel 5] = Ret z.
Proof.
  pose proof (@async_fixed_progress dev demo_platform demo_alloc list_bytes list_notify list_notify_laws Standard
    demo_builder (mkWorld ∅ [])
    [FAllocate 1; FSync 2; FAllocate 3; FAllocate 4; FAllocate 5; FAllocate 6; FDropBuffer 2; FCancel 5]
    demo_platform_laws demo_alloc_laws demo_builder_args ltac:(unfold usize_MAX; simpl; lia)) as H.
  assert (Hk : match @build_fixed_async dev list_notify demo_platform demo_alloc Standard demo_builder
                       (mkWorld ∅ []) with
               | Ret (Ok _) => true | _ => false end = true) by (vm_compute; reflexivity).
  destruct (build_fixed_async demo_builder (mkWorld ∅ [])) as [[e|[a w]]| |];
    [discriminate Hk| |discriminate Hk|discriminate Hk].
  destruct H as (z & H & _). exists a, w, z. split; [reflexivity|exact H].
Defined.

(** ** A hot retry *)

Definition demo_fixed_async (ops : list fixed_op) : outcome (fixed_sys (@FixedOrderSlot list_notify) NotifyRegistration) :=
  match @build_fixed_async dev list_notify demo_platform demo_alloc Standard demo_builder (mkWorld ∅ []) with
  | Ret (Ok (a, w)) => @fixed_run dev list_bytes _ _ (@notify_waiter list_notify) (mkFixedSys a w ∅) ops
  | _ => Panic
  end.

(** Four buffers, three tasks parked; one slot is freed and the first task
    takes it.  The arena stays full, and yet the other two find their
    registration ready at every poll, a hundred times over: each drops a
    registration that was woken, which notifies the other. *)
Lemma hot_retry :
  match demo_fixed_async ([FAllocate 1; FAllocate 2; FAllocate 3; FAllocate 4; FAllocate 5; FAllocate 6; FAllocate 7;
                           FDropBuffer 1; FResume 5] ++ concat (replicate 100 [FResume 6; FResume 7])) with
  | Ret z => (allocations_failed (a_metrics (af_inner (z_arena z))) =? 3 + 200) &&
             (frees (a_metrics (af_inner (z_arena z))) =? 1)
  | _ => false
  end = true.
Proof. vm_compute. reflexivity. Qed.
