(* ===== verification/AsyncFixedConc.v ===== *)
(** * Waiting for a slot, access by access ([src/async_alloc.rs])

    [allocate_async] on a fixed arena with the [Notify]-based waiters, under every
    interleaving: [prepare], [revoke], the poll and the drop of a registration
    and [wake] as sequences of accesses to the counter and to the [Notify], the
    allocation in between as in [FixedConc].  A call on the [Notify] is one
    access.  The loads of a scan are relaxed and may read a stale word; a run in
    which no waiting task takes a word for empty that is not is singled out by
    [run_sees]. *)

From stdpp Require Import prelude numbers list gmap.
From S2P Require Import Prelude Tasks Usize Errors Bitmap BitmapRange BitmapConc SlotSpec Metrics Memory Config Buffer.
From S2P Require Import FixedArena FixedProps FixedConc FixedConcSeq AsyncFixed.
Local Open Scope Z_scope.

(** What a task inside [allocate_with_waiter] does next, [f] its future.
    Each turn: [register]; [enable] and the count of [prepare]; the scan; with a
    slot [x], the rest of [allocate] and the count of [revoke], and the drop of
    the future.  Without: the task is parked.  After a poll that is ready: the
    count of [poll]; the load, the notification and the drop of the future in
    [Drop]; and round again.  A parked task that is cancelled: the count of
    [Drop], and the drop of the future. *)
Inductive atask :=
| TStart
| TRegistered (f : nat)
| TEnabled (f : nat)
| TScanning (f : nat)
| TGot (f : nat) (x : Z)
| TRevoked (f : nat) (x : Z)
| TParked (f : nat)
| TWoken (f : nat)
| TChecking (f : nat)
| TPassing (f : nat)
| TRetired (f : nat)
| TCancelled (f : nat)
| TGone (f : nat).

#[export] Instance atask_eq_dec : EqDecision atask.
Proof. solve_decision. Defined.

Section state.
Context {N : NotifyLib}.

(** [ac_notifies]: releases that saw a waiter and are in front of [notify_one]. *)
Record aconc := mkAconc {
  ac_arena : fconc;
  ac_slot : FixedOrderSlot;
  ac_tasks : gmap nat atask;
  ac_notifies : nat;
}.
End state.
Arguments aconc : clear implicits.
Arguments aconc {_}.

(** [AArena]: an access of a thread that allocates synchronously, or of the
    holder of a slot. *)
Inductive aevent :=
| AStart (t : nat)
| ATask (t : nat)
| AScan (t : nat) (e : event)
| APoll (t : nat)
| ACancel (t : nat)
| AArena (e : fevent)
| AWake
| ANotify.

(** The slot a task has claimed and not returned yet. *)
Definition claimed_by (k : atask) : option Z :=
  match k with TGot _ x | TRevoked _ x => Some x | _ => None end.

Section exec.
Context {P : Profile} {N : NotifyLib}.
Implicit Types s : aconc.

Definition set_task s (t : nat) (k : atask) : aconc :=
  mkAconc (ac_arena s) (ac_slot s) (<[t := k]> (ac_tasks s)) (ac_notifies s).

Definition set_notify s (n : Notify) : aconc :=
  mkAconc (ac_arena s) (mkFixedOrderSlot n (fo_count (ac_slot s))) (ac_tasks s) (ac_notifies s).

Definition add_count s (d : Z) : aconc :=
  mkAconc (ac_arena s) (mkFixedOrderSlot (fo_notify (ac_slot s)) (wrap (fo_count (ac_slot s) + d))) (ac_tasks s)
    (ac_notifies s).

Definition set_fixed s (a : fconc) : aconc := mkAconc a (ac_slot s) (ac_tasks s) (ac_notifies s).

(** The next access of task [t]. *)
Definition task_step s (t : nat) (k : atask) : aconc :=
  let n := fo_notify (ac_slot s) in
  match k with
  | TStart => let '(f, n) := notified_owned n in set_task (set_notify s n) t (TRegistered f)
  | TRegistered f => let '(_, n) := notified_enable n f in set_task (set_notify s n) t (TEnabled f)
  | TEnabled f => set_task (add_count s 1) t (TScanning f)
  | TScanning _ | TParked _ => s
  | TGot f x =>
      match fk_phases (ac_arena s) !! x with
      | Some (PhHeld _) => set_task (add_count s (-1)) t (TRevoked f x)
      | _ => s
      end
  | TRevoked f _ | TGone f =>
      mkAconc (ac_arena s) (mkFixedOrderSlot (notified_drop n f) (fo_count (ac_slot s))) (delete t (ac_tasks s))
        (ac_notifies s)
  | TWoken f => set_task (add_count s (-1)) t (TChecking f)
  | TChecking f => set_task s t (if 0 <? fo_count (ac_slot s) then TPassing f else TRetired f)
  | TPassing f => set_task (set_notify s (notify_one n)) t (TRetired f)
  | TRetired f => set_task (set_notify s (notified_drop n f)) t TStart
  | TCancelled f => set_task (add_count s (-1)) t (TGone f)
  end.

(** The poll of the future in [poll]; when it is ready the count follows. *)
Definition poll_access s (t f : nat) : aconc :=
  let '(ready, n) := notified_poll (fo_notify (ac_slot s)) f in
  set_task (set_notify s n) t (if ready then TWoken f else TParked f).

(** The two accesses of [wake], called by a release when the arena has a wake
    handle. *)
Definition wake_load s : aconc :=
  let seen := a_wake_handle (fk_arena (ac_arena s)) && (0 <? fo_count (ac_slot s)) in
  mkAconc (ac_arena s) (ac_slot s) (ac_tasks s) (if seen then S (ac_notifies s) else ac_notifies s).
Definition wake_notify s (k : nat) : aconc :=
  mkAconc (ac_arena s) (mkFixedOrderSlot (notify_one (fo_notify (ac_slot s))) (fo_count (ac_slot s))) (ac_tasks s) k.

(** Where the scan access [e] leaves the task. *)
Definition task_after (f : nat) (e : event) (old new : list Z) : atask :=
  match e with
  | ScanEnd _ => TParked f
  | FetchAnd _ =>
      match new with
      | x :: h => if decide (h = old) then TGot f x else TScanning f
      | [] => TScanning f
      end
  | _ => TScanning f
  end.

Definition task_scan s (t f : nat) (e : event) : outcome aconc :=
  let a := ac_arena s in
  if bool_decide (scan_thread e = Some t) then
    let! r := exec_event (scan_state a) e in
    match r with
    | Some _ =>
        let! a' := scan_step a e in
        Ret (set_task (set_fixed s a') t (task_after f e (fk_held a) (fk_held a')))
    | None => Ret s
    end
  else Ret s.

(** Accesses of other threads: no thread that runs a task, no slot whose
    allocation has not returned, no [wake]. *)
Definition other_event s (e : fevent) : bool :=
  match e with
  | KScan e => bool_decide (from_option (λ t, ac_tasks s !! t) None (scan_thread e) = None)
  | KRelease x => bool_decide (map_Forall (λ _ k, claimed_by k ≠ Some x) (ac_tasks s))
  | KWake => false
  | _ => true
  end.

Definition aexec_event s (ev : aevent) : outcome aconc :=
  match ev with
  | AStart t =>
      match ac_tasks s !! t, pc_of (scan_state (ac_arena s)) t with
      | None, Idle => Ret (set_task s t TStart)
      | _, _ => Ret s
      end
  | ATask t => match ac_tasks s !! t with Some k => Ret (task_step s t k) | None => Ret s end
  | AScan t e => match ac_tasks s !! t with Some (TScanning f) => task_scan s t f e | _ => Ret s end
  | APoll t =>
      match ac_tasks s !! t with
      | Some (TParked f) => Ret (poll_access s t f)
      | _ => Ret s
      end
  | ACancel t => match ac_tasks s !! t with Some (TParked f) => Ret (set_task s t (TCancelled f)) | _ => Ret s end
  | AArena e =>
      if other_event s e then let! a := fexec_event (ac_arena s) e in Ret (set_fixed s a) else Ret s
  | AWake =>
      match fk_wakes (ac_arena s) with
      | O => Ret s
      | S _ => let! a := fexec_event (ac_arena s) KWake in Ret (wake_load (set_fixed s a))
      end
  | ANotify =>
      match ac_notifies s with
      | O => Ret s
      | S k => Ret (wake_notify s k)
      end
  end.

Definition aexec_events s (evs : list aevent) : outcome aconc := ofoldM aexec_event s evs.

Definition aconc_start (a : ArenaInner) (w : World) : aconc := mkAconc (fconc_start a w) FixedOrderSlot_new ∅ 0.

(** A load that finds a word empty which has a free slot now. *)
Definition missed_slot (c : conc) (e : event) : bool :=
  match e with
  | ScanLoad t bits =>
      match pc_of c t with
      | AtLoad start i =>
          match words (shared c) !! Z.to_nat (Z.land (start + i) (word_mask (shared c))) with
          | Some w => (bits =? 0) && negb (w =? 0)
          | None => false
          end
      | _ => false
      end
  | _ => false
  end.

(** In [s] the event [ev] is no such load of a waiting task; in a run from [s],
    no event is. *)
Definition sees s (ev : aevent) : bool :=
  match ev with
  | AScan t e =>
      match ac_tasks s !! t with
      | Some (TScanning _) => negb (missed_slot (scan_state (ac_arena s)) e)
      | _ => true
      end
  | _ => true
  end.

Fixpoint run_sees s (evs : list aevent) : bool :=
  match evs with
  | [] => true
  | ev :: evs' => sees s ev && match aexec_event s ev with Ret s' => run_sees s' evs' | _ => true end
  end.
End exec.

(** ** Invariant *)

Definition fut_of (k : atask) : option nat :=
  match k with
  | TStart => None
  | TRegistered f | TEnabled f | TScanning f | TGot f _ | TRevoked f _ | TParked f | TWoken f | TChecking f
  | TPassing f | TRetired f | TCancelled f | TGone f => Some f
  end.

(** On the counter of waiters. *)
Definition counted (k : atask) : bool :=
  match k with TScanning _ | TGot _ _ | TParked _ | TWoken _ | TCancelled _ => true | _ => false end.

(** Every future belongs to a task and is queued exactly while it waits. *)
Record fut_ok (v : notify_state) (F : nat → Prop) : Prop := {
  fo_own : ∀ i, is_Some (ns_futs v !! i) ↔ F i;
  fo_waiting : ∀ i, i ∈ ns_queue v ↔ ns_futs v !! i = Some FWaiting;
  fo_nodup : NoDup (ns_queue v);
}.

Definition told (v : notify_state) : Prop := ∃ i, ns_futs v !! i = Some FTold.
Definition nobody_waits (v : notify_state) : Prop := ∀ i, ns_futs v !! i ≠ Some FWaiting.

(** Words of the bitmap that the scan at [pc] has found empty. *)
Definition scanned (n : Z) (pc : thread_pc) (w : Z) : Prop :=
  match pc with
  | Idle => False
  | AtLoad start i | AtFetchAnd start i _ => ∃ j, 0 ≤ j < i ∧ w = (start + j) mod n
  end.

Definition passed (n : Z) (pc : thread_pc) (k : atask) (w : Z) : Prop :=
  match k with TScanning _ => scanned n pc w | TParked _ => True | _ => False end.

(** Whether the invariant keeps track of the slots a waiting task has missed. *)
Class Alert := alert : bool.

Section inv.
Context {N : NotifyLib} {NL : NotifyLaws N}.
Implicit Types s : aconc.

Definition view s : notify_state := nview (fo_notify (ac_slot s)).

Definition owned_futs (ts : gmap nat atask) (i : nat) : Prop := ∃ t k, ts !! t = Some k ∧ fut_of k = Some i.

Definition in_flight s : Prop :=
  (0 < fk_frees (ac_arena s) + fk_subs (ac_arena s) + fk_wakes (ac_arena s) + ac_notifies s)%nat.

(** A wake-up that has not arrived yet: a future told, a release on its way to
    [notify_one], or a woken task on its way to pass the wake on. *)
Definition pending s : Prop :=
  told (view s) ∨ in_flight s ∨
  ∃ t k f, ac_tasks s !! t = Some k ∧ (k = TWoken f ∨ k = TChecking f ∨ k = TPassing f).

(** Task [t] waits although slot [x] is free in a word it has scanned. *)
Definition misses s (t : nat) (x : Z) : Prop :=
  let a := fk_arena (ac_arena s) in
  ∃ k f, ac_tasks s !! t = Some k ∧ fut_of k = Some f ∧ ns_futs (view s) !! f = Some FWaiting ∧
    0 ≤ x < a_slot_count a ∧ bit (a_bitmap a) x = true ∧
    passed (scan_words (a_bitmap a)) (pc_of (scan_state (ac_arena s)) t) k (x / 64).

Record ainv {AL : Alert} (limit : nat) s : Prop := {
  ai_arena : finv (ac_arena s);
  ai_handle : a_wake_handle (fk_arena (ac_arena s)) = true;
  ai_count : fo_count (ac_slot s) = count_in counted (ac_tasks s);
  ai_limit : (size (ac_tasks s) ≤ limit)%nat;
  ai_futs : fut_ok (view s) (owned_futs (ac_tasks s));
  ai_inj : ∀ t t' k k' f, ac_tasks s !! t = Some k → ac_tasks s !! t' = Some k' →
    fut_of k = Some f → fut_of k' = Some f → t = t';
  ai_init : ∀ t k f, ac_tasks s !! t = Some k → fut_of k = Some f →
    ns_futs (view s) !! f = Some FInit ↔ k = TRegistered f;
  ai_idle : ∀ t k, ac_tasks s !! t = Some k → (∀ f, k ≠ TScanning f) → pc_of (scan_state (ac_arena s)) t = Idle;
  ai_alert : alert = true → ∀ t x, misses s t x → pending s;
}.
End inv.
