(* ===== verification/AsyncFixedConcProps.v ===== *)
(** * No wake-up is lost on a shared async fixed arena

    The invariant of [AsyncFixedConc] holds after every access, and what it
    means for the tasks that wait. *)

From stdpp Require Import prelude numbers list gmap.
From S2P Require Import Prelude Tasks Usize Errors Bitmap BitmapRange BitmapConc SlotSpec Metrics Memory Config Buffer.
From S2P Require Import FixedArena FixedProps FixedConc FixedConcSeq AsyncFixed AsyncNotify AsyncFixedConc.
Local Open Scope Z_scope.

(** ** Calls on the [Notify] *)

Lemma fut_ok_ext v F F' : (∀ i, F i ↔ F' i) → fut_ok v F → fut_ok v F'.
Proof. intros HF [H1 H2 H3]. split; try done. intros i. by rewrite H1. Qed.

(** The future of another task stays as it is. *)
Definition futs_but (i : nat) (v v' : notify_state) : Prop := ∀ j, j ≠ i → ns_futs v' !! j = ns_futs v !! j.

Lemma fut_notify v F :
  fut_ok v F →
  fut_ok (ns_notify v) F ∧ (told (ns_notify v) ∨ nobody_waits v) ∧
  (∀ j, ns_futs (ns_notify v) !! j = Some FWaiting → ns_futs v !! j = Some FWaiting) ∧
  (∀ j, ns_futs (ns_notify v) !! j = Some FInit ↔ ns_futs v !! j = Some FInit) ∧
  (told v → told (ns_notify v)).
Proof.
  intros [Hown Hw Hnd]. unfold ns_notify, told, nobody_waits. destruct (ns_queue v) as [|i q] eqn:Eq; simpl.
  { split_and!; [split; simpl; try done|right; intros i Hi%Hw; by apply elem_of_nil in Hi|naive_solver..]. }
  apply NoDup_cons in Hnd as [Hni Hnd]. assert (Hi : ns_futs v !! i = Some FWaiting) by (apply Hw; by left).
  split_and!; [|left; exists i; apply lookup_insert_eq|..].
  - split; simpl; try done.
    + intros j. rewrite <- Hown, lookup_insert. case_decide; [subst; rewrite Hi|]; naive_solver.
    + intros j. rewrite lookup_insert. case_decide; [by subst|]. rewrite <- Hw, elem_of_cons. naive_solver.
  - intros j. rewrite lookup_insert. by case_decide.
  - intros j. rewrite lookup_insert. case_decide; [subst; by rewrite Hi|done].
  - intros [j Hj]. exists j. rewrite lookup_insert. by case_decide.
Qed.

(** Enabling or polling the future [i]. *)
Lemma fut_poll v F i :
  fut_ok v F → F i →
  fut_ok (ns_poll v i).2 F ∧ futs_but i v (ns_poll v i).2 ∧ ns_futs (ns_poll v i).2 !! i ≠ Some FInit ∧
  (ns_futs v !! i ≠ Some FInit →
     ((ns_poll v i).1 = false ∧ (ns_poll v i).2 = v ∧ ns_futs v !! i = Some FWaiting) ∨
     ((ns_poll v i).1 = true ∧ ns_futs (ns_poll v i).2 !! i = Some FDone)).
Proof.
  intros Hok Hi. pose proof Hok as [Hown Hw Hnd]. apply Hown in Hi as [f Hf]. unfold ns_poll, futs_but. rewrite Hf.
  assert (Hset : ∀ g j, is_Some (<[i := g]> (ns_futs v) !! j) ↔ F j).
  { intros g j. rewrite <- Hown, lookup_insert. case_decide; [subst; rewrite Hf|]; naive_solver. }
  assert (Hne : ∀ g j, j ≠ i → <[i := g]> (ns_futs v) !! j = ns_futs v !! j).
  { intros g j Hj. by rewrite lookup_insert_ne. }
  assert (Hother : ∀ g j, g ≠ FWaiting → f ≠ FWaiting → j ∈ ns_queue v ↔ <[i := g]> (ns_futs v) !! j = Some FWaiting).
  { intros g j Hg Hfw. rewrite Hw, lookup_insert. case_decide; [subst; rewrite Hf|]; split; congruence. }
  destruct f; [destruct (ns_permit v)|..]; simpl.
  - rewrite lookup_insert_eq. split_and!; [split; simpl; auto|auto|done|done].
  - rewrite lookup_insert_eq. split_and!; [split; simpl; auto|auto|done|done].
    + intros j. rewrite elem_of_app, list_elem_of_singleton, Hw, lookup_insert.
      case_decide as Hij; [subst; rewrite Hf|]; split; auto. intros [?|?]; congruence.
    + apply NoDup_app. split_and!; [done| |apply NoDup_singleton]. intros j Hj ->%list_elem_of_singleton.
      apply Hw in Hj. congruence.
  - rewrite Hf. split_and!; [done..|]. intros _. by left.
  - rewrite lookup_insert_eq. split_and!; [split; simpl; auto|auto|done|]. intros _. by right.
  - rewrite Hf. split_and!; [done..|]. intros _. by right.
Qed.

(** Dropping the future [i]. *)
Lemma fut_drop v F i :
  fut_ok v F →
  fut_ok (ns_drop v i) (λ j, F j ∧ j ≠ i) ∧ (told v → told (ns_drop v i) ∨ nobody_waits (ns_drop v i)) ∧
  (∀ j, ns_futs (ns_drop v i) !! j = Some FWaiting → ns_futs v !! j = Some FWaiting) ∧
  (∀ j, ns_futs (ns_drop v i) !! j = Some FInit ↔ ns_futs v !! j = Some FInit ∧ j ≠ i).
Proof.
  intros [Hown Hw Hnd]. unfold ns_drop.
  set (v' := mkNotifyState (ns_permit v) (filter (λ j, j ≠ i) (ns_queue v)) (delete i (ns_futs v))).
  assert (Hok : fut_ok v' (λ j, F j ∧ j ≠ i)).
  { split; simpl.
    - intros j. rewrite <- Hown, lookup_delete. case_decide; [subst|]; naive_solver.
    - intros j. rewrite list_elem_of_filter, Hw, lookup_delete_Some. naive_solver.
    - by apply NoDup_filter. }
  assert (Hsub : ∀ j g, ns_futs v' !! j = Some g → ns_futs v !! j = Some g).
  { intros j g. simpl. by intros [_ ?]%lookup_delete_Some. }
  assert (Hini : ∀ j, ns_futs v' !! j = Some FInit ↔ ns_futs v !! j = Some FInit ∧ j ≠ i).
  { intros j. simpl. rewrite lookup_delete_Some. naive_solver. }
  destruct (decide (ns_futs v !! i = Some FTold)) as [Hi|Hi].
  - rewrite Hi. destruct (fut_notify v' _ Hok) as (? & Ht & Hwt & Hin & _). split_and!; try done.
    + intros _. destruct Ht as [?|Hno]; [by left|right]. intros j Hj%Hwt. by apply (Hno j).
    + intros j Hj%Hwt. by apply Hsub.
    + intros j. by rewrite Hin.
  - assert (Heq : match ns_futs v !! i with Some FTold => ns_notify v' | _ => v' end = v')
      by (by destruct (ns_futs v !! i) as [[]|]).
    rewrite Heq. split_and!; try done; [|by intros j; apply Hsub]. intros [j Hj]. left. exists j. simpl.
    apply lookup_delete_Some.
    split; [congruence|done].
Qed.

(** A new future. *)
Lemma fut_new v F i :
  fut_ok v F → ns_futs v !! i = None →
  fut_ok (mkNotifyState (ns_permit v) (ns_queue v) (<[i := FInit]> (ns_futs v))) (λ j, F j ∨ j = i).
Proof.
  intros [Hown Hw Hnd] Hi. split; simpl; [|intros j; rewrite Hw|done].
  - intros j. rewrite <- Hown, lookup_insert. case_decide; naive_solver.
  - rewrite lookup_insert. case_decide; [subst; by rewrite Hi|done].
Qed.

(** ** Accesses to the arena *)

Definition total (a : fconc) : nat := (fk_frees a + fk_subs a + fk_wakes a)%nat.

Definition event_thread (e : fevent) : option nat := match e with KScan e => scan_thread e | _ => None end.

(** What an access to the arena leaves alone: a slot that becomes free has its
    release on the way. *)
Record arena_frame (who : option nat) (a a' : fconc) : Prop := {
  af_count : a_slot_count (fk_arena a') = a_slot_count (fk_arena a);
  af_words : scan_words (a_bitmap (fk_arena a')) = scan_words (a_bitmap (fk_arena a));
  af_handle : a_wake_handle (fk_arena a') = a_wake_handle (fk_arena a);
  af_pcs : ∀ t, who ≠ Some t → pc_of (scan_state a') t = pc_of (scan_state a) t;
  af_bits : (∀ x, 0 ≤ x < a_slot_count (fk_arena a) → bit (a_bitmap (fk_arena a')) x = true →
    bit (a_bitmap (fk_arena a)) x = true) ∨ (0 < total a')%nat;
}.

Section arena.
Context {P : Profile}.

Lemma frame_same who a a' :
  a_slot_count (fk_arena a') = a_slot_count (fk_arena a) → a_bitmap (fk_arena a') = a_bitmap (fk_arena a) →
  a_wake_handle (fk_arena a') = a_wake_handle (fk_arena a) → fk_scans a' = fk_scans a → arena_frame who a a'.
Proof.
  intros Hc Hb Hh Hs. split; try done.
  - by rewrite Hb.
  - intros t _. unfold pc_of. simpl. by rewrite Hs.
  - left. intros x _. by rewrite Hb.
Qed.

Lemma exec_event_pcs c e c' t :
  exec_event c e = Ret (Some c') → scan_thread e ≠ Some t → pc_of c' t = pc_of c t.
Proof.
  intros He Ht.
  destruct e; simpl in He, Ht; repeat first [progress outcome_inv | case_match]; try done;
    unfold pc_of, goto; simpl; by rewrite lookup_insert_ne by congruence.
Qed.

(** Bits follow what is held. *)
Lemma held_bits a a' x :
  finv a → finv a' → a_slot_count (fk_arena a') = a_slot_count (fk_arena a) → fk_held a ⊆ fk_held a' →
  0 ≤ x < a_slot_count (fk_arena a) → bit (a_bitmap (fk_arena a')) x = true → bit (a_bitmap (fk_arena a)) x = true.
Proof.
  intros Hi Hi' Hc Hh Hx Hb. apply (ci_exact _ _ (fv_conc _ Hi)); [done|].
  apply (ci_exact _ _ (fv_conc _ Hi')) in Hb; [|by rewrite Hc]. simpl in *. intros Hin. by apply Hb, Hh.
Qed.

Lemma scan_frame a e a' :
  finv a → scan_step a e = Ret a' → arena_frame (scan_thread e) a a' ∧ total a' = total a.
Proof.
  intros Hi Hs. destruct (scan_step_inv a e Hi) as (a1 & Hs1 & Hi'). assert (a1 = a') as -> by congruence.
  unfold scan_step in Hs. destruct (exec_event (scan_state a) e) as [[c|]| |] eqn:He; cbn [obind] in Hs; try done;
    [|simplify_eq; split; [by apply frame_same|done]].
  pose proof (exec_event_held _ _ _ He) as Hh. pose proof (exec_event_scan_words _ _ _ He) as Hw.
  assert (Hpcs : ∀ t, scan_thread e ≠ Some t → pc_of c t = pc_of (scan_state a) t) by (intros t; by apply exec_event_pcs).
  assert (Hmk : a_slot_count (fk_arena a') = a_slot_count (fk_arena a) → a_wake_handle (fk_arena a') = a_wake_handle (fk_arena a) →
    a_bitmap (fk_arena a') = shared c → fk_scans a' = threads c → fk_held a ⊆ fk_held a' → arena_frame (scan_thread e) a a').
  { intros Hc Hhd Hb Hsc Hsub. split; [done|by rewrite Hb|done|..].
    - intros t Ht. rewrite <- (Hpcs t Ht). unfold pc_of. simpl. by rewrite Hsc.
    - left. intros x. by apply held_bits. }
  destruct e; simpl in Hh; injection Hs as <-; split; try done; try (apply Hmk; simpl; try done; by rewrite Hh).
  - apply Hmk; simpl; try done. destruct Hh as [->|[x ->]]; set_solver.
  - by apply frame_same.
  - by apply frame_same.
Qed.

Lemma free_frame a x stale a' :
  finv a → slot_step a x PhFree stale = Ret a' → arena_frame None a a' ∧ (total a ≤ total a')%nat.
Proof.
  intros Hi He. cbn [slot_step alloc_access release_access] in He.
  destruct (exec_event (scan_state a) (FreeSlot x)) as [[c|]| |] eqn:Hx; cbn [obind] in He; simplify_eq;
    [|split; [by apply frame_same|done]].
  split; [|unfold total; simpl; lia]. split; simpl; try done.
  - apply (exec_event_scan_words _ _ _ Hx).
  - intros t _. rewrite <- (exec_event_pcs _ _ _ t Hx); [|done]. by unfold pc_of.
  - right. unfold total. simpl. lia.
Qed.

Lemma fexec_frame a ev a' :
  finv a → fexec_event a ev = Ret a' →
  arena_frame (event_thread ev) a a' ∧ (ev ≠ KWake → (total a ≤ total a')%nat).
Proof.
  intros Hi He. destruct ev; simpl in He.
  - destruct (scan_frame a e a' Hi He) as [? ->]. done.
  - destruct (fk_phases a !! s) as [p|] eqn:Hp; [|simplify_eq; split; [by apply frame_same|done]].
    destruct (decide (p = PhFree)) as [->|Hne]; [destruct (free_frame _ _ _ _ Hi He); done|].
    destruct p; try done; simpl in He; repeat first [progress outcome_inv | case_match];
      (split; [by apply frame_same|done]).
  - repeat case_match; simplify_eq; (split; [by apply frame_same|done]).
  - repeat case_match; simplify_eq; (split; [by apply frame_same|done]).
  - destruct (fk_frees a) eqn:Hf; simplify_eq; (split; [by apply frame_same|]); [done|]. intros _.
    unfold total. simpl. lia.
  - destruct (fk_subs a) eqn:Hf; simplify_eq; (split; [by apply frame_same|]); [done|]. intros _. unfold total.
    simpl. lia.
  - destruct (fk_wakes a) eqn:Hf; simplify_eq; (split; [by apply frame_same|]); done.
Qed.

(** ** What a scan has seen *)

(** An access that misses no slot adds no word with a free slot to those found
    empty. *)
Lemma scan_progress n c e c' t x :
  BitmapConc.conc_inv n c → exec_event c e = Ret (Some c') → scan_thread e = Some t → missed_slot c e = false →
  0 ≤ x → bit (shared c) x = true →
  scanned (scan_words (shared c)) (pc_of c' t) (x / 64) → scanned (scan_words (shared c)) (pc_of c t) (x / 64).
Proof.
  intros Hi He Ht Hfr Hx Hb. pose proof (pc_of_ok _ c t Hi) as Hpc. destruct e; simplify_eq/=.
  - destruct (pc_of c t) eqn:Ep; try done. case_match; simplify_eq; [by rewrite Ep|].
    unfold pc_of. simpl. rewrite lookup_insert_eq. simpl. intros (j & Hj & _). lia.
  - destruct (pc_of c t) as [|start i|] eqn:Ep; try done. simpl in Hpc.
    destruct ((i <? scan_words (shared c)) && (0 <=? bits) && (bits <=? usize_MAX)) eqn:Er; [|done].
    rewrite !andb_true_iff, Z.ltb_lt in Er. destruct Er as [[Hlt _] _].
    destruct (scan_word n c start i Hi) as (Ha & Hidx & Hmul & Hr & w & Hw & Hlk & _); [lia..|].
    rewrite Hidx, Hlk in Hfr. rewrite Ha in He. cbn [obind] in He.
    rewrite Hidx, Hmul in He.
    cbn [obind] in He. rewrite Hw in He. cbn [obind] in He. injection He as <-. unfold pc_of, goto. simpl.
    rewrite lookup_insert_eq. simpl. destruct (Z.eqb_spec bits 0) as [->|]; [|done].
    simpl in Hfr. apply negb_false_iff, Z.eqb_eq in Hfr as ->.
    intros (j & Hj & Hxj). destruct (decide (j = i)) as [->|]; [|exists j; split; [lia|done]].
    exfalso. rewrite <- Hxj in Hlk. rewrite (bit_slot _ _ _ Hlk), Z.testbit_0_l in Hb. done.
  - destruct (pc_of c t) eqn:Ep; try done. case_match; simplify_eq. unfold pc_of, goto. simpl.
    by rewrite lookup_insert_eq.
  - destruct (pc_of c t) as [| |start i bits] eqn:Ep; try done.
    repeat first [progress outcome_inv | case_match]; unfold pc_of; simpl; by rewrite lookup_insert_eq.
Qed.

(** Past the last iteration every word has been found empty. *)
Lemma scanned_all n c start i x :
  BitmapConc.conc_inv n c → 0 ≤ start < scan_words (shared c) → scan_words (shared c) ≤ i → 0 ≤ x < n →
  scanned (scan_words (shared c)) (AtLoad start i) (x / 64).
Proof.
  intros Hi Hst Hle Hx. pose proof (wf_scan_pos _ (ci_wf _ _ Hi)). pose proof (wf_count _ (ci_wf _ _ Hi)) as Hc.
  rewrite (ci_count _ _ Hi) in Hc. simpl. exists ((x / 64 - start) mod scan_words (shared c)).
  pose proof (Z.mod_pos_bound (x / 64 - start) (scan_words (shared c)) ltac:(lia)). split; [lia|].
  rewrite Zplus_mod_idemp_r. replace (start + (x / 64 - start)) with (x / 64) by lia. symmetry.
  apply Z.mod_small. lia.
Qed.

(** A scan that ends has found every word empty. *)
Lemma scan_end_all n c c' t x :
  BitmapConc.conc_inv n c → exec_event c (ScanEnd t) = Ret (Some c') → 0 ≤ x < n →
  scanned (scan_words (shared c)) (pc_of c t) (x / 64) ∧ pc_of c' t = Idle.
Proof.
  intros Hi He Hx. simpl in He. pose proof (pc_of_ok _ c t Hi) as Hpc. destruct (pc_of c t) as [|start i|]; try done.
  destruct (Z.leb_spec (scan_words (shared c)) i) as [Hle|]; simplify_eq. simpl in Hpc. split.
  - by apply (scanned_all n); [done|lia|..].
  - unfold pc_of, goto. simpl. by rewrite lookup_insert_eq.
Qed.

(** A claim ends the scan. *)
Lemma claim_ends c t c' :
  exec_event c (FetchAnd t) = Ret (Some c') →
  (held c' = held c ∨ ∃ x, held c' = x :: held c ∧ pc_of c' t = Idle).
Proof.
  intros He. simpl in He. repeat first [progress outcome_inv | case_match]; simpl; [right|by left].
  eexists. split; [done|]. unfold pc_of. simpl. by rewrite lookup_insert_eq.
Qed.
End arena.

(** ** A task moves *)

Section tasks.
Context {P : Profile} {N : NotifyLib} {NL : NotifyLaws N} {AL : Alert}.
Implicit Types s : aconc.

Definition quiet s : Prop := ∀ t x, ¬ misses s t x.

Lemma nobody_quiet s : nobody_waits (view s) → quiet s.
Proof. intros Hn t x (k & f & _ & _ & Hf & _). by apply (Hn f). Qed.

Lemma uncounted_quiet s : count_in counted (ac_tasks s) = 0 → quiet s.
Proof.
  intros Hc t x (k & f & Ht & _ & _ & _ & _ & Hp). apply (count_zero _ _ _ _ Hc) in Ht. by destruct k.
Qed.

Definition pc s (t : nat) : thread_pc := pc_of (scan_state (ac_arena s)) t.
Definition nwords s : Z := scan_words (a_bitmap (fk_arena (ac_arena s))).

(** Task [t], outside a scan, moves from [k] to [p'], or ends. *)
Lemma task_update lim lim' s s' t k p' :
  ainv lim s → ac_tasks s !! t = Some k → (∀ f, k ≠ TScanning f) →
  ac_arena s' = ac_arena s → ac_tasks s' = partial_alter (λ _, p') t (ac_tasks s) → (lim ≤ lim')%nat →
  fo_count (ac_slot s') = count_in counted (ac_tasks s) + one_if counted p' - one_if counted (Some k) →
  fut_ok (view s') (owned_futs (ac_tasks s')) →
  (∀ f, p' ≫= fut_of = Some f → fut_of k = Some f ∨ ¬ owned_futs (ac_tasks s) f) →
  (∀ j, ns_futs (view s') !! j = Some FInit → ns_futs (view s) !! j = Some FInit ∨ p' = Some (TRegistered j)) →
  (∀ j, ns_futs (view s) !! j = Some FInit → ns_futs (view s') !! j = Some FInit ∨ fut_of k = Some j) →
  (∀ k' f, p' = Some k' → fut_of k' = Some f → ns_futs (view s') !! f = Some FInit ↔ k' = TRegistered f) →
  (∀ j, ns_futs (view s') !! j = Some FWaiting → ns_futs (view s) !! j = Some FWaiting ∨ p' = Some (TEnabled j)) →
  (∀ k', p' = Some k' → (∃ f, k' = TScanning f) ∨ k' = k ∨ ∀ f, k' ≠ TParked f) →
  (pending s → pending s' ∨ quiet s') →
  ainv lim' s'.
Proof.
  intros [Ha Hh Hc Hl Hf Hinj Hin Hid Hal] Ht Hns Ea Et Hlim Hc' Hf' Hnew Hi1 Hi3 Hi2 Hw Hp Hpend.
  assert (Hlk : ∀ t', ac_tasks s' !! t' = if decide (t = t') then p' else ac_tasks s !! t').
  { intros t'. rewrite Et, lookup_partial_alter. done. }
  assert (Hoth : ∀ t' k' f, t' ≠ t → ac_tasks s !! t' = Some k' → fut_of k' = Some f → p' ≫= fut_of ≠ Some f).
  { intros t' k' f Hne Ht' Hk' Hpf. destruct (Hnew f Hpf) as [Hk|Ho]; [by apply Hne; eapply Hinj|]. apply Ho.
    by exists t', k'. }
  split; rewrite ?Ea; try done.
  - rewrite Hc', Et, count_alter, Ht. lia.
  - trans lim; [|done]. trans (size (ac_tasks s)); [|done]. rewrite Et, <- !size_dom. apply subseteq_size. intros t'.
    rewrite !elem_of_dom, lookup_partial_alter. case_decide; [by subst; rewrite Ht|done].
  - intros t1 t2 k1 k2 f. rewrite !Hlk. repeat case_decide; subst; try done.
    + intros H1 H2 Hk1 Hk2. destruct (Hoth t2 k2 f ltac:(done) H2 Hk2). by rewrite H1.
    + intros H1 H2 Hk1 Hk2. destruct (Hoth t1 k1 f ltac:(done) H1 Hk1). by rewrite H2.
    + apply Hinj.
  - intros t1 k1 f. rewrite Hlk. case_decide; [intros; by apply Hi2|]. intros H1 Hk1.
    rewrite <- (Hin t1 k1 f) by done. split.
    + intros [Hj|Hj]%Hi1; [done|]. destruct (Hoth t1 k1 f ltac:(done) H1 Hk1). by rewrite Hj.
    + intros [Hj|Hj]%Hi3; [done|]. by assert (t = t1) by (by eapply Hinj).
  - intros t1 k1. rewrite Hlk. case_decide; [|apply Hid]. subst. intros _ _. by apply (Hid t1 k).
  - intros Hon t1 x Hm. assert (Hms : misses s t1 x).
    { destruct Hm as (k1 & f & H1 & Hk1 & Hwf & Hx & Hb & Hpass). rewrite Ea in Hx, Hb, Hpass. exists k1, f.
      rewrite Hlk in H1. case_decide as Ht1; [subst t1|].
      - rewrite (Hid t k Ht Hns) in Hpass.
        destruct (Hp k1 H1) as [[f' ->]|[->|Hnp]]; [done| |by destruct k1; try done; destruct (Hnp f0)].
        assert (ns_futs (view s) !! f = Some FWaiting).
        { destruct (Hw f Hwf) as [?|Hen]; [done|]. by assert (k = TEnabled f) as -> by congruence. }
        rewrite (Hid t k Ht Hns). done.
      - split; [done|]. split; [done|]. split; [|done]. destruct (Hw f Hwf) as [?|Hen]; [done|].
        destruct (Hoth t1 k1 f ltac:(done) H1 Hk1). by rewrite Hen. }
    destruct (Hpend (Hal Hon _ _ Hms)) as [?|Hq]; [done|]. by destruct (Hq t1 x).
Qed.

(** What is pending when the tokens of other tasks, the flights and the told
    futures stay. *)
Lemma pending_move s s' t k p' :
  ac_tasks s !! t = Some k → ac_arena s' = ac_arena s → ac_notifies s' = ac_notifies s →
  ac_tasks s' = partial_alter (λ _, p') t (ac_tasks s) →
  (∀ f, k ≠ TWoken f) → (∀ f, k ≠ TChecking f) → (∀ f, k ≠ TPassing f) →
  (told (view s) → told (view s') ∨ nobody_waits (view s')) →
  pending s → pending s' ∨ quiet s'.
Proof.
  intros Ht Ea En Et H1 H2 H3 Htold [Hto|[Hfl|(t0 & k0 & f & Ht0 & Hk0)]].
  - destruct (Htold Hto); [left; by left|right; by apply nobody_quiet].
  - left. right. left. unfold in_flight. by rewrite Ea, En.
  - left. right. right. exists t0, k0, f. split; [|done]. rewrite Et, lookup_partial_alter_ne; [done|].
    intros ->. rewrite Ht in Ht0. simplify_eq. naive_solver.
Qed.

Lemma owned_move ts t k k' i :
  ts !! t = Some k → fut_of k' = fut_of k → owned_futs (<[t := k']> ts) i ↔ owned_futs ts i.
Proof.
  intros Ht Hk. unfold owned_futs. split.
  - intros (t1 & k1 & H1 & Hf). rewrite lookup_insert in H1. case_decide; [|by exists t1, k1].
    simplify_eq. exists t1, k. by rewrite <- Hk.
  - intros (t1 & k1 & H1 & Hf). destruct (decide (t = t1)) as [<-|Hne].
    + exists t, k'. rewrite lookup_insert_eq, Hk. by simplify_eq.
    + exists t1, k1. by rewrite lookup_insert_ne.
Qed.

(** The future of [k] goes, and the task has none after. *)
Lemma owned_leave lim s t k f p' i :
  ainv lim s → ac_tasks s !! t = Some k → fut_of k = Some f → p' ≫= fut_of = None →
  owned_futs (ac_tasks s) i ∧ i ≠ f ↔ owned_futs (partial_alter (λ _, p') t (ac_tasks s)) i.
Proof.
  intros Hi Ht Hk Hp. unfold owned_futs. split.
  - intros [(t1 & k1 & H1 & Hf) Hne]. exists t1, k1. rewrite lookup_partial_alter_ne; [done|]. intros ->. congruence.
  - intros (t1 & k1 & H1 & Hf). rewrite lookup_partial_alter in H1. case_decide; [subst; simpl in *; congruence|].
    split; [by exists t1, k1|]. intros ->. by assert (t = t1) by (by eapply (ai_inj _ _ Hi)).
Qed.

Lemma ai_owned lim s t k f : ainv lim s → ac_tasks s !! t = Some k → fut_of k = Some f → owned_futs (ac_tasks s) f.
Proof. intros _ Ht Hk. by exists t, k. Qed.

(** A move that keeps the future. *)
Lemma move_keep lim s s' t k k' f :
  ainv lim s → ac_tasks s !! t = Some k → (∀ f, k ≠ TScanning f) → fut_of k = Some f → fut_of k' = Some f →
  ac_arena s' = ac_arena s → ac_tasks s' = <[t := k']> (ac_tasks s) →
  fo_count (ac_slot s') = count_in counted (ac_tasks s) + one_if counted (Some k') - one_if counted (Some k) →
  fut_ok (view s') (owned_futs (ac_tasks s)) →
  (∀ j, j ≠ f → ns_futs (view s') !! j = Some FInit ↔ ns_futs (view s) !! j = Some FInit) →
  ns_futs (view s') !! f ≠ Some FInit → k' ≠ TRegistered f →
  (∀ j, ns_futs (view s') !! j = Some FWaiting → ns_futs (view s) !! j = Some FWaiting ∨ k' = TEnabled j) →
  (∃ f, k' = TScanning f) ∨ k' = k ∨ (∀ f, k' ≠ TParked f) →
  (pending s → pending s' ∨ quiet s') →
  ainv lim s'.
Proof.
  intros Hi Ht Hns Hk Hk' Ea Et Hc Hf Hin Hif Hnr Hw Hp Hpend.
  apply (task_update lim lim s s' t k (Some k')); try done.
  - eapply fut_ok_ext; [|exact Hf]. intros i. rewrite Et. symmetry. apply owned_move with k; [done|congruence].
  - intros f' Hf'. left. simpl in Hf'. congruence.
  - intros j Hj. left. apply Hin; [congruence|done].
  - intros j Hj. destruct (decide (j = f)) as [->|Hne]; [by right|left; by apply Hin].
  - intros k1 f1 [= <-] Hf1. simplify_eq. done.
  - intros j Hj. destruct (Hw j Hj) as [?| ->]; [by left|by right].
  - by intros k1 [= <-].
Qed.

Lemma ai_not_init lim s t k f :
  ainv lim s → ac_tasks s !! t = Some k → fut_of k = Some f → (∀ f, k ≠ TRegistered f) → ns_futs (view s) !! f ≠ Some FInit.
Proof. intros Hi Ht Hk Hne Hf. by apply (Hne f), (ai_init _ _ Hi t k f). Qed.

(** A move that leaves the [Notify] alone. *)
Lemma move_count lim s s' t k k' f :
  ainv lim s → ac_tasks s !! t = Some k → (∀ f, k ≠ TScanning f) → (∀ f, k ≠ TRegistered f) →
  fut_of k = Some f → fut_of k' = Some f →
  ac_arena s' = ac_arena s → view s' = view s → ac_tasks s' = <[t := k']> (ac_tasks s) →
  fo_count (ac_slot s') = count_in counted (ac_tasks s) + one_if counted (Some k') - one_if counted (Some k) →
  k' ≠ TRegistered f → (∃ f, k' = TScanning f) ∨ k' = k ∨ (∀ f, k' ≠ TParked f) →
  (pending s → pending s' ∨ quiet s') →
  ainv lim s'.
Proof.
  intros Hi Ht Hns Hnr Hk Hk' Ea Ev Et Hc Hnr' Hp Hpend. apply (move_keep lim s s' t k k' f); rewrite ?Ev; try done.
  - apply (ai_futs _ _ Hi).
  - by eapply ai_not_init.
  - intros j Hj. by left.
Qed.

(** The counter does not wrap. *)
Lemma count_move lim s t k k' d :
  ainv lim s → Z.of_nat lim ≤ usize_MAX → ac_tasks s !! t = Some k →
  d = one_if counted (Some k') - one_if counted (Some k) →
  wrap (fo_count (ac_slot s) + d) = count_in counted (ac_tasks s) + one_if counted (Some k') - one_if counted (Some k).
Proof.
  intros Hi Hlim Ht ->. rewrite (ai_count _ _ Hi).
  pose proof (count_size counted (<[t := k']> (ac_tasks s))) as Hb. rewrite count_insert, Ht in Hb.
  pose proof (ai_limit _ _ Hi) as Hl.
  rewrite map_size_insert_Some in Hb by (by rewrite Ht). rewrite wrap_small; [lia|]. unfold is_usize. lia.
Qed.

(** ** The accesses of a task *)

Section steps.
Context (lim : nat) (Hlim : Z.of_nat lim ≤ usize_MAX).

Lemma pending_token s t k f :
  ac_tasks s !! t = Some k → (k = TWoken f ∨ k = TChecking f ∨ k = TPassing f) → pending s.
Proof. intros Ht Hk. right. right. by exists t, k, f. Qed.

(** The moves of the counter. *)
Lemma count_step s t k k' f d :
  ainv lim s → ac_tasks s !! t = Some k → fut_of k = Some f → fut_of k' = Some f →
  d = one_if counted (Some k') - one_if counted (Some k) →
  (k = TEnabled f ∧ k' = TScanning f) ∨ (∃ x, k = TGot f x ∧ k' = TRevoked f x) ∨ (k = TWoken f ∧ k' = TChecking f) ∨
    (k = TCancelled f ∧ k' = TGone f) →
  ainv lim (set_task (add_count s d) t k').
Proof.
  intros Hi Ht Hk Hk' Hd Hcase. apply (move_count lim s _ t k k' f); try done.
  - by destruct Hcase as [[-> _]|[(x & -> & _)|[[-> _]|[-> _]]]].
  - by destruct Hcase as [[-> _]|[(x & -> & _)|[[-> _]|[-> _]]]].
  - simpl. by eapply count_move.
  - by destruct Hcase as [[_ ->]|[(x & _ & ->)|[[_ ->]|[_ ->]]]].
  - destruct Hcase as [[_ ->]|[(x & _ & ->)|[[_ ->]|[_ ->]]]]; [left; by exists f|right; by right..].
  - destruct (decide (k = TWoken f)) as [Hw|Hw].
    + intros _. left. apply (pending_token _ t k' f); [apply lookup_insert_eq|].
      destruct Hcase as [[? _]|[(x & ? & _)|[[_ ?]|[? _]]]]; [congruence..|right; by left|congruence].
    + eapply (pending_move s _ t k (Some k')); try done; [..|by left];
        destruct Hcase as [[-> _]|[(x & -> & _)|[[-> _]|[-> _]]]]; try done.
Qed.

Lemma count_stay s k k' :
  ainv lim s → counted k' = counted k →
  fo_count (ac_slot s) = count_in counted (ac_tasks s) + one_if counted (Some k') - one_if counted (Some k).
Proof. intros Hi Hk. rewrite (ai_count _ _ Hi). unfold one_if. simpl. rewrite Hk. lia. Qed.

Lemma check_step s t f : ainv lim s → ac_tasks s !! t = Some (TChecking f) → ainv lim (task_step s t (TChecking f)).
Proof.
  intros Hi Ht. simpl. destruct (Z.ltb_spec 0 (fo_count (ac_slot s))) as [Hlt|Hle].
  - apply (move_count lim s _ t (TChecking f) (TPassing f) f); try done; [by apply (count_stay s)|by right; right|].
    intros _. left. eapply (pending_token _ t); [apply lookup_insert_eq|by right; right].
  - apply (move_count lim s _ t (TChecking f) (TRetired f) f); try done; [by apply (count_stay s)|by right; right|].
    intros _. right. apply uncounted_quiet. simpl. rewrite count_insert, Ht. unfold one_if. simpl.
    pose proof (count_size counted (ac_tasks s)).
    rewrite (ai_count _ _ Hi) in Hle. lia.
Qed.

Lemma pass_step s t f : ainv lim s → ac_tasks s !! t = Some (TPassing f) → ainv lim (task_step s t (TPassing f)).
Proof.
  intros Hi Ht. simpl. set (s' := set_task _ _ _).
  assert (Ev : view s' = ns_notify (view s)) by apply nview_notify.
  destruct (fut_notify (view s) _ (ai_futs _ _ Hi)) as (Hok & Htold & Hw & Hin & Htk).
  apply (move_keep lim s s' t (TPassing f) (TRetired f) f); rewrite ?Ev; try done.
  - by apply (count_stay s).
  - intros Hfi%Hin. by eapply (ai_not_init lim s t).
  - intros j Hj. left. by apply Hw.
  - by right; right.
  - intros _. destruct Htold as [Hto|Hno]; [left; left; by rewrite Ev|right]. apply nobody_quiet. rewrite Ev.
    intros j Hj%Hw. by apply (Hno j).
Qed.

Lemma enable_step s t f : ainv lim s → ac_tasks s !! t = Some (TRegistered f) → ainv lim (task_step s t (TRegistered f)).
Proof.
  intros Hi Ht. simpl. pose proof (nview_enable (fo_notify (ac_slot s)) f) as He.
  destruct (notified_enable _ f) as [b n]. simpl in He. set (s' := set_task _ _ _).
  assert (Ev : view s' = (ns_poll (view s) f).2) by (unfold view; by rewrite <- He).
  destruct (fut_poll (view s) _ f (ai_futs _ _ Hi)) as (Hok & Hbut & Hni & _); [by eapply ai_owned|].
  assert (Hoth : ∀ j g, ns_futs (view s') !! j = Some g → ns_futs (view s) !! j = Some g ∨ j = f).
  { intros j g. rewrite Ev. destruct (decide (j = f)) as [|Hj]; [by right|]. rewrite (Hbut j Hj). by left. }
  apply (move_keep lim s s' t (TRegistered f) (TEnabled f) f); try done.
  - by apply (count_stay s).
  - by rewrite Ev.
  - intros j Hj. by rewrite Ev, (Hbut j Hj).
  - by rewrite Ev.
  - intros j Hj. destruct (Hoth j _ Hj) as [?| ->]; [by left|by right].
  - by right; right.
  - eapply (pending_move s s' t); try done. intros [j Hj]. left. exists j. rewrite Ev, Hbut; [done|].
    intros ->. apply (ai_init _ _ Hi t (TRegistered f) f) in Ht; [|done].
    rewrite Hj in Ht. naive_solver.
Qed.

Lemma start_step s t : ainv lim s → ac_tasks s !! t = Some TStart → ainv lim (task_step s t TStart).
Proof.
  intros Hi Ht. simpl. destruct (nview_owned (fo_notify (ac_slot s))) as [Hfr Hv].
  destruct (notified_owned _) as [f n]. simpl in Hfr, Hv. set (s' := set_task _ _ _).
  assert (Ev : view s' = mkNotifyState (ns_permit (view s)) (ns_queue (view s)) (<[f := FInit]> (ns_futs (view s)))) by done.
  assert (Hno : ¬ owned_futs (ac_tasks s) f).
  { rewrite <- (fo_own _ _ (ai_futs _ _ Hi)). unfold view. rewrite Hfr. by intros []. }
  assert (Hlk : ∀ j, ns_futs (view s') !! j = if decide (f = j) then Some FInit else ns_futs (view s) !! j).
  { intros j. rewrite Ev. apply lookup_insert. }
  apply (task_update lim lim s s' t TStart (Some (TRegistered f))); try done.
  - by apply (count_stay s).
  - rewrite Ev. eapply fut_ok_ext; [|apply (fut_new _ _ f (ai_futs _ _ Hi) Hfr)]. intros i. simpl. split.
    + intros [(t1 & k1 & H1 & Hk)| ->]; [|exists t, (TRegistered f); by rewrite lookup_insert_eq].
      exists t1, k1. rewrite lookup_insert_ne; [done|]. intros <-. by simplify_eq.
    + intros (t1 & k1 & H1 & Hk). rewrite lookup_insert in H1. case_decide; [right; by simplify_eq/=|].
      left. by exists t1, k1.
  - intros f' [= <-]. by right.
  - intros j. rewrite Hlk. case_decide; [subst; by right|by left].
  - intros j Hj. left. rewrite Hlk. by case_decide.
  - intros k' f' [= <-] [= <-]. rewrite Hlk. by rewrite decide_True.
  - intros j. rewrite Hlk. case_decide; [done|by left].
  - intros k' [= <-]. by right; right.
  - eapply (pending_move s s' t); try done. intros [j Hj]. left. exists j. rewrite Hlk. case_decide; [|done].
    subst. unfold view in Hj. by rewrite Hfr in Hj.
Qed.

(** The future is dropped, and with it the task or the turn. *)
Lemma drop_step s t k f p' s' :
  ainv lim s → ac_tasks s !! t = Some k → fut_of k = Some f → counted k = false →
  (∀ f, k ≠ TRegistered f) → (∀ f, k ≠ TWoken f) → (∀ f, k ≠ TChecking f) → (∀ f, k ≠ TPassing f) →
  (p' = None ∨ p' = Some TStart) →
  s' = mkAconc (ac_arena s) (mkFixedOrderSlot (notified_drop (fo_notify (ac_slot s)) f) (fo_count (ac_slot s)))
         (partial_alter (λ _, p') t (ac_tasks s)) (ac_notifies s) →
  ainv lim s'.
Proof.
  intros Hi Ht Hk Hc Hr Hw Hch Hpa Hp Hs.
  assert (Ev : view s' = ns_drop (view s) f) by (rewrite Hs; apply nview_drop).
  assert (Hpf : p' ≫= fut_of = None) by (by destruct Hp as [-> | ->]).
  destruct (fut_drop (view s) _ f (ai_futs _ _ Hi)) as (Hok & Hto & Hwt & Hin).
  apply (task_update lim lim s s' t k p'); rewrite ?Ev; try done; try (by rewrite Hs).
  - intros f' ->. done.
  - rewrite Hs. simpl. rewrite (ai_count _ _ Hi). unfold one_if. simpl. rewrite Hc.
    destruct Hp as [-> | ->]; simpl; lia.
  - eapply fut_ok_ext; [|exact Hok]. intros i. rewrite Hs. simpl. by eapply owned_leave.
  - intros f' Hf'. congruence.
  - intros j Hj%Hin. left. apply Hj.
  - intros j Hj. rewrite Hin. destruct (decide (j = f)) as [->|]; [by right|by left].
  - intros k' f' -> Hf'. by simpl in Hpf; rewrite Hf' in Hpf.
  - intros j Hj%Hwt. by left.
  - intros k' ->. destruct Hp as [|[= ->]]; [done|]. by right; right.
  - eapply (pending_move s s' t k p'); try done; try (by rewrite Hs). by rewrite Ev.
Qed.

Lemma task_step_inv s t k : ainv lim s → ac_tasks s !! t = Some k → ainv lim (task_step s t k).
Proof.
  intros Hi Ht. destruct k; try done.
  - by apply start_step.
  - by apply enable_step.
  - eapply (count_step s t (TEnabled f)); try done. by left.
  - simpl. destruct (fk_phases (ac_arena s) !! x) as [[]|]; try done.
    eapply (count_step s t (TGot f x)); try done. right. left. by exists x.
  - eapply (drop_step s t _ f None); try done. by left.
  - eapply (count_step s t (TWoken f)); try done. by right; right; left.
  - by apply check_step.
  - by apply pass_step.
  - eapply (drop_step s t _ f (Some TStart)); try done. by right.
  - eapply (count_step s t (TCancelled f)); try done. by right; right; right.
  - eapply (drop_step s t _ f None); try done. by left.
Qed.

Lemma cancel_step s t f :
  ainv lim s → ac_tasks s !! t = Some (TParked f) → ainv lim (set_task s t (TCancelled f)).
Proof.
  intros Hi Ht. apply (move_count lim s _ t (TParked f) (TCancelled f) f); try done.
  - by apply (count_stay s).
  - by right; right.
  - by eapply (pending_move s _ t); [done..|left].
Qed.

Lemma poll_step s t f :
  ainv lim s → ac_tasks s !! t = Some (TParked f) → 
  ∃ s', aexec_event s (APoll t) = Ret s' ∧ ainv lim s'.
Proof.
  intros Hi Ht. simpl. rewrite Ht. unfold poll_access. pose proof (nview_poll (fo_notify (ac_slot s)) f) as He.
  destruct (notified_poll _ f) as [b n]. simpl in He. fold (view s) in He. eexists. split; [done|].
  set (s' := set_task _ _ _).
  assert (Ev : view s' = (ns_poll (view s) f).2) by (by rewrite <- He).
  assert (Eb : b = (ns_poll (view s) f).1) by (by rewrite <- He).
  destruct (fut_poll (view s) _ f (ai_futs _ _ Hi)) as (Hok & Hbut & Hni & Hres); [by eapply ai_owned|].
  destruct Hres as [(Hb & Hsame & Hwf)|(Hb & Hdone)]; [by eapply (ai_not_init lim s t)|..].
  - rewrite Hb in Eb. subst b. rewrite Hsame in Ev.
    apply (move_count lim s s' t (TParked f) (TParked f) f); try done; [by apply (count_stay s)|by right; left|].
    eapply (pending_move s s' t); try done. rewrite Ev. by left.
  - rewrite Hb in Eb. subst b.
    apply (move_keep lim s s' t (TParked f) (TWoken f) f); rewrite ?Ev; try done; [by apply (count_stay s)|..].
    + intros j Hj. by rewrite (Hbut j Hj).
    + intros j. destruct (decide (j = f)) as [->|Hj]; [congruence|]. rewrite (Hbut j Hj). by left.
    + by right; right.
    + intros _. left. eapply (pending_token _ t); [apply lookup_insert_eq|by left].
Qed.
End steps.

(** ** Other accesses *)

(** An access of a thread without a task. *)
Lemma arena_update lim s s' who :
  ainv lim s → ac_slot s' = ac_slot s → ac_tasks s' = ac_tasks s → finv (ac_arena s') →
  arena_frame who (ac_arena s) (ac_arena s') → (∀ t, who = Some t → ac_tasks s !! t = None) →
  (pending s → pending s' ∨ quiet s') → ainv lim s'.
Proof.
  intros [Ha Hh Hc Hl Hf Hinj Hin Hid Hal] Es Et Ha' [Fc Fw Fh Fp Fb] Hwho Hpend.
  assert (Ev : view s' = view s) by (unfold view; by rewrite Es).
  assert (Hpcs : ∀ t k, ac_tasks s !! t = Some k → pc_of (scan_state (ac_arena s')) t = pc_of (scan_state (ac_arena s)) t).
  { intros t k Ht. apply Fp. intros Hw. by rewrite (Hwho t Hw) in Ht. }
  split; rewrite ?Ev, ?Es, ?Et; try done.
  - by rewrite Fh.
  - intros t k Ht Hk. rewrite (Hpcs t k Ht). by eapply Hid.
  - intros Hon t x Hm. destruct Fb as [Hb|Hfl].
    + assert (Hms : misses s t x).
      { destruct Hm as (k & f & Ht & Hk & Hw & Hx & Hbit & Hp). rewrite Et in Ht. rewrite Ev in Hw. rewrite Fc in Hx.
        rewrite Fw, (Hpcs t k Ht) in Hp. exists k, f. split; [done|]. split; [done|]. split; [done|]. split; [done|].
        split; [by apply Hb|done]. }
      destruct (Hpend (Hal Hon _ _ Hms)) as [?|Hq]; [done|]. by destruct (Hq t x).
    + right. left. unfold in_flight, total in *. lia.
Qed.

Lemma pending_arena s s' :
  view s' = view s → ac_tasks s' = ac_tasks s → (in_flight s → in_flight s') → pending s → pending s'.
Proof. intros Ev Et Hf [?|[?|?]]; [left; by rewrite Ev|right; left; auto|right; right; by rewrite Et]. Qed.

Lemma other_step lim s e :
  ainv lim s → other_event s e = true →
  ∃ a, fexec_event (ac_arena s) e = Ret a ∧ ainv lim (set_fixed s a).
Proof.
  intros Hi Ho. destruct (fexec_event_inv (ac_arena s) e (ai_arena _ _ Hi)) as (a & He & Ha). exists a.
  split; [done|].
  destruct (fexec_frame _ _ _ (ai_arena _ _ Hi) He) as [Hfr Htot].
  apply (arena_update lim s _ (event_thread e)); try done.
  - intros t Ht. destruct e; try done. simpl in Ho, Ht. rewrite Ht in Ho. by apply bool_decide_eq_true in Ho.
  - intros Hp. left. apply (pending_arena s); try done. unfold in_flight. simpl.
    destruct e; try done; unfold total in *; specialize (Htot ltac:(done)); lia.
Qed.

Lemma wake_step lim s k :
  ainv lim s → fk_wakes (ac_arena s) = S k → ∃ s', aexec_event s AWake = Ret s' ∧ ainv lim s'.
Proof.
  intros Hi Hk. cbn [aexec_event]. rewrite Hk.
  destruct (fexec_event_inv (ac_arena s) KWake (ai_arena _ _ Hi)) as (a & He & Ha). rewrite He. cbn [obind].
  eexists. split; [done|]. destruct (fexec_frame _ _ _ (ai_arena _ _ Hi) He) as [Hfr _].
  unfold wake_load. simpl. rewrite (af_handle _ _ _ Hfr), (ai_handle _ _ Hi). cbn [andb].
  apply (arena_update lim s _ None); try done. intros _.
  destruct (Z.ltb_spec 0 (fo_count (ac_slot s))) as [Hlt|Hle].
  - left. right. left. unfold in_flight. simpl. lia.
  - right. apply uncounted_quiet. simpl. pose proof (count_size counted (ac_tasks s)).
    rewrite (ai_count _ _ Hi) in Hle. lia.
Qed.

Lemma notify_step lim s k :
  ainv lim s → ac_notifies s = S k → ∃ s', aexec_event s ANotify = Ret s' ∧ ainv lim s'.
Proof.
  intros Hi Hk. cbn [aexec_event]. rewrite Hk. eexists. split; [done|]. unfold wake_notify.
  set (s' := mkAconc _ _ _ _).
  assert (Ev : view s' = ns_notify (view s)) by apply nview_notify.
  destruct (fut_notify (view s) _ (ai_futs _ _ Hi)) as (Hok & Htold & Hw & Hin & Htk).
  pose proof Hi as [Ha Hh Hc Hl Hf Hinj Hini Hid Hal]. split; rewrite ?Ev; try done.
  - intros t k1 f Ht Hf1. rewrite Hin. by apply (Hini t).
  - intros _ t x (k1 & f & Ht & Hk1 & Hwf & Hm). rewrite Ev in Hwf. destruct Htold as [Hto|Hno]; [left; by rewrite Ev|].
    by destruct (Hno f (Hw _ Hwf)).
Qed.

Lemma spawn_step lim s t :
  ainv lim s → ac_tasks s !! t = None → pc_of (scan_state (ac_arena s)) t = Idle → ainv (S lim) (set_task s t TStart).
Proof.
  intros [Ha Hh Hc Hl Hf Hinj Hin Hid Hal] Ht Hpc.
  assert (Hlk : ∀ t' k, <[t := TStart]> (ac_tasks s) !! t' = Some k → k = TStart ∨ ac_tasks s !! t' = Some k).
  { intros t' k. rewrite lookup_insert. case_decide; [intros [= <-]; by left|by right]. }
  split; simpl; try done.
  - rewrite count_insert, Ht. unfold one_if. simpl. lia.
  - rewrite map_size_insert_None by done. lia.
  - eapply fut_ok_ext; [|exact Hf]. intros i. split.
    + intros (t1 & k1 & H1 & Hk). exists t1, k1. rewrite lookup_insert_ne; [done|]. intros <-. congruence.
    + intros (t1 & k1 & [->|H1]%Hlk & Hk); [done|by exists t1, k1].
  - intros t1 t2 k1 k2 f [->|H1]%Hlk [->|H2]%Hlk; try done. by apply Hinj.
  - intros t1 k1 f [->|H1]%Hlk; [done|by apply (Hin t1)].
  - intros t1 k1. rewrite lookup_insert. case_decide; [by subst|apply Hid].
  - intros Hon t1 x (k1 & f & H1 & Hk & Hm). apply Hlk in H1 as [->|H1]; [done|].
    destruct (Hal Hon t1 x) as [?|[?|(t2 & k2 & f2 & H2 & Hk2)]]; [by exists k1, f|by left|by right; left|].
    right. right. exists t2, k2, f2. split; [|done]. simpl. rewrite lookup_insert_ne; [done|]. intros <-. congruence.
Qed.

(** ** The scan of a task *)

(** The task after a scan access is scanning, parked, or has a slot; it is
    outside the bitmap when its scan is over. *)
Lemma task_after_cases a e c t f :
  exec_event (scan_state a) e = Ret (Some c) → scan_thread e = Some t →
  let k := task_after f e (fk_held a) (held c) in
  k = TScanning f ∨ (k = TParked f ∧ e = ScanEnd t) ∨ (∃ x, k = TGot f x ∧ pc_of c t = Idle).
Proof.
  intros He Ht. destruct e; simplify_eq/=; try by left.
  - by right; left.
  - destruct (claim_ends _ _ _ He) as [->|(x & -> & Hpc)].
    + left. simpl. destruct (fk_held a) as [|x h]; [done|]. rewrite decide_False; [done|].
      intros Heq%(f_equal length). simpl in Heq. lia.
    + right. right. exists x. simpl. by rewrite decide_True.
Qed.

(** The task [t] whose scan has moved on. *)
Lemma scan_task_update lim s s' t f k :
  ainv lim s → ac_tasks s !! t = Some (TScanning f) → ac_slot s' = ac_slot s → ac_notifies s' = ac_notifies s →
  ac_tasks s' = <[t := k]> (ac_tasks s) → finv (ac_arena s') → arena_frame (Some t) (ac_arena s) (ac_arena s') →
  total (ac_arena s') = total (ac_arena s) → fut_of k = Some f → counted k = true → (∀ f, k ≠ TRegistered f) →
  ((∀ f, k ≠ TScanning f) → pc_of (scan_state (ac_arena s')) t = Idle) →
  (alert = true → ∀ x, 0 ≤ x < a_slot_count (fk_arena (ac_arena s)) →
     bit (a_bitmap (fk_arena (ac_arena s'))) x = true → bit (a_bitmap (fk_arena (ac_arena s))) x = true →
     passed (nwords s) (pc_of (scan_state (ac_arena s')) t) k (x / 64) →
     passed (nwords s) (pc_of (scan_state (ac_arena s)) t) (TScanning f) (x / 64)) →
  ainv lim s'.
Proof.
  intros Hi Ht Es En Et Ha' [Fc Fw Fh Fp Fb] Htot Hk Hck Hnr Hpc Hpass.
  pose proof Hi as [Ha Hh Hc Hl Hf Hinj Hin Hid Hal].
  assert (Ev : view s' = view s) by (unfold view; by rewrite Es).
  assert (Hlk : ∀ t', ac_tasks s' !! t' = if decide (t = t') then Some k else ac_tasks s !! t').
  { intros t'. rewrite Et. apply lookup_insert. }
  assert (Hold : ∀ t' k' f', ac_tasks s' !! t' = Some k' → fut_of k' = Some f' →
    ∃ k0, ac_tasks s !! t' = Some k0 ∧ fut_of k0 = Some f').
  { intros t' k' f'. rewrite Hlk. case_decide; [|by exists k']. subst. intros [= <-] Hf'. exists (TScanning f).
    split; [done|].
    simpl. congruence. }
  split; rewrite ?Ev, ?Es; try done.
  - by rewrite Fh.
  - rewrite Hc, Et, count_insert, Ht. unfold one_if. simpl. rewrite Hck. lia.
  - rewrite Et, map_size_insert_Some by (by rewrite Ht). done.
  - eapply fut_ok_ext; [|exact Hf]. intros i. rewrite Et. symmetry. by apply owned_move with (TScanning f).
  - intros t1 t2 k1 k2 f0 H1 H2 Hk1 Hk2. destruct (Hold t1 k1 f0 H1 Hk1) as (k1' & ? & ?).
    destruct (Hold t2 k2 f0 H2 Hk2) as (k2' & ? & ?). by eapply Hinj.
  - intros t1 k1 f0. rewrite Hlk. case_decide; [subst t1|apply Hin]. intros [= <-] Hf0.
    assert (f0 = f) as -> by congruence. split.
    + intros Hfi. by apply (Hin t (TScanning f) f) in Hfi.
    + by intros ->; destruct (Hnr f).
  - intros t1 k1. rewrite Hlk. case_decide; [subst; intros [= <-]; apply Hpc|]. rewrite Fp by congruence. apply Hid.
  - intros Hon t1 x Hm. destruct Fb as [Hb|Hfl]; [|right; left; unfold in_flight, total in *; lia].
    assert (Hms : misses s t1 x).
    { destruct Hm as (k1 & f0 & H1 & Hk1 & Hw & Hx & Hbit & Hp). rewrite Ev in Hw. rewrite Fc in Hx. rewrite Fw in Hp.
      pose proof (Hb x Hx Hbit) as Hbit0. rewrite Hlk in H1. case_decide as Htt.
      - subst t1. injection H1 as <-. assert (f0 = f) as -> by congruence. exists (TScanning f), f.
        split; [done|]. split; [done|]. split; [done|]. split; [done|].
        split; [done|]. by apply Hpass.
      - exists k1, f0. rewrite Fp in Hp by congruence. done. }
    destruct (Hal Hon _ _ Hms) as [?|[Hfl|(t2 & k2 & f2 & H2 & Hk2)]].
    + left. by rewrite Ev.
    + right. left. unfold in_flight, total in *. rewrite En. lia.
    + right. right. exists t2, k2, f2. split; [|done]. rewrite Hlk, decide_False; [done|]. intros <-.
      rewrite Ht in H2. simplify_eq. naive_solver.
Qed.
End tasks.

(** ** Runs *)

Section runs.
Context {P : Profile} {N : NotifyLib} {NL : NotifyLaws N} {AL : Alert}.

Lemma ainv_mono lim lim' s : ainv lim s → (lim ≤ lim')%nat → ainv lim' s.
Proof. intros [] Hle. split; try done. by trans lim. Qed.

Lemma scan_step_is a e c a' t :
  exec_event (scan_state a) e = Ret (Some c) → scan_thread e = Some t → scan_step a e = Ret a' →
  a_bitmap (fk_arena a') = shared c ∧ fk_scans a' = threads c ∧ fk_held a' = held c.
Proof. intros He Ht Hs. unfold scan_step in Hs. rewrite He in Hs. by destruct e; simplify_eq/=. Qed.

Lemma task_scan_inv lim s t f e :
  ainv lim s → ac_tasks s !! t = Some (TScanning f) →
  (alert = true → missed_slot (scan_state (ac_arena s)) e = false) →
  ∃ s', task_scan s t f e = Ret s' ∧ ainv lim s'.
Proof.
  intros Hi Ht Hfr. unfold task_scan. destruct (bool_decide (scan_thread e = Some t)) eqn:Het; [|by eexists].
  apply bool_decide_eq_true in Het. pose proof (ai_arena _ _ Hi) as Ha.
  destruct (exec_event_inv _ _ e (fv_conc _ Ha)) as (r & He & _). rewrite He. cbn [obind].
  destruct r as [c|]; [|by eexists]. destruct (scan_step_inv (ac_arena s) e Ha) as (a' & Hs & Ha').
  rewrite Hs. cbn [obind]. eexists. split; [done|]. destruct (scan_frame _ _ _ Ha Hs) as [Hframe Htot].
  rewrite Het in Hframe.
  destruct (scan_step_is _ _ _ _ _ He Het Hs) as (Hbm & Hsc & Hhd).
  assert (Hpc : pc_of (scan_state a') t = pc_of c t) by (unfold pc_of; simpl; by rewrite Hsc).
  rewrite Hhd. pose proof (task_after_cases _ _ _ t f He Het) as Hcases. cbv zeta in Hcases.
  set (k := task_after f e (fk_held (ac_arena s)) (held c)) in *.
  apply (scan_task_update lim s _ t f k); try done; rewrite ?Hpc.
  - by destruct Hcases as [->|[[-> _]|(x & -> & _)]].
  - by destruct Hcases as [->|[[-> _]|(x & -> & _)]].
  - by destruct Hcases as [->|[[-> _]|(x & -> & _)]].
  - intros Hns. simpl. rewrite Hpc. destruct Hcases as [Hk|[[_ ->]|(x & _ & ?)]]; [by destruct (Hns f)| |done].
    destruct (fv_geo _ Ha). eapply (scan_end_all _ _ _ t 0 (fv_conc _ Ha) He). lia.
  - intros Hon x Hx _ Hbit Hp. specialize (Hfr Hon). simpl in Hp. rewrite Hpc in Hp. destruct Hcases as [->|[[_ ->]|(y & -> & _)]]; [| |done].
    + simpl in *. eapply (scan_progress _ _ e c t x (fv_conc _ Ha)); try done. lia.
    + eapply (scan_end_all _ _ _ t x (fv_conc _ Ha) He). done.
Qed.

Lemma aexec_event_inv lim s ev :
  Z.of_nat lim ≤ usize_MAX → ainv lim s → (alert = true → sees s ev = true) →
  ∃ s', aexec_event s ev = Ret s' ∧ ainv (S lim) s'.
Proof.
  intros Hlim Hi Hsees.
  assert (Hsame : ∃ s', Ret s = Ret s' ∧ ainv (S lim) s') by (exists s; split; [done|apply (ainv_mono lim); [done|lia]]).
  assert (Hup : ∀ r, (∃ s', r = Ret s' ∧ ainv lim s') → ∃ s', r = Ret s' ∧ ainv (S lim) s').
  { intros r (s' & -> & Hs'). exists s'. split; [done|apply (ainv_mono lim); [done|lia]]. }
  destruct ev.
  - simpl. destruct (ac_tasks s !! t) eqn:Ht; [done|]. destruct (pc_of _ t) eqn:Hpc; [|done..].
    eexists. split; [done|]. by apply spawn_step.
  - simpl. destruct (ac_tasks s !! t) as [k|] eqn:Ht; [|done]. apply Hup. eexists. split; [done|].
    by apply task_step_inv.
  - simpl in *. destruct (ac_tasks s !! t) as [[]|] eqn:Ht; try done. apply Hup, task_scan_inv; [done..|].
    intros Hon. by apply negb_true_iff, Hsees.
  - destruct (ac_tasks s !! t) as [k|] eqn:Ht; [|simpl; by rewrite Ht].
    destruct k; try (simpl; by rewrite Ht). by apply Hup, (poll_step lim s t f).
  - simpl. destruct (ac_tasks s !! t) as [[]|] eqn:Ht; try done. apply Hup. eexists. split; [done|].
    by apply cancel_step.
  - simpl. destruct (other_event s e) eqn:Ho; [|done]. destruct (other_step lim s e Hi Ho) as (a & -> & Ha).
    cbn [obind].
    apply Hup. by eexists.
  - destruct (fk_wakes (ac_arena s)) as [|k] eqn:Hk; [simpl; by rewrite Hk|]. by apply Hup, (wake_step lim s k).
  - destruct (ac_notifies s) as [|k] eqn:Hk; [simpl; by rewrite Hk|]. by apply Hup, (notify_step lim s k).
Qed.

Lemma aexec_events_inv lim s evs :
  Z.of_nat lim + Z.of_nat (length evs) ≤ usize_MAX → ainv lim s → (alert = true → run_sees s evs = true) →
  ∃ s', aexec_events s evs = Ret s' ∧ ainv (lim + length evs) s'.
Proof.
  revert lim s. induction evs as [|ev evs IH]; intros lim s Hlim Hi Hsees.
  { exists s. split; [done|]. by rewrite Nat.add_0_r. }
  unfold aexec_events in *. cbn [length run_sees ofoldM] in *.
  destruct (aexec_event_inv lim s ev) as (s1 & He & Hi1); [lia|done| |].
  { intros Hon. by destruct (proj1 (andb_true_iff _ _) (Hsees Hon)). }
  rewrite He in *. cbn [obind].
  destruct (IH (S lim) s1) as (s' & -> & Hi'); [lia|done| |].
  { intros Hon. by destruct (proj1 (andb_true_iff _ _) (Hsees Hon)). }
  exists s'. split; [done|].
  by replace (lim + S (length evs))%nat with (S lim + length evs)%nat by lia.
Qed.

Lemma aconc_start_inv a w : fixed_inv a w [] → a_wake_handle a = true → ainv 0 (aconc_start a w).
Proof.
  intros Ha Hh. assert (Ev : view (aconc_start a w) = mkNotifyState false [] ∅) by apply nview_new.
  split; rewrite ?Ev; try done.
  - by apply fconc_start_inv.
  - split; simpl; [|intros i; rewrite lookup_empty|constructor].
    + intros i. rewrite lookup_empty. split; [by intros []|]. by intros (t & k & Ht & _).
    + split; [by intros ?%elem_of_nil|done].
  - by intros _ t x (k & f & Ht & _).
Qed.
End runs.

(** ** A woken task alone *)

Section alone.
Context {P : Profile} {N : NotifyLib} {NL : NotifyLaws N} {AL : Alert}.

Lemma task_scan_ok s t f e c a' :
  scan_thread e = Some t → exec_event (scan_state (ac_arena s)) e = Ret (Some c) → scan_step (ac_arena s) e = Ret a' →
  task_scan s t f e = Ret (set_task (set_fixed s a') t (task_after f e (fk_held (ac_arena s)) (fk_held a'))).
Proof. intros Ht He Hs. unfold task_scan. by rewrite bool_decide_true, He, Hs. Qed.

Lemma aexec_scan_cons s t f e es :
  ac_tasks s !! t = Some (TScanning f) →
  aexec_events s (AScan t <$> (e :: es)) = obind (task_scan s t f e) (λ s', aexec_events s' (AScan t <$> es)).
Proof. intros Ht. unfold aexec_events. simpl. by rewrite Ht. Qed.

(** A scan with a free slot ahead of it ends with a slot. *)
Lemma ascan_run lim k s t f start i x :
  ainv lim s → ac_tasks s !! t = Some (TScanning f) → pc_of (scan_state (ac_arena s)) t = AtLoad start i →
  Z.of_nat k = nwords s - i → 0 ≤ x < a_slot_count (fk_arena (ac_arena s)) →
  bit (a_bitmap (fk_arena (ac_arena s))) x = true → ¬ scanned (nwords s) (AtLoad start i) (x / 64) →
  ∃ es s' y, aexec_events s (AScan t <$> es) = Ret s' ∧ ac_tasks s' !! t = Some (TGot f y).
Proof.
  revert s i. induction k as [|k IH]; intros s i Hi Ht Hpc Hk Hx Hb Hns; pose proof (ai_arena _ _ Hi) as Ha.
  - exfalso. apply Hns. pose proof (pc_of_ok _ _ t (fv_conc _ Ha)) as Hok. rewrite Hpc in Hok. simpl in Hok.
    apply (scanned_all _ _ _ _ _ (fv_conc _ Ha)); [simpl; lia| |done]. unfold nwords in Hk. simpl. lia.
  - destruct (load_event _ t start i Ha Hpc) as (w & Hlk & Hu & Hidx & He); [unfold nwords in Hk; lia|].
    destruct (load_step _ t start i Ha Hpc) as (w' & Hlk' & _ & Hs); [unfold nwords in Hk; lia|].
    assert (w' = w) as -> by congruence.
    assert (Hfr : missed_slot (scan_state (ac_arena s)) (ScanLoad t w) = false).
    { simpl. rewrite Hpc. simpl. rewrite Hidx, Hlk. apply andb_negb_r. }
    pose proof (task_scan_ok s t f (ScanLoad t w) _ _ eq_refl He Hs) as Hstep.
    set (s1 := set_task _ t _) in Hstep.
    destruct (task_scan_inv lim s t f (ScanLoad t w) Hi Ht ltac:(done)) as (s1' & Hs1 & Hi1).
    assert (s1' = s1) as -> by congruence.
    assert (Ht1 : ac_tasks s1 !! t = Some (TScanning f)) by apply lookup_insert_eq.
    assert (Hpc1 : pc_of (scan_state (ac_arena s1)) t = if w =? 0 then AtLoad start (i + 1) else AtFetchAnd start i w).
    { unfold pc_of. simpl. by rewrite lookup_insert_eq. }
    destruct (Z.eqb_spec w 0) as [->|Hne].
    + destruct (IH s1 (i + 1)) as (es & s' & y & Hrun & Hy); try done.
      * unfold nwords in *. simpl. lia.
      * intros Hsc. apply Hns. rewrite <- Hpc.
        apply (scan_progress _ _ _ _ t x (fv_conc _ Ha) He); [done|done|lia|done|].
        unfold pc_of. simpl. by rewrite lookup_insert_eq.
      * exists (ScanLoad t 0 :: es), s', y. split; [|done]. rewrite (aexec_scan_cons _ _ _ _ _ Ht), Hstep. done.
    + pose proof (ai_arena _ _ Hi1) as Ha1. pose proof (fetch_event _ t start i w Ha1 Hpc1 Hlk) as Hf1.
      pose proof (fetch_step _ t start i w Ha1 Hpc1 Hlk) as Hf2.
      exists [ScanLoad t w; FetchAnd t]. eexists _, _. rewrite (aexec_scan_cons _ _ _ _ _ Ht), Hstep. cbn [obind].
      rewrite (aexec_scan_cons _ _ _ _ _ Ht1), (task_scan_ok s1 t f (FetchAnd t) _ _ eq_refl Hf1 Hf2).
      split; [done|]. simpl. rewrite lookup_insert_eq, decide_True by done. done.
Qed.
(** Events of task [t]. *)
Definition own_event (t : nat) (ev : aevent) : Prop :=
  match ev with ATask t' | AScan t' _ | APoll t' => t' = t | _ => False end.

(** Task [t], left alone, gets a slot. *)
Definition gets s (t : nat) : Prop :=
  ∃ evs s' f y, Forall (own_event t) evs ∧ aexec_events s evs = Ret s' ∧ ac_tasks s' !! t = Some (TGot f y).

Lemma gets_step s s' t ev : own_event t ev → aexec_event s ev = Ret s' → gets s' t → gets s t.
Proof.
  intros Ho He (evs & s1 & f & y & Hall & Hrun & Hy). exists (ev :: evs), s1, f, y. split; [by constructor|].
  split; [|done].
  unfold aexec_events in *. simpl. by rewrite He.
Qed.

Section chain.
Context (lim : nat) (Hlim : Z.of_nat lim ≤ usize_MAX) (t : nat) (x : Z).

(** Slot [x] is free. *)
Definition avail s : Prop :=
  ainv lim s ∧ 0 ≤ x < a_slot_count (fk_arena (ac_arena s)) ∧ bit (a_bitmap (fk_arena (ac_arena s))) x = true.

Lemma gets_task s k :
  avail s → ac_tasks s !! t = Some k → ac_arena (task_step s t k) = ac_arena s →
  (avail (task_step s t k) → gets (task_step s t k) t) → gets s t.
Proof.
  intros (Hi & Hx & Hb) Ht Ha Hk. apply (gets_step s (task_step s t k) t (ATask t)); [done| |].
  - simpl. by rewrite Ht.
  - apply Hk. split; [by apply task_step_inv|by rewrite Ha].
Qed.

Lemma gets_scanning s f :
  avail s → ac_tasks s !! t = Some (TScanning f) → pc_of (scan_state (ac_arena s)) t = Idle → gets s t.
Proof.
  intros (Hi & Hx & Hb) Ht Hpc. pose proof (ai_arena _ _ Hi) as Ha.
  assert (Hn : (slot_count (a_bitmap (fk_arena (ac_arena s))) =? 0) = false).
  { apply Z.eqb_neq. pose proof (ci_count _ _ (fv_conc _ Ha)). simpl in *. lia. }
  assert (∃ s1 start, aexec_event s (AScan t (BeginAlloc t)) = Ret s1 ∧ ac_tasks s1 !! t = Some (TScanning f) ∧
    pc_of (scan_state (ac_arena s1)) t = AtLoad start 0 ∧ nwords s1 = nwords s ∧ avail s1)
    as (s1 & start & He & Ht1 & Hpc1 & Hw & Hi1 & Hx1 & Hb1).
  { destruct (task_scan_inv lim s t f (BeginAlloc t) Hi Ht ltac:(done)) as (s1 & Hs & Hi1). exists s1.
    unfold aexec_event. rewrite Ht, Hs. revert Hs. unfold task_scan. rewrite bool_decide_true by done. simpl.
    rewrite Hpc. simpl. rewrite Hn. simpl. unfold scan_step. simpl. rewrite Hpc. simpl. rewrite Hn. simpl.
    intros [= <-]. eexists. split; [done|]. split; [apply lookup_insert_eq|].
    split; [unfold pc_of; simpl; by rewrite lookup_insert_eq|]. done. }
  pose proof (wf_scan_pos _ (ci_wf _ _ (fv_conc _ Ha))) as Hsw. simpl in Hsw.
  apply (gets_step s s1 t (AScan t (BeginAlloc t))); [done..|].
  destruct (ascan_run lim (Z.to_nat (nwords s)) s1 t f start 0 x) as (es & s' & y & Hrun & Hy); try done.
  { rewrite Hw. unfold nwords. lia. }
  { intros (j & Hj & _). lia. }
  exists (AScan t <$> es), s', f, y. split; [|done]. apply Forall_fmap, Forall_true. done.
Qed.

Lemma avail_idle s k : avail s → ac_tasks s !! t = Some k → (∀ f, k ≠ TScanning f) → pc_of (scan_state (ac_arena s)) t = Idle.
Proof. intros [Hi _]. by apply (ai_idle _ _ Hi). Qed.

Lemma gets_start s : avail s → ac_tasks s !! t = Some TStart → gets s t.
Proof.
  intros Hav Ht. simpl. pose proof (avail_idle s TStart Hav Ht ltac:(done)) as Hpc.
  assert (Hreg : ∃ f, ac_tasks (task_step s t TStart) !! t = Some (TRegistered f) ∧
    ac_arena (task_step s t TStart) = ac_arena s).
  { simpl. destruct (notified_owned _) as [f n]. exists f. split; [apply lookup_insert_eq|done]. }
  destruct Hreg as (f & Hf & Ha1). apply (gets_task s TStart); [done..|].
  set (s1 := task_step s t TStart) in *. intros Hav1.
  assert (Hen : ac_tasks (task_step s1 t (TRegistered f)) !! t = Some (TEnabled f) ∧
    ac_arena (task_step s1 t (TRegistered f)) = ac_arena s1).
  { simpl. destruct (notified_enable _ _) as [b n]. split; [apply lookup_insert_eq|done]. }
  destruct Hen as (He & Ha2). apply (gets_task s1 (TRegistered f)); [done..|].
  set (s2 := task_step s1 t (TRegistered f)) in *. intros Hav2.
  apply (gets_task s2 (TEnabled f)); [done..|]. intros Hav3.
  apply (gets_scanning _ f); [done|apply lookup_insert_eq|].
  simpl. by rewrite Ha2, Ha1.
Qed.

Lemma gets_retired s f : avail s → ac_tasks s !! t = Some (TRetired f) → gets s t.
Proof.
  intros Hav Ht. apply (gets_task s (TRetired f)); [done..|]. intros Hav1.
  apply gets_start; [done|apply lookup_insert_eq].
Qed.

Lemma gets_woken s f : avail s → ac_tasks s !! t = Some (TWoken f) → gets s t.
Proof.
  intros Hav Ht. apply (gets_task s (TWoken f)); [done..|]. intros Hav1.
  apply (gets_task _ (TChecking f)); [done|apply lookup_insert_eq|done|]. intros Hav2.
  destruct (0 <? fo_count (ac_slot (task_step s t (TWoken f)))) eqn:E.
  - apply (gets_task _ (TPassing f)); [done| |done|].
    + simpl in *. by rewrite E, lookup_insert_eq.
    + intros Hav3. apply (gets_retired _ f); [done|apply lookup_insert_eq].
  - apply (gets_retired _ f); [done|]. simpl in *. by rewrite E, lookup_insert_eq.
Qed.

(** A parked task whose poll is ready gets a slot. *)
Lemma gets_ready s f s' :
  avail s → ac_tasks s !! t = Some (TParked f) → aexec_event s (APoll t) = Ret s' →
  ac_tasks s' !! t = Some (TWoken f) → gets s t.
Proof.
  intros (Hi & Hx & Hb) Ht He Hw. apply (gets_step s s' t (APoll t)); [done..|]. apply (gets_woken _ f); [|done].
  destruct (poll_step lim s t f Hi Ht) as (s1 & He1 & Hi1). assert (s1 = s') as -> by congruence. split; [done|].
  revert He. simpl. rewrite Ht. unfold poll_access. destruct (notified_poll _ _) as [b n]. by intros [= <-].
Qed.
End chain.
End alone.

(** ** Properties *)

(** Nothing is under way: every task is parked and no release is on its way to
    the waiters. *)
Definition settled {N : NotifyLib} (s : aconc) : Prop :=
  ¬ in_flight s ∧ ∀ t k, ac_tasks s !! t = Some k → ∃ f, k = TParked f.

(** Polling [t] ends its wait. *)
Definition poll_ready {P : Profile} {N : NotifyLib} (s : aconc) (t : nat) : Prop :=
  ∃ f s', ac_tasks s !! t = Some (TParked f) ∧ aexec_event s (APoll t) = Ret s' ∧ ac_tasks s' !! t = Some (TWoken f).

Section claims.
Context {P : Profile} {N : NotifyLib} {NL : NotifyLaws N} {AL : Alert}.

Lemma told_ready s t f :
  ac_tasks s !! t = Some (TParked f) → (ns_futs (view s) !! f = Some FTold ∨ ns_futs (view s) !! f = Some FDone) →
  poll_ready s t.
Proof.
  intros Ht Hf. exists f. simpl. rewrite Ht. unfold poll_access.
  pose proof (nview_poll (fo_notify (ac_slot s)) f) as He. fold (view s) in He.
  destruct (notified_poll _ f) as [b n]. simpl in He. eexists. split; [done|]. split; [done|]. simpl.
  rewrite lookup_insert_eq. assert (b = true) as ->; [|done]. unfold ns_poll in He.
  destruct Hf as [Hf|Hf]; rewrite Hf in He; by simplify_eq.
Qed.

Lemma settled_ready lim s t f x :
  alert = true → ainv lim s → settled s → ac_tasks s !! t = Some (TParked f) → 0 ≤ x < a_slot_count (fk_arena (ac_arena s)) →
  bit (a_bitmap (fk_arena (ac_arena s))) x = true → ∃ t', poll_ready s t'.
Proof.
  intros Hon Hi [Hnf Hset] Ht Hx Hb.
  assert (Hown : is_Some (ns_futs (view s) !! f)) by (apply (fo_own _ _ (ai_futs _ _ Hi)); by exists t, (TParked f)).
  destruct Hown as [g Hg]. destruct g.
  - by apply (ai_init _ _ Hi t (TParked f) f) in Hg.
  - destruct (ai_alert _ _ Hi Hon t x) as [[i Hi']|[?|(t2 & k2 & f2 & H2 & Hk2)]]; [by exists (TParked f), f| |done|].
    + destruct (proj1 (fo_own _ _ (ai_futs _ _ Hi) i)) as (t' & k' & Ht' & Hk'); [by rewrite Hi'|].
      destruct (Hset t' k' Ht') as [f' ->]. exists t'. eapply told_ready; [done|]. left. simpl in Hk'. congruence.
    + destruct (Hset t2 k2 H2) as [f' ->]. naive_solver.
  - exists t. eapply told_ready; [done|by left].
  - exists t. eapply told_ready; [done|by right].
Qed.
End claims.

(** C6: waiting for a slot of a shared async fixed arena.  Let tasks wait with
    [allocate_async] and others allocate, write, release and cancel, all of it
    access by access and in any order, with stale loads: no access panics, slots
    are exclusive and their contents safe as without waiters, and the counter of
    waiters is the number of registrations counted in.  On a run in which no
    load of a waiting task finds a word empty that has a free slot at that time
    (as on hardware where an atomic update orders the loads after it), no wake-up
    is lost either: a task that waits although a slot is free in a word it has
    scanned has a wake-up on the way, a future told, a release before
    [notify_one], or a woken task about to pass it on.  So when nothing is under
    way, a free slot and a parked task mean that the wait of some task is over at
    its next poll, and that this task alone can go on to get a slot.  The
    orderings in the code do not exclude the other runs: see
    [AsyncFixedConcRace]. *)
Theorem conc_async_no_lost_wake {P : Profile} {N : NotifyLib} {NL : NotifyLaws N} a w evs :
  fixed_inv a w [] → a_wake_handle a = true → Z.of_nat (length evs) ≤ usize_MAX →
  ∃ s, aexec_events (aconc_start a w) evs = Ret s ∧ conc_promise (ac_arena s) ∧
    fo_count (ac_slot s) = count_in counted (ac_tasks s) ∧
    (run_sees (aconc_start a w) evs = true →
       (∀ t x, misses s t x → pending s) ∧
       (settled s → ∀ t f x, ac_tasks s !! t = Some (TParked f) → 0 ≤ x < a_slot_count (fk_arena (ac_arena s)) →
          bit (a_bitmap (fk_arena (ac_arena s))) x = true → ∃ t', poll_ready s t' ∧ gets s t')).
Proof.
  intros Ha Hh Hlen.
  destruct (aexec_events_inv (AL := false) 0 _ evs ltac:(lia) (aconc_start_inv a w Ha Hh)) as (s & Hs & Hi); [done|].
  exists s. split; [done|]. split; [apply finv_promise, (ai_arena _ _ Hi)|]. split; [apply (ai_count _ _ Hi)|].
  intros Hsees. clear Hi.
  destruct (aexec_events_inv (AL := true) 0 _ evs ltac:(lia) (aconc_start_inv a w Ha Hh)) as (s' & Hs' & Hi); [done|].
  assert (s' = s) as -> by congruence. split; [by apply (ai_alert _ _ Hi)|]. intros Hset t f x Ht Hx Hb.
  destruct (settled_ready (AL := true) _ s t f x eq_refl Hi Hset Ht Hx Hb) as [t' Hr]. exists t'. split; [done|].
  destruct Hr as (f' & s' & Ht' & He & Hw). by apply (gets_ready (AL := true) (0 + length evs) ltac:(lia) t' x s f' s').
Qed.

(** An arena of one slot with a wake handle. *)
Definition one_slot_builder : FixedArenaBuilder Standard := @with_slot_capacity demo_platform 1 16.

Definition one_slot_arena : ArenaInner :=
  Eval vm_compute in
    match @build_inner dev demo_alloc Standard one_slot_builder true with
    | Ret (Ok a) => a
    | _ => demo_arena
    end.

Lemma one_slot_arena_inv w : fixed_inv one_slot_arena w [].
Proof.
  pose proof (@build_inner_ok dev demo_alloc demo_alloc_laws Standard one_slot_builder true) as H.
  replace (build_inner one_slot_builder true) with (Ret (Ok one_slot_arena) : outcome (result BuildError _)) in H by (by vm_compute).
  apply H. unfold builder_args. simpl. split_and!; done || ulia.
Qed.

(** The slot is taken by thread 1; task 2 arms, scans and parks; the slot comes
    back and its release wakes task 2. *)
Definition take_slot : list aevent :=
  AArena <$> [KScan (BeginAlloc 1); KScan (ScanLoad 1 1); KScan (FetchAnd 1); KStep 0 false; KStep 0 false; KStep 0 false].
Definition give_back : list aevent := AArena <$> [KRelease 0; KStep 0 false; KStep 0 false; KCountFree; KCountBytes].
Definition wait_events : list aevent :=
  take_slot ++ [AStart 2; ATask 2; ATask 2; ATask 2; AScan 2 (BeginAlloc 2); AScan 2 (ScanLoad 2 0); AScan 2 (ScanEnd 2)] ++
  give_back ++ [AWake; ANotify].

(** Task 2 is parked, alone, the slot is free and nothing is on its way. *)
Definition parked_alone {N : NotifyLib} (s : aconc) : Prop :=
  ac_tasks s = {[2%nat := TParked 0]} ∧ bit (a_bitmap (fk_arena (ac_arena s))) 0 = true ∧
  a_slot_count (fk_arena (ac_arena s)) = 1 ∧ total (ac_arena s) = 0%nat ∧ ac_notifies s = 0%nat.

Definition parked_check (r : outcome (@aconc list_notify)) : bool :=
  match r with Ret s => bool_decide (parked_alone s) | _ => false end.

Lemma parked_settled {N : NotifyLib} (s : aconc) : parked_alone s → settled s.
Proof.
  intros (Ht & _ & _ & Htot & Hn). unfold total in Htot. split; [unfold in_flight; lia|]. intros t k. rewrite Ht.
  intros [_ <-]%lookup_singleton_Some. by exists 0%nat.
Qed.

Lemma conc_async_no_lost_wake_witness :
  ∃ s t', @aexec_events dev list_notify (aconc_start one_slot_arena (mkWorld ∅ [])) wait_events = Ret s ∧
    parked_alone s ∧ @gets dev list_notify s t'.
Proof.
  destruct (@conc_async_no_lost_wake dev list_notify list_notify_laws one_slot_arena (mkWorld ∅ []) wait_events
    (one_slot_arena_inv _) eq_refl ltac:(unfold usize_MAX; simpl; lia)) as (s & Hs & _ & _ & Hset).
  destruct (Hset ltac:(vm_compute; reflexivity)) as [_ Hset']. clear Hset. rename Hset' into Hset.
  assert (Hck : parked_check (@aexec_events dev list_notify (aconc_start one_slot_arena (mkWorld ∅ [])) wait_events) = true)
    by (vm_compute; reflexivity).
  rewrite Hs in Hck. simpl in Hck. apply bool_decide_eq_true in Hck as Hp.
  pose proof Hp as (Ht & Hb & Hc & _).
  destruct (Hset (parked_settled s Hp) 2%nat 0%nat 0) as (t' & _ & Hg); [rewrite Ht; apply lookup_singleton_eq|rewrite Hc; lia|exact Hb|].
  exists s, t'. split; [exact Hs|]. split; [exact Hp|exact Hg].
Defined.
