(* ===== verification/AsyncFixedConcRace.v ===== *)
(** * A scan that reads a stale word ([src/bitmap.rs], [src/async_alloc.rs])

    The promise of [AsyncFixedConcProps] about wake-ups needs the scan of a
    waiting task to see the releases that did not see the task.  [prepare] adds to the counter with
    [Release] and the scan then loads the words with [Relaxed]; a release sets
    its bit with [Release] and then loads the counter with [Acquire].  Nothing
    orders the load on either side behind the write before it, so both loads may
    miss the other's write.  With such a load the task is stranded. *)

From stdpp Require Import prelude numbers list gmap.
From S2P Require Import Prelude Tasks Usize Errors Bitmap BitmapRange BitmapConc SlotSpec Metrics Memory Config Buffer.
From S2P Require Import FixedArena FixedProps FixedConc FixedConcSeq AsyncFixed AsyncNotify AsyncFixedConc.
From S2P Require Import AsyncFixedConcProps.
Local Open Scope Z_scope.

(** Task 2 has enabled its future; thread 1 gives the only slot back and sees no
    waiter; task 2 counts itself in, reads the word as it was before the
    release, and parks. *)
Definition strand_events : list aevent :=
  take_slot ++ [AStart 2; ATask 2; ATask 2] ++ give_back ++ [AWake; ATask 2] ++
  [AScan 2 (BeginAlloc 2); AScan 2 (ScanLoad 2 0); AScan 2 (ScanEnd 2)].

(** Task 2 waits in the queue of the [Notify] and the slot is free. *)
Definition stranded (s : @aconc list_notify) : Prop :=
  parked_alone s ∧ ns_futs (fo_notify (ac_slot s)) = {[0%nat := FWaiting]}.

Definition strand_check (r : outcome (@aconc list_notify)) : bool :=
  match r with Ret s => bool_decide (stranded s) | _ => false end.

Lemma stranded_poll {P : Profile} s :
  stranded s → ∃ s', aexec_event s (APoll 2) = Ret s' ∧ stranded s'.
Proof.
  intros [(Ht & Hb & Hc & Htot & Hn) Hf]. simpl. rewrite Ht, lookup_singleton_eq. unfold poll_access. simpl.
  unfold ns_poll.
  rewrite Hf, lookup_singleton_eq.
  eexists. split; [done|]. split; [|done]. split; [|done]. simpl. by rewrite Ht, insert_singleton_eq.
Qed.

Lemma stranded_quiet s : stranded s → ¬ pending (NL := list_notify_laws) s.
Proof.
  intros [Hp Hf]. destruct (parked_settled s Hp) as [Hnf Hset]. intros [[i Hi]|[?|(t & k & f & Ht & Hk)]]; [|done|].
  - unfold view in Hi. simpl in Hi. rewrite Hf in Hi. by apply lookup_singleton_Some in Hi as [_ ?].
  - destruct (Hset t k Ht) as [f' ->]. naive_solver.
Qed.

Lemma stranded_polls {P : Profile} s n :
  stranded s → ∃ s', aexec_events s (replicate n (APoll 2)) = Ret s' ∧ stranded s'.
Proof.
  revert s. induction n as [|n IH]; intros s Hs; [by exists s|]. unfold aexec_events in *. simpl replicate.
  cbn [ofoldM].
  destruct (stranded_poll s Hs) as (s1 & -> & Hs1). by apply IH.
Qed.

Lemma strand_check_ok :
  strand_check (@aexec_events dev list_notify (aconc_start one_slot_arena (mkWorld ∅ [])) strand_events) = true.
Proof. vm_compute. reflexivity. Qed.

(** C21: with a relaxed load the wake-up is lost.  From a built arena of one slot
    there is a run in which the scan of a waiting task reads the one word as it
    was before a release that saw no waiter: it ends with the slot free, the task
    parked and no wake-up told or on its way, and polling the task any number of
    times leaves it so. *)
Theorem relaxed_scan_strands :
  run_sees (N := list_notify) (P := dev) (aconc_start one_slot_arena (mkWorld ∅ [])) strand_events = false ∧
  ∃ s, @aexec_events dev list_notify (aconc_start one_slot_arena (mkWorld ∅ [])) strand_events = Ret s ∧
    settled s ∧ stranded s ∧ ¬ pending (NL := list_notify_laws) s ∧
    ∀ n, ∃ s', @aexec_events dev list_notify s (replicate n (APoll 2)) = Ret s' ∧ stranded s'.
Proof.
  pose proof strand_check_ok as Hck. revert Hck.
  generalize (@aexec_events dev list_notify (aconc_start one_slot_arena (mkWorld ∅ [])) strand_events).
  intros [s| |] Hck; [|discriminate Hck..]. apply bool_decide_eq_true in Hck.
  split; [by vm_compute|]. exists s. split; [done|].
  split; [apply parked_settled, Hck|]. split; [done|]. split; [by apply stranded_quiet|]. intros n.
  by apply stranded_polls.
Qed.
