(* ===== verification/AsyncConc.v ===== *)
(** * [src/async_alloc.rs]: registrations and wakes at the same time

    The buddy waiters with [prepare], [revoke], [drop] and [buddy_wake] as
    sequences of accesses to the shared state (the mutex of an order and the
    queue it protects, the counter, the head timestamp, the state and the
    sender of an entry, the streak), interleaved at will between any number of
    registrations and of threads that release blocks.  [Async] runs each
    operation as one step; here a step is one access. *)

From stdpp Require Import prelude numbers list gmap.
From S2P Require Import Prelude Usize Errors Memory Config Buffer Buddy Async.
Local Open Scope Z_scope.

(** ** Where a registration is *)

(** What gives a registration up: [revoke] or [Drop]. *)
Inductive ending := ByRevoke | ByDrop.

(** A location is named after the access it is in front of.  [Idle]: between
    two calls.  In [prepare]: the lock, [push_back], [fetch_add], the store of
    the head timestamp, the release of the lock.  In [revoke] and [Drop], after
    a won exchange: [take_tx], [fetch_sub], the drop of the sender.  [DRx]: the
    fields of a dropped registration. *)
Inductive rloc :=
| Idle
| PLock (e : nat)
| PPush (e : nat)
| PCount
| PHead (prev : Z)
| PUnlock
| RTake (k : ending) (e : nat)
| RSub (k : ending) (tx : option nat)
| RDropTx (k : ending) (tx : option nat)
| DRx
| Dropped.

Record rtask := mkRtask { rt_reg : BuddyRegistration; rt_loc : rloc }.

Inductive call := CPrepare | CRevoke | CPoll | CDrop.

Definition set_registered (reg : BuddyRegistration) (b : bool) : BuddyRegistration :=
  mkBuddyRegistration (br_entry reg) (br_rx reg) (br_order reg) b (br_pending_entry reg).

Definition take_pending (reg : BuddyRegistration) : BuddyRegistration :=
  mkBuddyRegistration (br_entry reg) (br_rx reg) (br_order reg) (br_registered reg) None.

(** The end of [revoke] and of [Drop]. *)
Definition ended (k : ending) (reg : BuddyRegistration) : rtask :=
  match k with
  | ByRevoke => mkRtask (set_registered reg false) Idle
  | ByDrop => mkRtask reg DRx
  end.

(** ** Where a wake is *)

(** In the loop over the queue of [wi_order]: the pop, the load of the state,
    the exchange; after a won exchange the [fetch_sub], the scan and the store
    of [update_head_timestamp], [drop(queue)], [take_tx], [send], and the load
    and store of [update_streak].  [WLeave]: the lock released at the end of a
    loop that delivered nothing. *)
Inductive wloc :=
| WPop
| WLoad (e : nat)
| WExchange (e : nat)
| WSub (e : nat)
| WScan (e : nat) (todo : list nat)
| WStore (e : nat) (ts : Z)
| WUnlock (e : nat)
| WTake (e : nat)
| WSend (tx : option nat)
| WStreak
| WStreakStore (current : Z)
| WLeave.

Record witer := mkWiter { wi_freed : Z; wi_order : Z; wi_rest : list Z; wi_pops : Z }.

(** Scoring: the orders left to look at and the candidates so far, in front of
    the load of a counter or of a timestamp; then the candidates to serve. *)
Inductive wtask :=
| WScore (freed streak : Z) (todo : list Z) (candidates : list (Z * Z))
| WScoreTs (freed streak order count : Z) (todo : list Z) (candidates : list (Z * Z))
| WNext (freed : Z) (candidates : list Z) (pops : Z)
| WIn (i : witer) (l : wloc).

(** ** The shared state *)

(** Who holds the guard of a queue. *)
Inductive holder := HReg (id : nat) | HWake (w : nat).

Section conc.
Context {P : Profile} {O : OneshotLib}.

Record wconc := mkWconc {
  wc_nw : NotifyWaiters;
  wc_locks : gmap Z holder;
  wc_regs : gmap nat rtask;
  wc_wakes : gmap nat wtask;
}.

Definition set_nw (s : wconc) (n : NotifyWaiters) : wconc :=
  mkWconc n (wc_locks s) (wc_regs s) (wc_wakes s).
Definition set_locks (s : wconc) (l : gmap Z holder) : wconc :=
  mkWconc (wc_nw s) l (wc_regs s) (wc_wakes s).
Definition set_reg (s : wconc) (id : nat) (r : rtask) : wconc :=
  mkWconc (wc_nw s) (wc_locks s) (<[id := r]> (wc_regs s)) (wc_wakes s).
Definition set_wake (s : wconc) (w : nat) (t : wtask) : wconc :=
  mkWconc (wc_nw s) (wc_locks s) (wc_regs s) (<[w := t]> (wc_wakes s)).
Definition end_wake (s : wconc) (w : nat) : wconc :=
  mkWconc (wc_nw s) (wc_locks s) (wc_regs s) (delete w (wc_wakes s)).

(** [count.fetch_add(1)], with the previous value. *)
Definition count_add (n : NotifyWaiters) (order : Z) : outcome (Z * NotifyWaiters) :=
  let! slot := index (nw_buddy_orders n) order in
  Ret (bo_count slot,
       set_order n order (mkBuddyOrderSlot (bo_queue slot) (wrap (bo_count slot + 1)) (bo_head_timestamp slot))).

Definition store_head (n : NotifyWaiters) (order ts : Z) : outcome NotifyWaiters :=
  let! slot := index (nw_buddy_orders n) order in
  Ret (set_order n order (mkBuddyOrderSlot (bo_queue slot) (bo_count slot) ts)).

Definition drop_rx (n : NotifyWaiters) (rx : option nat) : outcome NotifyWaiters :=
  match rx with
  | Some c => let! ch := get (nw_chans n) c in Ret (set_chan n c (chan_drop_rx ch))
  | None => Ret n
  end.

(** The exchange [LIVE] to [REVOKED] of a registration. *)
Definition exchange_revoked (s : wconc) (id : nat) (reg : BuddyRegistration) (k : ending)
    : outcome wconc :=
  match br_entry reg with
  | Some e =>
      let! (won, n) := compare_exchange (wc_nw s) e REVOKED in
      Ret (set_reg (set_nw s n) id (if won : bool then mkRtask reg (RTake k e) else ended k reg))
  | None => Ret (set_reg s id (ended k reg))
  end.

(** ** Steps of a registration *)

Definition start_call (s : wconc) (id : nat) (reg : BuddyRegistration) (c : call) : outcome wconc :=
  match c with
  | CPrepare =>
      match br_registered reg, br_pending_entry reg with
      | false, Some e => Ret (set_reg s id (mkRtask (take_pending reg) (PLock e)))
      | _, _ => Ret s
      end
  | CRevoke => if br_registered reg then exchange_revoked s id reg ByRevoke else Ret s
  | CPoll =>
      let! (_, reg', n) := registration_poll (wc_nw s) reg in
      Ret (set_reg (set_nw s n) id (mkRtask reg' Idle))
  | CDrop =>
      if br_registered reg then exchange_revoked s id reg ByDrop
      else Ret (set_reg s id (mkRtask reg DRx))
  end.

(** A lock that is held is waited for: the step does nothing. *)
Definition reg_access (s : wconc) (id : nat) (r : rtask) : outcome wconc :=
  let reg := rt_reg r in
  let order := br_order reg in
  let n := wc_nw s in
  match rt_loc r with
  | Idle | Dropped => Ret s
  | PLock e =>
      match wc_locks s !! order with
      | Some _ => Ret s
      | None => Ret (set_reg (set_locks s (<[order := HReg id]> (wc_locks s))) id (mkRtask reg (PPush e)))
      end
  | PPush e =>
      let! slot := index (nw_buddy_orders n) order in
      let! n := set_queue n order (bo_queue slot ++ [e]) in
      Ret (set_reg (set_nw s n) id (mkRtask reg PCount))
  | PCount =>
      let! (prev, n) := count_add n order in
      Ret (set_reg (set_nw s n) id (mkRtask reg (PHead prev)))
  | PHead prev =>
      let! n :=
        (match prev =? 0, br_entry reg with
         | true, Some e => let! entry := get (nw_entries n) e in store_head n order (we_timestamp entry)
         | _, _ => Ret n
         end) in
      Ret (set_reg (set_nw s n) id (mkRtask reg PUnlock))
  | PUnlock =>
      Ret (set_reg (set_locks s (delete order (wc_locks s))) id (mkRtask (set_registered reg true) Idle))
  | RTake k e =>
      let! (tx, n) := take_tx n e in
      Ret (set_reg (set_nw s n) id (mkRtask reg (RSub k tx)))
  | RSub k tx =>
      let! n := count_sub n order in
      Ret (set_reg (set_nw s n) id (mkRtask reg (RDropTx k tx)))
  | RDropTx k tx =>
      let! n := drop_tx n tx in
      Ret (set_reg (set_nw s n) id (ended k reg))
  | DRx =>
      let! n := drop_rx n (br_rx reg) in
      Ret (set_reg (set_nw s n) id (mkRtask reg Dropped))
  end.

(** ** Steps of a wake *)

Definition start_wake (s : wconc) (w : nat) (freed_order : Z) : outcome wconc :=
  let n := wc_nw s in
  let! last := usz_sub (Z.of_nat (length (nw_buddy_orders n))) 1 in
  Ret (set_wake s w (WScore freed_order (nw_streak_state n) (seqZ 0 (Z.min freed_order last + 1)) [])).

(** The inner loop and the delivery, for one order. *)
Definition wake_iter (s : wconc) (w : nat) (i : witer) (l : wloc) : outcome wconc :=
  let n := wc_nw s in
  let order := wi_order i in
  let at_ (s : wconc) l := set_wake s w (WIn i l) in
  let next (s : wconc) := set_wake s w (WNext (wi_freed i) (wi_rest i) (wi_pops i)) in
  match l with
  | WPop =>
      if wi_pops i <? MAX_POPS_PER_WAKE then
        let! slot := index (nw_buddy_orders n) order in
        match bo_queue slot with
        | [] => Ret (at_ s WLeave)
        | e :: queue =>
            let! n := set_queue n order queue in
            Ret (set_wake (set_nw s n) w
                   (WIn (mkWiter (wi_freed i) order (wi_rest i) (wi_pops i + 1)) (WLoad e)))
        end
      else Ret (at_ s WLeave)
  | WLoad e =>
      let! entry := get (nw_entries n) e in
      Ret (at_ s (if decide (we_state entry = LIVE) then WExchange e else WPop))
  | WExchange e =>
      let! (won, n) := compare_exchange n e WOKEN in
      Ret (at_ (set_nw s n) (if won : bool then WSub e else WPop))
  | WSub e =>
      let! n := count_sub n order in
      let! slot := index (nw_buddy_orders n) order in
      Ret (at_ (set_nw s n) (WScan e (bo_queue slot)))
  | WScan e todo =>
      match todo with
      | [] => Ret (at_ s (WStore e NO_WAITERS_TIMESTAMP))
      | e' :: todo =>
          let! entry := get (nw_entries n) e' in
          Ret (at_ s (if decide (we_state entry = LIVE) then WStore e (we_timestamp entry) else WScan e todo))
      end
  | WStore e ts =>
      let! n := store_head n order ts in
      Ret (at_ (set_nw s n) (WUnlock e))
  | WUnlock e => Ret (at_ (set_locks s (delete order (wc_locks s))) (WTake e))
  | WTake e =>
      let! (tx, n) := take_tx n e in
      Ret (at_ (set_nw s n) (WSend tx))
  | WSend tx =>
      match tx with
      | Some c =>
          let! (ok, n) := send n c (wi_freed i) in
          Ret (if ok : bool then at_ (set_nw s n) WStreak else next (set_nw s n))
      | None => Ret (next s)
      end
  | WStreak => Ret (at_ s (WStreakStore (nw_streak_state n)))
  | WStreakStore current =>
      let streak := nw_streak_state (update_streak (set_streak n current) order) in
      Ret (next (set_nw s (set_streak n streak)))
  | WLeave => Ret (next (set_locks s (delete order (wc_locks s))))
  end.

Definition wake_access (s : wconc) (w : nat) (t : wtask) : outcome wconc :=
  let n := wc_nw s in
  match t with
  | WScore freed streak todo cs =>
      match todo with
      | [] => Ret (set_wake s w (WNext freed (sort_by_age (streak_ban streak cs)).*1 0))
      | order :: todo =>
          let! slot := index (nw_buddy_orders n) order in
          Ret (set_wake s w (if bo_count slot =? 0 then WScore freed streak todo cs
                             else WScoreTs freed streak order (bo_count slot) todo cs))
      end
  | WScoreTs freed streak order count todo cs =>
      let! slot := index (nw_buddy_orders n) order in
      let ts := bo_head_timestamp slot in
      Ret (set_wake s w (WScore freed streak todo
             (if ts =? NO_WAITERS_TIMESTAMP then cs else cs ++ [(order, effective_age ts order count)])))
  | WNext freed cs pops =>
      match cs with
      | [] => Ret (end_wake s w)
      | order :: rest =>
          if MAX_POPS_PER_WAKE <=? pops then Ret (end_wake s w)
          else match wc_locks s !! order with
               | Some _ => Ret s
               | None => Ret (set_wake (set_locks s (<[order := HWake w]> (wc_locks s))) w
                                (WIn (mkWiter freed order rest pops) WPop))
               end
      end
  | WIn i l => wake_iter s w i l
  end.

(** ** Interleavings *)

(** A registration is made, a call is made on one that is between calls, a
    release starts a wake, or a registration or a wake makes its next access.
    An event that does not apply changes nothing. *)
Inductive wevent :=
| NRegister (order now : Z)
| NCall (id : nat) (c : call)
| NReg (id : nat)
| NWake (w : nat) (freed_order : Z)
| NStep (w : nat).

Definition wexec_event (s : wconc) (ev : wevent) : outcome wconc :=
  match ev with
  | NRegister order now =>
      let! (reg, n) := buddy_register (wc_nw s) order now in
      match br_entry reg with
      | Some id => Ret (set_reg (set_nw s n) id (mkRtask reg Idle))
      | None => Ret s
      end
  | NCall id c =>
      match wc_regs s !! id with
      | Some (mkRtask reg Idle) => start_call s id reg c
      | _ => Ret s
      end
  | NReg id => match wc_regs s !! id with Some r => reg_access s id r | None => Ret s end
  | NWake w freed_order =>
      match wc_wakes s !! w with Some _ => Ret s | None => start_wake s w freed_order end
  | NStep w => match wc_wakes s !! w with Some t => wake_access s w t | None => Ret s end
  end.

Definition wexec_events (s : wconc) (evs : list wevent) : outcome wconc := ofoldM wexec_event s evs.

Definition wconc_start (n : NotifyWaiters) : wconc := mkWconc n ∅ ∅ ∅.
End conc.

Arguments wconc : clear implicits.
Arguments wconc {_}.
