(* ===== verification/AsyncConcInv.v ===== *)
(** * The invariant of the interleaved waiters

    Every registration has a place: not queued yet, in the queue of its order,
    in the hands of one wake, or out.  The place, the registration, the entry
    and the channel of a name are related by [entry_ok], which speaks of that
    name only; the queues, the counters, the locks and the wakes are related to
    the places.  An access changes one name. *)

From stdpp Require Import prelude numbers list gmap.
From S2P Require Import Prelude Usize Errors Memory Config Buffer Buddy Async AsyncConc.
Local Open Scope Z_scope.

(** How a wake holds an entry: popped and not settled; settled and still
    counted; counted off with the sender in place; with the sender taken. *)
Inductive grip := GHand | GSub | GTake | GSend.

Inductive place :=
| PlNew
| PlQueue (o : Z)
| PlGrip (w : nat) (o : Z) (g : grip)
| PlDone.

#[export] Instance grip_eq_dec : EqDecision grip.
Proof. solve_decision. Defined.

#[export] Instance place_eq_dec : EqDecision place.
Proof. solve_decision. Defined.

Definition iter_hold (l : wloc) : option (nat * grip) :=
  match l with
  | WLoad e | WExchange e => Some (e, GHand)
  | WSub e => Some (e, GSub)
  | WScan e _ | WStore e _ | WUnlock e | WTake e => Some (e, GTake)
  | WSend (Some c) => Some (c, GSend)
  | _ => None
  end.

(** The entry a wake holds, the order it holds it for, and how. *)
Definition wake_hold (t : wtask) : option (nat * Z * grip) :=
  match t with
  | WIn i l => (λ eg, (eg.1, wi_order i, eg.2)) <$> iter_hold l
  | _ => None
  end.

(** The order whose guard a registration or a wake holds. *)
Definition reg_guard (r : rtask) : option Z :=
  match rt_loc r with
  | PPush _ | PCount | PHead _ | PUnlock => Some (br_order (rt_reg r))
  | _ => None
  end.

Definition wake_guard (t : wtask) : option Z :=
  match t with
  | WIn i (WTake _ | WSend _ | WStreak | WStreakStore _) => None
  | WIn i _ => Some (wi_order i)
  | _ => None
  end.

(** Whether an entry is part of the counter of its order. *)
Definition owes (p : place) (r : rtask) (e : WaiterEntry) : bool :=
  match we_state e with
  | LIVE => br_registered (rt_reg r) || match rt_loc r with PHead _ | PUnlock => true | _ => false end
  | REVOKED => match rt_loc r with RTake _ _ | RSub _ _ => true | _ => false end
  | WOKEN => match p with PlGrip _ _ GSub => true | _ => false end
  end.

Section inv.
Context {P : Profile} {O : OneshotLib} {OL : OneshotLaws O}.
Implicit Types (pl : gmap nat place) (n : NotifyWaiters).

(** The receiver, as long as there is one, is open. *)
Definition rx_fine (id : nat) (rx : option nat) (l : rloc) (ch : Chan) : Prop :=
  (rx = None ∨ rx = Some id) ∧ (l = Dropped ∨ rx = None ∨ rx_open ch = true).

(** A registration with nothing left to do but to be polled and dropped. *)
Definition at_rest (l : rloc) : Prop := l = Idle ∨ l = DRx ∨ l = Dropped.

Inductive entry_ok (id : nat) (o : Z) : place → rtask → WaiterEntry → Chan → Prop :=
| ok_new l ts ch :
    at_rest l → rx_fine id (Some id) l ch → (l = Idle → chan_poll ch = false) →
    entry_ok id o PlNew (mkRtask (mkBuddyRegistration (Some id) (Some id) o false (Some id)) l)
      (mkWaiterEntry LIVE (Some id) ts) ch
| ok_arming l ts ch :
    l = PLock id ∨ l = PPush id → rx_fine id (Some id) l ch → chan_poll ch = false →
    entry_ok id o PlNew (mkRtask (mkBuddyRegistration (Some id) (Some id) o false None) l)
      (mkWaiterEntry LIVE (Some id) ts) ch
| ok_pushed l ts ch :
    l = PCount ∨ (∃ prev, l = PHead prev) ∨ l = PUnlock → rx_fine id (Some id) l ch →
    chan_poll ch = false →
    entry_ok id o (PlQueue o) (mkRtask (mkBuddyRegistration (Some id) (Some id) o false None) l)
      (mkWaiterEntry LIVE (Some id) ts) ch
| ok_armed p ts ch :
    p = PlQueue o ∨ (∃ w, p = PlGrip w o GHand) → rx_fine id (Some id) Idle ch →
    chan_poll ch = false →
    entry_ok id o p (mkRtask (mkBuddyRegistration (Some id) (Some id) o true None) Idle)
      (mkWaiterEntry LIVE (Some id) ts) ch
| ok_revoking p l tx ts ch :
    p = PlQueue o ∨ (∃ w, p = PlGrip w o GHand) ∨ p = PlDone →
    (∃ k, (l = RTake k id ∧ tx = Some id) ∨ (l = RSub k (Some id) ∧ tx = None) ∨
          (l = RDropTx k (Some id) ∧ tx = None)) →
    rx_fine id (Some id) l ch →
    entry_ok id o p (mkRtask (mkBuddyRegistration (Some id) (Some id) o true None) l)
      (mkWaiterEntry REVOKED tx ts) ch
| ok_revoked p l rx b ts ch :
    p = PlQueue o ∨ (∃ w, p = PlGrip w o GHand) ∨ p = PlDone →
    at_rest l → (l = Idle → b = false) → rx_fine id rx l ch →
    entry_ok id o p (mkRtask (mkBuddyRegistration (Some id) rx o b None) l)
      (mkWaiterEntry REVOKED None ts) ch
| ok_won w g l rx b tx ts ch :
    g ≠ GHand → tx = (if decide (g = GSend) then None else Some id) →
    at_rest l → (b = false ∨ rx = Some id) → rx_fine id rx l ch →
    entry_ok id o (PlGrip w o g) (mkRtask (mkBuddyRegistration (Some id) rx o b None) l)
      (mkWaiterEntry WOKEN tx ts) ch
| ok_told l rx b ts ch :
    at_rest l → (b = false ∨ rx = Some id) → rx_fine id rx l ch →
    (l = Dropped ∨ rx = None ∨ chan_poll ch = true) →
    entry_ok id o PlDone (mkRtask (mkBuddyRegistration (Some id) rx o b None) l)
      (mkWaiterEntry WOKEN None ts) ch.

(** ** The data *)

(** [id] counts towards order [o]. *)
Definition counts pl (regs : gmap nat rtask) (entries : gmap nat WaiterEntry) (o : Z) (id : nat) : Prop :=
  ∃ p r e, pl !! id = Some p ∧ regs !! id = Some r ∧ entries !! id = Some e ∧
    owes p r e = true ∧ br_order (rt_reg r) = o.

Record data_inv pl (regs : gmap nat rtask) n : Prop := {
  di_entry id r : regs !! id = Some r →
    0 ≤ br_order (rt_reg r) < Z.of_nat (length (nw_buddy_orders n)) ∧
    ∃ p e ch, pl !! id = Some p ∧ nw_entries n !! id = Some e ∧ nw_chans n !! id = Some ch ∧
      entry_ok id (br_order (rt_reg r)) p r e ch;
  di_dom id : is_Some (pl !! id) → is_Some (regs !! id);
  di_queue o slot : 0 ≤ o → nw_buddy_orders n !! Z.to_nat o = Some slot →
    NoDup (bo_queue slot) ∧ ∀ id, id ∈ bo_queue slot ↔ pl !! id = Some (PlQueue o);
  di_count o slot : 0 ≤ o → nw_buddy_orders n !! Z.to_nat o = Some slot →
    ∃ X : gset nat, bo_count slot = wrap (Z.of_nat (size X)) ∧
      ∀ id, id ∈ X ↔ counts pl regs (nw_entries n) o id;
}.

Lemma entry_ok_queue id o o' r e ch : entry_ok id o (PlQueue o') r e ch → o' = o.
Proof. inversion 1; naive_solver. Qed.

Lemma entry_ok_order id o p r e ch : entry_ok id o p r e ch → br_order (rt_reg r) = o.
Proof. by inversion 1. Qed.

(** What an access may do to a queue and to the place of [id]. *)
Definition queue_change (o : Z) (id : nat) (q q' : list nat) (p p' : place) : Prop :=
  (q' = q ∧ (p' = PlQueue o ↔ p = PlQueue o)) ∨
  (q' = q ++ [id] ∧ p ≠ PlQueue o ∧ p' = PlQueue o) ∨
  (q = id :: q' ∧ p = PlQueue o ∧ p' ≠ PlQueue o).

Lemma queue_change_ok pl o id q q' p p' :
  pl !! id = Some p → queue_change o id q q' p p' →
  NoDup q ∧ (∀ i, i ∈ q ↔ pl !! i = Some (PlQueue o)) →
  NoDup q' ∧ (∀ i, i ∈ q' ↔ <[id := p']> pl !! i = Some (PlQueue o)).
Proof.
  intros Hp [[-> Hpp]|[(-> & Hn & ->)|(-> & -> & Hn)]] [Hnd Hq].
  - split; [done|]. intros i. rewrite Hq, lookup_insert. case_decide; naive_solver.
  - split.
    + apply NoDup_app. split_and!; [done| |apply NoDup_singleton].
      intros i Hi%Hq ->%list_elem_of_singleton. naive_solver.
    + intros i. rewrite elem_of_app, list_elem_of_singleton, Hq, lookup_insert. case_decide; naive_solver.
  - apply NoDup_cons in Hnd as [Hnin Hnd]. split; [done|]. intros i.
    specialize (Hq i). rewrite elem_of_cons in Hq. rewrite lookup_insert. case_decide; naive_solver.
Qed.

(** [counts] at the other names is as before. *)
Lemma counts_ne pl regs entries id p r e o i :
  i ≠ id →
  counts (<[id := p]> pl) (<[id := r]> regs) (<[id := e]> entries) o i ↔ counts pl regs entries o i.
Proof. intros Hne. unfold counts. by rewrite !lookup_insert_ne by done. Qed.

Lemma counts_eq pl regs entries id p r e o :
  counts (<[id := p]> pl) (<[id := r]> regs) (<[id := e]> entries) o id ↔
  owes p r e = true ∧ br_order (rt_reg r) = o.
Proof. unfold counts. rewrite !lookup_insert_eq. naive_solver. Qed.

Lemma wrap_succ (x : Z) : wrap (wrap x + 1) = wrap (x + 1).
Proof. unfold wrap. by rewrite Zplus_mod_idemp_l. Qed.

Lemma wrap_pred (x : Z) : wrap (wrap x - 1) = wrap (x - 1).
Proof. unfold wrap. by rewrite Zminus_mod_idemp_l. Qed.

(** The one way data changes: the parts of one name, and the slot of its
    order. *)
Lemma data_update pl regs n n' id r p e ch r' p' e' ch' slot slot' :
  data_inv pl regs n → regs !! id = Some r → pl !! id = Some p →
  nw_entries n !! id = Some e → nw_chans n !! id = Some ch →
  br_order (rt_reg r') = br_order (rt_reg r) →
  nw_buddy_orders n !! Z.to_nat (br_order (rt_reg r)) = Some slot →
  nw_buddy_orders n' = set_index (nw_buddy_orders n) (br_order (rt_reg r)) slot' →
  nw_entries n' = <[id := e']> (nw_entries n) → nw_chans n' = <[id := ch']> (nw_chans n) →
  entry_ok id (br_order (rt_reg r)) p' r' e' ch' →
  queue_change (br_order (rt_reg r)) id (bo_queue slot) (bo_queue slot') p p' →
  bo_count slot' = (if owes p r e then if owes p' r' e' then bo_count slot else wrap (bo_count slot - 1)
                    else if owes p' r' e' then wrap (bo_count slot + 1) else bo_count slot) →
  data_inv (<[id := p']> pl) (<[id := r']> regs) n'.
Proof.
  intros [He Hd Hq Hc] Hr Hp Hen Hch Ho Hslot Hor Hen' Hch' Hok Hqc Hcc.
  destruct (He id r Hr) as (Hrange & p0 & e0 & ch0 & ? & ? & ? & Hok0). simplify_eq.
  set (o := br_order (rt_reg r)) in *.
  assert (Hlk : ∀ o' s', 0 ≤ o' → nw_buddy_orders n' !! Z.to_nat o' = Some s' →
    (o' = o ∧ s' = slot') ∨ (o' ≠ o ∧ nw_buddy_orders n !! Z.to_nat o' = Some s')).
  { intros o' s' Ho'. rewrite Hor, lookup_set_index by done. case_decide; naive_solver. }
  constructor.
  - intros i ri Hi. rewrite Hor, length_set_index, Hen', Hch'. rewrite lookup_insert in Hi.
    rewrite !lookup_insert. case_decide; simplify_eq; [|by apply He].
    rewrite Ho. split; [done|]. by eexists _, _, _.
  - intros i. rewrite !lookup_insert. case_decide; [done|]. apply Hd.
  - intros o' s' Ho' Hs'. destruct (Hlk o' s' Ho' Hs') as [[-> ->]|[Hne Hs]].
    + eapply queue_change_ok; [done|done|]. by apply Hq.
    + destruct (Hq o' s' Ho' Hs) as [Hnd Hqq]. split; [done|]. intros i. rewrite Hqq, lookup_insert.
      case_decide as Hii; [|done]. subst. split; intros Hpl; simplify_eq.
      * by apply entry_ok_queue in Hok0.
      * by apply entry_ok_queue in Hok.
  - intros o' s' Ho' Hs'. rewrite Hen'. destruct (Hlk o' s' Ho' Hs') as [[-> ->]|[Hne Hs]].
    + destruct (Hc o slot Ho' Hslot) as (X & HX & HXi).
      assert (Hold : id ∈ X ↔ owes p r e = true) by (rewrite HXi; unfold counts; naive_solver).
      exists (if owes p' r' e' then {[id]} ∪ X else X ∖ {[id]}). split.
      * rewrite Hcc, HX. destruct (owes p r e), (owes p' r' e').
        -- by rewrite subseteq_union_1_L by set_solver.
        -- rewrite wrap_pred, size_difference by set_solver. rewrite size_singleton.
           assert (size X ≠ 0%nat) by (apply size_non_empty_iff; set_solver). f_equal. lia.
        -- rewrite wrap_succ, size_union by set_solver. rewrite size_singleton. f_equal. lia.
        -- do 3 f_equal. apply set_eq. set_solver.
      * intros i. destruct (decide (i = id)) as [->|Hi].
        -- rewrite counts_eq, Ho. destruct (owes p' r' e'); set_solver.
        -- rewrite counts_ne by done. rewrite <- HXi. destruct (owes p' r' e'); set_solver.
    + destruct (Hc o' s' Ho' Hs) as (X & HX & HXi). exists X. split; [done|]. intros i.
      destruct (decide (i = id)) as [->|Hi]; [|by rewrite counts_ne].
      rewrite counts_eq, Ho, HXi. unfold counts. naive_solver.
Qed.

(** Accesses that leave the slot as it is. *)
Lemma data_keep pl regs n n' id r p e ch r' p' e' ch' :
  data_inv pl regs n → regs !! id = Some r → pl !! id = Some p →
  nw_entries n !! id = Some e → nw_chans n !! id = Some ch →
  br_order (rt_reg r') = br_order (rt_reg r) →
  nw_buddy_orders n' = nw_buddy_orders n →
  nw_entries n' = <[id := e']> (nw_entries n) → nw_chans n' = <[id := ch']> (nw_chans n) →
  entry_ok id (br_order (rt_reg r)) p' r' e' ch' →
  (p' = PlQueue (br_order (rt_reg r)) ↔ p = PlQueue (br_order (rt_reg r))) →
  owes p' r' e' = owes p r e →
  data_inv (<[id := p']> pl) (<[id := r']> regs) n'.
Proof.
  intros Hi Hr Hp He Hc Ho Hor Hen Hch Hok Hq Hw.
  destruct (di_entry _ _ _ Hi id r Hr) as [Hrange _].
  destruct (lookup_Z_lt_is_Some _ _ Hrange) as [slot Hs].
  eapply (data_update _ _ n); try done.
  - rewrite Hor. unfold set_index. symmetry. by apply list_insert_id.
  - by left.
  - rewrite Hw. by destruct (owes p r e).
Qed.

(** ** The whole state *)

Definition in_range (k o : Z) : Prop := 0 ≤ o < k.

Definition wake_ok (k : Z) (regs : gmap nat rtask) (t : wtask) : Prop :=
  match t with
  | WScore _ _ todo cs => Forall (in_range k) todo ∧ Forall (in_range k) cs.*1
  | WScoreTs _ _ o _ todo cs => in_range k o ∧ Forall (in_range k) todo ∧ Forall (in_range k) cs.*1
  | WNext _ cs _ => Forall (in_range k) cs
  | WIn i l =>
      in_range k (wi_order i) ∧ Forall (in_range k) (wi_rest i) ∧
      match l with
      | WScan _ todo => ∀ e, e ∈ todo → is_Some (regs !! e)
      | WSend tx => is_Some tx
      | _ => True
      end
  end.

(** A guard is held by the thread that is inside it. *)
Definition locks_ok (locks : gmap Z holder) (regs : gmap nat rtask) (wakes : gmap nat wtask) : Prop :=
  (∀ o id, locks !! o = Some (HReg id) ↔ regs !! id ≫= reg_guard = Some o) ∧
  (∀ o w, locks !! o = Some (HWake w) ↔ wakes !! w ≫= wake_guard = Some o).

Definition grips_ok pl (wakes : gmap nat wtask) : Prop :=
  ∀ w id o g, pl !! id = Some (PlGrip w o g) ↔ wakes !! w ≫= wake_hold = Some (id, o, g).

Record conc_inv (k : Z) pl (s : wconc) : Prop := {
  cn_pos : 0 < k ≤ usize_MAX;
  cn_len : Z.of_nat (length (nw_buddy_orders (wc_nw s))) = k;
  cn_data : data_inv pl (wc_regs s) (wc_nw s);
  cn_grips : grips_ok pl (wc_wakes s);
  cn_locks : locks_ok (wc_locks s) (wc_regs s) (wc_wakes s);
  cn_wake w t : wc_wakes s !! w = Some t → wake_ok k (wc_regs s) t;
}.

(** What a thread [h] may do to the locks: nothing, take one, release one. *)
Definition locks_change (h : holder) (locks locks' : gmap Z holder) (g g' : option Z) : Prop :=
  (locks' = locks ∧ g' = g) ∨
  (∃ o, locks !! o = None ∧ locks' = <[o := h]> locks ∧ g = None ∧ g' = Some o) ∨
  (∃ o, locks' = delete o locks ∧ g = Some o ∧ g' = None).

Lemma locks_change_reg locks locks' (regs : gmap nat rtask) wakes id r' :
  locks_ok locks regs wakes →
  locks_change (HReg id) locks locks' (regs !! id ≫= reg_guard) (reg_guard r') →
  locks_ok locks' (<[id := r']> regs) wakes.
Proof.
  intros [Hr Hw] Hch. pose proof (λ o, Hr o id) as Hid.
  split; intros o x; [specialize (Hr o x)|specialize (Hw o x)];
    destruct Hch as [[-> Hg]|[(o1 & Hn & -> & Hg & Hg')|(o1 & -> & Hg & Hg')]];
    rewrite ?lookup_insert, ?lookup_delete; repeat case_decide; simplify_eq; simpl; rewrite ?Hg, ?Hg' in *;
    try done; try (pose proof (Hid o)); try (pose proof (Hid o1)); naive_solver.
Qed.

Lemma locks_change_wake locks locks' regs (wakes : gmap nat wtask) w (t' : option wtask) :
  locks_ok locks regs wakes →
  locks_change (HWake w) locks locks' (wakes !! w ≫= wake_guard) (t' ≫= wake_guard) →
  locks_ok locks' regs (partial_alter (λ _, t') w wakes).
Proof.
  intros [Hr Hw] Hch. pose proof (λ o, Hw o w) as Hid.
  split; intros o x; [specialize (Hr o x)|specialize (Hw o x)];
    destruct Hch as [[-> Hg]|[(o1 & Hn & -> & Hg & Hg')|(o1 & -> & Hg & Hg')]];
    rewrite ?lookup_insert, ?lookup_delete, ?lookup_partial_alter;
    repeat case_decide; simplify_eq; simpl; rewrite ?Hg, ?Hg' in *;
    try done; try (pose proof (Hid o)); try (pose proof (Hid o1)); naive_solver.
Qed.

(** What a wake [w] may do to what it holds: it picks up [id], lets go of it,
    or holds it in another way. *)
Definition grip_change (w id : nat) (h h' : option (nat * Z * grip)) (p p' : place) : Prop :=
  ((h = None ∧ ∀ w o g, p ≠ PlGrip w o g) ∨ (∃ o g, h = Some (id, o, g) ∧ p = PlGrip w o g)) ∧
  ((h' = None ∧ ∀ w o g, p' ≠ PlGrip w o g) ∨ (∃ o g, h' = Some (id, o, g) ∧ p' = PlGrip w o g)).

Lemma grip_change_ok pl wakes w id p p' (t' : option wtask) :
  grips_ok pl wakes → pl !! id = Some p →
  grip_change w id (wakes !! w ≫= wake_hold) (t' ≫= wake_hold) p p' →
  grips_ok (<[id := p']> pl) (partial_alter (λ _, t') w wakes).
Proof.
  intros Hg Hp [Hold Hnew] w1 id1 o1 g1. pose proof (Hg w1 id1 o1 g1) as H1.
  pose proof (Hg w id1 o1 g1) as H2.
  rewrite lookup_insert, lookup_partial_alter. repeat case_decide; simplify_eq; naive_solver.
Qed.

Lemma grip_keep_ok pl wakes w (t' : option wtask) :
  grips_ok pl wakes → t' ≫= wake_hold = wakes !! w ≫= wake_hold →
  grips_ok pl (partial_alter (λ _, t') w wakes).
Proof.
  intros Hg Hh w1 id1 o1 g1. rewrite (Hg w1 id1 o1 g1), lookup_partial_alter. case_decide; [|done].
  subst. by rewrite Hh.
Qed.

Lemma wake_ok_mono k (regs : gmap nat rtask) id r t : wake_ok k regs t → wake_ok k (<[id := r]> regs) t.
Proof.
  destruct t as [| | |i l]; simpl; try done. intros (? & ? & Hl). split_and!; [done..|].
  destruct l; try done. intros x Hx. rewrite lookup_insert. case_decide; [done|]. by apply Hl.
Qed.

(** ** A step of a registration, and of a wake *)

Lemma conc_reg k pl s n' locks' id r' p' :
  conc_inv k pl s → data_inv (<[id := p']> pl) (<[id := r']> (wc_regs s)) n' →
  length (nw_buddy_orders n') = length (nw_buddy_orders (wc_nw s)) →
  (∀ w o g, pl !! id = Some (PlGrip w o g) ↔ p' = PlGrip w o g) →
  locks_change (HReg id) (wc_locks s) locks' (wc_regs s !! id ≫= reg_guard) (reg_guard r') →
  conc_inv k (<[id := p']> pl) (mkWconc n' locks' (<[id := r']> (wc_regs s)) (wc_wakes s)).
Proof.
  intros [Hk Hl Hd Hg Hlk Hw] Hd' Hlen Hgr Hlc. constructor; simpl; [done|by rewrite Hlen|done| | |].
  - intros w id1 o g. rewrite lookup_insert. case_decide; [|apply Hg]. subst.
    pose proof (Hg w id1 o g). pose proof (Hgr w o g). naive_solver.
  - by eapply locks_change_reg.
  - intros w t Ht. by eapply wake_ok_mono, Hw.
Qed.

Lemma conc_wake k pl pl' s n' locks' w (t' : option wtask) :
  conc_inv k pl s → data_inv pl' (wc_regs s) n' →
  length (nw_buddy_orders n') = length (nw_buddy_orders (wc_nw s)) →
  grips_ok pl' (partial_alter (λ _, t') w (wc_wakes s)) →
  locks_change (HWake w) (wc_locks s) locks' (wc_wakes s !! w ≫= wake_guard) (t' ≫= wake_guard) →
  from_option (wake_ok k (wc_regs s)) True t' →
  conc_inv k pl' (mkWconc n' locks' (wc_regs s) (partial_alter (λ _, t') w (wc_wakes s))).
Proof.
  intros [Hk Hl Hd Hg Hlk Hw] Hd' Hlen Hgr Hlc Ht. constructor; simpl; [done|by rewrite Hlen|done|done| |].
  - by eapply locks_change_wake.
  - intros w1 t1. rewrite lookup_partial_alter. case_decide; [|apply Hw]. by intros ->.
Qed.
End inv.

(** The side conditions of [entry_ok]. *)
Ltac esolve :=
  repeat match goal with
  | H : conc_inv _ _ _ |- _ => clear H
  | H : entry_ok _ _ _ _ _ _ |- _ => clear H
  | H : _ !! _ = Some _ |- _ => clear H
  | H : Forall _ _ |- _ => clear H
  | H : in_range _ _ |- _ => clear H
  | H : ∀ _ : nat, _ ↔ _ |- _ => clear H
  end; unfold at_rest, rx_fine in *; naive_solver.
