(* ===== verification/AsyncConcSteps.v ===== *)
(** * Every access of the interleaved waiters keeps the invariant

    One lemma per access or group of accesses; [event_inv] puts them
    together. *)

From stdpp Require Import prelude numbers list gmap.
From S2P Require Import Prelude Usize Errors Memory Config Buffer Buddy Async AsyncScore AsyncConc AsyncConcInv.
Local Open Scope Z_scope.

Section steps.
Context {P : Profile} {O : OneshotLib} {OL : OneshotLaws O}.
Implicit Types (pl : gmap nat place) (n : NotifyWaiters) (s : wconc).

(** An access of the registration [id] that leaves the slots alone. *)
Lemma reg_keep k pl s id r p e ch n' locks' r' e' ch' :
  conc_inv k pl s → wc_regs s !! id = Some r → pl !! id = Some p →
  nw_entries (wc_nw s) !! id = Some e → nw_chans (wc_nw s) !! id = Some ch →
  nw_buddy_orders n' = nw_buddy_orders (wc_nw s) →
  nw_entries n' = <[id := e']> (nw_entries (wc_nw s)) →
  nw_chans n' = <[id := ch']> (nw_chans (wc_nw s)) →
  entry_ok id (br_order (rt_reg r)) p r' e' ch' →
  owes p r' e' = owes p r e →
  locks_change (HReg id) (wc_locks s) locks' (reg_guard r) (reg_guard r') →
  conc_inv k (<[id := p]> pl) (mkWconc n' locks' (<[id := r']> (wc_regs s)) (wc_wakes s)).
Proof.
  intros Hi Hr Hp He Hc Hor Hen Hch Hok Hw Hl.
  apply (conc_reg k pl s); try done.
  - eapply (data_keep _ _ (wc_nw s)); try done; [apply Hi|by eapply entry_ok_order].
  - by rewrite Hor.
  - intros. rewrite Hp. naive_solver.
  - by rewrite Hr.
Qed.

(** An access of a registration to the slot of its order. *)
Lemma reg_slot k pl s id r p p' e ch n' r' slot slot' :
  conc_inv k pl s → wc_regs s !! id = Some r → pl !! id = Some p →
  nw_entries (wc_nw s) !! id = Some e → nw_chans (wc_nw s) !! id = Some ch →
  nw_buddy_orders (wc_nw s) !! Z.to_nat (br_order (rt_reg r)) = Some slot →
  n' = set_order (wc_nw s) (br_order (rt_reg r)) slot' →
  entry_ok id (br_order (rt_reg r)) p' r' e ch →
  queue_change (br_order (rt_reg r)) id (bo_queue slot) (bo_queue slot') p p' →
  (∀ w o g, p = PlGrip w o g ↔ p' = PlGrip w o g) →
  bo_count slot' = (if owes p r e then if owes p' r' e then bo_count slot else wrap (bo_count slot - 1)
                    else if owes p' r' e then wrap (bo_count slot + 1) else bo_count slot) →
  reg_guard r' = reg_guard r →
  conc_inv k (<[id := p']> pl) (set_reg (set_nw s n') id r').
Proof.
  intros Hi Hr Hp He Hc Hs -> Hok Hq Hg Hw Hl.
  apply (conc_reg k pl s); try done.
  - eapply (data_update _ _ (wc_nw s)); try done; simpl; [apply Hi|by eapply entry_ok_order|..];
      symmetry; by apply insert_id.
  - apply length_set_index.
  - intros. rewrite Hp, <- Hg. naive_solver.
  - rewrite Hr. by left.
Qed.

(** The parts of a registration, and its slot. *)
Lemma reg_parts k pl s id r :
  conc_inv k pl s → wc_regs s !! id = Some r →
  ∃ p e ch slot, pl !! id = Some p ∧ nw_entries (wc_nw s) !! id = Some e ∧
    nw_chans (wc_nw s) !! id = Some ch ∧
    nw_buddy_orders (wc_nw s) !! Z.to_nat (br_order (rt_reg r)) = Some slot ∧
    in_range k (br_order (rt_reg r)) ∧ entry_ok id (br_order (rt_reg r)) p r e ch.
Proof.
  intros Hi Hr. destruct (di_entry _ _ _ (cn_data _ _ _ Hi) _ _ Hr) as (Ho & p & e & ch & Hp & He & Hc & Hok).
  destruct (lookup_Z_lt_is_Some _ _ Ho) as [slot ?].
  exists p, e, ch, slot. unfold in_range. by rewrite <- (cn_len _ _ _ Hi).
Qed.

Lemma get_Some {A} (m : gmap nat A) x a : m !! x = Some a → get m x = Ret a.
Proof. unfold get. by intros ->. Qed.

(** ** A registration *)

Lemma data_register pl regs n id o ts :
  data_inv pl regs n → regs !! id = None → pl !! id = None →
  0 ≤ o < Z.of_nat (length (nw_buddy_orders n)) →
  data_inv (<[id := PlNew]> pl)
    (<[id := mkRtask (mkBuddyRegistration (Some id) (Some id) o false (Some id)) Idle]> regs)
    (set_entry (set_chan n id chan_new) id (mkWaiterEntry LIVE (Some id) ts)).
Proof.
  intros [He Hd Hq Hc] Hr Hp Ho. constructor; simpl.
  - intros i r. rewrite !lookup_insert. case_decide; [|apply He].
    intros [= <-]. subst. simpl. split; [done|]. eexists _, _, _. split_and!; [done..|].
    constructor; [by left| |intros; apply chan_poll_new].
    split; [by right|]. right. right. apply rx_open_new.
  - intros i. rewrite !lookup_insert. case_decide; [done|apply Hd].
  - intros o1 slot Ho1 Hs. destruct (Hq o1 slot Ho1 Hs) as [Hnd Hm]. split; [done|].
    intros i. rewrite Hm, lookup_insert. case_decide; [|done]. subst. rewrite Hp. naive_solver.
  - intros o1 slot Ho1 Hs. destruct (Hc o1 slot Ho1 Hs) as (X & HX & Hm). exists X. split; [done|].
    intros i. rewrite Hm. destruct (decide (i = id)) as [->|Hne]; [|by rewrite counts_ne].
    rewrite counts_eq. unfold counts. rewrite Hp. naive_solver.
Qed.


Lemma register_inv k pl s order now :
  conc_inv k pl s → 0 ≤ order →
  ∃ s' pl', wexec_event s (NRegister order now) = Ret s' ∧ conc_inv k pl' s'.
Proof.
  intros Hi Ho. pose proof Hi as [Hk Hl Hd Hg Hlk Hw]. simpl.
  unfold buddy_register. rewrite Hl, usz_sub_ok by ulia. cbn [obind br_entry].
  set (id := fresh _). assert (Hid : wc_regs s !! id = None).
  { destruct (wc_regs s !! id) as [r|] eqn:Hr; [|done].
    destruct (di_entry _ _ _ Hd id r Hr) as (_ & p & e & ch & _ & He%elem_of_dom_2 & _).
    pose proof (is_fresh (dom (nw_entries (wc_nw s)) ∪ dom (nw_chans (wc_nw s)))). set_solver. }
  assert (Hpl : pl !! id = None).
  { destruct (pl !! id) eqn:Hp; [|done]. destruct (di_dom _ _ _ Hd id) as [? ?]; [by eexists|]. congruence. }
  eexists _, (<[id := PlNew]> pl). split; [done|].
  apply (conc_reg k pl s); try done.
  - apply data_register; try done; simpl; lia.
  - intros. rewrite Hpl. naive_solver.
  - rewrite Hid. by left.
Qed.

(** A step that keeps the slots: what is left is the new [entry_ok] and the
    counter. *)
Ltac rkeep :=
  eexists _, _; split; [done|];
  match goal with
  | Hi : conc_inv _ _ ?s, Hr : wc_regs ?s !! ?id = Some _ |- _ =>
      eapply (reg_keep _ _ s id); [exact Hi|exact Hr|done|done|done|..]; simpl; try done;
      try (by symmetry; apply insert_id); try (by left); try reflexivity
  end.

(** The parts of the registration at hand, by the shapes [entry_ok] allows. *)
Ltac rparts Hi Hr :=
  let p := fresh "p" in let e := fresh "e" in let ch := fresh "ch" in let slot := fresh "slot" in
  let Hok := fresh "Hok" in
  destruct (reg_parts _ _ _ _ _ Hi Hr) as (p & e & ch & slot & Hp & He & Hc & Hs & Ho & Hok);
  simpl in *; inversion Hok; subst; simpl in *; simplify_eq; try (by esolve).

(** The exchange of [revoke] and [Drop]. *)
Lemma exchange_inv k pl s id reg kd :
  conc_inv k pl s → wc_regs s !! id = Some (mkRtask reg Idle) → br_registered reg = true →
  ∃ s' pl', exchange_revoked s id reg kd = Ret s' ∧ conc_inv k pl' s'.
Proof.
  intros Hi Hr Hb. destruct reg as [en rx o b pend]. unfold exchange_revoked, compare_exchange.
  rparts Hi Hr; erewrite get_Some by done; simpl.
  - rkeep. apply ok_revoking; [naive_solver|by exists kd; left|esolve].
  - destruct kd; rkeep; (apply ok_won; [done|done|esolve..]).
  - destruct kd; rkeep; (apply ok_told; esolve).
Qed.

Lemma poll_inv k pl s id reg :
  conc_inv k pl s → wc_regs s !! id = Some (mkRtask reg Idle) →
  ∃ s' pl', start_call s id reg CPoll = Ret s' ∧ conc_inv k pl' s'.
Proof.
  intros Hi Hr. destruct reg as [en [c|] o b pend]; unfold start_call, registration_poll;
    rparts Hi Hr; try (assert (c = id) as -> by esolve);
    try (erewrite get_Some by done; simpl; destruct (chan_poll ch) eqn:Hpoll); simpl; try (by esolve).
  all: rkeep; try done.
  all: econstructor; try done.
  all: esolve.
Qed.

Lemma call_inv k pl s id reg c :
  conc_inv k pl s → wc_regs s !! id = Some (mkRtask reg Idle) →
  ∃ s' pl', start_call s id reg c = Ret s' ∧ conc_inv k pl' s'.
Proof.
  intros Hi Hr. destruct c; [| |by eapply poll_inv|].
  - simpl. destruct (br_registered reg) eqn:Hb; [by eexists _, _|].
    destruct (br_pending_entry reg) as [e0|] eqn:Hpe; [|by eexists _, _].
    destruct reg as [en rx o b pend]. rparts Hi Hr. rkeep. apply ok_arming; esolve.
  - simpl. destruct (br_registered reg) eqn:Hb; [by eapply exchange_inv|by eexists _, _].
  - simpl. destruct (br_registered reg) eqn:Hb; [by eapply exchange_inv|].
    destruct reg as [en rx o b pend]. rparts Hi Hr; rkeep; try done.
    all: econstructor; try done.
    all: esolve.
Qed.

(** A step that touches the slot. *)
Ltac rslot q :=
  eexists _, (<[_ := q]> _); split; [done|];
  match goal with
  | Hi : conc_inv _ _ ?s, Hr : wc_regs ?s !! ?id = Some _ |- _ =>
      eapply (reg_slot _ _ s id); [exact Hi|exact Hr|done|done|done|done|simpl; done|..]; simpl; try done
  end.

Lemma reg_access_inv k pl s id r :
  conc_inv k pl s → wc_regs s !! id = Some r →
  ∃ s' pl', reg_access s id r = Ret s' ∧ conc_inv k pl' s'.
Proof.
  intros Hi Hr. destruct r as [[en rx o b pend] l].
  unfold reg_access. destruct l; simpl; try (by eexists _, _).
  - destruct (wc_locks s !! o) eqn:Hlk; [by eexists _, _|]. rparts Hi Hr. rkeep.
    + apply ok_arming; esolve.
    + right. left. by exists o.
  - rparts Hi Hr. unfold set_queue. rewrite !(index_Some _ _ _ Hs). simpl. rslot (PlQueue o).
    + apply ok_pushed; esolve.
    + right. left. esolve.
  - rparts Hi Hr. unfold count_add. rewrite !(index_Some _ _ _ Hs). simpl. rslot (PlQueue o).
    + apply ok_pushed; esolve.
    + by left.
  - rparts Hi Hr. destruct (prev =? 0) eqn:Hprev; simpl.
    + erewrite get_Some by done. simpl. unfold store_head. rewrite !(index_Some _ _ _ Hs). simpl.
      rslot (PlQueue o); [apply ok_pushed; esolve|by left].
    + rkeep. apply ok_pushed; esolve.
  - rparts Hi Hr. rkeep.
    + apply ok_armed; esolve.
    + right. right. by exists o.
  - rparts Hi Hr. assert (e = id ∧ tx = Some id) as [-> ->] by esolve.
    unfold take_tx. erewrite get_Some by done. simpl. rkeep.
    apply ok_revoking; [done| |esolve]. exists k0. esolve.
  - rparts Hi Hr. assert (tx = Some id ∧ tx0 = None) as [-> ->] by esolve.
    unfold count_sub. rewrite !(index_Some _ _ _ Hs). simpl. rslot p.
    + apply ok_revoking; [done| |esolve]. exists k0. esolve.
    + by left.
  - rparts Hi Hr. assert (tx = Some id ∧ tx0 = None) as [-> ->] by esolve.
    unfold drop_tx. erewrite get_Some by done. simpl.
    destruct k0; rkeep; (apply ok_revoked; [done|esolve..| unfold rx_fine; rewrite rx_open_drop_tx; esolve]).
  - unfold drop_rx. destruct rx as [c|].
    + rparts Hi Hr; try (assert (c = id) as -> by esolve); (erewrite get_Some by done); simpl; rkeep; try done.
      all: econstructor; try done.
      all: esolve.
    + rparts Hi Hr; rkeep; try done.
      all: econstructor; try done.
      all: esolve.
Qed.

(** ** A wake *)

(** A step of a wake that holds what it held. *)
Lemma wake_same k pl s w t n' locks' (t' : option wtask) :
  conc_inv k pl s → wc_wakes s !! w = Some t →
  data_inv pl (wc_regs s) n' →
  length (nw_buddy_orders n') = length (nw_buddy_orders (wc_nw s)) →
  t' ≫= wake_hold = wake_hold t →
  locks_change (HWake w) (wc_locks s) locks' (wake_guard t) (t' ≫= wake_guard) →
  from_option (wake_ok k (wc_regs s)) True t' →
  conc_inv k pl (mkWconc n' locks' (wc_regs s) (partial_alter (λ _, t') w (wc_wakes s))).
Proof.
  intros Hi Ht Hd Hl Hh Hlk Hw. apply (conc_wake k pl pl s); try done.
  - apply grip_keep_ok; [apply Hi|]. by rewrite Ht.
  - by rewrite Ht.
Qed.

(** A step of a wake that changes how it holds [id]. *)
Lemma wake_touch k pl s w t n' (t' : option wtask) id r p p' e e' ch ch' slot slot' :
  conc_inv k pl s → wc_wakes s !! w = Some t → wc_regs s !! id = Some r → pl !! id = Some p →
  nw_entries (wc_nw s) !! id = Some e → nw_chans (wc_nw s) !! id = Some ch →
  nw_buddy_orders (wc_nw s) !! Z.to_nat (br_order (rt_reg r)) = Some slot →
  nw_buddy_orders n' = set_index (nw_buddy_orders (wc_nw s)) (br_order (rt_reg r)) slot' →
  nw_entries n' = <[id := e']> (nw_entries (wc_nw s)) →
  nw_chans n' = <[id := ch']> (nw_chans (wc_nw s)) →
  entry_ok id (br_order (rt_reg r)) p' r e' ch' →
  queue_change (br_order (rt_reg r)) id (bo_queue slot) (bo_queue slot') p p' →
  bo_count slot' = (if owes p r e then if owes p' r e' then bo_count slot else wrap (bo_count slot - 1)
                    else if owes p' r e' then wrap (bo_count slot + 1) else bo_count slot) →
  grip_change w id (wake_hold t) (t' ≫= wake_hold) p p' →
  t' ≫= wake_guard = wake_guard t →
  from_option (wake_ok k (wc_regs s)) True t' →
  conc_inv k (<[id := p']> pl)
    (mkWconc n' (wc_locks s) (wc_regs s) (partial_alter (λ _, t') w (wc_wakes s))).
Proof.
  intros Hi Ht Hr Hp He Hc Hs Hor Hen Hch Hok Hq Hw Hg Hlk Hwk.
  apply (conc_wake k pl _ s); try done.
  - rewrite <- (insert_id (wc_regs s) id r Hr).
    eapply (data_update _ _ (wc_nw s)); try done. apply Hi.
  - rewrite Hor. apply length_set_index.
  - eapply grip_change_ok; [apply Hi|done|]. by rewrite Ht.
  - left. by rewrite Ht.
Qed.

Lemma wake_parts k pl s w t id o g :
  conc_inv k pl s → wc_wakes s !! w = Some t → wake_hold t = Some (id, o, g) →
  ∃ r e ch slot, wc_regs s !! id = Some r ∧ pl !! id = Some (PlGrip w o g) ∧
    nw_entries (wc_nw s) !! id = Some e ∧ nw_chans (wc_nw s) !! id = Some ch ∧
    nw_buddy_orders (wc_nw s) !! Z.to_nat o = Some slot ∧
    br_order (rt_reg r) = o ∧ entry_ok id o (PlGrip w o g) r e ch.
Proof.
  intros Hi Ht Hh. assert (Hp : pl !! id = Some (PlGrip w o g)) by (apply (cn_grips _ _ _ Hi); by rewrite Ht).
  destruct (di_dom _ _ _ (cn_data _ _ _ Hi) id) as [r Hr]; [by eexists|].
  destruct (reg_parts _ _ _ _ _ Hi Hr) as (p & e & ch & slot & Hp' & He & Hc & Hs & Ho & Hok). simplify_eq.
  assert (br_order (rt_reg r) = o) as <- by (inversion Hok; naive_solver).
  by exists r, e, ch, slot.
Qed.

(** What the counters and queues do not depend on. *)
Lemma data_streak pl regs n z : data_inv pl regs n → data_inv pl regs (set_streak n z).
Proof. intros [He Hd Hq Hc]. by constructor. Qed.

Lemma data_head pl regs n o slot ts :
  data_inv pl regs n → in_range (Z.of_nat (length (nw_buddy_orders n))) o →
  nw_buddy_orders n !! Z.to_nat o = Some slot →
  data_inv pl regs (set_order n o (mkBuddyOrderSlot (bo_queue slot) (bo_count slot) ts)).
Proof.
  intros [He Hd Hq Hc] Ho Hs. constructor; simpl; [|done|..].
  - intros id r Hr. rewrite length_set_index. by apply He.
  - intros o1 s1 Ho1. rewrite lookup_set_index by done. case_decide; [|by apply Hq].
    subst. intros [= <-]. by apply (Hq o1 slot).
  - intros o1 s1 Ho1. rewrite lookup_set_index by done. case_decide; [|by apply Hc].
    subst. intros [= <-]. by apply (Hc o1 slot).
Qed.

(** A registration is not between its lock and its unlock while a wake holds
    the queue. *)
Lemma guard_excl k pl s w t id r o :
  conc_inv k pl s → wc_wakes s !! w = Some t → wake_guard t = Some o →
  wc_regs s !! id = Some r → reg_guard r ≠ Some o.
Proof.
  intros Hi Ht Hg Hr Hgr. destruct (cn_locks _ _ _ Hi) as [Hl1 Hl2].
  assert (wc_locks s !! o = Some (HReg id)) by (apply Hl1; by rewrite Hr).
  assert (wc_locks s !! o = Some (HWake w)) by (apply Hl2; by rewrite Ht).
  congruence.
Qed.

(** The steps of a wake, by what they touch. *)
Ltac wsame :=
  eexists _, _; split; [done|];
  match goal with
  | Hi : conc_inv _ _ ?s, Ht : wc_wakes ?s !! ?w = Some _ |- _ =>
      eapply (wake_same _ _ s w); [exact Hi|exact Ht|..]; simpl; try done; try (by left); try apply Hi
  end.

Ltac wtouch q sl :=
  match goal with
  | Hi : conc_inv _ ?pl ?s, Ht : wc_wakes ?s !! ?w = Some _, Hp : ?pl !! ?id = Some _ |- _ =>
      eexists _, (<[id := q]> pl); split; [done|];
      eapply (wake_touch _ _ s w _ _ _ id _ _ q _ _ _ _ _ sl);
        [exact Hi|exact Ht|done|exact Hp|done|done|done|..]; simpl; try done;
        try (by symmetry; apply insert_id); try (by symmetry; apply list_insert_id);
        try (by left); try reflexivity
  end.

Lemma wake_pop_inv k pl s w i :
  conc_inv k pl s → wc_wakes s !! w = Some (WIn i WPop) →
  ∃ s' pl', wake_iter s w i WPop = Ret s' ∧ conc_inv k pl' s'.
Proof.
  intros Hi Ht. destruct i as [f o rest pops]. pose proof (cn_wake _ _ _ Hi _ _ Ht) as (Ho & Hrest & _).
  simpl in *. destruct (pops <? MAX_POPS_PER_WAKE); [|by wsame].
  destruct (lookup_Z_lt_is_Some (nw_buddy_orders (wc_nw s)) o) as [slot Hs];
    [rewrite (cn_len _ _ _ Hi); apply Ho|].
  rewrite (index_Some _ _ _ Hs). simpl. destruct (bo_queue slot) as [|id q] eqn:Hq; [by wsame|].
  unfold set_queue. rewrite (index_Some _ _ _ Hs). simpl.
  destruct (di_queue _ _ _ (cn_data _ _ _ Hi) o slot) as [Hnd Hqi]; [apply Ho|done|].
  assert (Hp : pl !! id = Some (PlQueue o)) by (apply Hqi; rewrite Hq; by left).
  destruct (di_dom _ _ _ (cn_data _ _ _ Hi) id) as [[[en rx o' b pend] l] Hr]; [by eexists|].
  pose proof (guard_excl _ _ _ _ _ _ _ o Hi Ht eq_refl Hr) as Hex. unfold reg_guard in Hex. simpl in Hex.
  destruct (reg_parts _ _ _ _ _ Hi Hr) as (p & e & ch & slot0 & Hp' & He & Hc & Hs' & _ & Hok).
  simpl in *. simplify_eq. apply entry_ok_queue in Hok as Ho'. subst. simplify_eq.
  inversion Hok; subst; simpl in *; try (by esolve).
  all: wtouch (PlGrip w o' GHand) (mkBuddyOrderSlot q (bo_count slot) (bo_head_timestamp slot)).
  all: try match goal with |- entry_ok _ _ _ _ _ _ => econstructor; esolve end.
  all: try (right; right; done).
  all: try (split; [left; done|right; by eexists _, _]).
  all: try (by split_and!).
  all: by unfold owes; simpl; repeat case_match.
Qed.

(** The parts of the entry a wake holds, by the shapes [entry_ok] allows. *)
Ltac wparts Hi Ht :=
  let r := fresh "r" in let Hok := fresh "Hok" in
  destruct (wake_parts _ _ _ _ _ _ _ _ Hi Ht eq_refl)
    as (r & e1 & ch & slot & Hr & Hp & He & Hc & Hs & Ho1 & Hok);
  destruct r as [[en rx o1 b pend] l]; simpl in *; subst;
  inversion Hok; subst; simpl in *; simplify_eq; try (by esolve).

(** The counter, the hold and the rest of a step of a wake. *)
Ltac wrest :=
  first [done | split; first [by right; eexists _, _|by left] | by unfold owes; simpl; repeat case_match].

(** A popped entry that turns out to be settled is let go. *)
Lemma wake_load_inv k pl s w i id l0 :
  conc_inv k pl s → wc_wakes s !! w = Some (WIn i l0) → l0 = WLoad id ∨ l0 = WExchange id →
  ∃ s' pl', wake_iter s w i l0 = Ret s' ∧ conc_inv k pl' s'.
Proof.
  intros Hi Ht Hl0. destruct i as [f o rest pops]. pose proof (cn_wake _ _ _ Hi _ _ Ht) as (Ho & Hrest & _).
  simpl in *. destruct Hl0 as [-> | ->]; wparts Hi Ht; unfold compare_exchange;
    erewrite get_Some by done; simpl.
  - by wsame.
  - wtouch PlDone slot; [apply ok_revoking; esolve|by wrest..].
  - wtouch PlDone slot; [apply ok_revoked; esolve|by wrest..].
  - wtouch (PlGrip w o GSub) slot; [by apply ok_won; try done; esolve|by wrest..].
  - wtouch PlDone slot; [apply ok_revoking; esolve|by wrest..].
  - wtouch PlDone slot; [apply ok_revoked; esolve|by wrest..].
Qed.

Lemma wake_sub_inv k pl s w i id :
  conc_inv k pl s → wc_wakes s !! w = Some (WIn i (WSub id)) →
  ∃ s' pl', wake_iter s w i (WSub id) = Ret s' ∧ conc_inv k pl' s'.
Proof.
  intros Hi Ht. destruct i as [f o rest pops]. pose proof (cn_wake _ _ _ Hi _ _ Ht) as (Ho & Hrest & _).
  simpl in *. wparts Hi Ht. unfold count_sub. rewrite (index_Some _ _ _ Hs). simpl.
  assert (Hlen := cn_len _ _ _ Hi).
  erewrite index_Some by (rewrite lookup_set_index by (unfold in_range in *; lia); by rewrite decide_True).
  simpl. wtouch (PlGrip w o GTake) (mkBuddyOrderSlot (bo_queue slot) (wrap (bo_count slot - 1)) (bo_head_timestamp slot)).
  - apply ok_won; [done|done|esolve..].
  - by wrest.
  - split_and!; [done|done|]. intros e1 He1. apply (di_dom _ _ _ (cn_data _ _ _ Hi)).
    destruct (di_queue _ _ _ (cn_data _ _ _ Hi) o slot) as [_ Hqi]; [apply Ho|done|].
    apply Hqi in He1. by eexists.
Qed.

Lemma wake_deliver_inv k pl s w i l0 :
  conc_inv k pl s → wc_wakes s !! w = Some (WIn i l0) →
  (∃ id, l0 = WTake id) ∨ (∃ tx, l0 = WSend tx) →
  ∃ s' pl', wake_iter s w i l0 = Ret s' ∧ conc_inv k pl' s'.
Proof.
  intros Hi Ht Hl0. destruct i as [f o rest pops]. pose proof (cn_wake _ _ _ Hi _ _ Ht) as (Ho & Hrest & Hx).
  destruct Hl0 as [[id ->]|[tx ->]]; simpl in *.
  - wparts Hi Ht. unfold take_tx. erewrite get_Some by done. simpl.
    wtouch (PlGrip w o GSend) slot; [by apply ok_won; try done; esolve|by wrest..].
  - destruct Hx as [id ->]. wparts Hi Ht. unfold send. erewrite get_Some by done. simpl.
    destruct (chan_send ch f) as [ok ch'] eqn:Hsend. simpl.
    assert (Hrx : rx_open ch' = rx_open ch) by (by rewrite <- (rx_open_send ch f), Hsend).
    assert (Hpoll : rx_open ch = true → chan_poll ch' = true) by (intros ?; by rewrite <- (chan_poll_send ch f), Hsend).
    destruct ok; (wtouch PlDone slot; [apply ok_told; unfold rx_fine in *; rewrite ?Hrx; esolve|by wrest..]).
Qed.

(** The scan and the store of the head, and the ends of the loop. *)
Lemma wake_quiet_inv k pl s w i l0 :
  conc_inv k pl s → wc_wakes s !! w = Some (WIn i l0) →
  (∃ id todo, l0 = WScan id todo) ∨ (∃ id ts, l0 = WStore id ts) ∨ (∃ id, l0 = WUnlock id) ∨
  l0 = WStreak ∨ (∃ z, l0 = WStreakStore z) ∨ l0 = WLeave →
  ∃ s' pl', wake_iter s w i l0 = Ret s' ∧ conc_inv k pl' s'.
Proof.
  intros Hi Ht Hl0. destruct i as [f o rest pops]. pose proof (cn_wake _ _ _ Hi _ _ Ht) as (Ho & Hrest & Hx).
  destruct Hl0 as [(id & todo & ->)|[(id & ts & ->)|[[id ->]|[->|[[z ->]| ->]]]]]; simpl in *.
  - destruct todo as [|e todo]; [by wsame|]. destruct (Hx e) as [r Hr]; [by left|].
    destruct (reg_parts _ _ _ _ _ Hi Hr) as (p & x & ch & slot & _ & He & _).
    erewrite get_Some by done. simpl. case_decide; wsame.
    split_and!; [done..|]. intros e1 He1. apply Hx. by right.
  - destruct (lookup_Z_lt_is_Some (nw_buddy_orders (wc_nw s)) o) as [slot Hs];
      [rewrite (cn_len _ _ _ Hi); apply Ho|].
    unfold store_head. rewrite (index_Some _ _ _ Hs). simpl. wsame; [|by rewrite length_set_index].
    apply data_head; [apply Hi|by rewrite (cn_len _ _ _ Hi)|done].
  - wsame. right. right. by exists o.
  - by wsame.
  - wsame. apply data_streak, Hi.
  - wsame. right. right. by exists o.
Qed.

(** ** Scoring, and all of it *)

Lemma candidates_range k streak cs :
  Forall (in_range k) cs.*1 → Forall (in_range k) (sort_by_age (streak_ban streak cs)).*1.
Proof.
  intros Hcs. rewrite sort_by_age_perm. unfold streak_ban. case_match; [|done].
  rewrite Forall_fmap, Forall_forall in *. intros c [_ Hc]%list_elem_of_filter. by apply Hcs.
Qed.

Lemma wake_access_inv k pl s w t :
  conc_inv k pl s → wc_wakes s !! w = Some t →
  ∃ s' pl', wake_access s w t = Ret s' ∧ conc_inv k pl' s'.
Proof.
  intros Hi Ht. pose proof (cn_wake _ _ _ Hi _ _ Ht) as Hw.
  assert (Hslot : ∀ o, in_range k o → ∃ slot, index (nw_buddy_orders (wc_nw s)) o = Ret slot).
  { intros o Ho. destruct (lookup_Z_lt_is_Some (nw_buddy_orders (wc_nw s)) o) as [slot Hs];
      [rewrite (cn_len _ _ _ Hi); apply Ho|]. exists slot. by apply index_Some. }
  destruct t as [f streak todo cs|f streak o c todo cs|f cs pops|i l]; simpl in *.
  - destruct Hw as [Htodo Hcs]. destruct todo as [|o todo].
    + wsame. by apply candidates_range.
    + apply Forall_cons in Htodo as [Ho Htodo]. destruct (Hslot o Ho) as [slot ->]. simpl.
      case_match; by wsame.
  - destruct Hw as (Ho & Htodo & Hcs). destruct (Hslot o Ho) as [slot ->]. simpl. wsame. split; [done|].
    case_match; [done|]. rewrite fmap_app, Forall_app. by split; [|constructor].
  - destruct cs as [|o cs]; [by wsame|]. apply Forall_cons in Hw as [Ho Hw].
    case_match; [by wsame|]. destruct (wc_locks s !! o) eqn:Hl; [by eexists _, _|].
    wsame. right. left. by exists o.
  - destruct l.
    + by eapply wake_pop_inv.
    + eapply wake_load_inv; [done..|by left].
    + eapply wake_load_inv; [done..|by right].
    + by eapply wake_sub_inv.
    + eapply wake_quiet_inv; [done..|naive_solver].
    + eapply wake_quiet_inv; [done..|naive_solver].
    + eapply wake_quiet_inv; [done..|naive_solver].
    + eapply wake_deliver_inv; [done..|naive_solver].
    + eapply wake_deliver_inv; [done..|naive_solver].
    + eapply wake_quiet_inv; [done..|naive_solver].
    + eapply wake_quiet_inv; [done..|naive_solver].
    + eapply wake_quiet_inv; [done..|naive_solver].
Qed.

Lemma start_wake_inv k pl s w f :
  conc_inv k pl s → wc_wakes s !! w = None →
  ∃ s', start_wake s w f = Ret s' ∧ conc_inv k pl s'.
Proof.
  intros Hi Hw. pose proof Hi as [Hk Hl Hd Hg Hlk Hwk]. unfold start_wake.
  rewrite Hl, usz_sub_ok by ulia. simpl. eexists. split; [done|].
  apply (conc_wake k pl pl s _ _ w (Some _)); try done.
  - apply grip_keep_ok; [done|]. by rewrite Hw.
  - rewrite Hw. by left.
  - simpl. split; [|done]. apply Forall_forall. intros o Ho%elem_of_seqZ. unfold in_range. lia.
Qed.

(** An order is a [usize]. *)
Definition wevent_ok (ev : wevent) : Prop :=
  match ev with NRegister order _ => 0 ≤ order | _ => True end.

Lemma event_inv k pl s ev :
  conc_inv k pl s → wevent_ok ev → ∃ s' pl', wexec_event s ev = Ret s' ∧ conc_inv k pl' s'.
Proof.
  intros Hi Hev. destruct ev as [order now|id c|id|w f|w]; [by eapply register_inv|..]; simpl.
  - destruct (wc_regs s !! id) as [[reg l]|] eqn:Hr; [|by eexists _, _].
    destruct l; try (by eexists _, _). by eapply call_inv.
  - destruct (wc_regs s !! id) as [r|] eqn:Hr; [|by eexists _, _]. by eapply reg_access_inv.
  - destruct (wc_wakes s !! w) eqn:Hw; [by eexists _, _|].
    destruct (start_wake_inv k pl s w f Hi Hw) as (s' & ? & ?). by eexists _, _.
  - destruct (wc_wakes s !! w) as [t|] eqn:Hw; [|by eexists _, _]. by eapply wake_access_inv.
Qed.

Lemma start_inv num n :
  NotifyWaiters_new num = Ret n → num ≤ usize_MAX → conc_inv num ∅ (wconc_start n).
Proof.
  unfold NotifyWaiters_new, assert_. destruct (Z.ltb_spec 0 num); [|done].
  intros [= <-] Hle. constructor; simpl; [done|rewrite length_replicate; lia| | | |done].
  - constructor; simpl; [done|by intros id [? ?]| |]; intros o slot Ho Hs;
      apply lookup_replicate in Hs as [-> _]; simpl.
    + split; [constructor|]. intros id. by rewrite elem_of_nil.
    + exists ∅. split; [done|]. intros id. split; [set_solver|]. intros (p & r & e & ? & _). done.
  - intros w id o g. by rewrite !lookup_empty.
  - by split; intros; rewrite !lookup_empty.
Qed.

Lemma events_inv k pl s evs :
  conc_inv k pl s → Forall wevent_ok evs → ∃ s' pl', wexec_events s evs = Ret s' ∧ conc_inv k pl' s'.
Proof.
  intros Hi Hevs. revert pl s Hi. induction Hevs as [|ev evs Hev _ IH]; intros pl s Hi; [by eexists _, _|].
  unfold wexec_events in *. simpl. destruct (event_inv k pl s ev Hi Hev) as (s1 & pl1 & -> & Hi1). simpl. by eapply IH.
Qed.
End steps.
