(* ===== verification/AsyncConcClaims.v ===== *)
(** * What the interleaved waiters promise

    For every interleaving of registrations, calls and wakes on a fresh set of
    waiters: nothing panics, the sender of an entry is taken once, the counter
    of an order is exact up to the decrements in flight, and no armed
    registration is lost. *)

From stdpp Require Import prelude numbers list gmap.
From S2P Require Import Prelude Usize Errors Memory Config Buffer Buddy Async AsyncArena.
From S2P Require Import AsyncConc AsyncConcInv AsyncConcSteps.
Local Open Scope Z_scope.

Section claims.
Context {P : Profile} {O : OneshotLib} {OL : OneshotLaws O}.
Implicit Types (pl : gmap nat place) (n : NotifyWaiters) (s : wconc).

(** The thread [h] has won the entry [e] and has not taken its sender yet. *)
Definition owns_sender s (h : holder) (e : nat) : Prop :=
  match h with
  | HReg id => ∃ reg k, wc_regs s !! id = Some (mkRtask reg (RTake k e))
  | HWake w => ∃ t o g, wc_wakes s !! w = Some t ∧ wake_hold t = Some (e, o, g) ∧ (g = GSub ∨ g = GTake)
  end.

(** A registration between [prepare] and its end. *)
Definition armed s (id : nat) (reg : BuddyRegistration) : Prop :=
  wc_regs s !! id = Some (mkRtask reg Idle) ∧ br_registered reg = true.

Definition entry_is s (id : nat) (st : waiter_state) : Prop :=
  we_state <$> nw_entries (wc_nw s) !! id = Some st.

Definition in_queue s (o : Z) (id : nat) : Prop :=
  ∃ slot, nw_buddy_orders (wc_nw s) !! Z.to_nat o = Some slot ∧ id ∈ bo_queue slot.

(** The wake [w] holds [id], popped from the queue of [o], in the way [g]. *)
Definition held_by s (w id : nat) (o : Z) (g : grip) : Prop :=
  ∃ t, wc_wakes s !! w = Some t ∧ wake_hold t = Some (id, o, g).

Definition will_poll_ready s (id : nat) : Prop := chan_poll <$> nw_chans (wc_nw s) !! id = Some true.

(** The entries the counter of [o] stands for: live ones of registrations that
    have been counted in, revoked ones not counted off yet, and woken ones not
    counted off yet. *)
Definition counted s (o : Z) (id : nat) : Prop :=
  (∃ r, wc_regs s !! id = Some r ∧ br_order (rt_reg r) = o ∧
     ((entry_is s id LIVE ∧
       (br_registered (rt_reg r) = true ∨ (∃ prev, rt_loc r = PHead prev) ∨ rt_loc r = PUnlock)) ∨
      (∃ k e, rt_loc r = RTake k e) ∨ (∃ k tx, rt_loc r = RSub k tx))) ∨
  (∃ w, held_by s w id o GSub).

Lemma held_by_place k pl s w id o g :
  conc_inv k pl s → held_by s w id o g ↔ pl !! id = Some (PlGrip w o g).
Proof.
  intros Hi. rewrite (cn_grips _ _ _ Hi w id o g). unfold held_by. destruct (wc_wakes s !! w); naive_solver.
Qed.

Lemma counts_counted k pl s o id :
  conc_inv k pl s → counts pl (wc_regs s) (nw_entries (wc_nw s)) o id ↔ counted s o id.
Proof.
  intros Hi. unfold counted, entry_is. setoid_rewrite held_by_place; [|done]. split.
  - intros (p & r & e & Hp & Hr & He & Hw & Ho). rewrite Hp, He. simpl.
    destruct (reg_parts _ _ _ _ _ Hi Hr) as (p' & e' & ch & slot & ? & ? & _ & _ & _ & Hok). simplify_eq.
    unfold owes in Hw. destruct (we_state e) eqn:He2.
    + left. exists r. split_and!; [done..|]. left. split; [by f_equal|].
      apply orb_true_iff in Hw as [?|Hw]; [by left|]. right. destruct (rt_loc r); try done; eauto.
    + right. destruct p as [| |w o' [| | |]|]; try done. exists w. by inversion Hok; subst.
    + left. exists r. split_and!; [done..|]. right. destruct (rt_loc r); try done; eauto.
  - intros [(r & Hr & Ho & Hc)|(w & Hp)].
    + destruct (reg_parts _ _ _ _ _ Hi Hr) as (p & e & ch & slot & Hp & He & _ & _ & _ & Hok).
      exists p, r, e. split_and!; try done. rewrite He in Hc. simpl in Hc.
      destruct r as [reg l], e as [st tx ts]. unfold owes. simpl in *.
      destruct Hc as [[HL [->|[[prev ->]| ->]]]|[(k1 & e1 & ->)|(k1 & tx1 & ->)]]; simplify_eq; simpl;
        rewrite ?orb_true_r; try done.
      all: inversion Hok; subst; unfold at_rest in *; try done; naive_solver.
    + destruct (di_dom _ _ _ (cn_data _ _ _ Hi) id) as [r Hr]; [by eexists|].
      destruct (reg_parts _ _ _ _ _ Hi Hr) as (p & e & ch & slot & Hp' & He & _ & _ & _ & Hok). simplify_eq.
      exists (PlGrip w o GSub), r, e. split_and!; try done; inversion Hok; subst; simplify_eq; naive_solver.
Qed.

(** The place of an armed registration, seen from the state. *)
Lemma armed_cases k pl s id reg :
  conc_inv k pl s → armed s id reg →
  (entry_is s id LIVE ∧ ¬ will_poll_ready s id ∧
   (in_queue s (br_order reg) id ∨ ∃ w, held_by s w id (br_order reg) GHand)) ∨
  (entry_is s id WOKEN ∧
   (will_poll_ready s id ∨ ∃ w g, held_by s w id (br_order reg) g ∧ g ≠ GHand)).
Proof.
  intros Hi [Hr Hb]. destruct (reg_parts _ _ _ _ _ Hi Hr) as (p & e & ch & slot & Hp & He & Hc & Hs & Ho & Hok).
  destruct reg as [en rx o b pend]. unfold entry_is, will_poll_ready, in_queue. rewrite He, Hc. simpl in *.
  setoid_rewrite held_by_place; [|done..]. rewrite Hp.
  inversion Hok; subst; simpl in *; simplify_eq; try (by esolve).
  - left. split_and!; [done|congruence|].
    assert (p = PlQueue o ∨ ∃ w, p = PlGrip w o GHand) as [->|[w ->]] by done; [left|right; by exists w].
    exists slot. split; [done|].
    by apply (di_queue _ _ _ (cn_data _ _ _ Hi) o slot); [apply Ho|done|].
  - right. split; [done|]. left. f_equal. destruct_or!; congruence.
Qed.

Lemma count_exact k pl s o slot :
  conc_inv k pl s → 0 ≤ o → nw_buddy_orders (wc_nw s) !! Z.to_nat o = Some slot →
  NoDup (bo_queue slot) ∧
  ∃ X : gset nat, bo_count slot = wrap (Z.of_nat (size X)) ∧ ∀ id, id ∈ X ↔ counted s o id.
Proof.
  intros Hi Ho Hs. split; [by eapply di_queue; [apply Hi|..]|].
  destruct (di_count _ _ _ (cn_data _ _ _ Hi) o slot Ho Hs) as (X & HX & Hm). exists X. split; [done|].
  intros id. by rewrite Hm, counts_counted.
Qed.

Lemma owns_sender_place k pl s h e :
  conc_inv k pl s → owns_sender s h e →
  ∃ x, nw_entries (wc_nw s) !! e = Some x ∧ we_state x ≠ LIVE ∧ we_tx x = Some e ∧
    match h with
    | HReg id => id = e ∧ we_state x = REVOKED
    | HWake w => we_state x = WOKEN ∧ ∃ o g, pl !! e = Some (PlGrip w o g)
    end.
Proof.
  intros Hi. destruct h as [id|w]; simpl.
  - intros (reg & k1 & Hr). destruct (reg_parts _ _ _ _ _ Hi Hr) as (p & x & ch & slot & _ & He & _ & _ & _ & Hok).
    destruct reg as [en rx o b pend]. simpl in *.
    inversion Hok; subst; simpl in *; unfold at_rest in *; naive_solver.
  - intros (t & o & g & Ht & Hh & Hg).
    destruct (wake_parts _ _ _ _ _ _ _ _ Hi Ht Hh) as (r & x & ch & slot & _ & Hp & He & _ & _ & _ & Hok).
    exists x. split; [done|]. inversion Hok; subst; simpl in *; destruct Hg; subst; naive_solver.
Qed.

(** C17: Whatever registrations, calls and wakes do at the same time, access by
    access, no access panics.  An armed registration is never lost: its entry
    is live, and then its channel is empty and the entry is in the queue of its
    order or just popped by a wake that is about to settle it; or it is woken,
    and then its channel is ready or the wake that won it is still on its way
    to the send.  No entry is twice in a queue, and the counter of an order is
    the number of entries counted in and not yet counted off. *)
Theorem conc_waiters_correct num n evs :
  NotifyWaiters_new num = Ret n → num ≤ usize_MAX → Forall wevent_ok evs →
  ∃ s, wexec_events (wconc_start n) evs = Ret s ∧
    (∀ id reg, armed s id reg →
      (entry_is s id LIVE ∧ ¬ will_poll_ready s id ∧
       (in_queue s (br_order reg) id ∨ ∃ w, held_by s w id (br_order reg) GHand)) ∨
      (entry_is s id WOKEN ∧
       (will_poll_ready s id ∨ ∃ w g, held_by s w id (br_order reg) g ∧ g ≠ GHand))) ∧
    (∀ o slot, 0 ≤ o → nw_buddy_orders (wc_nw s) !! Z.to_nat o = Some slot →
      NoDup (bo_queue slot) ∧
      ∃ X : gset nat, bo_count slot = wrap (Z.of_nat (size X)) ∧ ∀ id, id ∈ X ↔ counted s o id).
Proof.
  intros Hn Hk Hevs. destruct (events_inv _ _ _ _ (start_inv _ _ Hn Hk) Hevs) as (s & pl & Hs & Hi).
  exists s. split_and!; [done|intros; by eapply armed_cases|intros; by eapply count_exact].
Qed.

(** C18: The sender of an entry is accessed exactly once, by whoever wins the
    exchange on its state: under every interleaving, a thread in front of
    [take_tx] finds the sender in place, the exchange on that entry is closed
    to everyone else, and no other thread is in front of [take_tx] for it. *)
Theorem sender_taken_once num n evs s h e :
  NotifyWaiters_new num = Ret n → num ≤ usize_MAX → Forall wevent_ok evs →
  wexec_events (wconc_start n) evs = Ret s → owns_sender s h e →
  (∃ x, nw_entries (wc_nw s) !! e = Some x ∧ we_state x ≠ LIVE ∧ we_tx x = Some e) ∧
  ∀ h', owns_sender s h' e → h' = h.
Proof.
  intros Hn Hk Hevs Hs Ho. destruct (events_inv _ _ _ _ (start_inv _ _ Hn Hk) Hevs) as (s' & pl & Hs' & Hi).
  rewrite Hs in Hs'. simplify_eq. destruct (owns_sender_place _ _ _ _ _ Hi Ho) as (x & He & Hl & Htx & Hh).
  split; [by exists x|]. intros h' Ho'.
  destruct (owns_sender_place _ _ _ _ _ Hi Ho') as (x' & He' & _ & _ & Hh'). simplify_eq.
  destruct h, h'; destruct_and!; simplify_eq; [done|congruence..|].
  repeat match goal with H : ∃ _, _ |- _ => destruct H end; simplify_eq; done.
Qed.
End claims.

(** ** Concrete runs *)

(** A whole [prepare] of the registration [id]. *)
Definition arm (id : nat) : list wevent := NCall id CPrepare :: replicate 5 (NReg id).

(** A wake [w] from its start to its end. *)
Definition wake_all (w : nat) (freed_order : Z) : list wevent := NWake w freed_order :: replicate 24 (NStep w).

Definition two_waiters : list wevent := [NRegister 0 10; NRegister 0 20] ++ arm 0 ++ arm 1.

Definition one_order : @NotifyWaiters list_oneshot := mkNotifyWaiters [BuddyOrderSlot_new] 0 ∅ ∅.

(** The first waiter is woken and the second one revokes between two accesses
    of the wake. *)
Lemma conc_waiters_correct_witness : ∃ s,
  wexec_events (P := dev) (wconc_start one_order) (two_waiters ++ [NWake 9 0; NStep 9; NCall 1 CRevoke] ++ replicate 7 (NStep 9))
    = Ret s ∧ ∃ w, held_by s w 0 0 GTake.
Proof.
  set (evs := two_waiters ++ _).
  destruct (conc_waiters_correct (P := dev) (OL := list_oneshot_laws) 1 one_order evs) as (s & Hs & Harm & _);
    [reflexivity|ulia|repeat constructor; done|].
  exists s. split; [done|]. vm_compute in Hs. injection Hs as <-. exists 9%nat. eexists. split; vm_compute; reflexivity.
Defined.

Lemma sender_taken_once_witness : ∃ s,
  wexec_events (P := dev) (wconc_start one_order) (two_waiters ++ [NCall 1 CRevoke]) = Ret s ∧
  ∀ h', owns_sender s h' 1 → h' = HReg 1.
Proof.
  eexists. split; [vm_compute; reflexivity|].
  eapply (sender_taken_once (P := dev) (OL := list_oneshot_laws) 1 one_order (two_waiters ++ [NCall 1 CRevoke]));
    [reflexivity|ulia|repeat constructor; done|vm_compute; reflexivity|].
  eexists _, ByRevoke. vm_compute. reflexivity.
Defined.
