(* ===== verification/AsyncConcRace.v ===== *)
(** * A waiter that no wake can see

    [prepare] publishes the head timestamp of an order only when the counter
    was zero, and a wake resets it when it finds no live entry.  A registration
    that has revoked its entry and not counted it off yet is not live and still
    counted: a waiter that arms in that window leaves the head at
    [NO_WAITERS_TIMESTAMP].  From then on scoring passes over the order. *)

From stdpp Require Import prelude numbers list gmap.
From S2P Require Import Prelude Usize Errors Memory Config Buffer Buddy Async AsyncScore AsyncArena.
From S2P Require Import BitmapRange AsyncConc AsyncConcInv AsyncConcSteps AsyncConcClaims.
Local Open Scope Z_scope.

(** The orders a wake has chosen to serve. *)
Definition wake_targets (t : wtask) : list Z :=
  match t with
  | WScore _ _ _ cs | WScoreTs _ _ _ _ _ cs => cs.*1
  | WNext _ cs _ => cs
  | WIn i _ => wi_order i :: wi_rest i
  end.

(** An event that gives the registration [id] up. *)
Definition gives_up (id : nat) (ev : wevent) : bool :=
  match ev with
  | NCall i (CRevoke | CDrop) => bool_decide (i = id)
  | _ => false
  end.

Section race.
Context {P : Profile} {O : OneshotLib} {OL : OneshotLaws O}.
Implicit Types (pl : gmap nat place) (n : NotifyWaiters) (s : wconc).

Definition head_at n (o : Z) : option Z := bo_head_timestamp <$> nw_buddy_orders n !! Z.to_nat o.

(** [id] waits at order [o]: armed and live, the head says nobody waits, no
    [prepare] is about to say otherwise and no wake has the order. *)
Record hidden (o : Z) (id : nat) s : Prop := {
  hd_reg : ∃ reg, armed s id reg ∧ br_order reg = o;
  hd_live : entry_is s id LIVE;
  hd_head : head_at (wc_nw s) o = Some NO_WAITERS_TIMESTAMP;
  hd_prepares i r prev : wc_regs s !! i = Some r → rt_loc r = PHead prev →
    br_order (rt_reg r) = o → prev ≠ 0;
  hd_wakes w t : wc_wakes s !! w = Some t → o ∉ wake_targets t;
}.

Lemma hidden_reg o id s n' locks' i r' :
  hidden o id s → i ≠ id →
  we_state <$> nw_entries n' !! id = we_state <$> nw_entries (wc_nw s) !! id →
  head_at n' o = head_at (wc_nw s) o →
  (∀ prev, rt_loc r' = PHead prev → br_order (rt_reg r') = o → prev ≠ 0) →
  hidden o id (mkWconc n' locks' (<[i := r']> (wc_regs s)) (wc_wakes s)).
Proof.
  intros [(reg & [Hr Hb] & Ho) Hl Hh Hp Hw] Hne He Hhd Hr'. constructor; simpl.
  - exists reg. split; [|done]. split; [|done]. simpl. by rewrite lookup_insert_ne.
  - unfold entry_is in *. simpl. by rewrite He.
  - by rewrite Hhd.
  - intros j r prev. rewrite lookup_insert. case_decide; [intros [= <-]; apply Hr'|apply Hp].
  - done.
Qed.

Lemma hidden_wake o id s n' locks' w (t' : option wtask) :
  hidden o id s →
  we_state <$> nw_entries n' !! id = we_state <$> nw_entries (wc_nw s) !! id →
  head_at n' o = head_at (wc_nw s) o →
  from_option (λ t, o ∉ wake_targets t) True t' →
  hidden o id (mkWconc n' locks' (wc_regs s) (partial_alter (λ _, t') w (wc_wakes s))).
Proof.
  intros [(reg & [Hr Hb] & Ho) Hl Hh Hp Hw] He Hhd Ht'. constructor; simpl.
  - by exists reg.
  - unfold entry_is in *. simpl. by rewrite He.
  - by rewrite Hhd.
  - done.
  - intros w1 t1. rewrite lookup_partial_alter. case_decide; [|apply Hw]. by intros ->.
Qed.

(** Stores to the slot of another order, and stores that keep the head. *)
Lemma head_at_set n o o' slot slot' :
  0 ≤ o → 0 ≤ o' → nw_buddy_orders n !! Z.to_nat o' = Some slot →
  o' ≠ o ∨ bo_head_timestamp slot' = bo_head_timestamp slot →
  head_at (set_order n o' slot') o = head_at n o.
Proof.
  intros Ho Ho' Hs Hd. unfold head_at. simpl. apply lookup_lt_Some in Hs as Hlt.
  rewrite lookup_set_index by lia. case_decide; [|done]. subst. rewrite Hs. simpl.
  destruct Hd as [?|Hd]; [done|]. by rewrite Hd.
Qed.

(** The counter of the order is not zero: [id] is part of it. *)
Lemma hidden_count k pl s o id slot :
  conc_inv k pl s → hidden o id s → Z.of_nat (size (wc_regs s)) < 2 ^ 64 →
  nw_buddy_orders (wc_nw s) !! Z.to_nat o = Some slot → bo_count slot ≠ 0.
Proof.
  intros Hi [(reg & [Hr Hb] & Ho) Hl Hh Hp Hw] Hsz Hs.
  destruct (reg_parts _ _ _ _ _ Hi Hr) as (_ & _ & _ & _ & _ & _ & _ & _ & Hrange & _). simpl in Hrange.
  rewrite Ho in Hrange.
  destruct (count_exact k pl s o slot Hi) as (_ & X & HX & Hm); [apply Hrange|done|].
  assert (Hin : id ∈ X) by (apply Hm; left; exists (mkRtask reg Idle); naive_solver).
  assert (Hsub : X ⊆ dom (wc_regs s)).
  { intros j (p & r & e & _ & Hj%elem_of_dom_2 & _)%Hm%(counts_counted _ _ _ _ _ Hi). done. }
  apply subseteq_size in Hsub. rewrite size_dom in Hsub.
  assert (size X ≠ 0%nat) by (apply size_non_empty_iff; set_solver).
  rewrite HX. unfold wrap, usize_MAX. rewrite Z.mod_small by (unfold usize_MAX in *; lia). lia.
Qed.

(** No wake has the entry in its hands. *)
Lemma hidden_hold k pl s o id w t e o' g :
  conc_inv k pl s → hidden o id s → wc_wakes s !! w = Some t → wake_hold t = Some (e, o', g) → e ≠ id.
Proof.
  intros Hi Hh Ht Hhold ->. destruct (hd_reg _ _ _ Hh) as (reg & [Hr _] & Ho).
  destruct (wake_parts _ _ _ _ _ _ _ _ Hi Ht Hhold) as (r & x & ch & slot & Hr' & _ & _ & _ & _ & Ho' & _).
  simplify_eq. simpl in *. apply (hd_wakes _ _ _ Hh _ _ Ht).
  destruct t as [| | |i l]; try done. simpl in *. apply fmap_Some in Hhold as (eg & _ & ?). simplify_eq.
  apply elem_of_cons. left. congruence.
Qed.

(** ** A step of a registration *)

Lemma hidden_exchange k pl s o id i reg kd s' :
  conc_inv k pl s → hidden o id s → i ≠ id → wc_regs s !! i = Some (mkRtask reg Idle) →
  exchange_revoked s i reg kd = Ret s' → hidden o id s'.
Proof.
  intros Hi Hh Hne Hr. destruct (reg_parts _ _ _ _ _ Hi Hr) as (p & x & ch & slot & _ & He & _ & _ & _ & Hok).
  assert (Hen : br_entry reg = Some i) by (by inversion Hok).
  unfold exchange_revoked, compare_exchange. rewrite Hen, (get_Some _ _ _ He). simpl.
  case_decide; simpl; intros [= <-]; (eapply (hidden_reg o id s); [done|done| |done|]; simpl);
    rewrite ?lookup_insert_ne by done; try done; by destruct kd.
Qed.

Lemma hidden_call k pl s o id i reg c s' :
  conc_inv k pl s → hidden o id s → gives_up id (NCall i c) = false →
  wc_regs s !! i = Some (mkRtask reg Idle) → start_call s i reg c = Ret s' → hidden o id s'.
Proof.
  intros Hi Hh Hg Hr Hs. destruct (decide (i = id)) as [->|Hne].
  - destruct (hd_reg _ _ _ Hh) as (reg' & [Hr' Hb] & Ho). rewrite Hr in Hr'. simplify_eq.
    destruct c; simpl in *; rewrite ?Hb, ?bool_decide_true in * by done; simplify_eq; try done.
    destruct (reg_parts _ _ _ _ _ Hi Hr) as (p & x & ch & slot & Hp & He & Hc & _ & _ & Hok).
    pose proof (hd_live _ _ _ Hh) as Hl. unfold entry_is in Hl. rewrite He in Hl.
    assert (Hrx : br_rx reg' = Some id ∧ chan_poll ch = false).
    { inversion Hok; subst; simpl in *; simplify_eq; try done; naive_solver. }
    destruct Hrx as [Hrx Hpl]. unfold registration_poll in Hs. rewrite Hrx, (get_Some _ _ _ Hc) in Hs.
    simpl in Hs. rewrite Hpl in Hs. simpl in Hs. injection Hs as <-.
    unfold set_reg. simpl. rewrite insert_id by done. by destruct s.
  - destruct c; simpl in *.
    + destruct (br_registered reg); [by simplify_eq|]. destruct (br_pending_entry reg); simplify_eq; [|done].
      by apply (hidden_reg o id s).
    + destruct (br_registered reg); [by eapply hidden_exchange|by simplify_eq].
    + destruct (registration_poll (wc_nw s) reg) as [[[b reg'] n']| |] eqn:Hp; simpl in Hs; simplify_eq.
      unfold registration_poll in Hp. destruct (br_rx reg) as [c|]; [|simplify_eq; by apply (hidden_reg o id s)].
      destruct (get (nw_chans (wc_nw s)) c) as [ch| |]; simpl in Hp; try done.
      destruct (chan_poll ch); simplify_eq; by apply (hidden_reg o id s).
    + destruct (br_registered reg); [by eapply hidden_exchange|]. simplify_eq. by apply (hidden_reg o id s).
Qed.

Lemma hidden_access k pl s o id i r s' :
  conc_inv k pl s → hidden o id s → Z.of_nat (size (wc_regs s)) < 2 ^ 64 →
  wc_regs s !! i = Some r → reg_access s i r = Ret s' → hidden o id s'.
Proof.
  intros Hi Hh Hsz Hr Hs. destruct (decide (i = id)) as [->|Hne].
  { destruct (hd_reg _ _ _ Hh) as (reg' & [Hr' Hb] & Ho). rewrite Hr in Hr'. injection Hr' as ->. by injection Hs as <-. }
  destruct (reg_parts _ _ _ _ _ Hi Hr) as (p & x & ch & slot & Hp & He & Hc & Hslot & Ho & Hok).
  destruct (hd_reg _ _ _ Hh) as (reg0 & [Hr0 _] & Ho0).
  destruct (reg_parts _ _ _ _ _ Hi Hr0) as (_ & _ & _ & _ & _ & _ & _ & _ & Hrange & _).
  simpl in Hrange. rewrite Ho0 in Hrange. unfold in_range in *. clear reg0 Hr0 Ho0.
  destruct r as [reg l]. unfold reg_access in Hs. simpl in *. destruct l; simplify_eq; try done.
  - case_match; simplify_eq; [done|]. by apply (hidden_reg o id s).
  - unfold set_queue in Hs. rewrite !(index_Some _ _ _ Hslot) in Hs. simpl in Hs. simplify_eq.
    apply (hidden_reg o id s); try done. eapply head_at_set; [lia|lia|done|by right].
  - unfold count_add in Hs. rewrite !(index_Some _ _ _ Hslot) in Hs. simpl in Hs. simplify_eq.
    apply (hidden_reg o id s); try done; [eapply head_at_set; [lia|lia|done|by right]|].
    simpl. intros prev [= <-] <-. by eapply hidden_count.
  - destruct (Z.eqb_spec prev 0) as [->|Hprev]; [|simpl in Hs; simplify_eq; by apply (hidden_reg o id s)].
    assert (br_order reg ≠ o) by (intros ?; by eapply (hd_prepares _ _ _ Hh _ _ 0 Hr)).
    destruct (br_entry reg) as [e|]; [|simpl in Hs; simplify_eq; by apply (hidden_reg o id s)].
    destruct (get (nw_entries (wc_nw s)) e) as [y| |]; simpl in Hs; try done.
    unfold store_head in Hs. rewrite !(index_Some _ _ _ Hslot) in Hs. simpl in Hs. simplify_eq.
    apply (hidden_reg o id s); try done. eapply head_at_set; [lia|lia|done|by left].
  - by apply (hidden_reg o id s).
  - assert (e = i) as -> by (inversion Hok; subst; unfold at_rest in *; naive_solver).
    unfold take_tx in Hs. rewrite (get_Some _ _ _ He) in Hs. simpl in Hs. simplify_eq.
    apply (hidden_reg o id s); try done. simpl. by rewrite lookup_insert_ne.
  - unfold count_sub in Hs. rewrite !(index_Some _ _ _ Hslot) in Hs. simpl in Hs. simplify_eq.
    apply (hidden_reg o id s); try done. eapply head_at_set; [lia|lia|done|by right].
  - unfold drop_tx in Hs. destruct tx as [c|]; [destruct (get (nw_chans (wc_nw s)) c)|]; simpl in Hs; simplify_eq;
      apply (hidden_reg o id s); try done; by destruct k0.
  - unfold drop_rx in Hs. destruct (br_rx reg) as [c|]; [destruct (get (nw_chans (wc_nw s)) c)|];
      simpl in Hs; simplify_eq; by apply (hidden_reg o id s).
Qed.

(** ** A step of a wake *)

Lemma send_frame n c v b n' :
  send n c v = Ret (b, n') → nw_entries n' = nw_entries n ∧ nw_buddy_orders n' = nw_buddy_orders n.
Proof. unfold send. intros Hs. outcome_inv. by destruct (chan_send v0 v); simplify_eq. Qed.

Lemma hidden_iter k pl s o id w i l s' :
  conc_inv k pl s → hidden o id s → 0 ≤ o → wc_wakes s !! w = Some (WIn i l) →
  wake_iter s w i l = Ret s' → hidden o id s'.
Proof.
  intros Hi Hh Ho Ht Hs. pose proof (cn_wake _ _ _ Hi _ _ Ht) as (Hor & _ & _).
  pose proof (hd_wakes _ _ _ Hh _ _ Ht) as Hno. simpl in Hno.
  assert (Hne : wi_order i ≠ o) by (intros <-; apply Hno; left).
  assert (Hrest : o ∉ wi_rest i) by (intros ?; apply Hno; by right).
  destruct (lookup_Z_lt_is_Some (nw_buddy_orders (wc_nw s)) (wi_order i)) as [slot Hslot];
    [rewrite (cn_len _ _ _ Hi); apply Hor|]. unfold in_range in Hor.
  assert (Hset : ∀ slot', head_at (set_order (wc_nw s) (wi_order i) slot') o = head_at (wc_nw s) o)
    by (intros slot'; eapply head_at_set; [lia|lia|done|by left]).
  assert (Hget : ∀ e g, iter_hold l = Some (e, g) → e ≠ id).
  { intros e g Hl. apply (hidden_hold k pl s o id w _ e (wi_order i) g Hi Hh Ht). simpl. by rewrite Hl. }
  destruct l; simpl in Hs; unfold set_queue, count_sub, store_head, compare_exchange, take_tx in Hs;
    rewrite ?(index_Some _ _ _ Hslot) in Hs; simpl in Hs; outcome_inv;
    repeat (case_match; simpl in *; outcome_inv); simplify_eq;
    try (eapply (hidden_wake o id s); [done|simpl; rewrite ?lookup_insert_ne by (by eapply Hget); done
                                  |first [done|apply Hset]|simpl; done]).
  all: apply send_frame in Hs0 as [He Hq];
    (eapply (hidden_wake o id s); [done|simpl; by rewrite He|unfold head_at; simpl; by rewrite Hq|done]).
Qed.

Lemma hidden_wake_access k pl s o id w t s' :
  conc_inv k pl s → hidden o id s → 0 ≤ o → wc_wakes s !! w = Some t →
  wake_access s w t = Ret s' → hidden o id s'.
Proof.
  intros Hi Hh Ho Ht Hs. pose proof (hd_wakes _ _ _ Hh _ _ Ht) as Hno.
  destruct t as [f streak todo cs|f streak o' c todo cs|f cs pops|i l]; [..|by eapply hidden_iter];
    simpl in Hs, Hno.
  - destruct todo as [|o' todo]; outcome_inv.
    + eapply (hidden_wake o id s _ _ w (Some _)); [done..|]. simpl. rewrite sort_by_age_perm.
      unfold streak_ban. case_match; [|done]. intros (c & -> & [_ Hc]%list_elem_of_filter)%list_elem_of_fmap.
      apply Hno. by apply list_elem_of_fmap_2.
    + eapply (hidden_wake o id s _ _ w (Some _)); [done..|]. by case_match.
  - outcome_inv. eapply (hidden_wake o id s _ _ w (Some _)); [done..|]. simpl.
    destruct (Z.eqb_spec (bo_head_timestamp v) NO_WAITERS_TIMESTAMP) as [|Hts]; [done|].
    rewrite fmap_app, elem_of_app. simpl. intros [?| ->%list_elem_of_singleton]; [done|].
    apply Hts. pose proof (hd_head _ _ _ Hh) as Hhd. unfold head_at in Hhd.
    rewrite (index_Ret_inv _ _ _ Hs0) in Hhd. naive_solver.
  - destruct cs as [|o' cs]; simplify_eq.
    { by eapply (hidden_wake o id s _ _ w None). }
    case_match; simplify_eq; [by eapply (hidden_wake o id s _ _ w None)|].
    case_match; simplify_eq; [done|]. by eapply (hidden_wake o id s _ _ w (Some _)).
Qed.

(** ** Any step, and any run *)

Lemma hidden_event k pl s o id ev s' :
  conc_inv k pl s → hidden o id s → 0 ≤ o → Z.of_nat (size (wc_regs s)) < 2 ^ 64 →
  gives_up id ev = false → wexec_event s ev = Ret s' → hidden o id s'.
Proof.
  intros Hi Hh Ho Hsz Hg Hs. destruct ev as [order now|i c|i|w f|w]; simpl in Hs.
  - unfold buddy_register in Hs. outcome_inv. simpl in Hs. simplify_eq.
    apply (hidden_reg o id s); try done; simpl.
    + pose proof (hd_live _ _ _ Hh) as Hl. unfold entry_is in Hl. intros Heq.
      destruct (nw_entries (wc_nw s) !! id) as [x|] eqn:Hx; [|done]. apply elem_of_dom_2 in Hx.
      pose proof (is_fresh (dom (nw_entries (wc_nw s)) ∪ dom (nw_chans (wc_nw s)))). set_solver.
    + rewrite lookup_insert. case_decide as Heq; [|done].
      pose proof (hd_live _ _ _ Hh) as Hl. unfold entry_is in Hl. by rewrite Hl.
  - destruct (wc_regs s !! i) as [[reg l]|] eqn:Hr; [|by simplify_eq].
    destruct l; simplify_eq; try done. by eapply hidden_call.
  - destruct (wc_regs s !! i) as [r|] eqn:Hr; [|by simplify_eq]. by eapply hidden_access.
  - destruct (wc_wakes s !! w) eqn:Hw; [by simplify_eq|]. unfold start_wake in Hs. outcome_inv.
    eapply (hidden_wake o id s _ _ w (Some _)); [done..|]. apply not_elem_of_nil.
  - destruct (wc_wakes s !! w) as [t|] eqn:Hw; [|by simplify_eq]. by eapply hidden_wake_access.
Qed.


(** Every event adds at most one registration. *)
Lemma event_size s ev s' :
  wexec_event s ev = Ret s' → (size (wc_regs s') ≤ S (size (wc_regs s)))%nat.
Proof.
  assert (Hins : ∀ (m : gmap nat rtask) i r, (size (<[i := r]> m) ≤ S (size m))%nat).
  { intros m i r. destruct (m !! i) eqn:Hm; [rewrite map_size_insert_Some by (by eexists)|rewrite map_size_insert_None by done]; lia. }
  assert (Hs : ∀ s, (size (wc_regs s) ≤ S (size (wc_regs s)))%nat) by lia.
  intros Hev. destruct ev as [order now|i c|i|w f|w];
    simpl in Hev; unfold start_call, exchange_revoked, reg_access, start_wake, wake_access, wake_iter in Hev;
    repeat (outcome_inv; simpl in *; case_match); outcome_inv; simpl; auto.
Qed.

(** A hidden waiter stays hidden until it gives up. *)
Lemma hidden_run k pl s o id evs :
  conc_inv k pl s → hidden o id s → 0 ≤ o →
  Z.of_nat (size (wc_regs s)) + Z.of_nat (length evs) < 2 ^ 64 →
  Forall wevent_ok evs → Forall (λ ev, gives_up id ev = false) evs →
  ∃ s' pl', wexec_events s evs = Ret s' ∧ conc_inv k pl' s' ∧ hidden o id s'.
Proof.
  intros Hi Hh Ho Hsz Hok Hg. revert pl s Hi Hh Hsz.
  induction evs as [|ev evs IH]; intros pl s Hi Hh Hsz; [by eexists _, _|].
  apply Forall_cons in Hok as [Hev Hok], Hg as [Hgev Hg].
  destruct (event_inv k pl s ev Hi Hev) as (s1 & pl1 & Hs1 & Hi1).
  pose proof (event_size _ _ _ Hs1). rewrite length_cons in Hsz.
  assert (Hh1 : hidden o id s1) by (apply (hidden_event k pl s o id ev); [done|done|done|lia|done|done]).
  destruct (IH Hok Hg pl1 s1 Hi1 Hh1) as (s2 & pl2 & Hs2 & ? & ?); [lia|].
  exists s2, pl2. unfold wexec_events in *. simpl. by rewrite Hs1.
Qed.
End race.

(** Two waiters at order 0, of 10 ns and 20 ns.  The second one wins the
    exchange of its [revoke] and pauses before its [fetch_sub].  A release wakes
    the first one and finds no live entry behind it: the head is reset.  A third
    waiter arms: the counter is not zero, so the head stays as it is.  The
    second one finishes its [revoke]. *)
Definition race : list wevent :=
  two_waiters ++ [NCall 1 CRevoke; NReg 1] ++ wake_all 9 0 ++ NRegister 0 30 :: arm 2 ++ [NReg 1; NReg 1].

(** A decidable form of [hidden] for states with no wake under way and nobody
    in the middle of [prepare]. *)
Definition hidden_quiet {O : OneshotLib} (o : Z) (id : nat) (s : wconc) : bool :=
  match wc_regs s !! id with
  | Some (mkRtask reg Idle) => br_registered reg && (br_order reg =? o)
  | _ => false
  end &&
  bool_decide (we_state <$> nw_entries (wc_nw s) !! id = Some LIVE) &&
  bool_decide (head_at (wc_nw s) o = Some NO_WAITERS_TIMESTAMP) &&
  forallb (λ p, match rt_loc p.2 with PHead _ => false | _ => true end) (map_to_list (wc_regs s)) &&
  bool_decide (size (wc_wakes s) = 0%nat).

Lemma hidden_quiet_ok {O : OneshotLib} o id (s : wconc) : hidden_quiet o id s = true → hidden o id s.
Proof.
  unfold hidden_quiet. rewrite !andb_true_iff, !bool_decide_eq_true.
  intros [[[[Hr He] Hh] Hp] Hw]. constructor; [|done|done|..].
  - repeat case_match; try done. apply andb_true_iff in Hr as [? ?%Z.eqb_eq]. by eexists.
  - intros i r prev Hi%elem_of_map_to_list Hl. rewrite forallb_forall in Hp.
    apply list_elem_of_In, Hp in Hi. simpl in Hi. by rewrite Hl in Hi.
  - apply map_size_empty_inv in Hw. intros w t. by rewrite Hw, lookup_empty.
Qed.

(** C20: An armed waiter can become invisible for good.  After the run [race] the
    third waiter is live and armed, alone in its order, with nobody in the
    middle of a call; and whatever registers, arms, revokes and is released
    from then on, as long as it does not give up itself its entry stays live
    and its channel empty: no wake ever reaches it. *)
Theorem armed_waiter_invisible {P : Profile} evs :
  Forall wevent_ok evs → Forall (λ ev, gives_up 2 ev = false) evs →
  Z.of_nat (length evs) < 2 ^ 63 →
  ∃ s, wexec_events (wconc_start one_order) (race ++ evs) = Ret s ∧
    entry_is s 2 LIVE ∧ ¬ will_poll_ready s 2.
Proof.
  intros Hok Hg Hlen.
  destruct (events_inv (OL := list_oneshot_laws) 1 ∅ (wconc_start one_order) race) as (s0 & pl & Hs0 & Hi);
    [by apply start_inv; [|ulia]|by repeat constructor|].
  assert (Hq : match wexec_events (wconc_start one_order) race with
               | Ret s => hidden_quiet 0 2 s && bool_decide (size (wc_regs s) = 3%nat)
               | _ => false end = true) by (vm_compute; reflexivity).
  rewrite Hs0 in Hq. apply andb_true_iff in Hq as [Hq%hidden_quiet_ok Hsz%bool_decide_eq_true].
  destruct (hidden_run (OL := list_oneshot_laws) 1 pl s0 0 2 evs) as (s & pl' & Hs & Hi' & Hh);
    [done..|rewrite Hsz; lia|done|done|].
  exists s. split; [by unfold wexec_events in *; rewrite ofoldM_app, Hs0|].
  destruct (hd_reg _ _ _ Hh) as (reg & Ha & _). pose proof (hd_live _ _ _ Hh) as Hl. split; [done|].
  destruct (armed_cases _ _ _ _ _ Hi' Ha) as [[_ [Hn _]]|[Hw _]]; [done|].
  unfold entry_is in *. congruence.
Qed.

(** Two releases of the whole arena and a fourth waiter: nothing reaches the
    third one. *)
Lemma armed_waiter_invisible_witness : ∃ s,
  wexec_events (P := dev) (wconc_start one_order)
    (race ++ wake_all 10 0 ++ NRegister 0 40 :: arm 3 ++ wake_all 11 0 ++ [NCall 2 CPoll]) = Ret s ∧
  entry_is s 2 LIVE ∧ ¬ will_poll_ready s 2.
Proof.
  apply (armed_waiter_invisible (P := dev)); [by repeat constructor|by repeat constructor|vm_compute; reflexivity].
Defined.
