(* ===== verification/AsyncConcSeq.v ===== *)
(** * An operation that is not interrupted

    The accesses of [prepare], [revoke], [Drop] and [buddy_wake], made one after
    the other with nothing in between, amount to the operations of [Async]. *)

From stdpp Require Import prelude numbers list gmap.
From S2P Require Import Prelude Usize Errors Memory Config Buffer Buddy BitmapRange Async AsyncProps AsyncArena.
From S2P Require Import AsyncConc AsyncConcInv AsyncConcSteps AsyncConcClaims.
Local Open Scope Z_scope.

Section seq.
Context {P : Profile} {O : OneshotLib}.
Implicit Types (n : NotifyWaiters) (s : wconc).

(** ** Registrations *)

(** A call and its accesses. *)
Definition alone (id : nat) (c : call) (m : nat) : list wevent := NCall id c :: replicate m (NReg id).

Local Arguments wexec_events : simpl never.

Lemma alone_run s id c m reg :
  wc_regs s !! id = Some (mkRtask reg Idle) →
  wexec_events s (alone id c m) =
  let! s := start_call s id reg c in wexec_events s (replicate m (NReg id)).
Proof. intros Hr. unfold wexec_events, alone. simpl. by rewrite Hr. Qed.

(** One access. *)
Lemma access_run s id evs r :
  wc_regs s !! id = Some r →
  wexec_events s (NReg id :: evs) = let! s := reg_access s id r in wexec_events s evs.
Proof. intros Hr. unfold wexec_events. simpl. by rewrite Hr. Qed.

Lemma access_end s id m :
  (∃ reg, wc_regs s !! id = Some (mkRtask reg Idle)) →
  wexec_events s (replicate m (NReg id)) = Ret s.
Proof.
  intros (reg & Hr). induction m as [|m IH]; [done|]. simpl. by rewrite (access_run _ _ _ _ Hr).
Qed.

Lemma index_set_same {A} (l : list A) o x y : index l o = Ret x → index (set_index l o y) o = Ret y.
Proof.
  intros Hx%index_Ret_inv. apply index_Some. unfold set_index. apply list_lookup_insert_eq.
  by eapply lookup_lt_Some.
Qed.

Lemma set_index_twice {A} (l : list A) o x y : set_index (set_index l o x) o y = set_index l o y.
Proof. apply list_insert_insert_eq. Qed.

Ltac acc :=
  rewrite access_run with (r := mkRtask _ _) by (simpl; apply lookup_insert_eq);
  unfold reg_access; simpl.

(** Stores to one slot one after the other, and to one registration. *)
Ltac settle :=
  unfold set_reg, set_nw, set_locks, set_order; simpl;
  rewrite ?set_index_twice, ?insert_insert_eq, ?delete_insert_eq, ?delete_id by done; simpl.

Lemma prepare_alone s id reg reg' n' :
  wc_regs s !! id = Some (mkRtask reg Idle) → wc_locks s !! br_order reg = None →
  prepare (wc_nw s) reg = Ret (reg', n') →
  wexec_events s (alone id CPrepare 5) = Ret (set_reg (set_nw s n') id (mkRtask reg' Idle)).
Proof.
  intros Hr Hlk Hp. rewrite (alone_run _ _ _ _ _ Hr). unfold start_call, prepare in *.
  destruct (br_registered reg) eqn:Hb; [|destruct (br_pending_entry reg) as [e|] eqn:Hpe].
  1,3: simplify_eq; cbn [obind]; rewrite access_end by eauto; destruct s; unfold set_reg; simpl in *;
       by rewrite insert_id.
  outcome_inv. simpl. acc. rewrite Hlk. simpl.
  acc. unfold set_queue. rewrite Hs. simpl.
  acc. unfold count_add. simpl. rewrite (index_set_same _ _ _ _ Hs). simpl.
  acc. destruct (bo_count v =? 0); [destruct (br_entry reg) as [e'|] eqn:He|]; outcome_inv; simpl.
  1: match goal with H : get _ _ = Ret _ |- _ => rewrite H end; simpl; unfold store_head; simpl;
     rewrite (index_set_same _ _ _ _ (index_set_same _ _ _ _ Hs)); simpl.
  all: acc; unfold wexec_events, set_registered, take_pending; simpl; rewrite ?He.
  all: settle; by rewrite ?He.
Qed.

(** The exchange and what follows it: three accesses when it is won, none when
    it is lost. *)
Lemma exchange_alone s id reg k n' :
  wc_regs s !! id = Some (mkRtask reg Idle) → revoke_entry (wc_nw s) reg = Ret n' →
  ∃ m, (m ≤ 3)%nat ∧ ∀ evs,
    (let! s := exchange_revoked s id reg k in wexec_events s (replicate m (NReg id) ++ evs)) =
    wexec_events (set_reg (set_nw s n') id (ended k reg)) evs.
Proof.
  intros Hr Hv. unfold exchange_revoked, revoke_entry in *.
  destruct (br_entry reg) as [e|] eqn:He.
  2: { simplify_eq. exists 0%nat. split; [lia|]. intros evs. by destruct s. }
  destruct (compare_exchange (wc_nw s) e REVOKED) as [[won n1]| |] eqn:Hce; simpl in Hv; try done.
  destruct won; simplify_eq.
  2: { exists 0%nat. split; [lia|]. done. }
  destruct (take_tx n1 e) as [[tx n2]| |] eqn:Htx; simpl in Hv; try done. outcome_inv.
  exists 3%nat. split; [lia|]. intros evs. simpl.
  acc. rewrite Htx. simpl. acc. rewrite Hs. simpl. acc. rewrite Hv. simpl. settle. done.
Qed.

(** [revoke], and [Drop] with the drop of the receiver. *)
Lemma revoke_alone s id reg reg' n' :
  wc_regs s !! id = Some (mkRtask reg Idle) → revoke (wc_nw s) reg = Ret (reg', n') →
  wexec_events s (alone id CRevoke 3) = Ret (set_reg (set_nw s n') id (mkRtask reg' Idle)).
Proof.
  intros Hr Hv. rewrite (alone_run _ _ _ _ _ Hr). unfold start_call, revoke in *.
  destruct (br_registered reg) eqn:Hb; outcome_inv.
  2: cbn [obind]; rewrite access_end by eauto; destruct s; unfold set_reg; simpl in *; by rewrite insert_id.
  destruct (exchange_alone s id reg ByRevoke n' Hr) as (m & Hm & Hrun); [done|].
  replace 3%nat with (m + (3 - m))%nat by lia. rewrite replicate_add. rewrite Hrun.
  rewrite access_end by (eexists; apply lookup_insert_eq). done.
Qed.

Lemma drop_alone s id reg n' :
  wc_regs s !! id = Some (mkRtask reg Idle) → registration_drop (wc_nw s) reg = Ret n' →
  wexec_events s (alone id CDrop 4) = Ret (set_reg (set_nw s n') id (mkRtask reg Dropped)).
Proof.
  intros Hr Hd. rewrite (alone_run _ _ _ _ _ Hr). unfold start_call, registration_drop in *.
  assert (Hend : ∀ s m, wc_regs s !! id = Some (mkRtask reg Dropped) →
    wexec_events s (replicate m (NReg id)) = Ret s).
  { clear. intros s m Hr. induction m as [|m IH]; [done|]. simpl. by rewrite (access_run _ _ _ _ Hr). }
  assert (Hrx : ∀ n1 m, drop_rx n1 (br_rx reg) = Ret n' →
    wexec_events (set_reg (set_nw s n1) id (mkRtask reg DRx)) (replicate (S m) (NReg id)) =
    Ret (set_reg (set_nw s n') id (mkRtask reg Dropped))).
  { intros n1 m Hn. simpl. acc. rewrite Hn. simpl. rewrite Hend by apply lookup_insert_eq. by settle. }
  outcome_inv. destruct (br_registered reg) eqn:Hb; simplify_eq; cbn [obind].
  - destruct (exchange_alone s id reg ByDrop v Hr Hs) as (m & Hm & Hrun).
    replace 4%nat with (m + S (3 - m))%nat by lia. rewrite replicate_add, Hrun. by apply Hrx.
  - specialize (Hrx (wc_nw s) 3%nat Hd). by destruct s.
Qed.

(** ** Wakes *)

Section wake.
Context (regs : gmap nat rtask) (others : gmap nat wtask) (w : nat).
Implicit Types L : gmap Z holder.

(** The state while the wake [w] is the only one that moves. *)
Definition at_wake n L (t : wtask) : wconc := mkWconc n L regs (<[w := t]> others).

(** The wake gets from one state to another by its own steps. *)
Definition goes s s' : Prop := ∃ m, wexec_events s (replicate m (NStep w)) = Ret s'.

Lemma goes_refl s : goes s s.
Proof. by exists 0%nat. Qed.

Lemma goes_trans s1 s2 s3 : goes s1 s2 → goes s2 s3 → goes s1 s3.
Proof.
  intros [m1 H1] [m2 H2]. exists (m1 + m2)%nat. unfold wexec_events in *.
  by rewrite replicate_add, ofoldM_app, H1.
Qed.

Lemma goes_step n L t s' : wake_access (at_wake n L t) w t = Ret s' → goes (at_wake n L t) s'.
Proof.
  intros Hs. exists 1%nat. unfold wexec_events. simpl. rewrite lookup_insert_eq. by rewrite Hs.
Qed.

Lemma goes_next n L t n' L' t' s' :
  wake_access (at_wake n L t) w t = Ret (set_wake (mkWconc n' L' regs (<[w := t]> others)) w t') →
  goes (at_wake n' L' t') s' → goes (at_wake n L t) s'.
Proof.
  intros Hs Hg. eapply goes_trans; [by eapply goes_step|].
  unfold set_wake. simpl. by rewrite insert_insert_eq.
Qed.

Lemma score_goes n L f streak todo cs rest s' :
  collect_candidates n todo = Ret rest →
  goes (at_wake n L (WNext f (sort_by_age (streak_ban streak (cs ++ rest))).*1 0)) s' →
  goes (at_wake n L (WScore f streak todo cs)) s'.
Proof.
  revert cs rest. induction todo as [|o todo IH]; intros cs rest Hc Hg; simpl in Hc.
  { simplify_eq. rewrite app_nil_r in Hg. by eapply goes_next. }
  outcome_inv. destruct (bo_count v =? 0) eqn:Hcnt; simplify_eq.
  { eapply goes_next; [simpl; rewrite Hs; simpl; rewrite Hcnt; done|]. by eapply IH. }
  eapply goes_next; [simpl; rewrite Hs; simpl; rewrite Hcnt; done|]. simpl.
  destruct (bo_head_timestamp v =? NO_WAITERS_TIMESTAMP) eqn:Hts; simplify_eq;
    (eapply goes_next; [simpl; rewrite Hs; simpl; rewrite Hts; done|]); (eapply IH; [done|]); [done|].
  by rewrite <- app_assoc.
Qed.

Lemma scan_goes n L i e q ts s' :
  first_live n q = Ret ts → goes (at_wake n L (WIn i (WStore e ts))) s' →
  goes (at_wake n L (WIn i (WScan e q))) s'.
Proof.
  revert ts. induction q as [|x q IH]; intros ts Hl Hg; simpl in Hl.
  { simplify_eq. by eapply goes_next. }
  outcome_inv. case_decide as Hd; simplify_eq; (eapply goes_next; [simpl; rewrite Hs; simpl; done|]).
  - by rewrite decide_True.
  - rewrite decide_False by done. by eapply IH.
Qed.

(** From the won exchange's last access to the queue on. *)
Lemma deliver_goes n L f o rest pops e n' s' :
  deliver n e f o = Ret n' → goes (at_wake n' L (WNext f rest pops)) s' →
  goes (at_wake n L (WIn (mkWiter f o rest pops) (WTake e))) s'.
Proof.
  unfold deliver. intros Hd Hg. destruct (take_tx n e) as [[tx n1]| |] eqn:Htx; simpl in Hd; try done.
  eapply goes_next; [simpl; rewrite Htx; done|]. simpl. destruct tx as [c|].
  2: { simplify_eq. by eapply goes_next. }
  destruct (send n1 c f) as [[ok n2]| |] eqn:Hsend; simpl in Hd; try done. simplify_eq.
  destruct ok; (eapply goes_next; [simpl; rewrite Hsend; done|]); [|done].
  eapply goes_next; [done|]. eapply goes_next; [done|]. done.
Qed.

Lemma first_live_entries n n' q : nw_entries n' = nw_entries n → first_live n' q = first_live n q.
Proof. intros He. induction q as [|e q IH]; [done|]. simpl. by rewrite He, IH. Qed.

(** The end of the loop over a queue. *)
Lemma leave_goes n L f o rest pops s' :
  goes (at_wake n (delete o L) (WNext f rest pops)) s' →
  goes (at_wake n L (WIn (mkWiter f o rest pops) WLeave)) s'.
Proof. intros Hg. by eapply goes_next. Qed.

(** After a won exchange, with [q] left in the queue. *)
Lemma won_goes n L f o rest pops e q slot ts n' s' :
  index (nw_buddy_orders n) o = Ret slot → bo_queue slot = q → first_live n q = Ret ts →
  deliver (set_order n o (mkBuddyOrderSlot q (wrap (bo_count slot - 1)) ts)) e f o = Ret n' →
  goes (at_wake n' (delete o L) (WNext f rest pops)) s' →
  goes (at_wake n L (WIn (mkWiter f o rest pops) (WSub e))) s'.
Proof.
  intros Hs <- Hl Hd Hg. eapply goes_next.
  { simpl. unfold count_sub. rewrite Hs. simpl. rewrite (index_set_same _ _ _ _ Hs). done. }
  simpl. eapply scan_goes; [by erewrite first_live_entries|].
  eapply goes_next.
  { simpl. unfold store_head. simpl. rewrite (index_set_same _ _ _ _ Hs). done. }
  simpl. rewrite set_order_twice. eapply goes_next; [done|]. by eapply deliver_goes.
Qed.

Lemma order_goes n L f o rest pops pops' q slot n' s' :
  index (nw_buddy_orders n) o = Ret slot → wake_order n q f o pops = Ret (pops', n') →
  goes (at_wake n' (delete o L) (WNext f rest pops')) s' →
  goes (at_wake (set_order n o (mkBuddyOrderSlot q (bo_count slot) (bo_head_timestamp slot))) L
          (WIn (mkWiter f o rest pops) WPop)) s'.
Proof.
  intros Hs Hw Hg. revert pops Hw. induction q as [|e q IH]; intros pops Hw; simpl in Hw;
    destruct (pops <? MAX_POPS_PER_WAKE) eqn:Hp; unfold set_queue in Hw.
  1,2,4: rewrite Hs in Hw; simpl in Hw; simplify_eq;
    (eapply goes_next; [simpl; rewrite Hp, ?(index_set_same _ _ _ _ Hs); done|by apply leave_goes]).
  destruct (get (nw_entries n) e) as [x| |] eqn:He; simpl in Hw; try done.
  eapply goes_next.
  { simpl. rewrite Hp, (index_set_same _ _ _ _ Hs). simpl. unfold set_queue. simpl.
    rewrite (index_set_same _ _ _ _ Hs). done. }
  simpl. rewrite set_order_twice. eapply goes_next; [simpl; rewrite He; done|]. simpl.
  case_decide as Hl; [rewrite decide_False by done; by apply IH|].
  rewrite decide_True by done.
  unfold compare_exchange in Hw. rewrite He in Hw. simpl in Hw. rewrite decide_True in Hw by done.
  eapply goes_next.
  { simpl. unfold compare_exchange. simpl. rewrite He. simpl. rewrite decide_True by done. done. }
  simpl in Hw. unfold count_sub, update_head_timestamp, set_queue in Hw. simpl in Hw. rewrite Hs in Hw. simpl in Hw.
  destruct (first_live _ q) as [ts| |] eqn:Hfl; simpl in Hw; try done.
  rewrite (index_set_same _ _ _ _ Hs) in Hw. simpl in Hw.
  rewrite (index_set_same _ _ _ _ (index_set_same _ _ _ _ Hs)) in Hw. simpl in Hw.
  rewrite !set_order_twice in Hw. outcome_inv.
  eapply (won_goes _ _ _ _ _ _ _ _ _ ts); [by eapply index_set_same|done| | |done].
  - by erewrite first_live_entries in Hfl |- *.
  - unfold set_order, set_entry in *. simpl in *. by rewrite set_index_twice.
Qed.

Lemma orders_goes n L f cs pops n' :
  others !! w = None → (∀ o, L !! o = None) → wake_orders n cs f pops = Ret n' →
  goes (at_wake n L (WNext f cs pops)) (mkWconc n' L regs others).
Proof.
  intros Hw HL. revert n pops. induction cs as [|o cs IH]; intros n pops Ho; simpl in Ho.
  { simplify_eq. rewrite <- (delete_insert_id others w (WNext f [] pops) Hw) at 1. by apply goes_step. }
  destruct (MAX_POPS_PER_WAKE <=? pops) eqn:Hp; simplify_eq.
  { rewrite <- (delete_insert_id others w (WNext f (o :: cs) pops) Hw) at 1. apply goes_step. simpl. by rewrite Hp. }
  destruct (index (nw_buddy_orders n) o) as [slot| |] eqn:Hs; simpl in Ho; try done.
  destruct (wake_order n (bo_queue slot) f o pops) as [[pops1 n1]| |] eqn:Hwo; simpl in Ho; try done.
  eapply goes_next; [simpl; rewrite Hp, HL; done|].
  assert (Heq : n = set_order n o (mkBuddyOrderSlot (bo_queue slot) (bo_count slot) (bo_head_timestamp slot))).
  { apply index_Ret_inv in Hs. unfold set_order, set_index. destruct slot. simpl. rewrite list_insert_id by done.
    by destruct n. }
  rewrite Heq. eapply order_goes; [done|done|]. rewrite delete_insert_id by done. by apply IH.
Qed.
End wake.

Lemma wake_alone s w f n' :
  wc_wakes s !! w = None → wc_locks s = ∅ → buddy_wake (wc_nw s) f = Ret n' →
  ∃ m, wexec_events s (NWake w f :: replicate m (NStep w)) = Ret (set_nw s n').
Proof.
  intros Hw Hl Hb. unfold buddy_wake, score_orders in Hb.
  destruct (usz_sub _ 1) as [last| |] eqn:Hlast; simpl in Hb; try done.
  destruct (collect_candidates _ _) as [cs| |] eqn:Hcs; simpl in Hb; try done.
  destruct s as [n L regs wakes]. simpl in *. subst.
  assert (Hg : goes w (at_wake regs wakes w n ∅ (WScore f (nw_streak_state n) (seqZ 0 (f `min` last + 1)) []))
    (mkWconc n' ∅ regs wakes)).
  { eapply score_goes; [done|]. by eapply orders_goes. }
  destruct Hg as [m Hm]. exists m. unfold wexec_events, set_nw in *. simpl. rewrite Hw. unfold start_wake. simpl.
  by rewrite Hlast.
Qed.
End seq.

(** C19: The accesses of an operation that nothing interrupts amount to the
    operation as one step: [prepare] when the queue of its order is free,
    [revoke] and [Drop] always, and [buddy_wake], with its scoring and its loops
    over candidates and queues, when no queue is held. *)
Theorem uninterrupted_equiv {P : Profile} {O : OneshotLib} (s : wconc) id reg :
  wc_locks s = ∅ → wc_regs s !! id = Some (mkRtask reg Idle) →
  (∀ reg' n', prepare (wc_nw s) reg = Ret (reg', n') →
     wexec_events s (alone id CPrepare 5) = Ret (set_reg (set_nw s n') id (mkRtask reg' Idle))) ∧
  (∀ reg' n', revoke (wc_nw s) reg = Ret (reg', n') →
     wexec_events s (alone id CRevoke 3) = Ret (set_reg (set_nw s n') id (mkRtask reg' Idle))) ∧
  (∀ n', registration_drop (wc_nw s) reg = Ret n' →
     wexec_events s (alone id CDrop 4) = Ret (set_reg (set_nw s n') id (mkRtask reg Dropped))) ∧
  (∀ w f n', wc_wakes s !! w = None → buddy_wake (wc_nw s) f = Ret n' →
     ∃ m, wexec_events s (NWake w f :: replicate m (NStep w)) = Ret (set_nw s n')).
Proof.
  intros Hl Hr. split_and!.
  - intros. apply (prepare_alone s id reg); [done|by rewrite Hl|done].
  - intros. by apply (revoke_alone s id reg).
  - intros. by apply drop_alone.
  - intros. by apply wake_alone.
Qed.

(** Two armed waiters, and a wake on its own. *)
Definition two_armed : @wconc list_oneshot :=
  match wexec_events (P := dev) (wconc_start one_order) two_waiters with
  | Ret s => s
  | _ => wconc_start one_order
  end.

Lemma uninterrupted_equiv_witness : ∃ n' m,
  buddy_wake (P := dev) (wc_nw two_armed) 0 = Ret n' ∧
  wexec_events (P := dev) two_armed (NWake 9 0 :: replicate m (NStep 9)) = Ret (set_nw two_armed n').
Proof.
  destruct (buddy_wake (P := dev) (wc_nw two_armed) 0) as [n'| |] eqn:Hb; [|vm_compute in Hb; discriminate Hb..].
  destruct (uninterrupted_equiv (P := dev) two_armed 1 (mkBuddyRegistration (Some 1%nat) (Some 1%nat) 0 true None))
    as (_ & _ & _ & Hw); [vm_compute; reflexivity|vm_compute; reflexivity|].
  destruct (Hw 9%nat 0 n') as [m Hm]; [vm_compute; reflexivity|exact Hb|].
  exists n', m. split; [reflexivity|exact Hm].
Defined.
