(* ===== verification/Treiber.v ===== *)
(** * A custom waiter: the Treiber stack example ([examples/treiber_waker.rs])

    [TreiberWaiter] implements the same traits with a stack of parked wakers.
    The stack is the list of the entries its nodes hold, head first; a push or
    a pop is one step.  Node reclamation is the business of [crossbeam_epoch]. *)

From stdpp Require Import prelude numbers list gmap.
From S2P Require Import Prelude Tasks Usize Errors Bitmap Geometry Metrics Memory Config Buffer.
From S2P Require Import FixedArena FixedProps Async AsyncFixed AsyncFixedProps.
Local Open Scope Z_scope.

(** ** Definitions *)

(** [en_waker]: the waker of the task that polled last is stored. *)
Record Entry := mkEntry {
  en_status : waiter_state;
  en_waker : bool;
}.

(** [ts_wakes] are the entries whose waker was called. *)
Record TreiberStack := mkTreiberStack {
  ts_head : list nat;
  ts_entries : gmap nat Entry;
  ts_wakes : list nat;
}.

Definition TreiberStack_new : TreiberStack := mkTreiberStack [] ∅ [].

Record TreiberRegistration := mkTreiberRegistration {
  tr_entry : option nat;
  tr_armed : bool;
}.

Definition push (s : TreiberStack) (e : nat) : TreiberStack :=
  mkTreiberStack (e :: ts_head s) (ts_entries s) (ts_wakes s).

Definition set_status (s : TreiberStack) (e : nat) (x : Entry) : TreiberStack :=
  mkTreiberStack (ts_head s) (<[e := x]> (ts_entries s)) (ts_wakes s).

(** The loop of [pop_and_wake], over the nodes left. *)
Fixpoint pop_nodes (s : TreiberStack) (nodes : list nat) : outcome TreiberStack :=
  match nodes with
  | [] => Ret (mkTreiberStack [] (ts_entries s) (ts_wakes s))
  | e :: next =>
      let! entry := get (ts_entries s) e in
      if decide (en_status entry = LIVE) then
        Ret (mkTreiberStack next (<[e := mkEntry WOKEN false]> (ts_entries s))
               (if en_waker entry then ts_wakes s ++ [e] else ts_wakes s))
      else pop_nodes s next
  end.

Definition pop_and_wake (s : TreiberStack) : outcome TreiberStack := pop_nodes s (ts_head s).

Definition treiber_register (s : TreiberStack) : outcome (TreiberRegistration * TreiberStack) :=
  Ret (mkTreiberRegistration None false, s).

Definition treiber_prepare (s : TreiberStack) (r : TreiberRegistration)
    : outcome (TreiberRegistration * TreiberStack) :=
  Ret (mkTreiberRegistration (tr_entry r) true, s).

Definition do_revoke (s : TreiberStack) (r : TreiberRegistration)
    : outcome (TreiberRegistration * TreiberStack) :=
  let! s :=
    (match tr_entry r with
     | Some e =>
         let! entry := get (ts_entries s) e in
         Ret (if decide (en_status entry = LIVE) then set_status s e (mkEntry REVOKED (en_waker entry)) else s)
     | None => Ret s
     end) in
  Ret (mkTreiberRegistration None false, s).

Definition treiber_poll (s : TreiberStack) (r : TreiberRegistration)
    : outcome (bool * TreiberRegistration * TreiberStack) :=
  if negb (tr_armed r) then Ret (true, r, s)
  else
    match tr_entry r with
    | Some e =>
        let! entry := get (ts_entries s) e in
        if decide (en_status entry = WOKEN) then Ret (true, mkTreiberRegistration None false, s)
        else
          let s := set_status s e (mkEntry (en_status entry) true) in
          let! entry := get (ts_entries s) e in
          if decide (en_status entry = WOKEN) then Ret (true, mkTreiberRegistration None false, s)
          else Ret (false, r, s)
    | None =>
        let e := fresh (dom (ts_entries s)) in
        let s := set_status s e (mkEntry LIVE true) in
        Ret (false, mkTreiberRegistration (Some e) (tr_armed r), push s e)
    end.

Definition treiber_drop (s : TreiberStack) (r : TreiberRegistration) : outcome TreiberStack :=
  let! (_, s) := do_revoke s r in Ret s.

#[export] Instance treiber_waiter : WaiterOps TreiberStack TreiberRegistration := {|
  w_register := treiber_register;
  w_wake := pop_and_wake;
  r_prepare := treiber_prepare;
  r_revoke := do_revoke;
  r_poll := treiber_poll;
  r_drop := treiber_drop;
|}.

(** ** Any use of the waiters of an interface *)

Inductive reg_op :=
| RRegister (id : nat)
| RPrepare (id : nat)
| RRevoke (id : nat)
| RPoll (id : nat)
| RDrop (id : nat)
| RWake.

Section use.
Context {W Reg : Type} {WO : WaiterOps W Reg}.

Definition reg_step (s : W * gmap nat Reg) (op : reg_op) : outcome (W * gmap nat Reg) :=
  let '(w, R) := s in
  match op with
  | RRegister id =>
      match R !! id with
      | None => let! (r, w) := w_register w in Ret (w, <[id := r]> R)
      | Some _ => Ret s
      end
  | RPrepare id =>
      match R !! id with Some r => let! (r, w) := r_prepare w r in Ret (w, <[id := r]> R) | None => Ret s end
  | RRevoke id =>
      match R !! id with Some r => let! (r, w) := r_revoke w r in Ret (w, <[id := r]> R) | None => Ret s end
  | RPoll id =>
      match R !! id with Some r => let! (_, r, w) := r_poll w r in Ret (w, <[id := r]> R) | None => Ret s end
  | RDrop id =>
      match R !! id with Some r => let! w := r_drop w r in Ret (w, delete id R) | None => Ret s end
  | RWake => let! w := w_wake w in Ret (w, R)
  end.

Definition reg_run (s : W * gmap nat Reg) (ops : list reg_op) : outcome (W * gmap nat Reg) := ofoldM reg_step s ops.
End use.

(** ** No entry is lost *)

Definition tlive (s : TreiberStack) (e : nat) : bool :=
  match ts_entries s !! e with Some x => bool_decide (en_status x = LIVE) | None => false end.

(** Live entries are on the stack, each node once; a registration that has
    published an entry shares it with no other. *)
Record treiber_inv (s : TreiberStack) (R : gmap nat TreiberRegistration) : Prop := {
  ti_known : ∀ e, e ∈ ts_head s → is_Some (ts_entries s !! e);
  ti_nodup : NoDup (ts_head s);
  ti_live : ∀ e, tlive s e = true → e ∈ ts_head s;
  ti_regs : ∀ id r e, R !! id = Some r → tr_entry r = Some e →
    tr_armed r = true ∧ ∃ x, ts_entries s !! e = Some x ∧ en_status x ≠ REVOKED ∧ (en_status x = LIVE → en_waker x = true);
  ti_own : ∀ id id' r r' e, R !! id = Some r → R !! id' = Some r' → tr_entry r = Some e → tr_entry r' = Some e → id = id';
}.

Lemma tlive_insert s h e x ws e' :
  tlive (mkTreiberStack h (<[e := x]> (ts_entries s)) ws) e' =
    if decide (e' = e) then bool_decide (en_status x = LIVE) else tlive s e'.
Proof.
  unfold tlive. simpl. destruct (decide (e' = e)) as [->|Hne]; [by rewrite lookup_insert_eq|by rewrite lookup_insert_ne].
Qed.

(** What a pop does: the nodes above the topmost live entry are discarded, and
    that entry is woken; or there is none. *)
Lemma pop_nodes_spec s nodes :
  (∀ e, e ∈ nodes → is_Some (ts_entries s !! e)) →
  (Forall (λ e, tlive s e = false) nodes ∧ pop_nodes s nodes = Ret (mkTreiberStack [] (ts_entries s) (ts_wakes s))) ∨
  (∃ dead e rest x, nodes = dead ++ e :: rest ∧ Forall (λ e, tlive s e = false) dead ∧ tlive s e = true ∧
     ts_entries s !! e = Some x ∧
     pop_nodes s nodes = Ret (mkTreiberStack rest (<[e := mkEntry WOKEN false]> (ts_entries s))
                                (if en_waker x then ts_wakes s ++ [e] else ts_wakes s))).
Proof.
  induction nodes as [|e nodes IH]; intros Hk; simpl; [by left|].
  destruct (Hk e) as [x Hx]; [by left|]. unfold get. rewrite Hx. cbn [obind].
  assert (Hl : tlive s e = bool_decide (en_status x = LIVE)) by (unfold tlive; by rewrite Hx).
  destruct (decide (en_status x = LIVE)) as [Hlive|Hdead].
  - right. exists [], e, nodes, x. split_and!; try done. rewrite Hl. by apply bool_decide_eq_true.
  - assert (Hf : tlive s e = false) by (rewrite Hl; by apply bool_decide_eq_false).
    destruct IH as [[Hall ->]|(dead & e' & rest & x' & -> & Hd & Hl' & Hx' & ->)]; [intros e' He'; apply Hk; by right|..].
    + left. split; [by constructor|done].
    + right. exists (e :: dead), e', rest, x'. split_and!; try done. by constructor.
Qed.

Lemma pop_ok s R : treiber_inv s R → ∃ s', pop_and_wake s = Ret s' ∧ treiber_inv s' R.
Proof.
  intros [Hk Hnd Hl Hr Hown]. unfold pop_and_wake.
  destruct (pop_nodes_spec s (ts_head s) Hk) as [[Hall ->]|(dead & e & rest & x & Hq & Hd & Hle & Hx & ->)];
    eexists; (split; [done|]).
  - split; simpl; try done; [|apply NoDup_nil_2|]; [by intros e ?%not_elem_of_nil|].
    intros e He. rewrite Forall_forall in Hall. assert (tlive s e = true) as He' by done.
    by rewrite (Hall e (Hl e He')) in He'.
  - rewrite Hq in Hnd. apply NoDup_app in Hnd as (_ & _ & [Hni Hnd]%NoDup_cons).
    rewrite Forall_forall in Hd. split; simpl; try done.
    + intros e' He'. destruct (decide (e' = e)) as [->|]; [by rewrite lookup_insert_eq|].
      rewrite lookup_insert_ne by done. apply Hk. rewrite Hq. set_solver.
    + intros e'. rewrite tlive_insert. case_match eqn:Ee; [done|]. intros He'. pose proof (Hl e' He') as Hin.
      rewrite Hq in Hin. apply elem_of_app in Hin as [Hin|[->|Hin]%elem_of_cons]; [|done..].
      by rewrite (Hd e' Hin) in He'.
    + intros id r e' Hid He'. destruct (Hr _ _ _ Hid He') as (Ha & x' & Hx' & Hst & Hwk). split; [done|].
      destruct (decide (e' = e)) as [->|]; [rewrite lookup_insert_eq; by eexists|].
      rewrite lookup_insert_ne by done. by exists x'.
Qed.

(** A registration that publishes nothing. *)
Lemma treiber_set_idle s R id r :
  treiber_inv s R → tr_entry r = None → treiber_inv s (<[id := r]> R).
Proof.
  intros [Hk Hnd Hl Hr Hown] Hn. split; try done.
  - intros j r' e [[_ <-]|[_ Hj]]%lookup_insert_Some; [congruence|by eapply Hr].
  - intros j j' r1 r2 e [[<- <-]|[? H1]]%lookup_insert_Some [[<- <-]|[? H2]]%lookup_insert_Some He1 He2;
      [done|congruence|congruence|]. by eapply Hown.
Qed.

Lemma treiber_delete s R id : treiber_inv s R → treiber_inv s (delete id R).
Proof.
  intros [Hk Hnd Hl Hr Hown]. split; try done.
  - intros j r e [_ Hj]%lookup_delete_Some. by eapply Hr.
  - intros j j' r r' e [_ H1]%lookup_delete_Some [_ H2]%lookup_delete_Some. by eapply Hown.
Qed.

(** The entry of one registration changes, without coming back to life. *)
Lemma treiber_touch s R id r e x x' :
  treiber_inv s R → R !! id = Some r → tr_entry r = Some e → ts_entries s !! e = Some x →
  (en_status x' = LIVE → en_status x = LIVE) → treiber_inv (set_status s e x') (delete id R).
Proof.
  intros Hi Hid He Hx Hst. pose proof Hi as [Hk Hnd Hl Hr Hown]. split; simpl; try done.
  - intros e' He'. destruct (decide (e' = e)) as [->|]; [by rewrite lookup_insert_eq|].
    rewrite lookup_insert_ne by done. by apply Hk.
  - intros e'. unfold set_status. rewrite tlive_insert. destruct (decide (e' = e)) as [->|]; [|by apply Hl].
    rewrite bool_decide_eq_true. intros Hs%Hst. apply Hl. unfold tlive. rewrite Hx. by apply bool_decide_eq_true.
  - intros j r' e' [Hne Hj]%lookup_delete_Some He'. destruct (Hr _ _ _ Hj He') as (Ha & y & Hy & Hrest). split; [done|].
    rewrite lookup_insert_ne; [by exists y|]. intros <-. apply Hne. by eapply Hown.
  - intros j j' r1 r2 e' [_ H1]%lookup_delete_Some [_ H2]%lookup_delete_Some. by eapply Hown.
Qed.

Lemma treiber_touch_back s R id r e x :
  treiber_inv s (delete id R) → tr_entry r = Some e → tr_armed r = true → ts_entries s !! e = Some x →
  en_status x ≠ REVOKED → (en_status x = LIVE → en_waker x = true) →
  (∀ j r', R !! j = Some r' → tr_entry r' = Some e → j = id) → treiber_inv s (<[id := r]> R).
Proof.
  intros [Hk Hnd Hl Hr Hown] He Ha Hx Hs Hw Hu. split; try done.
  - intros j r' e' [[<- <-]|[Hne Hj]]%lookup_insert_Some He'; [simplify_eq; split; [done|by exists x]|].
    apply (Hr j); [by apply lookup_delete_Some|done].
  - intros j j' r1 r2 e' [[<- <-]|[Hn1 H1]]%lookup_insert_Some [[<- <-]|[Hn2 H2]]%lookup_insert_Some He1 He2;
      simplify_eq; [done| | |].
    + symmetry. by eapply Hu.
    + by eapply Hu.
    + apply (Hown j j' r1 r2 e'); by try apply lookup_delete_Some.
Qed.

Lemma do_revoke_ok s R id r :
  treiber_inv s R → R !! id = Some r →
  ∃ s', do_revoke s r = Ret (mkTreiberRegistration None false, s') ∧ treiber_inv s' (delete id R).
Proof.
  intros Hi Hid. unfold do_revoke. destruct (tr_entry r) as [e|] eqn:He; cbn [obind].
  - destruct (ti_regs _ _ Hi _ _ _ Hid He) as (_ & x & Hx & _). unfold get. rewrite Hx. cbn [obind].
    eexists. split; [done|]. case_decide; [|by apply treiber_delete]. by eapply treiber_touch.
  - exists s. split; [done|by apply treiber_delete].
Qed.

Lemma treiber_poll_ok s R id r :
  treiber_inv s R → R !! id = Some r →
  ∃ b r' s', treiber_poll s r = Ret (b, r', s') ∧ treiber_inv s' (<[id := r']> R) ∧
    (b = false → ∃ e, tr_entry r' = Some e ∧ e ∈ ts_head s' ∧ tlive s' e = true).
Proof.
  intros Hi Hid. pose proof Hi as [Hk Hnd Hl Hr Hown]. unfold treiber_poll.
  destruct (tr_armed r) eqn:Ea; cbn [negb].
  2: { do 3 eexists. split; [done|]. split; [by rewrite insert_id|done]. }
  destruct (tr_entry r) as [e|] eqn:Ee.
  - destruct (Hr _ _ _ Hid Ee) as (_ & x & Hx & Hs & Hw). unfold get at 1. rewrite Hx. cbn [obind].
    destruct (decide (en_status x = WOKEN)) as [Hwk|Hnw].
    { do 3 eexists. split; [done|]. split; [by apply treiber_set_idle|done]. }
    unfold get. simpl. rewrite lookup_insert_eq. cbn [obind en_status]. rewrite decide_False by done.
    assert (Hlive : en_status x = LIVE) by (by destruct (en_status x)).
    do 3 eexists. split; [done|]. split.
    + apply (treiber_touch_back _ R id r e (mkEntry (en_status x) true)); try done.
      { by eapply treiber_touch. }
      { apply lookup_insert_eq. }
      intros j r' Hj He'. by eapply Hown.
    + intros _. exists e. split_and!; [done| |].
      * simpl. apply Hl. unfold tlive. rewrite Hx. by apply bool_decide_eq_true.
      * unfold set_status. rewrite tlive_insert, decide_True by done. by apply bool_decide_eq_true.
  - set (e := fresh _). assert (Hf : ts_entries s !! e = None) by (apply not_elem_of_dom, is_fresh). clearbody e.
    assert (Hni : e ∉ ts_head s) by (intros [x Hx]%Hk; congruence).
    assert (Hnr : ∀ j r', R !! j = Some r' → tr_entry r' ≠ Some e).
    { intros j r' Hj He'. destruct (Hr _ _ _ Hj He') as (_ & x & Hx & _). congruence. }
    do 3 eexists. split; [done|]. split.
    + split; simpl.
      * intros e' [->|He']%elem_of_cons; [by rewrite lookup_insert_eq|].
        destruct (decide (e' = e)) as [->|]; [by rewrite lookup_insert_eq|]. rewrite lookup_insert_ne by done. by apply Hk.
      * by constructor.
      * intros e'. unfold push, set_status. simpl. rewrite tlive_insert.
        destruct (decide (e' = e)) as [->|]; [intros _; by left|]. intros He'. right. by apply Hl.
      * intros j r' e' [[<- <-]|[_ Hj]]%lookup_insert_Some He'.
        -- simpl in *. injection He' as <-. rewrite lookup_insert_eq. split; [done|]. by eexists.
        -- rewrite lookup_insert_ne by (intros <-; by eapply Hnr). by eapply Hr.
      * intros j j' r1 r2 e' [[<- <-]|[? H1]]%lookup_insert_Some [[<- <-]|[? H2]]%lookup_insert_Some; simpl; try done.
        -- intros [= <-] He2. by destruct (Hnr _ _ H2).
        -- intros He1 [= <-]. by destruct (Hnr _ _ H1).
        -- by eapply Hown.
    + intros _. exists e. split_and!; [done|by left|]. unfold push, set_status. simpl.
      rewrite tlive_insert, decide_True by done. done.
Qed.

Lemma reg_step_ok s R op :
  treiber_inv s R → ∃ s' R', reg_step (s, R) op = Ret (s', R') ∧ treiber_inv s' R'.
Proof.
  intros Hi. destruct op as [id|id|id|id|id|]; simpl; try destruct (R !! id) as [r|] eqn:Eid; try by (exists s, R).
  - do 2 eexists. split; [done|]. by apply treiber_set_idle.
  - do 2 eexists. split; [done|]. destruct Hi as [Hk Hnd Hl Hr Hown]. split; try done.
    + intros j r' e [[_ <-]|[_ Hj]]%lookup_insert_Some He; [|by apply (Hr j)]. destruct (Hr _ _ _ Eid He) as [_ ?]. done.
    + intros j j' r1 r2 e [[<- <-]|[? H1]]%lookup_insert_Some [[<- <-]|[? H2]]%lookup_insert_Some; simpl;
        [done|by apply (Hown _ _ r r2)|by apply (Hown _ _ r1 r)|by eapply Hown].
  - destruct (do_revoke_ok s R id r Hi Eid) as (s' & -> & Hi'). cbn [obind]. do 2 eexists. split; [done|].
    rewrite <- insert_delete_eq. by apply treiber_set_idle.
  - destruct (treiber_poll_ok s R id r Hi Eid) as (b & r' & s' & -> & Hi' & _). cbn [obind].
    do 2 eexists. by split.
  - unfold treiber_drop. destruct (do_revoke_ok s R id r Hi Eid) as (s' & -> & Hi'). cbn [obind].
    do 2 eexists. by split.
  - destruct (pop_ok s R Hi) as (s' & -> & Hi'). cbn [obind]. do 2 eexists. by split.
Qed.

Lemma reg_run_ok s R ops :
  treiber_inv s R → ∃ s' R', reg_run (s, R) ops = Ret (s', R') ∧ treiber_inv s' R'.
Proof.
  revert s R. induction ops as [|op ops IH]; intros s R Hi; cbn [reg_run ofoldM]; [by exists s, R|].
  destruct (reg_step_ok s R op Hi) as (s1 & R1 & -> & Hi1). cbn [obind]. by apply IH.
Qed.

(** The Treiber stack loses no published entry.  Under any sequence of
    registering, arming, revoking, polling, dropping and waking, nothing
    panics; a registration that has published an entry has been woken, so that
    its next poll is ready, or its entry is live on the stack with a waker
    stored; and a wake, when a live entry is on the stack, pops exactly down to
    the topmost one, calls its waker and makes the next poll of its
    registration ready. *)
Theorem treiber_correct ops :
  ∃ s R, reg_run (TreiberStack_new, ∅) ops = Ret (s, R) ∧
    (∀ id r e, R !! id = Some r → tr_entry r = Some e →
       (∃ r', treiber_poll s r = Ret (true, r', s)) ∨
       (e ∈ ts_head s ∧ ts_entries s !! e = Some (mkEntry LIVE true))) ∧
    (∀ e0, e0 ∈ ts_head s → tlive s e0 = true →
       ∃ dead e rest s', ts_head s = dead ++ e :: rest ∧ Forall (λ e, tlive s e = false) dead ∧ tlive s e = true ∧
         pop_and_wake s = Ret s' ∧ ts_head s' = rest ∧
         ∀ id r, R !! id = Some r → tr_entry r = Some e →
           e ∈ ts_wakes s' ∧ ∃ r', treiber_poll s' r = Ret (true, r', s')).
Proof.
  assert (Hnew : treiber_inv TreiberStack_new ∅).
  { split; simpl; try done; [by intros e ?%not_elem_of_nil|apply NoDup_nil_2]. }
  destruct (reg_run_ok _ _ ops Hnew) as (s & R & Hrun & Hi). exists s, R. pose proof Hi as [Hk Hnd Hl Hr Hown].
  split_and!; [done|..].
  - intros id r e Hid He. destruct (Hr _ _ _ Hid He) as (Ha & [st wk] & Hx & Hs & Hw). simpl in *.
    destruct (decide (st = WOKEN)) as [->|Hnw].
    + left. unfold treiber_poll, get. rewrite Ha, He, Hx. cbn [negb obind en_status]. by eexists.
    + assert (Hlive : st = LIVE) by (by destruct st). right. rewrite Hx, Hlive, Hw by done. split; [|done].
      apply Hl. unfold tlive. rewrite Hx. by apply bool_decide_eq_true.
  - intros e0 He0 Hl0. unfold pop_and_wake.
    destruct (pop_nodes_spec s (ts_head s) Hk) as [[Hall _]|(dead & e & rest & x & Hq & Hd & Hle & Hx & ->)].
    { rewrite Forall_forall in Hall. by rewrite (Hall e0 He0) in Hl0. }
    do 4 eexists. split_and!; try done. intros id r Hid He.
    destruct (Hr _ _ _ Hid He) as (Ha & x' & Hx' & _ & Hw). rewrite Hx in Hx'. injection Hx' as <-.
    unfold tlive in Hle. rewrite Hx in Hle. apply bool_decide_eq_true in Hle. simpl. rewrite (Hw Hle). split.
    + apply elem_of_app. right. by left.
    + unfold treiber_poll, get. simpl. rewrite Ha, He, lookup_insert_eq. cbn [negb obind en_status]. by eexists.
Qed.

Lemma treiber_correct_witness :
  ∃ s R, reg_run (TreiberStack_new, ∅)
    [RRegister 1; RPrepare 1; RPoll 1; RRegister 2; RPrepare 2; RPoll 2; RRevoke 2; RWake] = Ret (s, R) ∧ ts_head s = [].
Proof.
  destruct (treiber_correct [RRegister 1; RPrepare 1; RPoll 1; RRegister 2; RPrepare 2; RPoll 2; RRevoke 2; RWake])
    as (s & R & H & _).
  exists s, R. split; [exact H|].
  assert (Hk : match reg_run (TreiberStack_new, ∅)
      [RRegister 1; RPrepare 1; RPoll 1; RRegister 2; RPrepare 2; RPoll 2; RRevoke 2; RWake] with
    | Ret (s, _) => ts_head s | _ => [7%nat] end = []) by (vm_compute; reflexivity).
  rewrite H in Hk. exact Hk.
Defined.

(** ** A wake that is lost

    Arming only sets a flag: the entry is published by the first poll.  A slot
    freed between the failed attempt and that poll wakes nobody, and the task
    goes on waiting although the slot is free. *)
Lemma treiber_lost_wake :
  match @build_fixed_async_with dev TreiberStack demo_platform demo_alloc Standard demo_builder TreiberStack_new
          (mkWorld ∅ []) with
  | Ret (Ok (a, w)) =>
      match @fixed_run dev list_bytes _ _ treiber_waiter (mkFixedSys a w ∅)
              [FAllocate 1; FAllocate 2; FAllocate 3; FAllocate 4; FAllocate 5; FDropBuffer 1; FResume 5; FResume 5] with
      | Ret z =>
          match z_tasks z !! 5%nat, any_free (a_bitmap (af_inner (z_arena z))) with
          | Some (FTParked _), Ret free => free
          | _, _ => false
          end
      | _ => false
      end
  | _ => false
  end = true.
Proof. vm_compute. reflexivity. Qed.
