(* ===== verification/TreiberConc.v ===== *)
(** * The Treiber stack under contention ([examples/treiber_waker.rs])

    The nodes of the stack as memory: [push], [pop_and_wake], [poll],
    [do_revoke] and [Drop] as sequences of accesses to the head, to the nodes
    and to the entries, interleaved at will.  Node addresses are chosen by the
    allocator and may be used again once a node is destroyed; a deferred
    destruction runs when every guard that was pinned at the time is gone,
    which is what [crossbeam_epoch] documents. *)

From stdpp Require Import prelude numbers list gmap.
From S2P Require Import Prelude Usize Errors Async AsyncFixed Treiber.
Local Open Scope Z_scope.

(** ** Data *)

(** An entry with the waker it stores, a [Waker] being a name. *)
Record CEntry := mkCEntry { ce_status : waiter_state; ce_waker : option nat }.

Record Node := mkNode { nd_entry : nat; nd_next : option nat }.

(** Where a registration is: between calls, in the loop of [push] with the node
    [x] and the head it loaded, or in [poll] in front of the store of the waker
    [v] or of the second check.  A location is named after the access it is in
    front of. *)
Inductive tloc :=
| TIdle
| TPushLoad (x v : nat)
| TPushStore (x v : nat) (h : option nat)
| TPushCas (x v : nat) (h : option nat)
| TStoreWaker (e v : nat)
| TRecheck (e v : nat).

(** [tt_waker]: the waker of the last poll, if that returned [Pending]. *)
Record ttask := mkTtask { tt_reg : TreiberRegistration; tt_loc : tloc; tt_waker : option nat }.

(** Where a [pop_and_wake] is: the load of the head, of the next node, the
    exchange of the head; then [defer_destroy], the exchange of the status and
    the waker of the entry, both reached through the node. *)
Inductive ploc :=
| PopLoad
| PopNext (h : nat)
| PopCas (h : nat) (next : option nat)
| PopDefer (h : nat)
| PopStatus (h : nat)
| PopWake (h e : nat).

(** A pinned guard: of a registration that pushes or of a wake. *)
Inductive guard := GPush (id : nat) | GPop (w : nat).

#[export] Instance guard_eq_dec : EqDecision guard.
Proof. solve_decision. Defined.

#[export] Instance guard_countable : Countable guard.
Proof.
  refine (inj_countable' (λ g, match g with GPush i => inl i | GPop w => inr w end)
            (λ s, match s with inl i => GPush i | inr w => GPop w end) _).
  by intros [].
Defined.

(** [tc_retired]: the nodes handed to [defer_destroy], each with the guards
    pinned then that are still pinned. *)
Record tconc := mkTconc {
  tc_head : option nat;
  tc_nodes : gmap nat Node;
  tc_retired : gmap nat (gset guard);
  tc_entries : gmap nat CEntry;
  tc_wakes : list nat;
  tc_regs : gmap nat ttask;
  tc_pops : gmap nat ploc;
}.

Definition set_head (s : tconc) (h : option nat) : tconc :=
  mkTconc h (tc_nodes s) (tc_retired s) (tc_entries s) (tc_wakes s) (tc_regs s) (tc_pops s).
Definition set_node (s : tconc) (x : nat) (nd : Node) : tconc :=
  mkTconc (tc_head s) (<[x := nd]> (tc_nodes s)) (tc_retired s) (tc_entries s) (tc_wakes s) (tc_regs s) (tc_pops s).
Definition set_retired (s : tconc) (r : gmap nat (gset guard)) : tconc :=
  mkTconc (tc_head s) (tc_nodes s) r (tc_entries s) (tc_wakes s) (tc_regs s) (tc_pops s).
Definition set_centry (s : tconc) (e : nat) (x : CEntry) : tconc :=
  mkTconc (tc_head s) (tc_nodes s) (tc_retired s) (<[e := x]> (tc_entries s)) (tc_wakes s) (tc_regs s) (tc_pops s).
Definition set_ttask (s : tconc) (id : nat) (t : ttask) : tconc :=
  mkTconc (tc_head s) (tc_nodes s) (tc_retired s) (tc_entries s) (tc_wakes s) (<[id := t]> (tc_regs s)) (tc_pops s).
Definition set_pop (s : tconc) (w : nat) (p : ploc) : tconc :=
  mkTconc (tc_head s) (tc_nodes s) (tc_retired s) (tc_entries s) (tc_wakes s) (tc_regs s) (<[w := p]> (tc_pops s)).

(** Unpinning a guard, and the end of a wake. *)
Definition unpin (s : tconc) (g : guard) : tconc :=
  set_retired s ((λ G, G ∖ {[g]}) <$> tc_retired s).

Definition end_pop (s : tconc) (w : nat) : tconc :=
  let s := unpin s (GPop w) in
  mkTconc (tc_head s) (tc_nodes s) (tc_retired s) (tc_entries s) (tc_wakes s) (tc_regs s) (delete w (tc_pops s)).

Definition pushing (t : ttask) : bool :=
  match tt_loc t with TPushLoad _ _ | TPushStore _ _ _ | TPushCas _ _ _ => true | _ => false end.

(** The guards pinned now. *)
Definition pinned (s : tconc) : gset guard :=
  set_map GPush (dom (filter (λ p, pushing p.2 = true) (tc_regs s))) ∪ set_map GPop (dom (tc_pops s)).

(** ** Registrations *)

(** [entry.status.compare_exchange(LIVE, new)]. *)
Definition status_exchange (s : tconc) (e : nat) (new : waiter_state) : outcome (bool * tconc) :=
  let! x := get (tc_entries s) e in
  if decide (ce_status x = LIVE) then Ret (true, set_centry s e (mkCEntry new (ce_waker x)))
  else Ret (false, s).

Definition idle_reg : ttask := mkTtask (mkTreiberRegistration None false) TIdle None.

Definition conc_revoke (s : tconc) (r : TreiberRegistration) : outcome tconc :=
  match tr_entry r with
  | Some e => let! (_, s) := status_exchange s e REVOKED in Ret s
  | None => Ret s
  end.

(** [poll] up to its first access after the load of the status; [x] is where
    the allocator puts a new node. *)
Definition start_poll (s : tconc) (id : nat) (t : ttask) (v x : nat) : outcome tconc :=
  let r := tt_reg t in
  if negb (tr_armed r) then Ret s
  else
    match tr_entry r with
    | Some e =>
        let! y := get (tc_entries s) e in
        if decide (ce_status y = WOKEN) then Ret (set_ttask s id idle_reg)
        else Ret (set_ttask s id (mkTtask r (TStoreWaker e v) (tt_waker t)))
    | None =>
        match tc_nodes s !! x with
        | Some _ => Ret s
        | None =>
            let e := fresh (dom (tc_entries s)) in
            let s := set_centry s e (mkCEntry LIVE (Some v)) in
            let s := set_node s x (mkNode e None) in
            Ret (set_ttask s id (mkTtask (mkTreiberRegistration (Some e) (tr_armed r)) (TPushLoad x v) None))
        end
    end.

Definition reg_move (s : tconc) (id : nat) (t : ttask) : outcome tconc :=
  let r := tt_reg t in
  match tt_loc t with
  | TIdle => Ret s
  | TPushLoad x v => Ret (set_ttask s id (mkTtask r (TPushStore x v (tc_head s)) None))
  | TPushStore x v h =>
      let! nd := get (tc_nodes s) x in
      Ret (set_ttask (set_node s x (mkNode (nd_entry nd) h)) id (mkTtask r (TPushCas x v h) None))
  | TPushCas x v h =>
      if decide (tc_head s = h)
      then Ret (set_ttask (unpin (set_head s (Some x)) (GPush id)) id (mkTtask r TIdle (Some v)))
      else Ret (set_ttask s id (mkTtask r (TPushLoad x v) None))
  | TStoreWaker e v =>
      let! y := get (tc_entries s) e in
      Ret (set_ttask (set_centry s e (mkCEntry (ce_status y) (Some v))) id (mkTtask r (TRecheck e v) None))
  | TRecheck e v =>
      let! y := get (tc_entries s) e in
      if decide (ce_status y = WOKEN) then Ret (set_ttask s id idle_reg)
      else Ret (set_ttask s id (mkTtask r TIdle (Some v)))
  end.

(** ** Wakes *)

Definition pop_move (s : tconc) (w : nat) (p : ploc) : outcome tconc :=
  match p with
  | PopLoad =>
      match tc_head s with
      | Some h => Ret (set_pop s w (PopNext h))
      | None => Ret (end_pop s w)
      end
  | PopNext h =>
      let! nd := get (tc_nodes s) h in
      Ret (set_pop s w (PopCas h (nd_next nd)))
  | PopCas h next =>
      if decide (tc_head s = Some h) then Ret (set_pop (set_head s next) w (PopDefer h))
      else Ret (set_pop s w PopLoad)
  | PopDefer h => Ret (set_pop (set_retired s (<[h := pinned s]> (tc_retired s))) w (PopStatus h))
  | PopStatus h =>
      let! nd := get (tc_nodes s) h in
      let! (won, s) := status_exchange s (nd_entry nd) WOKEN in
      Ret (set_pop s w (if won : bool then PopWake h (nd_entry nd) else PopLoad))
  | PopWake h e =>
      let! _ := get (tc_nodes s) h in
      let! y := get (tc_entries s) e in
      let s := set_centry s e (mkCEntry (ce_status y) None) in
      let s := mkTconc (tc_head s) (tc_nodes s) (tc_retired s) (tc_entries s)
                 (tc_wakes s ++ option_list (ce_waker y)) (tc_regs s) (tc_pops s) in
      Ret (end_pop s w)
  end.

(** ** Interleavings *)

(** [TCollect x]: the deferred destruction of the node [x]. *)
Inductive tevent :=
| TRegister (id : nat)
| TPrepare (id : nat)
| TPoll (id v x : nat)
| TRevoke (id : nat)
| TDrop (id : nat)
| TMove (id : nat)
| TWake (w : nat)
| TPop (w : nat)
| TCollect (x : nat).

Definition texec_event (s : tconc) (ev : tevent) : outcome tconc :=
  match ev with
  | TRegister id => match tc_regs s !! id with None => Ret (set_ttask s id idle_reg) | Some _ => Ret s end
  | TPrepare id =>
      match tc_regs s !! id with
      | Some (mkTtask r TIdle v) =>
          Ret (set_ttask s id (mkTtask (mkTreiberRegistration (tr_entry r) true) TIdle v))
      | _ => Ret s
      end
  | TPoll id v x =>
      match tc_regs s !! id with
      | Some (mkTtask r TIdle v0) => start_poll s id (mkTtask r TIdle v0) v x
      | _ => Ret s
      end
  | TRevoke id =>
      match tc_regs s !! id with
      | Some (mkTtask r TIdle _) => let! s := conc_revoke s r in Ret (set_ttask s id idle_reg)
      | _ => Ret s
      end
  | TDrop id =>
      match tc_regs s !! id with
      | Some (mkTtask r TIdle _) =>
          let! s := conc_revoke s r in
          Ret (mkTconc (tc_head s) (tc_nodes s) (tc_retired s) (tc_entries s) (tc_wakes s)
                 (delete id (tc_regs s)) (tc_pops s))
      | _ => Ret s
      end
  | TMove id => match tc_regs s !! id with Some t => reg_move s id t | None => Ret s end
  | TWake w => match tc_pops s !! w with None => Ret (set_pop s w PopLoad) | Some _ => Ret s end
  | TPop w => match tc_pops s !! w with Some p => pop_move s w p | None => Ret s end
  | TCollect x =>
      match tc_retired s !! x with
      | Some G =>
          if decide (G = ∅)
          then Ret (mkTconc (tc_head s) (delete x (tc_nodes s)) (delete x (tc_retired s)) (tc_entries s)
                      (tc_wakes s) (tc_regs s) (tc_pops s))
          else Ret s
      | None => Ret s
      end
  end.

Definition texec_events (s : tconc) (evs : list tevent) : outcome tconc := ofoldM texec_event s evs.

Definition tconc_new : tconc := mkTconc None ∅ ∅ ∅ [] ∅ ∅.

(** [Drop for TreiberStack]: the walk over the nodes left, with the nodes freed
    in order; each step frees one, so the number of nodes is fuel enough. *)
Fixpoint stack_drop (fuel : nat) (nodes : gmap nat Node) (current : option nat) : outcome (list nat * gmap nat Node) :=
  match current with
  | None => Ret ([], nodes)
  | Some x =>
      match fuel with
      | O => OutOfFuel
      | S fuel =>
          let! nd := get nodes x in
          let! (freed, nodes) := stack_drop fuel (delete x nodes) (nd_next nd) in
          Ret (x :: freed, nodes)
      end
  end.
