(* ===== verification/TreiberConcProps.v ===== *)
(** * The Treiber stack under contention: what holds

    The nodes a thread can reach are alive, the nodes under the head are a
    list, and no published entry and no wake is lost. *)

From stdpp Require Import prelude numbers list gmap.
From S2P Require Import Prelude Tasks Usize Errors Async AsyncFixed Treiber TreiberConc.
Local Open Scope Z_scope.

(** ** The invariant on nodes *)

(** The nodes from [h] on are [l]. *)
Fixpoint chain (nodes : gmap nat Node) (h : option nat) (l : list nat) : Prop :=
  match l with
  | [] => h = None
  | x :: l' => h = Some x ∧ ∃ nd, nodes !! x = Some nd ∧ chain nodes (nd_next nd) l'
  end.

(** Where a node is: with the registration that made it, on the stack, with the
    wake that popped it, or waiting for its destruction. *)
Inductive nplace := NOwned (id : nat) | NStack | NPopped (w : nat) | NRetired.

Definition reg_own (t : ttask) : option nat :=
  match tt_loc t with TPushLoad x _ | TPushStore x _ _ | TPushCas x _ _ => Some x | _ => None end.

Definition pop_own (p : ploc) : option nat := match p with PopDefer h => Some h | _ => None end.

Section memory.
Implicit Types (np : gmap nat nplace) (regs : gmap nat ttask) (pops : gmap nat ploc) (nodes : gmap nat Node).
Implicit Types (retired : gmap nat (gset guard)).

(** A node the wake [w] may look at. *)
Definition guarded np retired (w h : nat) : Prop :=
  np !! h = Some NStack ∨ (∃ w', np !! h = Some (NPopped w')) ∨
  (∃ G, retired !! h = Some G ∧ GPop w ∈ G).

Definition push_fine nodes (t : ttask) : Prop :=
  match tt_loc t with
  | TPushLoad x _ | TPushStore x _ _ =>
      ∃ nd, nodes !! x = Some nd ∧ tr_entry (tt_reg t) = Some (nd_entry nd)
  | TPushCas x _ h =>
      ∃ nd, nodes !! x = Some nd ∧ tr_entry (tt_reg t) = Some (nd_entry nd) ∧ nd_next nd = h
  | _ => True
  end.

Definition pop_fine np retired nodes (w : nat) (p : ploc) : Prop :=
  match p with
  | PopNext h => guarded np retired w h
  | PopCas h next => guarded np retired w h ∧ ∃ nd, nodes !! h = Some nd ∧ nd_next nd = next
  | PopStatus h | PopWake h _ => ∃ G, retired !! h = Some G ∧ GPop w ∈ G
  | _ => True
  end.

Record mem_inv (l : list nat) np (head : option nat) nodes retired regs pops : Prop := {
  mi_chain : chain nodes head l;
  mi_nodup : NoDup l;
  mi_dom x : is_Some (nodes !! x) ↔ is_Some (np !! x);
  mi_stack x : x ∈ l ↔ np !! x = Some NStack;
  mi_owned id x : np !! x = Some (NOwned id) ↔ regs !! id ≫= reg_own = Some x;
  mi_popped w x : np !! x = Some (NPopped w) ↔ pops !! w ≫= pop_own = Some x;
  mi_retired x : np !! x = Some NRetired ↔ is_Some (retired !! x);
  mi_push id t : regs !! id = Some t → push_fine nodes t;
  mi_pop w p : pops !! w = Some p → pop_fine np retired nodes w p;
}.

Lemma chain_ext nodes nodes' h l :
  (∀ x, x ∈ l → nodes' !! x = nodes !! x) → chain nodes h l → chain nodes' h l.
Proof.
  revert h. induction l as [|x l IH]; intros h Hx; simpl; [done|]. intros (-> & nd & Hnd & Hc). split; [done|].
  exists nd. rewrite Hx by (by left). split; [done|]. apply IH; [|done]. intros y Hy. apply Hx. by right.
Qed.

(** A registration moves without touching the nodes. *)
Lemma mem_regs l np head nodes retired regs pops id (t' : option ttask) :
  mem_inv l np head nodes retired regs pops →
  t' ≫= reg_own = regs !! id ≫= reg_own → from_option (push_fine nodes) True t' →
  mem_inv l np head nodes retired (partial_alter (λ _, t') id regs) pops.
Proof.
  intros [Hc Hnd Hd Hs Ho Hp Hr Hpu Hpo] Hown Hf. constructor; try done.
  - intros i x. rewrite Ho, lookup_partial_alter. case_decide; [|done]. subst. by rewrite Hown.
  - intros i t. rewrite lookup_partial_alter. case_decide; [|apply Hpu]. by intros ->.
Qed.

(** A wake moves without touching the nodes. *)
Lemma mem_pops l np head nodes retired regs pops w p' :
  mem_inv l np head nodes retired regs pops →
  pop_own p' = pops !! w ≫= pop_own → pop_fine np retired nodes w p' →
  mem_inv l np head nodes retired regs (<[w := p']> pops).
Proof.
  intros [Hc Hnd Hd Hs Ho Hp Hr Hpu Hpo] Hown Hf. constructor; try done.
  - intros i x. rewrite Hp, lookup_insert. case_decide; [|done]. subst. simpl. by rewrite Hown.
  - intros i p. rewrite lookup_insert. case_decide; [|apply Hpo]. by intros [= <-]; subst.
Qed.

(** A guard other than [w]'s is unpinned. *)
Lemma guarded_unpin np retired w h g :
  g ≠ GPop w → guarded np retired w h → guarded np ((λ G, G ∖ {[g]}) <$> retired) w h.
Proof.
  intros Hg [?|[?|(G & HG & Hin)]]; [by left|by right; left|]. right. right.
  exists (G ∖ {[g]}). rewrite lookup_fmap, HG. split; [done|]. set_solver.
Qed.

Lemma pop_fine_unpin np retired nodes w p g :
  g ≠ GPop w → pop_fine np retired nodes w p → pop_fine np ((λ G, G ∖ {[g]}) <$> retired) nodes w p.
Proof.
  intros Hg. destruct p; simpl; try done.
  - by apply guarded_unpin.
  - intros [? ?]. split; [by apply guarded_unpin|done].
  - intros (G & HG & Hin); exists (G ∖ {[g]}); rewrite lookup_fmap, HG; split; [done|set_solver].
  - intros (G & HG & Hin); exists (G ∖ {[g]}); rewrite lookup_fmap, HG; split; [done|set_solver].
Qed.

Lemma mem_unpin l np head nodes retired regs pops g :
  mem_inv l np head nodes retired regs pops → (∀ w, g = GPop w → pops !! w = None) →
  mem_inv l np head nodes ((λ G, G ∖ {[g]}) <$> retired) regs pops.
Proof.
  intros [Hc Hnd Hd Hs Ho Hp Hr Hpu Hpo] Hg. constructor; try done.
  - intros x. rewrite Hr, lookup_fmap. by rewrite fmap_is_Some.
  - intros w p Hw. apply pop_fine_unpin; [|by apply Hpo]. intros ->. by rewrite (Hg w) in Hw.
Qed.

(** The end of a wake. *)
Lemma mem_end l np head nodes retired regs pops w :
  mem_inv l np head nodes retired regs pops → pops !! w ≫= pop_own = None →
  mem_inv l np head nodes ((λ G, G ∖ {[GPop w]}) <$> retired) regs (delete w pops).
Proof.
  intros [Hc Hnd Hd Hs Ho Hp Hr Hpu Hpo] Hw. apply mem_unpin.
  - constructor; try done.
    + intros i x. rewrite Hp, lookup_delete. case_decide; [|done]. subst. by rewrite Hw.
    + intros i p. rewrite lookup_delete. case_decide; [done|apply Hpo].
  - intros w' [= <-]. apply lookup_delete_eq.
Qed.

(** A guarded node is alive. *)
Lemma guarded_alive l np head nodes retired regs pops w h :
  mem_inv l np head nodes retired regs pops → guarded np retired w h → is_Some (nodes !! h).
Proof.
  intros [Hc Hnd Hd Hs Ho Hp Hr Hpu Hpo] Hg. apply Hd. destruct Hg as [?|[[w' ?]|(G & HG & _)]]; [by eexists..|].
  exists NRetired. apply Hr. by eexists.
Qed.

(** A change of place of a node that is not given up does not unguard others. *)
Lemma guarded_place np retired w h x p :
  (x = h → p = NStack ∨ ∃ w, p = NPopped w) → guarded np retired w h → guarded (<[x := p]> np) retired w h.
Proof.
  intros Hx Hg. destruct (decide (x = h)) as [->|Hne].
  - destruct Hx as [->|[w' ->]]; [done|left|right; left; exists w']; by rewrite lookup_insert_eq.
  - unfold guarded. by rewrite lookup_insert_ne.
Qed.

Lemma mem_alloc l np head nodes retired regs pops id x e t' :
  mem_inv l np head nodes retired regs pops → nodes !! x = None →
  regs !! id ≫= reg_own = None → reg_own t' = Some x → push_fine (<[x := mkNode e None]> nodes) t' →
  mem_inv l (<[x := NOwned id]> np) head (<[x := mkNode e None]> nodes) retired (<[id := t']> regs) pops.
Proof.
  intros [Hc Hnd Hd Hs Ho Hp Hr Hpu Hpo] Hx Hid Hown Hf.
  assert (Hnp : np !! x = None) by (apply eq_None_not_Some; rewrite <- Hd, Hx; by intros [? ?]).
  constructor; try done.
  - eapply chain_ext; [|done]. intros y Hy. apply lookup_insert_ne. intros ->. apply Hs in Hy. congruence.
  - intros y. rewrite !lookup_insert. case_decide; [naive_solver|apply Hd].
  - intros y. rewrite Hs, lookup_insert. case_decide; naive_solver.
  - intros i y. pose proof (Ho i y). pose proof (Ho id y). rewrite !lookup_insert.
    repeat case_decide; simplify_eq; simpl; naive_solver.
  - intros w y. rewrite <- Hp, lookup_insert. case_decide; naive_solver.
  - intros y. rewrite <- Hr, lookup_insert. case_decide; naive_solver.
  - intros i t. rewrite lookup_insert. case_decide; [by intros [= <-]|]. intros Ht.
    pose proof (Hpu _ _ Ht) as Hft. unfold push_fine in *.
    destruct (tt_loc t); try done; destruct Hft as (nd & Hnd' & ?); exists nd;
      rewrite lookup_insert_ne by congruence; done.
  - intros w p Hw. pose proof (Hpo _ _ Hw) as Hfp. destruct p as [|h|h next|h|h|h0]; simpl in *; try done.
    + apply guarded_place; [|done]. intros ->. destruct Hfp as [?|[[? ?]|(G & HG & _)]]; [congruence..|].
      assert (np !! h = Some NRetired) by (apply Hr; by eexists). congruence.
    + destruct Hfp as [Hg (nd & Hn & Hnx)]. assert (x ≠ h) by congruence.
      split; [by apply guarded_place|]. exists nd. by rewrite lookup_insert_ne.
Qed.

(** A pusher stores the next pointer of its own node. *)
Lemma mem_store l np head nodes retired regs pops id t x nd h t' :
  mem_inv l np head nodes retired regs pops → regs !! id = Some t → reg_own t = Some x →
  nodes !! x = Some nd → reg_own t' = Some x → push_fine (<[x := mkNode (nd_entry nd) h]> nodes) t' →
  mem_inv l np head (<[x := mkNode (nd_entry nd) h]> nodes) retired (<[id := t']> regs) pops.
Proof.
  intros [Hc Hnd Hd Hs Ho Hp Hr Hpu Hpo] Ht Hown Hx Hown' Hf.
  assert (Hnp : np !! x = Some (NOwned id)) by (apply Ho; by rewrite Ht).
  constructor; try done.
  - eapply chain_ext; [|done]. intros y Hy. apply lookup_insert_ne. intros ->. apply Hs in Hy. congruence.
  - intros y. rewrite <- Hd, lookup_insert. case_decide; [|done]. subst. rewrite Hx. naive_solver.
  - intros i y. rewrite Ho, lookup_insert. case_decide; [|done]. subst. rewrite Ht. simpl. by rewrite Hown, Hown'.
  - intros i t1. rewrite lookup_insert. case_decide; [by intros [= <-]|]. intros Ht1.
    pose proof (Hpu _ _ Ht1) as Hft.
    assert (Hne : ∀ y, reg_own t1 = Some y → y ≠ x).
    { intros y Hy ->. assert (np !! x = Some (NOwned i)) by (apply Ho; by rewrite Ht1). congruence. }
    unfold push_fine, reg_own in *. destruct (tt_loc t1); try done; destruct Hft as (nd1 & Hnd' & ?); exists nd1;
      rewrite lookup_insert_ne by (intros ->; by eapply Hne); done.
  - intros w p Hw. pose proof (Hpo _ _ Hw) as Hfp. destruct p as [|y|y next|y|y|y e]; simpl in *; try done.
    destruct Hfp as [Hg (nd1 & Hn & Hnx)]. split; [done|]. exists nd1. rewrite lookup_insert_ne; [done|].
    intros ->. destruct Hg as [?|[[? ?]|(G & HG & _)]]; [congruence..|].
    assert (np !! y = Some NRetired) by (apply Hr; by eexists). congruence.
Qed.

(** A won exchange of [push]. *)
Lemma mem_push l np head nodes retired regs pops id t x nd t' :
  mem_inv l np head nodes retired regs pops → regs !! id = Some t → reg_own t = Some x →
  nodes !! x = Some nd → nd_next nd = head → reg_own t' = None → push_fine nodes t' →
  mem_inv (x :: l) (<[x := NStack]> np) (Some x) nodes retired (<[id := t']> regs) pops.
Proof.
  intros [Hc Hnd Hd Hs Ho Hp Hr Hpu Hpo] Ht Hown Hx Hnx Hown' Hf.
  assert (Hnp : np !! x = Some (NOwned id)) by (apply Ho; by rewrite Ht).
  constructor.
  - split; [done|]. exists nd. by rewrite Hnx.
  - apply NoDup_cons. split; [|done]. rewrite Hs. congruence.
  - intros y. rewrite lookup_insert. case_decide; [|apply Hd]. subst. rewrite Hx. naive_solver.
  - intros y. rewrite elem_of_cons, Hs, lookup_insert. case_decide; naive_solver.
  - intros i y. pose proof (Ho i y). pose proof (Ho i x). rewrite !lookup_insert.
    repeat case_decide; simplify_eq; simpl; rewrite ?Hown', ?Ht in *; simpl in *; naive_solver.
  - intros w y. rewrite <- Hp, lookup_insert. case_decide; naive_solver.
  - intros y. rewrite <- Hr, lookup_insert. case_decide; naive_solver.
  - intros i t1. rewrite lookup_insert. case_decide; [by intros [= <-]|apply Hpu].
  - intros w p Hw. pose proof (Hpo _ _ Hw) as Hfp. destruct p as [|y|y next|y|y|y e]; simpl in *; try done.
    + apply guarded_place; [by left|done].
    + split; [apply guarded_place; [by left|naive_solver]|naive_solver].
Qed.

(** A won exchange of [pop_and_wake]: the node is the top of the stack, and what
    the wake read of it is still so. *)
Lemma mem_pop l np h next nodes retired regs pops w :
  mem_inv l np (Some h) nodes retired regs pops → pops !! w = Some (PopCas h next) →
  ∃ l', l = h :: l' ∧
    mem_inv l' (<[h := NPopped w]> np) next nodes retired regs (<[w := PopDefer h]> pops).
Proof.
  intros [Hc Hnd Hd Hs Ho Hp Hr Hpu Hpo] Hw. destruct l as [|h' l]; [done|].
  simpl in Hc. destruct Hc as ([= <-] & nd & Hx & Hc). exists l. split; [done|].
  destruct (Hpo _ _ Hw) as [_ (nd' & Hx' & Hnx)]. rewrite Hx in Hx'. injection Hx' as <-. rewrite Hnx in Hc.
  assert (Hnp : np !! h = Some NStack) by (apply Hs; by left).
  apply NoDup_cons in Hnd as [Hni Hnd].
  constructor; try done.
  - intros y. rewrite lookup_insert. case_decide; [|apply Hd]. subst. rewrite Hx. naive_solver.
  - intros y. specialize (Hs y). rewrite elem_of_cons in Hs. rewrite lookup_insert. case_decide; naive_solver.
  - intros i y. rewrite <- Ho, lookup_insert. case_decide; naive_solver.
  - intros i y. pose proof (Hp i y). rewrite !lookup_insert.
    repeat case_decide; simplify_eq; simpl; rewrite ?Hw in *; simpl in *; naive_solver.
  - intros y. rewrite <- Hr, lookup_insert. case_decide; naive_solver.
  - intros i p. rewrite lookup_insert. case_decide; [by intros [= <-]|]. intros Hi.
    pose proof (Hpo _ _ Hi) as Hfp. destruct p as [|y|y nx|y|y|y e]; simpl in *; try done.
    + apply guarded_place; [eauto|done].
    + split; [apply guarded_place; [eauto|naive_solver]|naive_solver].
Qed.

(** [defer_destroy] records everyone who is pinned. *)
Lemma mem_defer l np head nodes retired regs pops w h (G : gset guard) :
  mem_inv l np head nodes retired regs pops → pops !! w = Some (PopDefer h) →
  (∀ w', is_Some (pops !! w') → GPop w' ∈ G) →
  mem_inv l (<[h := NRetired]> np) head nodes (<[h := G]> retired) regs (<[w := PopStatus h]> pops).
Proof.
  intros [Hc Hnd Hd Hs Ho Hp Hr Hpu Hpo] Hw HG.
  assert (Hnp : np !! h = Some (NPopped w)) by (apply Hp; by rewrite Hw).
  assert (Hng : ∀ w' y, is_Some (pops !! w') → guarded np retired w' y → guarded (<[h := NRetired]> np) (<[h := G]> retired) w' y).
  { intros w' y Hin Hg. destruct (decide (y = h)) as [->|Hne].
    - right. right. exists G. rewrite lookup_insert_eq. split; [done|by apply HG].
    - unfold guarded in *. by rewrite !lookup_insert_ne. }
  constructor; try done.
  - intros y. rewrite lookup_insert. case_decide; [|apply Hd]. subst. specialize (Hd y). rewrite Hnp in Hd. naive_solver.
  - intros y. rewrite Hs, lookup_insert. case_decide; naive_solver.
  - intros i y. rewrite <- Ho, lookup_insert. case_decide; naive_solver.
  - intros i y. pose proof (Hp i y). rewrite !lookup_insert.
    repeat case_decide; simplify_eq; simpl; rewrite ?Hw in *; simpl in *; naive_solver.
  - intros y. rewrite !lookup_insert. case_decide; [naive_solver|apply Hr].
  - intros i p. rewrite lookup_insert. case_decide.
    + intros [= <-]. subst. simpl. exists G. rewrite lookup_insert_eq. split; [done|]. apply HG. by eexists.
    + intros Hi. pose proof (Hpo _ _ Hi) as Hfp. destruct p as [|y|y nx|y|y|y e]; simpl in *; try done.
      * apply Hng; [by eexists|done].
      * split; [apply Hng; [by eexists|naive_solver]|naive_solver].
      * destruct Hfp as (G' & HG' & Hin); rewrite lookup_insert_ne; [by exists G'|]; intros ->;
        assert (np !! y = Some NRetired) by (apply Hr; by eexists); congruence.
      * destruct Hfp as (G' & HG' & Hin); rewrite lookup_insert_ne; [by exists G'|]; intros ->;
        assert (np !! y = Some NRetired) by (apply Hr; by eexists); congruence.
Qed.

(** The destruction of a node that nobody guards. *)
Lemma mem_collect l np head nodes retired regs pops x :
  mem_inv l np head nodes retired regs pops → retired !! x = Some ∅ →
  mem_inv l (delete x np) head (delete x nodes) (delete x retired) regs pops.
Proof.
  intros [Hc Hnd Hd Hs Ho Hp Hr Hpu Hpo] Hx.
  assert (Hnp : np !! x = Some NRetired) by (apply Hr; by eexists).
  assert (Hng : ∀ w y, guarded np retired w y → x ≠ y).
  { intros w y Hg ->. destruct Hg as [?|[[? ?]|(G & HG & Hin)]]; [congruence..|]. set_solver. }
  constructor; try done.
  - eapply chain_ext; [|done]. intros y Hy. apply lookup_delete_ne. intros ->. apply Hs in Hy. congruence.
  - intros y. rewrite !lookup_delete. case_decide; [naive_solver|apply Hd].
  - intros y. rewrite Hs, lookup_delete. case_decide; naive_solver.
  - intros i y. rewrite <- Ho, lookup_delete. case_decide; naive_solver.
  - intros i y. rewrite <- Hp, lookup_delete. case_decide; naive_solver.
  - intros y. rewrite !lookup_delete. case_decide; [naive_solver|apply Hr].
  - intros i t Ht. pose proof (Hpu _ _ Ht) as Hft.
    assert (Hne : ∀ y, reg_own t = Some y → x ≠ y).
    { intros y Hy ->. assert (np !! y = Some (NOwned i)) by (apply Ho; by rewrite Ht). congruence. }
    unfold push_fine, reg_own in *. destruct (tt_loc t); try done; destruct Hft as (nd1 & Hnd' & ?); exists nd1;
      rewrite lookup_delete_ne by (by apply Hne); done.
  - intros w p Hw. pose proof (Hpo _ _ Hw) as Hfp. destruct p as [|y|y nx|y|y|y e]; simpl in *; try done.
    + pose proof (Hng _ _ Hfp). unfold guarded in *. by rewrite !lookup_delete_ne.
    + destruct Hfp as [Hg Hn]. pose proof (Hng _ _ Hg). unfold guarded in *. by rewrite !lookup_delete_ne.
    + destruct Hfp as (G & HG & Hin); rewrite lookup_delete_ne; [by exists G|]; intros ->; set_solver.
    + destruct Hfp as (G & HG & Hin); rewrite lookup_delete_ne; [by exists G|]; intros ->; set_solver.
Qed.
End memory.

(** ** The invariant on entries *)

Section entries.
Implicit Types (np : gmap nat nplace) (regs : gmap nat ttask) (pops : gmap nat ploc) (nodes : gmap nat Node).
Implicit Types (entries : gmap nat CEntry) (wakes : list nat).

(** The waker [v] of the last poll: stored as long as the entry is live; once
    it is woken, called, or in front of the wake that will call it. *)
Definition told wakes pops (e : nat) (y : CEntry) (v : nat) : Prop :=
  (ce_status y = LIVE → ce_waker y = Some v) ∧
  (ce_status y = WOKEN → v ∈ wakes ∨ ∃ w h, pops !! w = Some (PopWake h e) ∧ ce_waker y = Some v).

Definition loc_fine wakes pops (t : ttask) (e : nat) (y : CEntry) : Prop :=
  match tt_loc t with
  | TIdle => ∃ v, tt_waker t = Some v ∧ told wakes pops e y v
  | TPushLoad _ v | TPushStore _ v _ | TPushCas _ v _ => ce_status y = LIVE ∧ ce_waker y = Some v
  | TStoreWaker e' _ => e' = e
  | TRecheck e' v => e' = e ∧ (ce_status y = LIVE → ce_waker y = Some v)
  end.

Definition reg_fine entries wakes pops (t : ttask) : Prop :=
  match tr_entry (tt_reg t) with
  | None => tt_loc t = TIdle
  | Some e => tr_armed (tt_reg t) = true ∧
      ∃ y, entries !! e = Some y ∧ ce_status y ≠ REVOKED ∧ loc_fine wakes pops t e y
  end.

Record ent_inv np nodes entries wakes regs pops : Prop := {
  ei_reg id t : regs !! id = Some t → reg_fine entries wakes pops t;
  ei_own id id' t t' e : regs !! id = Some t → regs !! id' = Some t' →
    tr_entry (tt_reg t) = Some e → tr_entry (tt_reg t') = Some e → id = id';
  ei_node x nd : nodes !! x = Some nd → is_Some (entries !! nd_entry nd);
  ei_inj x y nd nd' : nodes !! x = Some nd → nodes !! y = Some nd' → nd_entry nd = nd_entry nd' → x = y;
  ei_live e y : entries !! e = Some y → ce_status y = LIVE →
    ∃ x nd, nodes !! x = Some nd ∧ nd_entry nd = e ∧
      (np !! x = Some NRetired → ∃ w, pops !! w = Some (PopStatus x));
  ei_wake w h e : pops !! w = Some (PopWake h e) → ∃ y, entries !! e = Some y ∧ ce_status y = WOKEN;
}.

(** A registration moves, keeping its entry or letting go of it. *)
Lemma ent_regs np nodes entries wakes regs pops id (t' : option ttask) :
  ent_inv np nodes entries wakes regs pops →
  from_option (reg_fine entries wakes pops) True t' →
  (∀ t e, t' = Some t → tr_entry (tt_reg t) = Some e →
     ∃ t0, regs !! id = Some t0 ∧ tr_entry (tt_reg t0) = Some e) →
  ent_inv np nodes entries wakes (partial_alter (λ _, t') id regs) pops.
Proof.
  intros [Hr Ho Hn Hi Hl Hw] Ht Hk. constructor; try done.
  - intros i t. rewrite lookup_partial_alter. case_decide; [by intros ->|apply Hr].
  - intros i i' t1 t2 e. rewrite !lookup_partial_alter.
    repeat case_decide; subst; [done|..]; intros H1 H2 He1 He2.
    + destruct (Hk t1 e) as (t0 & ? & ?); [done|done|]. by eapply Ho.
    + destruct (Hk t2 e) as (t0 & ? & ?); [done|done|]. by eapply Ho.
    + by eapply Ho.
Qed.

Lemma reg_fine_entries entries entries' wakes pops t :
  (∀ e, tr_entry (tt_reg t) = Some e → entries' !! e = entries !! e) →
  reg_fine entries wakes pops t → reg_fine entries' wakes pops t.
Proof. unfold reg_fine. intros He. destruct (tr_entry (tt_reg t)) as [e|]; [|done]. by rewrite He. Qed.

(** A registration changes its own entry, which does not come back to life, and
    moves. *)
Lemma ent_touch np nodes entries wakes regs pops id t e y y' (t' : option ttask) :
  ent_inv np nodes entries wakes regs pops → regs !! id = Some t → tr_entry (tt_reg t) = Some e →
  entries !! e = Some y → (ce_status y' = LIVE → ce_status y = LIVE) → (ce_status y = WOKEN → ce_status y' = WOKEN) →
  from_option (reg_fine (<[e := y']> entries) wakes pops) True t' →
  (∀ t e', t' = Some t → tr_entry (tt_reg t) = Some e' → e' = e) →
  ent_inv np nodes (<[e := y']> entries) wakes (partial_alter (λ _, t') id regs) pops.
Proof.
  intros [Hr Ho Hn Hi Hl Hw] Ht He Hy Hlive Hwoken Ht' Hk. constructor; try done.
  - intros i t1. rewrite lookup_partial_alter. case_decide; [by intros ->|]. intros H1.
    eapply reg_fine_entries; [|by eapply Hr]. intros e1 He1. apply lookup_insert_ne. intros ->.
    by eapply (Ho id i) in He1.
  - intros i i' t1 t2 e1. rewrite !lookup_partial_alter.
    repeat case_decide; subst; [done|..]; intros H1 H2 He1 He2.
    + assert (e1 = e) as -> by (by eapply Hk). by eapply Ho.
    + assert (e1 = e) as -> by (by eapply Hk). by eapply Ho.
    + by eapply Ho.
  - intros x nd Hx. rewrite lookup_insert. case_decide; [done|by eapply Hn].
  - intros e1 y1. rewrite lookup_insert. case_decide; [|apply Hl]. intros [= <-] Hs. subst. eapply Hl; [done|by apply Hlive].
  - intros w h1 e1 H1. destruct (Hw _ _ _ H1) as (y1 & Hy1 & Hs1). rewrite lookup_insert.
    case_decide; [|by exists y1]. subst. simplify_eq. exists y'. split; [done|by apply Hwoken].
Qed.

(** A new entry in a new node. *)
Lemma ent_alloc np nodes entries wakes regs pops id e x v t' :
  ent_inv np nodes entries wakes regs pops → entries !! e = None → nodes !! x = None →
  regs !! id ≫= (λ t, tr_entry (tt_reg t)) = None →
  reg_fine (<[e := mkCEntry LIVE (Some v)]> entries) wakes pops t' → tr_entry (tt_reg t') = Some e →
  ent_inv (<[x := NOwned id]> np) (<[x := mkNode e None]> nodes) (<[e := mkCEntry LIVE (Some v)]> entries) wakes
    (<[id := t']> regs) pops.
Proof.
  intros [Hr Ho Hn Hi Hl Hw] He Hx Hid Ht' Hte.
  assert (Hne : ∀ i t1, regs !! i = Some t1 → tr_entry (tt_reg t1) ≠ Some e).
  { intros i t1 H1 H2. pose proof (Hr _ _ H1) as Hf. unfold reg_fine in Hf. rewrite H2 in Hf. naive_solver. }
  assert (Hnn : ∀ y nd, nodes !! y = Some nd → nd_entry nd ≠ e).
  { intros y nd Hy <-. destruct (Hn _ _ Hy) as [? ?]. congruence. }
  constructor.
  - intros i t1. rewrite lookup_insert. case_decide; [by intros [= <-]|]. intros H1.
    eapply reg_fine_entries; [|by eapply Hr]. intros e1 He1. apply lookup_insert_ne. intros ->.
    by eapply Hne.
  - intros i i' t1 t2 e1. rewrite !lookup_insert. repeat case_decide; subst; [done|..]; intros H1 H2 He1 He2; simplify_eq.
    + by destruct (Hne _ _ H2).
    + by destruct (Hne _ _ H1).
    + by eapply Ho.
  - intros y nd. rewrite !lookup_insert. repeat case_decide; subst; try done; [by intros [= <-]|apply Hn].
  - intros y z nd nd'. rewrite !lookup_insert. repeat case_decide; subst; [done|..]; intros H1 H2 Heq; simplify_eq.
    + simpl in Heq. by destruct (Hnn _ _ H2).
    + simpl in Heq. by destruct (Hnn _ _ H1).
    + by eapply Hi.
  - intros e1 y1. rewrite lookup_insert. case_decide.
    + intros [= <-] _. subst. exists x, (mkNode e1 None). rewrite !lookup_insert_eq. by split_and!.
    + intros H1 H2. destruct (Hl _ _ H1 H2) as (x1 & nd & Hx1 & Hnd & Hret). assert (x ≠ x1) by congruence.
      exists x1, nd. by rewrite !lookup_insert_ne.
  - intros w h1 e1 H1. destruct (Hw _ _ _ H1) as (y1 & Hy1 & Hs1). exists y1. rewrite lookup_insert_ne by congruence. done.
Qed.

(** Nodes and places change, not what the nodes hold. *)
Lemma ent_place np nodes entries wakes regs pops x p :
  ent_inv np nodes entries wakes regs pops → (p = NRetired → ∃ w, pops !! w = Some (PopStatus x)) →
  ent_inv (<[x := p]> np) nodes entries wakes regs pops.
Proof.
  intros [Hr Ho Hn Hi Hl Hw] Hp. constructor; try done.
  intros e y He Hs. destruct (Hl _ _ He Hs) as (x1 & nd & Hx1 & Hnd & Hret). exists x1, nd. split_and!; [done..|].
  rewrite lookup_insert. case_decide; [|done]. subst. naive_solver.
Qed.

Lemma ent_store np nodes entries wakes regs pops x nd h :
  ent_inv np nodes entries wakes regs pops → nodes !! x = Some nd →
  ent_inv np (<[x := mkNode (nd_entry nd) h]> nodes) entries wakes regs pops.
Proof.
  intros [Hr Ho Hn Hi Hl Hw] Hx. constructor; try done.
  - intros y nd1. rewrite lookup_insert. case_decide; [|apply Hn]. intros [= <-]. by apply (Hn _ _ Hx).
  - intros y z nd1 nd2. rewrite !lookup_insert. repeat case_decide; subst; [done|..]; intros H1 H2 Heq; simplify_eq;
      by eapply Hi.
  - intros e y He Hs. destruct (Hl _ _ He Hs) as (x1 & nd1 & Hx1 & Hnd & Hret).
    destruct (decide (x = x1)) as [->|Hne]; [|exists x1, nd1; by rewrite lookup_insert_ne].
    simplify_eq. exists x1, (mkNode (nd_entry nd) h). by rewrite lookup_insert_eq.
Qed.

Lemma ent_collect np nodes entries wakes regs pops x :
  ent_inv np nodes entries wakes regs pops → np !! x = Some NRetired → (∀ w, pops !! w ≠ Some (PopStatus x)) →
  ent_inv (delete x np) (delete x nodes) entries wakes regs pops.
Proof.
  intros [Hr Ho Hn Hi Hl Hw] Hx Hp. constructor; try done.
  - intros y nd [_ ?]%lookup_delete_Some. by apply (Hn y).
  - intros y z nd1 nd2 [_ ?]%lookup_delete_Some [_ ?]%lookup_delete_Some. by eapply Hi.
  - intros e y He Hs. destruct (Hl _ _ He Hs) as (x1 & nd1 & Hx1 & Hnd & Hret). exists x1, nd1.
    assert (x ≠ x1) by (intros ->; destruct (Hret Hx) as [w ?]; by eapply Hp).
    by rewrite !lookup_delete_ne.
Qed.

(** A wake moves that is not in front of a status or of a waker. *)
Lemma ent_pops np nodes entries wakes regs pops w (p' : option ploc) :
  ent_inv np nodes entries wakes regs pops →
  (∀ x, pops !! w ≠ Some (PopStatus x)) → (∀ h e, pops !! w ≠ Some (PopWake h e)) → (∀ h e, p' ≠ Some (PopWake h e)) →
  ent_inv np nodes entries wakes regs (partial_alter (λ _, p') w pops).
Proof.
  intros [Hr Ho Hn Hi Hl Hw] Hs Hk Hp'. constructor; try done.
  - intros id t Ht. pose proof (Hr _ _ Ht) as Hf. unfold reg_fine in *. destruct (tr_entry (tt_reg t)); [|done].
    destruct Hf as (Ha & y & Hy & Hst & Hloc). split; [done|]. exists y. split_and!; [done..|].
    unfold loc_fine in *. destruct (tt_loc t); try done. destruct Hloc as (v & Hv & Hlive & Hwoken). exists v.
    split; [done|]. split; [done|]. intros [?|(w1 & h1 & Hw1 & ?)]%Hwoken; [by left|]. right. exists w1, h1.
    rewrite lookup_partial_alter. case_decide; [|done]. subst. by destruct (Hk h1 n).
  - intros e y He Hlv. destruct (Hl _ _ He Hlv) as (x1 & nd1 & Hx1 & Hnd & Hret). exists x1, nd1. split_and!; [done..|].
    intros Hx. destruct (Hret Hx) as [w1 Hw1]. exists w1. rewrite lookup_partial_alter. case_decide; [|done].
    subst. by destruct (Hs x1).
  - intros w1 h e. rewrite lookup_partial_alter. case_decide; [|apply Hw]. intros Heq. by destruct (Hp' h e).
Qed.

Lemma push_fine_entry nodes t x :
  push_fine nodes t → reg_own t = Some x → ∃ nd, nodes !! x = Some nd ∧ tr_entry (tt_reg t) = Some (nd_entry nd).
Proof. unfold push_fine, reg_own. destruct (tt_loc t); intros Hf [= <-]; destruct Hf as (nd & ? & ?); exists nd; by destruct_and?. Qed.

(** A wake wins the status of a live entry. *)
Lemma ent_won np nodes entries wakes regs pops w h nd y :
  ent_inv np nodes entries wakes regs pops → pops !! w = Some (PopStatus h) → nodes !! h = Some nd →
  entries !! nd_entry nd = Some y → ce_status y = LIVE →
  (∀ id t x, regs !! id = Some t → reg_own t = Some x → x ≠ h ∧ push_fine nodes t) →
  ent_inv np nodes (<[nd_entry nd := mkCEntry WOKEN (ce_waker y)]> entries) wakes regs
    (<[w := PopWake h (nd_entry nd)]> pops).
Proof.
  intros [Hr Ho Hn Hi Hl Hw] Hp Hh Hy Hlive Hpush. constructor; try done.
  - intros id t Ht. pose proof (Hr _ _ Ht) as Hf. unfold reg_fine in *.
    destruct (tr_entry (tt_reg t)) as [e|] eqn:He; [|done].
    destruct Hf as (Ha & y1 & Hy1 & Hst & Hloc). split; [done|].
    destruct (decide (nd_entry nd = e)) as [<-|Hne].
    + simplify_eq. rewrite lookup_insert_eq. eexists. split_and!; [done..|].
      assert (Hno : reg_own t = None).
      { destruct (reg_own t) as [x|] eqn:Hx; [|done]. destruct (Hpush id t x Ht Hx) as [Hxh Hpf].
        destruct (push_fine_entry _ _ _ Hpf Hx) as (nd1 & H1 & H2). destruct Hxh. eapply Hi; [done|done|congruence]. }
      unfold loc_fine, reg_own in *. destruct (tt_loc t); try done.
      * destruct Hloc as (v & Hv & Hlv & _). exists v. split; [done|]. split; [done|]. intros _. right. exists w, h.
        rewrite lookup_insert_eq. split; [done|]. by apply Hlv.
      * by destruct Hloc.
    + rewrite lookup_insert_ne by done. exists y1. split_and!; [done..|]. unfold loc_fine in *.
      destruct (tt_loc t); try done. destruct Hloc as (v & Hv & Hlv & Hwk). exists v. split; [done|].
      split; [done|]. intros [?|(w1 & h1 & Hw1 & ?)]%Hwk; [by left|]. right. exists w1, h1.
      rewrite lookup_insert. case_decide; [|done]. subst. congruence.
  - intros x nd1 Hx. rewrite lookup_insert. case_decide; [done|by eapply Hn].
  - intros e1 y1. rewrite lookup_insert. case_decide; [by intros [= <-]|]. intros H1 H2.
    destruct (Hl _ _ H1 H2) as (x1 & nd1 & Hx1 & Hnd & Hret). exists x1, nd1. split_and!; [done..|].
    intros [w1 Hw1]%Hret. exists w1. rewrite lookup_insert. case_decide; [|done]. subst. simplify_eq.
  - intros w1 h1 e1. rewrite lookup_insert. case_decide.
    + intros [= <- <-]. rewrite lookup_insert_eq. by eexists.
    + intros (y1 & Hy1 & Hs1)%Hw. rewrite lookup_insert. case_decide; [by eexists|by exists y1].
Qed.

(** A wake finds the entry settled. *)
Lemma ent_lost np nodes entries wakes regs pops w h nd y p' :
  ent_inv np nodes entries wakes regs pops → pops !! w = Some (PopStatus h) → nodes !! h = Some nd →
  entries !! nd_entry nd = Some y → ce_status y ≠ LIVE → p' = PopLoad →
  ent_inv np nodes entries wakes regs (<[w := p']> pops).
Proof.
  intros [Hr Ho Hn Hi Hl Hw] Hp Hh Hy Hlive ->. constructor; try done.
  - intros id t Ht. pose proof (Hr _ _ Ht) as Hf. unfold reg_fine in *. destruct (tr_entry (tt_reg t)); [|done].
    destruct Hf as (Ha & y1 & Hy1 & Hst & Hloc). split; [done|]. exists y1. split_and!; [done..|].
    unfold loc_fine in *. destruct (tt_loc t); try done. destruct Hloc as (v & Hv & Hlv & Hwk). exists v.
    split; [done|]. split; [done|]. intros [?|(w1 & h1 & Hw1 & ?)]%Hwk; [by left|]. right. exists w1, h1.
    rewrite lookup_insert. case_decide; [|done]. subst. congruence.
  - intros e1 y1 H1 H2. destruct (Hl _ _ H1 H2) as (x1 & nd1 & Hx1 & Hnd & Hret). exists x1, nd1. split_and!; [done..|].
    intros [w1 Hw1]%Hret. exists w1. rewrite lookup_insert. case_decide; [|done]. subst. simplify_eq.
  - intros w1 h1 e1. rewrite lookup_insert. case_decide; [done|apply Hw].
Qed.

(** A wake takes the waker and calls it. *)
Lemma ent_called np nodes entries wakes regs pops w h e y :
  ent_inv np nodes entries wakes regs pops → pops !! w = Some (PopWake h e) → entries !! e = Some y →
  ent_inv np nodes (<[e := mkCEntry (ce_status y) None]> entries) (wakes ++ option_list (ce_waker y)) regs (delete w pops).
Proof.
  intros [Hr Ho Hn Hi Hl Hw] Hp Hy. destruct (Hw _ _ _ Hp) as (y0 & Hy0 & Hst0). simplify_eq. constructor; try done.
  - intros id t Ht. pose proof (Hr _ _ Ht) as Hf. unfold reg_fine in *.
    destruct (tr_entry (tt_reg t)) as [e1|] eqn:He; [|done].
    destruct Hf as (Ha & y1 & Hy1 & Hst & Hloc). split; [done|].
    destruct (decide (e = e1)) as [<-|Hne].
    + simplify_eq. rewrite lookup_insert_eq. eexists. split_and!; [done..|]. unfold loc_fine in *.
      destruct (tt_loc t); simpl; try done; try (by destruct Hloc; congruence).
      2: by destruct Hloc; split; [|congruence].
      destruct Hloc as (v & Hv & Hlv & Hwk). exists v. split; [done|]. split; simpl; [congruence|]. intros _. left.
      apply elem_of_app. destruct (Hwk Hst0) as [?|(w1 & h1 & _ & Hwv)]; [by left|right]. rewrite Hwv. by left.
    + rewrite lookup_insert_ne by done. exists y1. split_and!; [done..|]. unfold loc_fine in *.
      destruct (tt_loc t); try done. destruct Hloc as (v & Hv & Hlv & Hwk). exists v. split; [done|].
      split; [done|]. intros [?|(w1 & h1 & Hw1 & ?)]%Hwk; [left; apply elem_of_app; by left|]. right. exists w1, h1.
      rewrite lookup_delete_ne; [done|]. intros ->. congruence.
  - intros x nd1 Hx. rewrite lookup_insert. case_decide; [done|by eapply Hn].
  - intros e1 y1. rewrite lookup_insert. case_decide; [intros [= <-]; simpl; congruence|]. intros H1 H2.
    destruct (Hl _ _ H1 H2) as (x1 & nd1 & Hx1 & Hnd & Hret). exists x1, nd1. split_and!; [done..|].
    intros [w1 Hw1]%Hret. exists w1. rewrite lookup_delete_ne; [done|]. intros ->. congruence.
  - intros w1 h1 e1 [_ (y1 & Hy1 & Hs1)%Hw]%lookup_delete_Some. rewrite lookup_insert. case_decide; [|by exists y1].
    subst. simplify_eq. by eexists.
Qed.
End entries.

(** ** Every event *)

Definition tinv (l : list nat) (np : gmap nat nplace) (s : tconc) : Prop :=
  mem_inv l np (tc_head s) (tc_nodes s) (tc_retired s) (tc_regs s) (tc_pops s) ∧
  ent_inv np (tc_nodes s) (tc_entries s) (tc_wakes s) (tc_regs s) (tc_pops s).

Lemma tinv_new : tinv [] ∅ tconc_new.
Proof.
  split; constructor; simpl; try done; try (by intros; rewrite lookup_empty).
  - constructor.
  - intros x. rewrite !lookup_empty. done.
  - intros x. rewrite lookup_empty. split; [by intros ?%not_elem_of_nil|done].
  - intros x. rewrite !lookup_empty. split; [done|by intros [? ?]].
Qed.

(** A registration that moves, keeping or dropping its entry, with the memory
    as it is. *)
Lemma tinv_regs l np s id (t' : option ttask) :
  tinv l np s → t' ≫= reg_own = tc_regs s !! id ≫= reg_own →
  from_option (push_fine (tc_nodes s)) True t' →
  from_option (reg_fine (tc_entries s) (tc_wakes s) (tc_pops s)) True t' →
  (∀ t e, t' = Some t → tr_entry (tt_reg t) = Some e →
     ∃ t0, tc_regs s !! id = Some t0 ∧ tr_entry (tt_reg t0) = Some e) →
  tinv l np (mkTconc (tc_head s) (tc_nodes s) (tc_retired s) (tc_entries s) (tc_wakes s)
    (partial_alter (λ _, t') id (tc_regs s)) (tc_pops s)).
Proof. intros [Hm He] ????. split; simpl; [by apply mem_regs|by apply ent_regs]. Qed.

Lemma revoke_tinv l np s id r v :
  tinv l np s → tc_regs s !! id = Some (mkTtask r TIdle v) →
  ∃ s', conc_revoke s r = Ret s' ∧ tc_regs s' = tc_regs s ∧
    ∀ t', (t' = Some idle_reg ∨ t' = None) →
    tinv l np (mkTconc (tc_head s') (tc_nodes s') (tc_retired s') (tc_entries s') (tc_wakes s')
      (partial_alter (λ _, t') id (tc_regs s')) (tc_pops s')).
Proof.
  intros Hi Ht. pose proof Hi as [Hm He]. pose proof (ei_reg _ _ _ _ _ _ He _ _ Ht) as Hf.
  unfold conc_revoke, status_exchange, reg_fine in *. simpl in Hf.
  destruct (tr_entry r) as [e|] eqn:Hre; simpl.
  - destruct Hf as (_ & y & Hy & Hst & _). unfold get. rewrite Hy. simpl. case_decide as Hlv; simpl.
    + eexists. split; [done|]. split; [done|]. intros t' Ht'. split; simpl.
      * apply mem_regs; [done|..]; destruct Ht' as [->| ->]; simpl; by rewrite ?Ht.
      * eapply ent_touch; try done; simpl; [congruence|destruct Ht' as [->| ->]; by simpl|].
        destruct Ht' as [->| ->]; by intros ? ? [= <-].
    + exists s. split; [done|]. split; [done|]. intros t' Ht'.
      apply tinv_regs; [done|..]; destruct Ht' as [->| ->]; simpl; rewrite ?Ht; try done. by intros ? ? [= <-].
  - exists s. split; [done|]. split; [done|]. intros t' Ht'.
    apply tinv_regs; [done|..]; destruct Ht' as [->| ->]; simpl; rewrite ?Ht; try done. by intros ? ? [= <-].
Qed.

Lemma poll_tinv l np s id r v0 v x :
  tinv l np s → tc_regs s !! id = Some (mkTtask r TIdle v0) →
  ∃ s' np', start_poll s id (mkTtask r TIdle v0) v x = Ret s' ∧ tinv l np' s'.
Proof.
  intros Hi Ht. pose proof Hi as [Hm He]. pose proof (ei_reg _ _ _ _ _ _ He _ _ Ht) as Hf.
  unfold start_poll, reg_fine in *. simpl in *. destruct (tr_armed r) eqn:Ha; simpl; [|by eexists _, _].
  destruct (tr_entry r) as [e|] eqn:Hre.
  - destruct Hf as (_ & y & Hy & Hst & Hloc). unfold get. rewrite Hy. simpl.
    case_decide as Hw; (eexists _, np; split; [done|]).
    + apply tinv_regs; [done|..]; simpl; rewrite ?Ht; try done. by intros ? ? [= <-].
    + apply tinv_regs; [done|..]; simpl; rewrite ?Ht; try done.
      * unfold reg_fine. simpl. rewrite Hre. split; [done|]. by exists y.
      * intros ? ? [= <-]. simpl. intros ?. by eexists.
  - destruct (tc_nodes s !! x) as [nd|] eqn:Hx; [by eexists _, _|].
    set (e := fresh _). assert (Hf' : tc_entries s !! e = None) by (apply not_elem_of_dom, is_fresh). clearbody e.
    eexists _, (<[x := NOwned id]> np). split; [done|]. split; simpl.
    + eapply mem_alloc; try done; [by rewrite Ht|]. unfold push_fine. simpl.
      exists (mkNode e None). by rewrite lookup_insert_eq.
    + eapply ent_alloc; try done; [by rewrite Ht|]. unfold reg_fine. simpl. split; [done|].
      eexists. rewrite lookup_insert_eq. by split_and!.
Qed.

Lemma move_tinv l np s id t :
  tinv l np s → tc_regs s !! id = Some t →
  ∃ s' l' np', reg_move s id t = Ret s' ∧ tinv l' np' s' ∧
    (l' = l ∨ ∃ x v h, tt_loc t = TPushCas x v h ∧ l' = x :: l).
Proof.
  intros Hi Ht. pose proof Hi as [Hm He]. pose proof (ei_reg _ _ _ _ _ _ He _ _ Ht) as Hf.
  pose proof (mi_push _ _ _ _ _ _ _ Hm _ _ Ht) as Hp. destruct t as [r loc v0]. unfold reg_move. simpl.
  destruct loc as [|x v|x v h|x v h|e v|e v]; [by eexists _, _, _; eauto|..]; unfold reg_fine, push_fine in *; simpl in *.
  - destruct Hp as (nd & Hx & Hre). rewrite Hre in Hf.
    eexists _, l, np. split; [done|]. split; [|by left]. apply tinv_regs; [done|..]; simpl; rewrite ?Ht; try done.
    + unfold push_fine. simpl. by exists nd.
    + unfold reg_fine. simpl. by rewrite Hre.
    + intros ? ? [= <-]. simpl. intros ?. by eexists.
  - destruct Hp as (nd & Hx & Hre). rewrite Hre in Hf. unfold get. rewrite Hx. simpl. eexists _, l, np. split; [done|]. split; [|by left]. split; simpl.
    + eapply mem_store; try done. unfold push_fine. simpl. exists (mkNode (nd_entry nd) h). by rewrite lookup_insert_eq.
    + apply ent_regs; [by apply ent_store|unfold reg_fine; simpl; by rewrite Hre|]. intros ? ? [= <-]. simpl. intros ?. by eexists.
  - destruct Hp as (nd & Hx & Hre & Hnx). rewrite Hre in Hf. destruct Hf as (Ha & y & Hy & Hst & Hlv & Hwv).
    case_decide as Hh.
    + eexists _, (x :: l), (<[x := NStack]> np). split; [done|]. split; [|right; by eexists _, _, _]. split; simpl.
      * apply mem_unpin; [|done]. eapply mem_push; try done. by rewrite Hnx.
      * apply ent_regs; [by apply ent_place| |].
        -- unfold reg_fine. simpl. rewrite Hre. split; [done|]. exists y. split_and!; [done..|].
           exists v. split; [done|]. split; [done|]. congruence.
        -- intros ? ? [= <-]. simpl. intros ?. by eexists.
    + eexists _, l, np. split; [done|]. split; [|by left]. apply tinv_regs; [done|..]; simpl; rewrite ?Ht; try done.
      * unfold push_fine. simpl. by exists nd.
      * unfold reg_fine. simpl. rewrite Hre. split; [done|]. by exists y.
      * intros ? ? [= <-]. simpl. intros ?. by eexists.
  - destruct (tr_entry r) as [e0|] eqn:Hre; [|done]. destruct Hf as (Ha & y & Hy & Hst & Hloc).
    unfold loc_fine in Hloc. simpl in Hloc. subst e0. unfold get. rewrite Hy. simpl. eexists _, l, np. split; [done|]. split; [|by left].
    split; simpl.
    + apply (mem_regs _ _ _ _ _ _ _ _ (Some _)); [done| |done]. by rewrite Ht.
    + eapply ent_touch; try done.
      * unfold reg_fine. simpl. rewrite Hre. split; [done|]. eexists. rewrite lookup_insert_eq. by split_and!.
      * intros ? ? [= <-]. simpl. congruence.
  - destruct (tr_entry r) as [e0|] eqn:Hre; [|done]. destruct Hf as (Ha & y & Hy & Hst & Hloc & Hwv).
    simpl in Hloc. subst e0. unfold get. rewrite Hy. simpl. case_decide as Hw; (eexists _, l, np; split; [done|]; split; [|by left]).
    + apply tinv_regs; [done|..]; simpl; rewrite ?Ht; try done. by intros ? ? [= <-].
    + apply tinv_regs; [done|..]; simpl; rewrite ?Ht; try done.
      * unfold reg_fine. simpl. rewrite Hre. split; [done|]. exists y. split_and!; [done..|].
        exists v. by split.
      * intros ? ? [= <-]. simpl. intros ?. by eexists.
Qed.

Lemma pinned_pop s w : is_Some (tc_pops s !! w) → GPop w ∈ pinned s.
Proof. intros Hw%elem_of_dom. unfold pinned. apply elem_of_union_r, elem_of_map. by exists w. Qed.

Lemma pop_tinv l np s w p :
  tinv l np s → tc_pops s !! w = Some p →
  ∃ s' l' np', pop_move s w p = Ret s' ∧ tinv l' np' s' ∧
    (l' = l ∨ ∃ h next, p = PopCas h next ∧ l = h :: l').
Proof.
  intros [Hm He] Hw. pose proof (mi_pop _ _ _ _ _ _ _ Hm _ _ Hw) as Hf. unfold pop_move.
  destruct p as [|h|h next|h|h|h e]; simpl in *.
  - destruct (tc_head s) as [h|] eqn:Hh.
    + eexists _, l, np. split; [done|]. split; [|by left]. split; simpl.
      * rewrite Hh. apply mem_pops; [done|by rewrite Hw|]. simpl. left. apply (mi_stack _ _ _ _ _ _ _ Hm).
        pose proof (mi_chain _ _ _ _ _ _ _ Hm) as Hc. destruct l; [done|]. simpl in Hc. destruct Hc as [[= <-] _]. by left.
      * apply ent_pops; [done|by rewrite Hw..|done].
    + eexists _, l, np. split; [done|]. split; [|by left]. split; simpl; [rewrite Hh; apply mem_end; [done|by rewrite Hw]|].
      apply (ent_pops _ _ _ _ _ _ _ None); [done|by rewrite Hw..|done].
  - destruct (guarded_alive _ _ _ _ _ _ _ _ _ Hm Hf) as [nd Hnd]. unfold get. rewrite Hnd. simpl.
    eexists _, l, np. split; [done|]. split; [|by left]. split; simpl.
    + apply mem_pops; [done|by rewrite Hw|]. split; [done|by exists nd].
    + apply ent_pops; [done|by rewrite Hw..|done].
  - case_decide as Hh.
    + rewrite Hh in Hm. destruct (mem_pop _ _ _ _ _ _ _ _ _ Hm Hw) as (l' & -> & Hm').
      eexists _, l', (<[h := NPopped w]> np). split; [done|]. split; [|right; by eexists _, _]. split; simpl; [done|].
      apply ent_pops; [by apply ent_place|by rewrite Hw..|done].
    + eexists _, l, np. split; [done|]. split; [|by left]. split; simpl.
      * apply mem_pops; [done|by rewrite Hw|done].
      * apply ent_pops; [done|by rewrite Hw..|done].
  - eexists _, l, (<[h := NRetired]> np). split; [done|]. split; [|by left]. split; simpl.
    + apply mem_defer; [done|done|apply pinned_pop].
    + apply ent_place; [apply ent_pops; [done|by rewrite Hw..|done]|]. intros _. exists w. apply lookup_insert_eq.
  - destruct Hf as (G & HG & Hin).
    assert (Hnp : np !! h = Some NRetired) by (apply (mi_retired _ _ _ _ _ _ _ Hm); by eexists).
    destruct (proj2 (mi_dom _ _ _ _ _ _ _ Hm h)) as [nd Hnd]; [by eexists|].
    destruct (ei_node _ _ _ _ _ _ He _ _ Hnd) as [y Hy].
    unfold status_exchange, get. rewrite Hnd. simpl. rewrite Hy. simpl.
    case_decide as Hlv; (eexists _, l, np; split; [done|]; split; [|by left]; split; simpl; [apply mem_pops; [done|by rewrite Hw|first [done|by exists G]]|]).
    + eapply ent_won; try done. intros id t x Ht Hx.
      assert (np !! x = Some (NOwned id)) by (apply (mi_owned _ _ _ _ _ _ _ Hm); by rewrite Ht).
      split; [congruence|by eapply (mi_push _ _ _ _ _ _ _ Hm)].
    + by eapply ent_lost.
  - destruct Hf as (G & HG & Hin).
    assert (Hnp : np !! h = Some NRetired) by (apply (mi_retired _ _ _ _ _ _ _ Hm); by eexists).
    destruct (proj2 (mi_dom _ _ _ _ _ _ _ Hm h)) as [nd Hnd]; [by eexists|].
    destruct (ei_wake _ _ _ _ _ _ He _ _ _ Hw) as (y & Hy & Hst). unfold get. rewrite Hnd. simpl. rewrite Hy. simpl.
    eexists _, l, np. split; [done|]. split; [|by left]. split; simpl; [apply mem_end; [done|by rewrite Hw]|by eapply ent_called].
Qed.

(** What an event does to the nodes on the stack: nothing, a push by the
    exchange of a registration, or a pop by the exchange of a wake. *)
Definition stack_step (s : tconc) (ev : tevent) (l l' : list nat) : Prop :=
  l' = l ∨
  (∃ id t x v h, ev = TMove id ∧ tc_regs s !! id = Some t ∧ tt_loc t = TPushCas x v h ∧ l' = x :: l) ∨
  (∃ w h next, ev = TPop w ∧ tc_pops s !! w = Some (PopCas h next) ∧ l = h :: l').

Lemma tevent_inv l np s ev :
  tinv l np s → ∃ s' l' np', texec_event s ev = Ret s' ∧ tinv l' np' s' ∧ stack_step s ev l l'.
Proof.
  intros Hi. pose proof Hi as [Hm He].
  destruct ev as [id|id|id v x|id|id|id|w|w|x]; simpl.
  1-6: destruct (tc_regs s !! id) as [t|] eqn:Ht; try (by eexists _, l, np; split_and!; [done|done|left]).
  - eexists _, l, np. split; [done|]. split; [|by left]. apply tinv_regs; [done|..]; simpl; rewrite ?Ht; try done. by intros ? ? [= <-].
  - destruct t as [r [| | | | |] v]; try (by eexists _, l, np; split_and!; [done|done|left]). eexists _, l, np. split; [done|]. split; [|by left].
    pose proof (ei_reg _ _ _ _ _ _ He _ _ Ht) as Hf. apply tinv_regs; [done|..]; simpl; rewrite ?Ht; try done.
    + unfold reg_fine in *. simpl in *. destruct (tr_entry r); [|done]. by destruct Hf.
    + intros ? ? [= <-]. simpl. intros ?. by eexists.
  - destruct t as [r [| | | | |] v0]; try (by eexists _, l, np; split_and!; [done|done|left]).
    destruct (poll_tinv _ _ _ _ _ _ v x Hi Ht) as (s' & np' & ? & ?).
    by eexists _, l, np'; split_and!; [done|done|left].
  - destruct t as [r [| | | | |] v0]; try (by eexists _, l, np; split_and!; [done|done|left]).
    destruct (revoke_tinv _ _ _ _ _ _ Hi Ht) as (s' & -> & Hr & Hk). simpl. eexists _, l, np. split; [done|]. split; [|by left].
    apply (Hk (Some _)). by left.
  - destruct t as [r [| | | | |] v0]; try (by eexists _, l, np; split_and!; [done|done|left]).
    destruct (revoke_tinv _ _ _ _ _ _ Hi Ht) as (s' & -> & Hr & Hk). simpl. eexists _, l, np. split; [done|]. split; [|by left].
    apply (Hk None). by right.
  - destruct (move_tinv _ _ _ _ _ Hi Ht) as (s' & l' & np' & ? & ? & Hl). exists s', l', np'. split_and!; [done..|].
    destruct Hl as [->|(x & v & h & ? & ->)]; [by left|]. right. left. by eexists _, _, _, _, _.
  - destruct (tc_pops s !! w) eqn:Hw; [by eexists _, l, np; split_and!; [done|done|left]|]. eexists _, l, np. split; [done|]. split; [|by left]. split; simpl.
    + apply mem_pops; [done|by rewrite Hw|done].
    + apply ent_pops; [done|by rewrite Hw..|done].
  - destruct (tc_pops s !! w) eqn:Hw; [|by eexists _, l, np; split_and!; [done|done|left]]. 
    destruct (pop_tinv _ _ _ _ _ Hi Hw) as (s' & l' & np' & ? & ? & Hl). exists s', l', np'. split_and!; [done..|].
    destruct Hl as [->|(h & next & -> & ->)]; [by left|]. right. right. by eexists _, _, _.
  - destruct (tc_retired s !! x) as [G|] eqn:Hx; [|by eexists _, l, np; split_and!; [done|done|left]]. case_decide as HG; [|by eexists _, l, np; split_and!; [done|done|left]].
    subst. eexists _, l, (delete x np). split; [done|]. split; [|by left]. split; simpl; [by apply mem_collect|].
    apply ent_collect; [done|apply (mi_retired _ _ _ _ _ _ _ Hm); by eexists|].
    intros w Hw. pose proof (mi_pop _ _ _ _ _ _ _ Hm _ _ Hw) as (G & HG & Hin). set_solver.
Qed.

Lemma tevents_inv l np s evs : tinv l np s → ∃ s' l' np', texec_events s evs = Ret s' ∧ tinv l' np' s'.
Proof.
  revert l np s. induction evs as [|ev evs IH]; intros l np s Hi; [by eexists _, _, _|].
  destruct (tevent_inv l np s ev Hi) as (s1 & l1 & np1 & Hs1 & Hi1 & _). unfold texec_events in *. simpl. rewrite Hs1.
  by eapply IH.
Qed.

(** ** Claims *)

(** A registration between two polls that has published the entry [e] is safe:
    the entry is live, holds the waker of the last poll and sits in a node on
    the stack or in the hands of the wake that popped it; or it is woken, and
    that waker has been called or is about to be. *)
Definition entry_safe (s : tconc) (l : list nat) (t : ttask) (e : nat) : Prop :=
  ∃ y v, tc_entries s !! e = Some y ∧ tt_waker t = Some v ∧
    ((ce_status y = LIVE ∧ ce_waker y = Some v ∧
      ∃ x nd, tc_nodes s !! x = Some nd ∧ nd_entry nd = e ∧
        (x ∈ l ∨ ∃ w, tc_pops s !! w = Some (PopDefer x) ∨ tc_pops s !! w = Some (PopStatus x))) ∨
     (ce_status y = WOKEN ∧
      (v ∈ tc_wakes s ∨ ∃ w h, tc_pops s !! w = Some (PopWake h e) ∧ ce_waker y = Some v))).

Lemma tinv_safe l np s id t e :
  tinv l np s → tc_regs s !! id = Some t → tt_loc t = TIdle → tr_entry (tt_reg t) = Some e → entry_safe s l t e.
Proof.
  intros [Hm He] Ht Hloc Hre. pose proof (ei_reg _ _ _ _ _ _ He _ _ Ht) as Hf. unfold reg_fine, loc_fine in Hf.
  rewrite Hre, Hloc in Hf. destruct Hf as (Ha & y & Hy & Hst & v & Hv & Hlv & Hwk).
  exists y, v. split_and!; [done..|]. destruct (ce_status y) eqn:Hs; [left|right|done].
  - split_and!; [done|by apply Hlv|]. destruct (ei_live _ _ _ _ _ _ He _ _ Hy Hs) as (x & nd & Hx & Hnd & Hret).
    exists x, nd. split_and!; [done..|].
    destruct (proj1 (mi_dom _ _ _ _ _ _ _ Hm x)) as [p Hp]; [by eexists|]. destruct p as [i| |w|].
    + apply (mi_owned _ _ _ _ _ _ _ Hm) in Hp. apply bind_Some in Hp as (t1 & Ht1 & Hown).
      destruct (push_fine_entry _ _ _ (mi_push _ _ _ _ _ _ _ Hm _ _ Ht1) Hown) as (nd1 & Hx1 & Hre1).
      simplify_eq. assert (i = id) as -> by (by eapply (ei_own _ _ _ _ _ _ He)). simplify_eq.
      unfold reg_own in Hown. by rewrite Hloc in Hown.
    + left. by apply (mi_stack _ _ _ _ _ _ _ Hm).
    + right. exists w. left. apply (mi_popped _ _ _ _ _ _ _ Hm) in Hp. apply bind_Some in Hp as (p1 & Hp1 & Hown).
      destruct p1; simplify_eq/=. done.
    + right. destruct (Hret Hp) as [w Hw]. exists w. by right.
  - split; [done|]. by apply Hwk.
Qed.

(** C25: Under every interleaving of polls, revocations, drops and wakes, with
    nodes destroyed and their addresses used again as soon as no guard that was
    pinned at their removal remains, no thread follows a pointer to a destroyed
    node; the nodes under the head are a list without repetition; and no
    published entry and no wake is lost: between two polls an entry is live, in
    reach of the wakes and holds the waker of the last poll, or it is woken and
    that waker has been called or is about to be. *)
Theorem treiber_conc_correct evs :
  ∃ s l, texec_events tconc_new evs = Ret s ∧ chain (tc_nodes s) (tc_head s) l ∧ NoDup l ∧
    ∀ id t e, tc_regs s !! id = Some t → tt_loc t = TIdle → tr_entry (tt_reg t) = Some e → entry_safe s l t e.
Proof.
  destruct (tevents_inv _ _ _ evs tinv_new) as (s & l & np & Hs & Hi). exists s, l.
  pose proof Hi as [Hm _]. split_and!; [done|apply Hm|apply Hm|]. intros. by eapply tinv_safe.
Qed.

(** C26: The lock-free stack is linearizable: whatever runs, an event changes the
    list of nodes under the head only at the won exchange of a push, which puts
    the pushed node on top, or at the won exchange of a pop, which removes
    exactly the node that the wake had loaded. *)
Theorem treiber_linearizable evs ev s s' :
  texec_events tconc_new evs = Ret s → texec_event s ev = Ret s' →
  ∃ l l', chain (tc_nodes s) (tc_head s) l ∧ chain (tc_nodes s') (tc_head s') l' ∧ stack_step s ev l l'.
Proof.
  intros Hs Hs'. destruct (tevents_inv _ _ _ evs tinv_new) as (s0 & l & np & Hs0 & Hi).
  rewrite Hs in Hs0. injection Hs0 as <-. destruct (tevent_inv l np s ev Hi) as (s1 & l1 & np1 & Hs1 & Hi1 & Hl). rewrite Hs' in Hs1. simplify_eq.
  exists l, l1. split_and!; [apply Hi|apply Hi1|done].
Qed.

(** ** Dropping the stack *)

Lemma stack_drop_ok nodes h l fuel :
  chain nodes h l → NoDup l → (length l ≤ fuel)%nat →
  ∃ rest, stack_drop fuel nodes h = Ret (l, rest) ∧
    ∀ x, rest !! x = if decide (x ∈ l) then None else nodes !! x.
Proof.
  revert nodes h fuel. induction l as [|x l IH]; intros nodes h fuel Hc Hnd Hf; simpl in Hc.
  { subst. exists nodes. split; [by destruct fuel|]. intros x. by rewrite decide_False by apply not_elem_of_nil. }
  destruct Hc as (-> & nd & Hx & Hc). apply NoDup_cons in Hnd as [Hni Hnd].
  destruct fuel as [|fuel]; simpl in Hf; [lia|]. simpl. unfold get. rewrite Hx. simpl.
  destruct (IH (delete x nodes) (nd_next nd) fuel) as (rest & -> & Hr); [|done|lia|].
  { eapply chain_ext; [|done]. intros y Hy. apply lookup_delete_ne. by intros ->. }
  simpl. exists rest. split; [done|]. intros y. rewrite Hr, lookup_delete.
  repeat case_decide; set_solver.
Qed.

(** Only pinned guards hold a destruction back. *)
Definition retired_pinned (s : tconc) : Prop := ∀ x G, tc_retired s !! x = Some G → G ⊆ pinned s.

Definition is_pinned (regs : gmap nat ttask) (pops : gmap nat ploc) (g : guard) : Prop :=
  match g with
  | GPush id => ∃ t, regs !! id = Some t ∧ pushing t = true
  | GPop w => is_Some (pops !! w)
  end.

Lemma elem_of_pinned s g : g ∈ pinned s ↔ is_pinned (tc_regs s) (tc_pops s) g.
Proof.
  unfold pinned. rewrite elem_of_union, !elem_of_map. setoid_rewrite elem_of_dom.
  destruct g as [id|w]; simpl.
  - split.
    + intros [(i & [= <-] & t & Ht)|(i & ? & _)]; [|done]. apply map_lookup_filter_Some in Ht as [? ?]. by exists t.
    + intros (t & ? & ?). left. exists id. split; [done|]. exists t. by apply map_lookup_filter_Some.
  - split; [intros [(i & ? & _)|(i & [= <-] & ?)]; done|]. intros ?. right. by exists w.
Qed.

(** The guards of the other threads stay pinned. *)
Lemma pinned_keep s s' g0 :
  retired_pinned s → (∀ g, is_pinned (tc_regs s) (tc_pops s) g → g ≠ g0 → is_pinned (tc_regs s') (tc_pops s') g) →
  tc_retired s' = (λ G, G ∖ {[g0]}) <$> tc_retired s → retired_pinned s'.
Proof.
  intros Hp Hg Hr x G. rewrite Hr, lookup_fmap. intros (G0 & HG0 & ->)%fmap_Some g [Hin Hne]%elem_of_difference.
  apply elem_of_pinned, Hg; [|set_solver]. apply elem_of_pinned. by eapply Hp.
Qed.

Lemma pinned_grow s s' :
  retired_pinned s → (∀ g, is_pinned (tc_regs s) (tc_pops s) g → is_pinned (tc_regs s') (tc_pops s') g) →
  tc_retired s' = tc_retired s → retired_pinned s'.
Proof.
  intros Hp Hg Hr x G. rewrite Hr. intros HG g Hin. apply elem_of_pinned, Hg, elem_of_pinned. by eapply Hp.
Qed.

Lemma is_pinned_reg regs pops id (t' : option ttask) g :
  (∀ t, regs !! id = Some t → pushing t = true → ∃ t1, t' = Some t1 ∧ pushing t1 = true) →
  is_pinned regs pops g → is_pinned (partial_alter (λ _, t') id regs) pops g.
Proof.
  intros Ht. destruct g as [i|w]; [|done]. intros (t & Hi & Hp). simpl. setoid_rewrite lookup_partial_alter.
  case_decide; [|by exists t]. subst. by eapply Ht.
Qed.

Lemma is_pinned_pop regs pops w p g : is_pinned regs pops g → is_pinned regs (<[w := p]> pops) g.
Proof. destruct g as [i|w1]; [done|]. simpl. rewrite lookup_insert. by case_decide. Qed.

(** A registration that is not pushing moves, or stays pinned. *)
Lemma pinned_reg s h nodes entries wakes id (t' : option ttask) :
  retired_pinned s →
  (∀ t, tc_regs s !! id = Some t → pushing t = true → ∃ t1, t' = Some t1 ∧ pushing t1 = true) →
  retired_pinned (mkTconc h nodes (tc_retired s) entries wakes (partial_alter (λ _, t') id (tc_regs s)) (tc_pops s)).
Proof. intros Hp Ht. apply (pinned_grow s); [done| |done]. intros g. by apply is_pinned_reg. Qed.

Lemma pinned_pop_move s w p s' : retired_pinned s → pop_move s w p = Ret s' → retired_pinned s'.
Proof.
  intros Hp Hs.
  assert (Hend : ∀ s1, tc_retired s1 = tc_retired s → tc_regs s1 = tc_regs s → tc_pops s1 = tc_pops s →
    retired_pinned (end_pop s1 w)).
  { intros s1 H1 H2 H3. apply (pinned_keep s _ (GPop w)); [done| |simpl; by rewrite H1]. simpl. rewrite H2, H3.
    intros [i|w1]; simpl; [done|]. intros ? ?. rewrite lookup_delete_ne; [done|congruence]. }
  assert (Hmv : ∀ h nodes entries p', retired_pinned (mkTconc h nodes (tc_retired s) entries (tc_wakes s) (tc_regs s)
    (<[w := p']> (tc_pops s)))).
  { intros. apply (pinned_grow s); [done| |done]. intros g. apply is_pinned_pop. }
  destruct p as [|h|h next|h|h|e]; simpl in Hs.
  - case_match; simplify_eq; [apply Hmv|by apply Hend].
  - outcome_inv. apply Hmv.
  - case_decide; simplify_eq; apply Hmv.
  - simplify_eq. intros x G. simpl. rewrite lookup_insert. case_decide.
    + intros [= <-] g. rewrite !elem_of_pinned. simpl. apply is_pinned_pop.
    + intros HG g Hin. apply elem_of_pinned. simpl. apply is_pinned_pop, elem_of_pinned. by eapply Hp.
  - unfold status_exchange in Hs. outcome_inv. case_decide; outcome_inv; apply Hmv.
  - outcome_inv. by apply Hend.
Qed.

Lemma pinned_revoke s r s' :
  conc_revoke s r = Ret s' → tc_retired s' = tc_retired s ∧ tc_regs s' = tc_regs s ∧ tc_pops s' = tc_pops s.
Proof.
  unfold conc_revoke, status_exchange. intros Hs. destruct (tr_entry r); [|by simplify_eq].
  outcome_inv. by case_decide; simplify_eq.
Qed.

Lemma pinned_event s ev s' : retired_pinned s → texec_event s ev = Ret s' → retired_pinned s'.
Proof.
  intros Hp Hs. destruct ev as [id|id|id v x|id|id|id|w|w|x]; simpl in Hs.
  1-6: destruct (tc_regs s !! id) as [t|] eqn:Ht; try (by simplify_eq).
  - simplify_eq. apply (pinned_reg _ _ _ _ _ _ (Some _)); [done|congruence].
  - destruct t as [r [| | | | |] v]; simplify_eq; try done. apply (pinned_reg _ _ _ _ _ _ (Some _)); [done|naive_solver].
  - destruct t as [r [| | | | |] v0]; simplify_eq; try done. unfold start_poll in Hs. simpl in Hs.
    repeat (case_match; simplify_eq; try done; outcome_inv);
      (apply (pinned_reg _ _ _ _ _ _ (Some _)); [done|naive_solver]).
  - destruct t as [r [| | | | |] v0]; simplify_eq; try done. outcome_inv. apply pinned_revoke in Hs0 as (H1 & H2 & H3).
    apply (pinned_grow s); [done| |done]. intros g. simpl. rewrite H2, H3. apply (is_pinned_reg _ _ _ (Some _)). naive_solver.
  - destruct t as [r [| | | | |] v0]; simplify_eq; try done. outcome_inv. apply pinned_revoke in Hs0 as (H1 & H2 & H3).
    apply (pinned_grow s); [done| |done]. intros g. simpl. rewrite H2, H3. apply (is_pinned_reg _ _ _ None). naive_solver.
  - destruct t as [r [|x v|x v h|x v h|e v|e v] v0]; unfold reg_move in Hs; simpl in Hs;
      repeat (case_match; simplify_eq; try done; outcome_inv); outcome_inv; try done.
    all: try (apply (pinned_reg _ _ _ _ _ _ (Some _)); [done|naive_solver]).
    apply (pinned_keep s _ (GPush id)); [done| |done]. simpl. intros [i|w]; simpl; [|done]. intros (t & ? & ?) ?.
    exists t. by rewrite lookup_insert_ne by congruence.
    case_decide; simplify_eq; (apply (pinned_reg _ _ _ _ _ _ (Some _)); [done|naive_solver]).
  - case_match; simplify_eq; [done|]. apply (pinned_grow s); [done| |done]. intros g. apply is_pinned_pop.
  - case_match; simplify_eq; [|done]. by eapply pinned_pop_move.
  - repeat (case_match; simplify_eq; try done). intros y G. simpl. intros [_ HG]%lookup_delete_Some g Hin.
    apply elem_of_pinned. simpl. apply elem_of_pinned. by eapply Hp.
Qed.

Lemma pinned_events s evs s' : retired_pinned s → texec_events s evs = Ret s' → retired_pinned s'.
Proof.
  revert s. induction evs as [|ev evs IH]; unfold texec_events in *; simpl; intros s Hp Hs; [by simplify_eq|].
  outcome_inv. eapply IH; [|done]. by eapply pinned_event.
Qed.

(** When the stack is dropped, with no thread left, the walk of its [drop]
    ends, frees every node under the head exactly once, and leaves exactly the
    nodes that wakes have handed to [defer_destroy], which no guard holds back
    any more. *)
Theorem treiber_stack_drop evs s :
  texec_events tconc_new evs = Ret s → tc_regs s = ∅ → tc_pops s = ∅ →
  ∃ freed rest, stack_drop (size (tc_nodes s)) (tc_nodes s) (tc_head s) = Ret (freed, rest) ∧
    chain (tc_nodes s) (tc_head s) freed ∧ NoDup freed ∧ dom rest = dom (tc_retired s) ∧
    ∀ x G, tc_retired s !! x = Some G → G = ∅.
Proof.
  intros Hs Hr Hp. destruct (tevents_inv _ _ _ evs tinv_new) as (s0 & l & np & Hs0 & [Hm _]).
  rewrite Hs in Hs0. injection Hs0 as <-.
  destruct Hm as [Hc Hnd Hd Hst Ho Hpp Hrt _ _]. rewrite Hr in Ho. rewrite Hp in Hpp.
  destruct (stack_drop_ok (tc_nodes s) (tc_head s) l (size (tc_nodes s)) Hc Hnd) as (rest & Hrun & Hrest).
  { rewrite <- size_dom. rewrite <- (size_list_to_set (C := gset nat)) by done. apply subseteq_size.
    intros x Hx%elem_of_list_to_set%Hst. apply elem_of_dom, Hd. by eexists. }
  exists l, rest. split_and!; [done..| |].
  2: { intros x G HG. apply set_eq. intros g. split; [|set_solver]. intros Hin.
       assert (Hpin : g ∈ pinned s) by (eapply (pinned_events tconc_new evs); try done; by intros ? ?).
       apply elem_of_pinned in Hpin. rewrite Hr, Hp in Hpin. destruct g; simpl in Hpin; rewrite lookup_empty in Hpin; naive_solver. }
  apply set_eq. intros x. rewrite !elem_of_dom, Hrest, <- Hrt.
  case_decide as Hx; [apply Hst in Hx; split; [by intros [? ?]|congruence]|]. rewrite Hd. split; [|by eexists].
  intros [p Hpx]. destruct p as [i| |w|]; [| | |done].
  - apply Ho in Hpx. by rewrite lookup_empty in Hpx.
  - by apply Hst in Hpx.
  - apply Hpp in Hpx. by rewrite lookup_empty in Hpx.
Qed.

(** ** Concrete runs *)

(** A registration [id] is armed and its first poll, with the waker [v], pushes
    the node [x]. *)
Definition park (id v x : nat) : list tevent :=
  [TRegister id; TPrepare id; TPoll id v x; TMove id; TMove id; TMove id].

(** A wake has loaded the first node and its next pointer when a second
    registration pushes: its exchange fails and it starts again. *)
Definition lost_pop : list tevent := park 1 7 100 ++ [TWake 5; TPop 5; TPop 5] ++ park 2 8 101.

Lemma treiber_conc_correct_witness : ∃ s l,
  texec_events tconc_new (lost_pop ++ replicate 6 (TPop 5)) = Ret s ∧ chain (tc_nodes s) (tc_head s) l ∧ NoDup l.
Proof.
  destruct (treiber_conc_correct (lost_pop ++ replicate 6 (TPop 5))) as (s & l & Hs & Hc & Hnd & _).
  exists s, l. split; [exact Hs|]. split; [exact Hc|exact Hnd].
Defined.

Definition lost_pop_end : tconc :=
  match texec_events tconc_new (lost_pop ++ replicate 3 (TPop 5)) with Ret s => s | _ => tconc_new end.

Lemma treiber_linearizable_witness : ∃ s' l l',
  texec_event lost_pop_end (TPop 5) = Ret s' ∧ chain (tc_nodes s') (tc_head s') l' ∧
  stack_step lost_pop_end (TPop 5) l l'.
Proof.
  destruct (texec_event lost_pop_end (TPop 5)) as [s'| |] eqn:Hs'; [|vm_compute in Hs'; discriminate Hs'..].
  destruct (treiber_linearizable (lost_pop ++ replicate 3 (TPop 5)) (TPop 5) lost_pop_end s') as (l & l' & _ & Hc & Hl);
    [vm_compute; reflexivity|exact Hs'|].
  exists s', l, l'. split; [reflexivity|]. split; [exact Hc|exact Hl].
Defined.

(** Two entries are published, one is woken, and both registrations are
    dropped. *)
Definition abandoned : list tevent :=
  park 1 7 100 ++ park 2 8 101 ++ park 3 9 102 ++ TWake 5 :: replicate 6 (TPop 5) ++ [TDrop 1; TDrop 2; TDrop 3].

Definition abandoned_end : tconc :=
  match texec_events tconc_new abandoned with Ret s => s | _ => tconc_new end.

Lemma treiber_stack_drop_witness : ∃ rest,
  stack_drop (size (tc_nodes abandoned_end)) (tc_nodes abandoned_end) (tc_head abandoned_end) = Ret ([101; 100]%nat, rest) ∧
  dom rest = dom (tc_retired abandoned_end).
Proof.
  destruct (treiber_stack_drop abandoned abandoned_end) as (freed & rest & Hrun & _ & _ & Hd & _);
    [vm_compute; reflexivity|vm_compute; reflexivity|vm_compute; reflexivity|].
  exists rest. split; [|exact Hd].
  assert (Hf : match stack_drop (size (tc_nodes abandoned_end)) (tc_nodes abandoned_end) (tc_head abandoned_end) with
               | Ret (f, _) => f | _ => [] end = [101; 100]%nat) by (vm_compute; reflexivity).
  rewrite Hrun in Hf |- *. by rewrite Hf.
Defined.
