(* ===== verification/Lifetime.v ===== *)
(** * The lifetime of the backing memory

    Every arena handle, buffer, raw region and frozen handle holds one strong
    reference to the arena; the last one to go drops the arena and with it
    gives the backing memory back.  The system of [Lifecycle] is extended with
    the reference count, the clones of the arena its users hold, and the
    deallocator. *)

From stdpp Require Import prelude numbers list gmap.
From S2P Require Import Prelude Usize Errors SlotSpec Memory Config Dealloc Buffer FixedArena.
From S2P Require Import Buddy ArenaRef BufferOps Lifecycle.
Local Open Scope Z_scope.

(** The pointer and length the drop of the arena passes on. *)
Definition backing (r : ArenaRef) : Z * Z :=
  match r with
  | RFixed a => (a_ptr a, a_total_size a)
  | RBuddy bd => (bd_ptr bd, bd_dealloc_len bd)
  end.

Definition dealloc_of (r : ArenaRef) : DeallocKind :=
  match r with RFixed a => a_dealloc a | RBuddy bd => bd_dealloc bd end.

(** [Drop] of [ArenaInner] and of [BuddyArenaInner]. *)
Definition arena_drop {P : Profile} (r : ArenaRef) (e : ErasedDealloc) (bx : Boxes) : outcome Boxes :=
  match r with
  | RFixed a => inner_drop e (a_ptr a) (a_total_size a) bx
  | RBuddy bd => inner_drop e (bd_ptr bd) (bd_dealloc_len bd) bx
  end.

Section lifetime.
Context {P : Profile} {B : BytesLib}.

Record lsys := mkLsys {
  l_sys : sys;
  l_handles : nat;
  l_strong : nat;
  l_erased : ErasedDealloc;
  l_boxes : Boxes;
}.

(** [Arc::clone], and the drop of an [Arc]: the last one drops the arena. *)
Definition arc_clone (l : lsys) : lsys :=
  mkLsys (l_sys l) (l_handles l) (S (l_strong l)) (l_erased l) (l_boxes l).

Definition arc_drop (l : lsys) : outcome lsys :=
  match l_strong l with
  | O => Panic
  | S O =>
      let! bx := arena_drop (s_ref (l_sys l)) (l_erased l) (l_boxes l) in
      Ret (mkLsys (l_sys l) (l_handles l) O (l_erased l) bx)
  | S n => Ret (mkLsys (l_sys l) (l_handles l) n (l_erased l) (l_boxes l))
  end.

Definition set_sys (l : lsys) (s : sys) : lsys :=
  mkLsys s (l_handles l) (l_strong l) (l_erased l) (l_boxes l).
Definition set_handles (l : lsys) (n : nat) : lsys :=
  mkLsys (l_sys l) n (l_strong l) (l_erased l) (l_boxes l).

(** Objects with an [ArenaRef] inside; bytes on the heap have none. *)
Definition holds_arc (o : owner) : bool :=
  match o with
  | OBuffer _ => true
  | OFrozen (FArena _) => true
  | OFrozen (FHeap _) => false
  | ORaw _ => true
  end.

Definition op_object (op : sys_op) : nat :=
  match op with
  | OpAllocate id _ | OpPut id _ | OpFreeze id | OpRead id | OpDrop id | OpIntoOwned id
  | OpRawAllocate id _ | OpRawWrite id _ _ | OpRawFreeze id _ _ => id
  end.

Definition is_allocation (op : sys_op) : bool :=
  match op with OpAllocate _ _ | OpRawAllocate _ _ => true | _ => false end.

(** The call reaches the arena or its memory through an [Arc]. *)
Definition uses_arena (s : sys) (op : sys_op) : bool :=
  match s_objs s !! op_object op with
  | Some o => holds_arc o
  | None => is_allocation op
  end.

(** What the code does to the count after the call proper: an allocation
    clones the [Arc] into its object; [freeze] moves it into the handle, or
    drops it with the buffer when that was spilled; a refused raw freeze and
    every drop let go of it. *)
Definition arc_effect (before : option owner) (op : sys_op) (res : sys_res) (l : lsys)
    : outcome lsys :=
  match op, res, before with
  | OpAllocate _ _, ResDone, _ => Ret (arc_clone l)
  | OpRawAllocate _ _, ResDone, _ => Ret (arc_clone l)
  | OpFreeze _, _, Some (OBuffer b) => if is_spilled b then arc_drop l else Ret l
  | OpRawFreeze _ _ _, ResRefused, _ => arc_drop l
  | OpDrop _, _, Some (OBuffer _) => arc_drop l
  | OpDrop _, _, Some (ORaw _) => arc_drop l
  | OpDrop _, _, Some (OFrozen (FArena _)) => arc_drop l
  | OpIntoOwned _, _, Some (OFrozen (FArena _)) => arc_drop l
  | _, _, _ => Ret l
  end.

Inductive lop :=
| LClone
| LDropArena
| LOp (op : sys_op).

(** Reaching the arena after it was dropped would be a use after free; it is
    [Panic] here. *)
Definition lsys_step (put : put_impl) (l : lsys) (o : lop) : outcome (option lsys) :=
  match o with
  | LClone =>
      match l_handles l with
      | O => Ret None
      | S n => Ret (Some (set_handles (arc_clone l) (S (S n))))
      end
  | LDropArena =>
      match l_handles l with
      | O => Ret None
      | S n => let! l := arc_drop (set_handles l n) in Ret (Some l)
      end
  | LOp op =>
      if is_allocation op && (l_handles l =? 0)%nat then Ret None
      else if uses_arena (l_sys l) op && (l_strong l =? 0)%nat then Panic
      else
        let! x := sys_step put (l_sys l) op in
        match x with
        | None => Ret None
        | Some (res, s') =>
            let! l' := arc_effect (s_objs (l_sys l) !! op_object op) op res (set_sys l s') in
            Ret (Some l')
        end
  end.

Fixpoint lsys_run (put : put_impl) (l : lsys) (os : list lop) : outcome lsys :=
  match os with
  | [] => Ret l
  | o :: os' =>
      let! x := lsys_step put l o in
      lsys_run put (default l x) os'
  end.

(** The arena as a builder hands it out: one handle, nothing allocated. *)
Definition lsys_new (r : ArenaRef) (w : World) (bx : Boxes) : lsys :=
  let '(e, bx) := ErasedDealloc_new (dealloc_of r) bx in
  mkLsys (mkSys r w ∅) 1 1 e bx.
End lifetime.
