(* ===== verification/LifetimeProps.v ===== *)
(** * The backing memory is given back exactly once, and not too early *)

From stdpp Require Import prelude numbers list gmap.
From S2P Require Import Prelude Usize Errors SlotSpec Geometry Memory Config Dealloc Buffer.
From S2P Require Import FixedArena FixedProps BuddyTiling Buddy BuddyCore BuddyArena BuddyProps.
From S2P Require Import ArenaRef BufferOps BufferProps BufferClaims Lifecycle LifecycleProps.
From S2P Require Import Lifetime.
Local Open Scope Z_scope.

Section backing.
Context {P : Profile}.

Lemma a_same_backing a a' : a_same a a' → backing (RFixed a') = backing (RFixed a).
Proof. intros (Hp & Ht & _). simpl. by rewrite Hp, Ht. Qed.

Lemma bd_same_backing bd bd' : bd_same bd bd' → backing (RBuddy bd') = backing (RBuddy bd).
Proof. by intros (? & ? & ? & ? & ->). Qed.

Lemma release_backing r w ks k r' w' :
  ref_inv r w (k :: ks) → release r w k = Ret (r', w') → backing r' = backing r.
Proof.
  destruct r as [a|bd]; intros (l & Heq & Hi); destruct l as [|x l]; try done; injection Heq as -> ->; simpl.
  - destruct (fixed_release_ok a w l x Hi) as (a' & w1 & -> & _ & Hs & _). cbn [obind].
    intros [= <- <-]. by apply a_same_backing.
  - destruct x as [o i]. simpl. destruct (buddy_release_ok bd w l o i Hi) as (bd' & w1 & o' & -> & _ & Hs & _).
    cbn [obind]. intros [= <- <-]. by apply bd_same_backing.
Qed.

(** The interface again, for arenas over one given backing. *)
Definition backed_laws (p : Z * Z) : ArenaLaws ArenaRef.
Proof.
  refine {| ar_inv := λ r w ks, ref_inv r w ks ∧ backing r = p; ar_addr := ref_addr; ar_size := ref_size |}.
  - intros r w ks ks' Hp [Hi Hb]. split; [|done]. by eapply ref_perm.
  - intros r w ks [Hi _]. by eapply ref_nodup.
  - intros r w ks k [Hi _] Hk. by eapply ref_bounds.
  - intros r w ks k k' [Hi _] Hk Hk' Hne. by eapply ref_disjoint.
  - intros r w w' ks k [Hi Hb] Hk Hso. split; [|done]. by eapply ref_write.
  - intros r w ks k [Hi Hb]. destruct (ref_release_ok r w ks k Hi) as (r' & w' & He & Hi' & Hreg & Hso).
    exists r', w'. split_and!; try done. rewrite <- Hb. by eapply release_backing.
  - intros r w ks [Hi Hb]. destruct (ref_frozen_ok r w ks Hi) as [Hi' Hreg].
    split_and!; try done. by destruct r.
  - intros r w ks [Hi Hb]. destruct (ref_spill_ok r w ks Hi) as [Hi' Hreg].
    split_and!; try done. by destruct r.
Defined.
End backing.

Section system.
Context {P : Profile} {B : BytesLib} {BL : BytesLaws B}.

Lemma fixed_claim_backing a w slots x a' w' :
  fixed_inv a w slots → fixed_claim a w = Ret (x, a', w') → backing (RFixed a') = backing (RFixed a).
Proof.
  intros Hi He. apply a_same_backing.
  destruct (fixed_claim_ok a w slots Hi) as [(s & a1 & w1 & Hc & H)|(a1 & Hc & H)];
    rewrite Hc in He; injection He as <- <- <-; naive_solver.
Qed.

Lemma buddy_claim_backing bd w A len x bd' w' :
  buddy_inv bd w A → 0 < len ≤ usize_MAX → buddy_claim bd w len = Ret (x, bd', w') →
  backing (RBuddy bd') = backing (RBuddy bd).
Proof.
  intros Hi Hlen He. destruct (Z.le_gt_cases len (2 ^ 63)) as [Hle|Hgt].
  2: { rewrite (buddy_claim_huge bd w A len Hi) in He by lia. destruct debug_assertions; by simplify_eq. }
  apply bd_same_backing. pose proof (buddy_claim_ok bd w A len Hi ltac:(lia)) as Hc.
  rewrite He in Hc. destruct x as [[]|[[[o i] off] cap]]; [naive_solver..|by destruct Hc].
Qed.

Lemma ref_allocate_backing r w ks len x r' w' :
  ref_inv r w ks → 0 < len ≤ usize_MAX → ref_allocate r w len = Ret (x, r', w') → backing r' = backing r.
Proof.
  destruct r as [a|bd]; simpl; intros (l & -> & Hi) Hlen.
  - unfold fixed_allocate. destruct (fixed_claim a w) as [[[[e|[s off]] a'] w1]| |] eqn:Ec; cbn [obind];
      try done; intros [= <- <- <-]; by eapply fixed_claim_backing.
  - unfold buddy_allocate.
    destruct (buddy_claim bd w len) as [[[[e|[[[o i] off] cap]] bd'] w1]| |] eqn:Ec; cbn [obind];
      try done; intros [= <- <- <-]; by eapply buddy_claim_backing.
Qed.

Lemma ref_raw_alloc_backing r w ks len x r' w' :
  ref_inv r w ks → 0 < len ≤ usize_MAX → ref_raw_alloc r w len = Ret (x, r', w') → backing r' = backing r.
Proof.
  destruct r as [a|bd]; simpl; intros (l & -> & Hi) Hlen.
  - unfold raw_fixed_alloc. destruct (fixed_claim a w) as [[[[e|[s off]] a'] w1]| |] eqn:Ec; cbn [obind];
      try done; intros [= <- <- <-]; by eapply fixed_claim_backing.
  - unfold raw_buddy_alloc.
    destruct (buddy_claim bd w len) as [[[[e|[[[o i] off] cap]] bd'] w1]| |] eqn:Ec; cbn [obind];
      try done; intros [= <- <- <-]; by eapply buddy_claim_backing.
Qed.

(** ** No call moves the backing *)

Definition keeps_backing (put : put_impl) (s : sys) (op : sys_op) : Prop :=
  ∀ res s', sys_step put s op = Ret (Some (res, s')) → backing (s_ref s') = backing (s_ref s).

Local Abbreviation laws s := (backed_laws (backing (s_ref s))).

Lemma allocate_backing put s G id len : sys_inv s G → keeps_backing put s (OpAllocate id len).
Proof.
  intros Hi res s'. simpl. destruct (s_objs s !! id); [done|].
  case_match eqn:El; [|done]. apply andb_true_iff in El as [?%Z.ltb_lt ?%Z.leb_le].
  destruct (ref_allocate _ _ _) as [[[x r'] w']| |] eqn:Ea; cbn [obind]; try done.
  intros He. assert (s_ref s' = r') as -> by (destruct x; by simplify_eq).
  eapply ref_allocate_backing; [apply (si_arena _ _ Hi)| |exact Ea]; lia.
Qed.

Lemma raw_allocate_backing put s G id len : sys_inv s G → keeps_backing put s (OpRawAllocate id len).
Proof.
  intros Hi res s'. simpl. destruct (s_objs s !! id); [done|].
  case_match eqn:El; [|done]. apply andb_true_iff in El as [?%Z.ltb_lt ?%Z.leb_le].
  destruct (ref_raw_alloc _ _ _) as [[[x r'] w']| |] eqn:Ea; cbn [obind]; try done.
  intros He. assert (s_ref s' = r') as -> by (destruct x; by simplify_eq).
  eapply ref_raw_alloc_backing; [apply (si_arena _ _ Hi)| |exact Ea]; lia.
Qed.

Lemma put_backing put s G id data :
  put_slice_law put → sys_inv s G → keeps_backing put s (OpPut id data).
Proof.
  intros Hput Hi res s'. simpl. destruct (s_objs s !! id) as [[b|f|rr]|] eqn:Eid; try done.
  case_match eqn:El; [|done]. destruct (inv_split _ _ _ _ Hi Eid) as [Hi0 (c & Hg & Hb)].
  pose proof (try_put_slice_spec (L := laws s) put (s_ref s) (s_world s) b c
    _ data Hput (conj Hi0 eq_refl) Hb ltac:(lia)) as Hp.
  destruct (try_put_slice _ _ _) as [[[e|u] [[b' r'] w']]| |]; cbn [obind]; try done;
    intros [= _ <-]; simpl.
  - destruct Hp as ([= -> -> ->] & _). done.
  - by destruct Hp as (_ & _ & [_ Hr] & _).
Qed.

Lemma freeze_backing put s G id : sys_inv s G → keeps_backing put s (OpFreeze id).
Proof.
  intros Hi res s'. simpl. destruct (s_objs s !! id) as [[b|f|rr]|] eqn:Eid; try done.
  destruct (inv_split _ _ _ _ Hi Eid) as [Hi0 (c & Hg & Hb)].
  destruct (freeze_ok (L := laws s) (s_ref s) (s_world s) b c _ (conj Hi0 eq_refl) Hb)
    as (f & r' & -> & _ & [_ Hr] & _). cbn [obind]. by intros [= _ <-].
Qed.

Lemma drop_backing put s G id : sys_inv s G → keeps_backing put s (OpDrop id).
Proof.
  intros Hi res s'. unfold sys_step. cbn zeta. destruct (s_objs s !! id) as [o|] eqn:Eid; [|done].
  destruct (inv_split _ _ _ _ Hi Eid) as [Hi0 Hok]. destruct o as [b|f|rr].
  - destruct Hok as (c & _ & Hb).
    destruct (buffer_drop_ok (L := laws s) _ _ b c _ (conj Hi0 eq_refl) Hb)
      as (r' & w' & -> & [_ Hr] & _). cbn [obind]. by intros [= _ <-].
  - destruct Hok as (c & _ & Hf).
    destruct (frozen_drop_ok (L := laws s) _ _ f c _ (conj Hi0 eq_refl) Hf)
      as (r' & w' & -> & [_ Hr] & _). cbn [obind]. by intros [= _ <-].
  - unfold raw_drop. destruct (ref_release_ok _ _ _ _ Hi0) as (r' & w' & Hex & _).
    pose proof (release_backing _ _ _ _ _ _ Hi0 Hex) as Hr.
    change (ar_release (s_ref s) (s_world s) (rr_allocation rr)) with
      (release (s_ref s) (s_world s) (rr_allocation rr)). rewrite Hex. cbn [obind]. by intros [= _ <-].
Qed.

Lemma into_owned_backing put s G id : sys_inv s G → keeps_backing put s (OpIntoOwned id).
Proof.
  intros Hi res s'. simpl. destruct (s_objs s !! id) as [[b|f|rr]|] eqn:Eid; try done.
  destruct (inv_split _ _ _ _ Hi Eid) as [Hi0 (c & Hg & Hf)].
  destruct (into_owned f (s_ref s) (s_world s)) as [[[o r'] w']| |] eqn:Eo; cbn [obind]; [|done..].
  destruct (into_owned_ok (L := laws s) (s_ref s) (s_world s) f c _ _ _ _ (conj Hi0 eq_refl) Hf Eo)
    as (_ & [_ Hr] & _). by intros [= _ <-].
Qed.

Lemma raw_freeze_backing put s G id st en : sys_inv s G → keeps_backing put s (OpRawFreeze id st en).
Proof.
  intros Hi res s'. unfold sys_step. cbn zeta.
  destruct (s_objs s !! id) as [[b|f|rr]|] eqn:Eid; try done. case_match eqn:El; [|done].
  destruct (inv_split _ _ _ _ Hi Eid) as [Hi0 Hok].
  assert (is_usize st ∧ is_usize en) as [Hs He].
  { rewrite !andb_true_iff, !Z.leb_le in El. unfold is_usize. lia. }
  destruct (raw_freeze_ok (L := laws s) (s_ref s) (s_world s) rr _ st en (conj Hi0 eq_refl) Hok Hs He)
    as [(_ & f & r' & -> & _ & [_ Hr] & _)|(_ & r' & w' & -> & [_ Hr] & _)];
    cbn [obind]; [case_match; try done|]; by intros [= _ <-].
Qed.

Lemma sys_step_backing put s G op :
  put_slice_law put → sys_inv s G → keeps_backing put s op.
Proof.
  intros Hput Hi. destruct op; eauto using allocate_backing, raw_allocate_backing, put_backing,
    freeze_backing, drop_backing, into_owned_backing, raw_freeze_backing.
  - intros res s'. simpl. repeat case_match; by intros [= _ <-].
  - intros res s'. simpl. repeat case_match; by intros [= _ <-].
Qed.

(** ** Counting references *)

Definition arc_of (o : owner) : list unit := if holds_arc o then [()] else [].

Definition arcs (objs : gmap nat owner) : nat := length (map_to_list objs ≫= (λ p, arc_of p.2)).

Lemma arcs_insert objs id o :
  objs !! id = None → arcs (<[id := o]> objs) = (length (arc_of o) + arcs objs)%nat.
Proof. intros Hid. unfold arcs. rewrite map_to_list_insert by done. simpl. by rewrite length_app. Qed.

Lemma arcs_delete objs id o :
  objs !! id = Some o → arcs objs = (length (arc_of o) + arcs (delete id objs))%nat.
Proof.
  intros Hid. rewrite <- (insert_delete_id _ _ _ Hid) at 1. apply arcs_insert, lookup_delete_eq.
Qed.

Lemma arcs_update objs id o o' :
  objs !! id = Some o →
  (arcs (<[id := o']> objs) + length (arc_of o) = arcs objs + length (arc_of o'))%nat.
Proof.
  intros Hid. rewrite (arcs_delete _ _ _ Hid), <- insert_delete_eq.
  rewrite arcs_insert by apply lookup_delete_eq. lia.
Qed.

Lemma arcs_zero objs :
  arcs objs = 0%nat ↔ ∀ id o, objs !! id = Some o → holds_arc o = false.
Proof.
  split.
  - intros Hz id o Hid. rewrite (arcs_delete _ _ _ Hid) in Hz. unfold arc_of in Hz.
    destruct (holds_arc o); simpl in Hz; [lia|done].
  - induction objs as [|id o objs Hid IH] using map_ind; [done|]. intros Ha.
    rewrite arcs_insert by done. unfold arc_of at 1. rewrite (Ha id o) by apply lookup_insert_eq. simpl.
    apply IH. intros id' o' Hid'. apply (Ha id'). rewrite lookup_insert_ne by congruence. done.
Qed.

Lemma arcs_pos objs : arcs objs ≠ 0%nat → ∃ id o, objs !! id = Some o ∧ holds_arc o = true.
Proof.
  induction objs as [|id o objs Hid IH] using map_ind; [done|]. rewrite arcs_insert by done.
  destruct (holds_arc o) eqn:Ea; [intros _; exists id, o; by rewrite lookup_insert_eq|].
  unfold arc_of. rewrite Ea. simpl. intros (id' & o' & Hid' & Ha)%IH. exists id', o'.
  rewrite lookup_insert_ne by congruence. done.
Qed.

(** The change of the count a call asks for. *)
Definition arc_delta (before : option owner) (op : sys_op) (res : sys_res) : Z :=
  match op, res, before with
  | OpAllocate _ _, ResDone, _ | OpRawAllocate _ _, ResDone, _ => 1
  | OpFreeze _, _, Some (OBuffer b) => if is_spilled b then -1 else 0
  | OpRawFreeze _ _ _, ResRefused, _ => -1
  | OpDrop _, _, Some o => if holds_arc o then -1 else 0
  | OpIntoOwned _, _, Some (OFrozen (FArena _)) => -1
  | _, _, _ => 0
  end.

Lemma arc_effect_delta before op res l :
  arc_effect before op res l =
    match arc_delta before op res with
    | 1 => Ret (arc_clone l) | -1 => arc_drop l | _ => Ret l
    end.
Proof.
  destruct op, res, before as [[buf|[heap|hd]|reg]|]; simpl; try done; by destruct (is_spilled buf).
Qed.

Lemma freeze_arc b r w f r' w' :
  freeze b r w = Ret (f, r', w') → holds_arc (OFrozen f) = negb (is_spilled b).
Proof.
  unfold freeze, is_spilled. destruct (b_spilled b); simpl; [|by intros [= <- _ _]].
  destruct (buffer_drop _ _ _) as [[]| |]; cbn [obind]; [|done..]. by intros [= <- _ _].
Qed.

Lemma raw_freeze_arc rr r w st en f r' w' :
  raw_freeze rr r w st en = Ret (Ok f, r', w') → holds_arc (OFrozen f) = true.
Proof.
  unfold raw_freeze. case_match.
  - destruct (raw_drop _ _ _) as [[]| |]; cbn [obind]; done.
  - destruct (usz_add _ _); cbn [obind]; [|done..]. destruct (usz_sub _ _); cbn [obind]; [|done..].
    by intros [= <- _ _].
Qed.

(** The objects after a call hold as many references as the count says. *)
Definition counts (put : put_impl) (s : sys) (op : sys_op) : Prop :=
  ∀ res s', sys_step put s op = Ret (Some (res, s')) →
    Z.of_nat (arcs (s_objs s')) =
      Z.of_nat (arcs (s_objs s)) + arc_delta (s_objs s !! op_object op) op res.

Lemma allocate_counts put s id len :
  counts put s (OpAllocate id len) ∧ counts put s (OpRawAllocate id len).
Proof.
  split; intros res s'; unfold sys_step; cbn zeta; cbn [op_object];
    destruct (s_objs s !! id) as [o|] eqn:Eid; try done; (case_match; [|done]).
  - destruct (ref_allocate _ _ _) as [[[[e|b] r'] w']| |]; cbn [obind]; try done;
      intros [= <- <-]; cbn [s_objs arc_delta]; unfold set_obj; [lia|].
    rewrite arcs_insert by done. simpl. lia.
  - destruct (ref_raw_alloc _ _ _) as [[[[e|b] r'] w']| |]; cbn [obind]; try done;
      intros [= <- <-]; cbn [s_objs arc_delta]; unfold set_obj; [lia|].
    rewrite arcs_insert by done. simpl. lia.
Qed.

Lemma put_counts put s id data : counts put s (OpPut id data).
Proof.
  intros res s'. unfold sys_step. cbn zeta. cbn [op_object].
  destruct (s_objs s !! id) as [[b|f|rr]|] eqn:Eid; try done. case_match; [|done].
  destruct (try_put_slice _ _ _) as [[x [[b' r'] w']]| |]; cbn [obind]; try done.
  intros [= <- <-]. cbn [s_objs]. unfold set_obj. pose proof (arcs_update _ _ _ (OBuffer b') Eid) as Ha.
  destruct x; simpl in *; lia.
Qed.

Lemma freeze_counts put s id : counts put s (OpFreeze id).
Proof.
  intros res s'. unfold sys_step. cbn zeta. cbn [op_object].
  destruct (s_objs s !! id) as [[b|f|rr]|] eqn:Eid; try done.
  destruct (freeze _ _ _) as [[[f r'] w']| |] eqn:Ef; cbn [obind]; try done.
  intros [= <- <-]. cbn [s_objs]. unfold set_obj. apply freeze_arc in Ef.
  pose proof (arcs_update _ _ _ (OFrozen f) Eid) as Ha. unfold arc_of in Ha. rewrite Ef in Ha.
  simpl. destruct (is_spilled b); simpl in *; lia.
Qed.

Lemma raw_freeze_counts put s id st en : counts put s (OpRawFreeze id st en).
Proof.
  intros res s'. unfold sys_step. cbn zeta. cbn [op_object].
  destruct (s_objs s !! id) as [[b|f|rr]|] eqn:Eid; try done. case_match; [|done].
  destruct (raw_freeze _ _ _ _ _) as [[[[e|f] r'] w']| |] eqn:Ef; cbn [obind]; try done.
  - intros [= <- <-]. cbn [s_objs]. unfold del_obj. rewrite (arcs_delete _ _ _ Eid). simpl. lia.
  - case_match; [|done]. intros [= <- <-]. cbn [s_objs]. unfold set_obj. apply raw_freeze_arc in Ef.
    pose proof (arcs_update _ _ _ (OFrozen f) Eid) as Ha. unfold arc_of in Ha. rewrite Ef in Ha.
    simpl in *. lia.
Qed.

Lemma drop_counts put s id : counts put s (OpDrop id) ∧ counts put s (OpIntoOwned id).
Proof.
  split; intros res s'; unfold sys_step; cbn zeta; cbn [op_object];
    destruct (s_objs s !! id) as [o|] eqn:Eid; try done.
  - intros He. assert (s_objs s' = delete id (s_objs s) ∧ res = ResDone) as [-> ->].
    { match type of He with obind ?m _ = _ => destruct m as [[r' w']| |] end; by simplify_eq/=. }
    rewrite (arcs_delete _ _ _ Eid). unfold arc_of. simpl. destruct (holds_arc o); simpl; lia.
  - destruct o as [b|f|rr]; try done.
    destruct (into_owned _ _ _) as [[[o r'] w']| |]; cbn [obind]; try done.
    intros [= <- <-]. cbn [s_objs]. unfold del_obj. rewrite (arcs_delete _ _ _ Eid). unfold arc_of.
    destruct f; simpl; lia.
Qed.

Lemma sys_step_counts put s op : counts put s op.
Proof.
  destruct op; try apply allocate_counts; try apply drop_counts;
    auto using put_counts, freeze_counts, raw_freeze_counts.
  - intros res s'. simpl. repeat case_match; try done. intros [= <- <-]. simpl. lia.
  - intros res s'. simpl. repeat case_match; try done. intros [= <- <-]. simpl. lia.
Qed.

Lemma arc_delta_cases before op res :
  (arc_delta before op res = 1 ∧ is_allocation op = true) ∨
  arc_delta before op res = 0 ∨ arc_delta before op res = -1.
Proof.
  destruct op, res, before as [[buf|[heap|hd]|reg]|]; simpl; try destruct (is_spilled buf); auto.
Qed.

(** ** The invariant *)

Context (e : ErasedDealloc) (d : DeallocKind) (bx : Boxes) (p : Z * Z) (Hbox : boxed e d bx).

(** While a reference is left the deallocator waits in its box; after that
    it has been run, once. *)
Record life_inv (l : lsys) (G : gmap nat (list Z)) : Prop := {
  li_sys : sys_inv (l_sys l) G;
  li_backing : backing (s_ref (l_sys l)) = p;
  li_count : l_strong l = (l_handles l + arcs (s_objs (l_sys l)))%nat;
  li_erased : l_erased l = e;
  li_boxes : l_boxes l =
    if decide (l_strong l = 0%nat) then log_dealloc (unboxed e bx) (dealloc_events d p.1 p.2) else bx;
}.

Lemma arc_drop_inv l G :
  sys_inv (l_sys l) G → backing (s_ref (l_sys l)) = p → l_erased l = e → l_boxes l = bx →
  l_strong l = S (l_handles l + arcs (s_objs (l_sys l))) →
  ∃ l', arc_drop l = Ret l' ∧ life_inv l' G.
Proof.
  intros Hs Hb He Hbx Hc. unfold arc_drop. rewrite Hc.
  destruct (l_handles l + arcs (s_objs (l_sys l)))%nat as [|n] eqn:En.
  - assert (Hd : arena_drop (s_ref (l_sys l)) (l_erased l) (l_boxes l) =
      Ret (log_dealloc (unboxed e bx) (dealloc_events d p.1 p.2))).
    { rewrite He, Hbx, <- Hb. destruct (s_ref (l_sys l)); by apply inner_drop_ok. }
    rewrite Hd. cbn [obind]. eexists. split; [done|]. by split.
  - eexists. split; [done|]. by split.
Qed.

(** The calls on objects in a sequence of steps. *)
Definition sys_ops (os : list lop) : list sys_op :=
  omap (λ o, match o with LOp op => Some op | _ => None end) os.

Lemma sys_ops_op op os : sys_ops (LOp op :: os) = op :: sys_ops os.
Proof. done. Qed.

(** No step reaches a dropped arena, and the only ones that can fail are calls
    that do not fit. *)
Lemma life_step put l G o os :
  put_slice_law put → life_inv l G →
  match lsys_step put l o with
  | Ret (Some l') => ∃ G', life_inv l' G' ∧ (run_fits G (sys_ops (o :: os)) → run_fits G' (sys_ops os))
  | Ret None => run_fits G (sys_ops (o :: os)) → run_fits G (sys_ops os)
  | _ => ¬ run_fits G (sys_ops (o :: os))
  end.
Proof.
  intros Hput [Hs Hb Hc He Hbx]. destruct o as [| |op]; cbn [lsys_step].
  - destruct (l_handles l) as [|n] eqn:En; [done|]. exists G. split; [|done].
    split; simpl; [done..|lia|done|]. rewrite Hbx. by rewrite !decide_False by lia.
  - destruct (l_handles l) as [|n] eqn:En; [done|].
    destruct (arc_drop_inv (set_handles l n) G) as (l' & -> & Hi'); try done; simpl.
    { rewrite Hbx. by rewrite decide_False by lia. }
    by exists G.
  - rewrite sys_ops_op. destruct (is_allocation op && (l_handles l =? 0)%nat) eqn:Eg; [apply run_fits_skip|].
    destruct (uses_arena (l_sys l) op && (l_strong l =? 0)%nat) eqn:Eu.
    { exfalso. apply andb_true_iff in Eu as [Hu ?%Nat.eqb_eq]. unfold uses_arena in Hu.
      destruct (s_objs (l_sys l) !! op_object op) as [o|] eqn:Eo.
      - pose proof (proj1 (arcs_zero (s_objs (l_sys l))) ltac:(lia) _ _ Eo). congruence.
      - rewrite Hu in Eg. simpl in Eg. apply Nat.eqb_neq in Eg. lia. }
    pose proof (sys_step_refines put _ _ op Hput Hs) as Href. unfold step_refines in Href.
    destruct (sys_step put (l_sys l) op) as [[[res s']|]| |] eqn:Hx; cbn [obind];
      [|apply run_fits_skip|eauto using run_fits_op..].
    destruct Href as (G' & Hsp & Hs').
    assert (Hfit : run_fits G (op :: sys_ops os) → run_fits G' (sys_ops os)) by (intros; by eapply run_fits_step).
    pose proof (sys_step_backing put _ _ op Hput Hs _ _ Hx) as Hb'.
    pose proof (sys_step_counts put _ op _ _ Hx) as Ha. rewrite arc_effect_delta.
    destruct (arc_delta_cases (s_objs (l_sys l) !! op_object op) op res) as [[Hd Hal]|[Hd|Hd]];
      rewrite Hd in *; cbn [obind].
    + rewrite Hal in Eg. simpl in Eg. apply Nat.eqb_neq in Eg.
      exists G'. split; [|done]. split; simpl; [done|congruence|lia|done|].
      rewrite Hbx. by rewrite !decide_False by lia.
    + exists G'. split; [|done]. split; simpl; [done|congruence|lia|done..].
    + destruct (arc_drop_inv (set_sys l s') G') as (l' & -> & Hi'); simpl; try done; try congruence; try lia.
      { rewrite Hbx. by rewrite decide_False by lia. }
      by exists G'.
Qed.

Lemma life_run put l G os :
  put_slice_law put → life_inv l G →
  match lsys_run put l os with
  | Ret l' => ∃ G', life_inv l' G'
  | _ => ¬ run_fits G (sys_ops os)
  end.
Proof.
  intros Hput. revert l G. induction os as [|o os IH]; intros l G Hi; cbn [lsys_run]; [by exists G|].
  pose proof (life_step put l G o os Hput Hi) as Hx.
  destruct (lsys_step put l o) as [[l1|]| |]; cbn [obind default]; [..|done|done].
  - destruct Hx as (G1 & Hi1 & Hf). specialize (IH l1 G1 Hi1). simpl. destruct (lsys_run put l1 os); [done|intros ?; apply IH; auto..].
  - specialize (IH l G Hi). simpl. destruct (lsys_run put l os); [done|intros ?; apply IH; auto..].
Qed.
End system.

(** Someone still holds a reference to the arena. *)
Definition in_use {P : Profile} {B : BytesLib} (l : lsys) : Prop :=
  l_handles l ≠ 0%nat ∨ ∃ id o, s_objs (l_sys l) !! id = Some o ∧ holds_arc o = true.

(** C3: the backing memory is given back exactly once and never too early.
    Whatever clones of the arena, buffers, raw regions and frozen bytes are made
    and dropped, in any order, the arena is there as long as anything refers to
    it; while a handle or an object over arena memory is left nothing is
    deallocated, and once none is left the deallocator the arena was built with
    has been run once with the original pointer and length, and its box freed.
    No step reaches the arena after it is gone, nor fails otherwise, unless an
    allocation of more than [2^63] bytes is asked for in a build with overflow
    checks or the heap does not serve twice the bytes an object holds. *)
Theorem backing_freed_once {P : Profile} {B : BytesLib} {BL : BytesLaws B} (put : put_impl) r w bx os :
  put_slice_law put → ref_inv r w [] → boxes_wf bx →
  match lsys_run put (lsys_new r w bx) os with
  | Ret l' =>
      (in_use l' ↔ l_strong l' ≠ 0%nat) ∧
      (in_use l' → bx_log (l_boxes l') = bx_log bx) ∧
      (¬ in_use l' →
         bx_log (l_boxes l') = bx_log bx ++ dealloc_events (dealloc_of r) (backing r).1 (backing r).2 ∧
         bx_live (l_boxes l') = bx_live bx)
  | _ => ¬ run_fits ∅ (sys_ops os)
  end.
Proof.
  intros Hput Hi Hw.
  pose proof (life_run _ _ _ (backing r) (boxed_new (dealloc_of r) bx Hw) put (lsys_new r w bx) ∅ os Hput) as H.
  destruct (lsys_run put (lsys_new r w bx) os) as [l'| |].
  2, 3: apply H; (split; [by apply sys_inv_init|done..]).
  destruct H as (G' & [_ _ Hc _ Hbx]); [split; [by apply sys_inv_init|done..]|].
  assert (Huse : in_use l' ↔ l_strong l' ≠ 0%nat).
  { unfold in_use. rewrite Hc. split.
    - intros [?|(id & o & Hid & Ha)]; [lia|]. intros Hz.
      pose proof (proj1 (arcs_zero (s_objs (l_sys l'))) ltac:(lia) _ _ Hid). congruence.
    - intros Hne. destruct (decide (l_handles l' = 0%nat)) as [Hz|]; [right|by left].
      apply arcs_pos. lia. }
  split; [done|]. rewrite Huse, Hbx. split; intros Hs.
  - by rewrite decide_False.
  - rewrite decide_True by lia. split; [done|]. by apply unboxed_new.
Qed.

(** A clone of the arena and a frozen buffer outlive the first handle; the
    last frozen bytes give the memory back. *)
Definition demo_steps : list lop :=
  [LClone; LOp (OpAllocate 1 100); LOp (OpPut 1 [7; 8]); LDropArena; LDropArena;
   LOp (OpFreeze 1); LOp (OpRead 1); LOp (OpDrop 1)].

Lemma backing_freed_once_witness :
  ∃ l', @lsys_run dev list_bytes (@put_default dev list_bytes ArenaRef (@ArenaRef_ops dev))
          (lsys_new (RFixed demo_arena) (mkWorld ∅ []) (mkBoxes ∅ 1 [])) demo_steps = Ret l' ∧
    bx_log (l_boxes l') = [GlobalDealloc (a_ptr demo_arena) 512 64].
Proof.
  assert (Hw : boxes_wf (mkBoxes ∅ 1 [])) by (split; [reflexivity|]; intros a Ha; set_solver).
  generalize (@backing_freed_once dev list_bytes list_bytes_laws put_default (RFixed demo_arena)
    (mkWorld ∅ []) (mkBoxes ∅ 1 []) demo_steps put_default_law (demo_arena_ref _) Hw).
  assert (Hk : match @lsys_run dev list_bytes (@put_default dev list_bytes ArenaRef (@ArenaRef_ops dev))
          (lsys_new (RFixed demo_arena) (mkWorld ∅ []) (mkBoxes ∅ 1 [])) demo_steps with
     | Ret l => (l_handles l =? 0)%nat && (size (s_objs (l_sys l)) =? 0)%nat | _ => false end = true)
    by (vm_compute; reflexivity).
  revert Hk.
  generalize (@lsys_run dev list_bytes (@put_default dev list_bytes ArenaRef (@ArenaRef_ops dev))
          (lsys_new (RFixed demo_arena) (mkWorld ∅ []) (mkBoxes ∅ 1 [])) demo_steps).
  intros [l'| |] Hk H; [|discriminate Hk|discriminate Hk].
  destruct H as (_ & _ & Hdone). exists l'. split; [reflexivity|]. apply Hdone.
  apply andb_true_iff in Hk as [Hh%Nat.eqb_eq Ho%Nat.eqb_eq].
  apply map_size_empty_iff in Ho. intros [?|(id & o & Hid & _)]; [done|].
  rewrite Ho in Hid. by apply lookup_empty_Some in Hid.
Defined.

(** What the heap builders allocate is given back with the layout it was
    allocated with, as the global allocator requires, and with the pointer it
    returned. *)
Theorem heap_layout_matches {P : Profile} {PF : Platform} {GA : GlobalAlloc} {m}
    (b : FixedArenaBuilder m) (bb : BuddyArenaBuilder m) wake w :
  (∀ a w', build_fixed b wake w = Ret (Ok (a, w')) →
     ∃ size align, a_ptr a = global_alloc size align ∧ a_ptr a ≠ 0 ∧ layout_ok size align = true ∧
       dealloc_events (dealloc_of (RFixed a)) (a_ptr a) (a_total_size a) =
         [GlobalDealloc (a_ptr a) size align]) ∧
  (∀ bd w', build_buddy bb wake w = Ret (Ok (bd, w')) →
     ∃ size align, bd_ptr bd = global_alloc size align ∧ bd_ptr bd ≠ 0 ∧ layout_ok size align = true ∧
       dealloc_events (dealloc_of (RBuddy bd)) (bd_ptr bd) (bd_dealloc_len bd) =
         [GlobalDealloc (bd_ptr bd) size align]).
Proof.
  split; intros a w'.
  - unfold build_fixed. intros (ps & _ & (a0 & Hb & (w1 & _ & [= <- <-])%obind_Ret_inv)%rbind_Ret_inv)%obind_Ret_inv.
    unfold build_inner in Hb.
    apply rbind_Ret_inv in Hb as (_ & _ & (up & _ & (cap & _ & (size & _ & Hb)%rbind_Ret_inv)%rbind_Ret_inv)%obind_Ret_inv).
    destruct (layout_ok size (bc_alignment (fb_config b))) eqn:El; cbn [negb] in Hb; [|done].
    apply obind_Ret_inv in Hb as ([] & Hp & (z & _ & (bm & _ & [= <-])%obind_Ret_inv)%obind_Ret_inv).
    exists size, (bc_alignment (fb_config b)). split_and!; try done. simpl. intros Hz. by rewrite Hz in Hp.
  - unfold build_buddy. intros (ps & _ & (a0 & Hb & (w1 & _ & [= <- <-])%obind_Ret_inv)%rbind_Ret_inv)%obind_Ret_inv.
    unfold build_raw in Hb.
    destruct (layout_ok (total_size (bb_geometry bb)) (alignment (bb_geometry bb))) eqn:El;
      cbn [negb] in Hb; [|done].
    apply obind_Ret_inv in Hb as ([] & Hp & (bms & _ & (n & _ & (z & _ & (ne & _ & [= <-])%obind_Ret_inv)%obind_Ret_inv)%obind_Ret_inv)%obind_Ret_inv).
    exists (total_size (bb_geometry bb)), (alignment (bb_geometry bb)). split_and!; try done.
    simpl. intros Hz. by rewrite Hz in Hp.
Qed.

Lemma heap_layout_matches_witness :
  ∃ a w', @build_fixed dev demo_platform demo_alloc Standard demo_builder false (mkWorld ∅ []) =
            Ret (Ok (a, w')) ∧
    ∃ size align, dealloc_events (dealloc_of (RFixed a)) (a_ptr a) (a_total_size a) =
      [GlobalDealloc (a_ptr a) size align].
Proof.
  destruct (@heap_layout_matches dev demo_platform demo_alloc Standard demo_builder demo_buddy_builder
              false (mkWorld ∅ [])) as [H _].
  assert (Hk : match @build_fixed dev demo_platform demo_alloc Standard demo_builder false
                       (mkWorld ∅ []) with
               | Ret (Ok _) => true | _ => false end = true) by (vm_compute; reflexivity).
  destruct (@build_fixed dev demo_platform demo_alloc Standard demo_builder false (mkWorld ∅ []))
    as [[e|[a w']]| |]; [discriminate Hk| |discriminate Hk|discriminate Hk].
  exists a, w'. split; [reflexivity|].
  destruct (H a w' eq_refl) as (size & align & _ & _ & _ & Hd). by exists size, align.
Defined.
