(* ===== verification/Examples.v ===== *)
(** * The example programs ([examples/])

    The mains of [fixed_buffer.rs], [buddy_buffer.rs], [spill_buffer.rs],
    [hazmat_fixed_raw.rs], [hazmat_buddy_raw.rs] and [async_alloc.rs] as programs
    over the model.
    A main returns what it prints; an [unwrap] of an error, a failed [assert!]
    and a read of bytes never written are panics.  The theorems run them: the
    numbers they print are those of the real programs. *)

From stdpp Require Import prelude numbers list gmap.
From Stdlib Require Import String Ascii.
From S2P Require Import Prelude Usize Errors Bitmap Geometry SlotSpec Metrics Memory Config Buffer.
From S2P Require Import FixedArena BuddyTiling Buddy BuddyCore BuddyArena ArenaRef BufferOps BufferProps Lifecycle.
From S2P Require Import AsyncFixed.
Local Open Scope Z_scope.

(** A byte string literal. *)
Fixpoint bytes_of (s : string) : list Z :=
  match s with
  | EmptyString => []
  | String c s => Z.of_nat (nat_of_ascii c) :: bytes_of s
  end.

Definition crlf : list Z := [13; 10].

Definition unwrap {E A} (x : result E A) : outcome A :=
  match x with Ok a => Ret a | Err _ => Panic end.

Section mains.
Context {P : Profile} {B : BytesLib} {PF : Platform} {GA : GlobalAlloc}.
Context (put : put_impl).

(** [allocate] and [raw_alloc], unwrapped. *)
Definition allocate_unwrap (r : ArenaRef) (w : World) (len : Z) : outcome (Buffer * ArenaRef * World) :=
  let! (x, r, w) := ref_allocate r w len in
  let! b := unwrap x in
  Ret (b, r, w).

Definition raw_alloc_unwrap (r : ArenaRef) (w : World) (len : Z) : outcome (RawRegion * ArenaRef * World) :=
  let! (x, r, w) := ref_raw_alloc r w len in
  let! rr := unwrap x in
  Ret (rr, r, w).

(** The contents of frozen bytes. *)
Definition as_bytes (f : Frozen) (w : World) : outcome (list Z) :=
  match frozen_as_ref f w with Some bs => Ret bs | None => Panic end.

Definition fixed_of (r : ArenaRef) : outcome ArenaInner := match r with RFixed a => Ret a | RBuddy _ => Panic end.
Definition buddy_of (r : ArenaRef) : outcome BuddyArenaInner := match r with RBuddy bd => Ret bd | RFixed _ => Panic end.

(** [fixed_buffer.rs]: the worker thread is joined before the metrics are read;
    it drops the bytes when it ends. *)
Definition fixed_buffer_main : outcome (Z * FixedArenaMetrics) :=
  let! x := build_fixed (with_slot_capacity 64 4096) false (mkWorld ∅ []) in
  let! (a, w) := unwrap x in
  let! (buf, r, w) := allocate_unwrap (RFixed a) w 0 in
  let! (buf, r, w) := put (buf, r, w) (bytes_of "GET /index.html HTTP/1.1" ++ crlf) in
  let! (buf, r, w) := put (buf, r, w) (bytes_of "Host: example.com" ++ crlf ++ crlf) in
  let! (bytes, r, w) := freeze buf r w in
  let! bs := as_bytes bytes w in
  let! _ := assert_ (bool_decide (bytes_of "GET" `prefix_of` bs)) in
  let! (r, w) := frozen_drop bytes r w in
  let! a := fixed_of r in
  Ret (Z.of_nat (List.length bs), fixed_metrics a).

(** [buddy_buffer.rs]; [put_bytes(val, cnt)] is [cnt] times [val]. *)
Definition buddy_buffer_main : outcome (Z * Z * BuddyArenaMetrics * BuddyArenaMetrics) :=
  let! geo := unwrap (exact (1024 * 1024) 256) in
  let! x := build_buddy (buddy_builder geo) false (mkWorld ∅ []) in
  let! (bd, w) := unwrap x in
  let! (small, r, w) := allocate_unwrap (RBuddy bd) w 100 in
  let! (small, r, w) := put (small, r, w) (bytes_of "small payload") in
  let small_capacity := buffer_capacity small in
  let! (small_bytes, r, w) := freeze small r w in
  let! (large, r, w) := allocate_unwrap r w 50000 in
  let! (large, r, w) := put (large, r, w) (replicate (Z.to_nat 50000) 0xCD) in
  let large_capacity := buffer_capacity large in
  let! (large_bytes, r, w) := freeze large r w in
  let! bd := buddy_of r in
  let! m := buddy_metrics bd in
  let! (r, w) := frozen_drop small_bytes r w in
  let! (r, w) := frozen_drop large_bytes r w in
  let! bd := buddy_of r in
  let! m' := buddy_metrics bd in
  Ret (small_capacity, large_capacity, m, m').

(** [spill_buffer.rs]. *)
Definition spill_buffer_main : outcome (Z * Z * FixedArenaMetrics) :=
  let! x := build_fixed (fixed_auto_spill (with_slot_capacity 32 1024)) false (mkWorld ∅ []) in
  let! (a, w) := unwrap x in
  let! (buf, r, w) := allocate_unwrap (RFixed a) w 0 in
  let! (buf, r, w) := put (buf, r, w) (replicate (Z.to_nat 512) 0xAA) in
  let! _ := assert_ (negb (is_spilled buf)) in
  let! (small, r, w) := freeze buf r w in
  let! small_bs := as_bytes small w in
  let! (buf, r, w) := allocate_unwrap r w 0 in
  let! (buf, r, w) := put (buf, r, w) (replicate (Z.to_nat 2048) 0xBB) in
  let! _ := assert_ (is_spilled buf) in
  let! (large, r, w) := freeze buf r w in
  let! large_bs := as_bytes large w in
  let! a := fixed_of r in
  Ret (Z.of_nat (List.length small_bs), Z.of_nat (List.length large_bs), fixed_metrics a).

(** [to_le_bytes] of a [u32]. *)
Definition to_le_bytes (n : Z) : list Z :=
  [n mod 256; Z.shiftr n 8 mod 256; Z.shiftr n 16 mod 256; Z.shiftr n 24 mod 256].

Definition copy_to (w : World) (ptr : Z) (bs : list Z) : World := set_mem w (write_bytes (w_mem w) ptr bs).

(** [hazmat_fixed_raw.rs]. *)
Definition hazmat_fixed_raw_main : outcome (list Z) :=
  let! x := build_fixed (fixed_hazmat_raw_access (with_slot_capacity 4 128)) false (mkWorld ∅ []) in
  let! (a, w) := unwrap x in
  let! (raw, r, w) := raw_alloc_unwrap (RFixed a) w 0 in
  let ptr := raw_as_ptr raw in
  let payload := bytes_of "hello" in
  let plen := Z.of_nat (List.length payload) in
  let w := copy_to w ptr (to_le_bytes plen) in
  let w := copy_to w (ptr + 4) payload in
  let! (x, r, w) := raw_freeze raw r w 4 (4 + plen) in
  let! bytes := unwrap x in
  let! bs := as_bytes bytes w in
  let! (r, w) := frozen_drop bytes r w in
  let! (x, r, w) := ref_raw_alloc r w 0 in
  let! _ := assert_ (match x with Ok _ => true | Err _ => false end) in
  Ret bs.

(** [hazmat_buddy_raw.rs]: both arenas are alive until the end, so the second
    one has memory of its own, given by [GA2]. *)
Definition hazmat_buddy_raw_main (GA2 : GlobalAlloc) : outcome (Z * Z * list Z) :=
  let! geo := unwrap (exact 4096 256) in
  let! x := build_buddy (GA := GA) (buddy_hazmat_raw_access (buddy_builder geo)) false (mkWorld ∅ []) in
  let! (bd, w) := unwrap x in
  let! (exact_raw, r, w) := raw_alloc_unwrap (RBuddy bd) w 300 in
  let exact_capacity := rr_capacity exact_raw in
  let! (r, w) := raw_drop exact_raw r w in
  let! geo := nearest 4096 256 in
  let! geo := unwrap geo in
  let! x := build_buddy (GA := GA2) (buddy_hazmat_raw_access (buddy_builder geo)) false w in
  let! (bd, w) := unwrap x in
  let! (nearest_raw, r, w) := raw_alloc_unwrap (RBuddy bd) w 300 in
  let nearest_capacity := rr_capacity nearest_raw in
  let w := copy_to w (raw_as_ptr nearest_raw) (bytes_of "buddy") in
  let! (x, r, w) := raw_freeze nearest_raw r w 0 5 in
  let! bytes := unwrap x in
  let! bs := as_bytes bytes w in
  let! (r, w) := frozen_drop bytes r w in
  let! (x, r, w) := ref_raw_alloc r w 300 in
  let! _ := assert_ (match x with Ok _ => true | Err _ => false end) in
  Ret (exact_capacity, nearest_capacity, bs).

(** [async_alloc.rs].  A call through the shared [AsyncFixedArena] on its inner
    arena, after which the waiters get the wakes the call made. *)
Context {N : NotifyLib}.

Definition on_inner {A} (a : AsyncFixedArena FixedOrderSlot) (w : World)
    (call : ArenaRef → World → outcome (A * ArenaRef * World)) : outcome (A * AsyncFixedArena FixedOrderSlot * World) :=
  let! (x, r, w') := call (RFixed (af_inner a)) w in
  let! inner := fixed_of r in
  let! ws := ofoldM (λ ws _, w_wake ws) (af_waiters a) (drop (List.length (w_wakes w)) (w_wakes w')) in
  Ret (x, mkAsyncFixedArena inner ws, w').

(** [buf.put_slice(data); buf.freeze()]. *)
Definition put_freeze (buf : Buffer) (data : list Z) (a : AsyncFixedArena FixedOrderSlot) (w : World) :=
  on_inner a w (λ r w, let! (buf, r, w) := put (buf, r, w) data in freeze buf r w).

Definition drop_bytes (f : Frozen) (a : AsyncFixedArena FixedOrderSlot) (w : World) :=
  on_inner a w (λ r w, let! (r, w) := frozen_drop f r w in Ret ((), r, w)).

(** [allocate_async().await] in [main], which nothing makes wait here. *)
Definition await_now (a : AsyncFixedArena FixedOrderSlot) (w : World) :
    outcome (Buffer * AsyncFixedArena FixedOrderSlot * World) :=
  let! (r, a, w) := fixed_allocate_async a w in
  match r with FReady buf => Ret (buf, a, w) | FParked _ => OutOfFuel end.

(** The spawned task when it is polled: for the first time or at its [await]. *)
Definition waiter_poll (t : option NotifyRegistration) (a : AsyncFixedArena FixedOrderSlot) (w : World) :
    outcome ((Frozen + NotifyRegistration) * AsyncFixedArena FixedOrderSlot * World) :=
  let! (r, a, w) := (match t with None => fixed_allocate_async a w | Some reg => fixed_resume a w reg end) in
  match r with
  | FReady buf =>
      let! (f, a, w) := put_freeze buf (bytes_of "waited for this") a w in
      Ret (inl f, a, w)
  | FParked reg => Ret (inr reg, a, w)
  end.

(** [early]: whether the runtime polls the spawned task before [drop(bytes1)].
    [waiter.await] polls it until it is done, here at most once more. *)
Definition async_alloc_main (early : bool) : outcome (list Z * FixedArenaMetrics) :=
  let! x := build_fixed_async (with_slot_capacity 2 256) (mkWorld ∅ []) in
  let! (a, w) := unwrap x in
  let! (buf1, a, w) := await_now a w in
  let! (bytes1, a, w) := put_freeze buf1 (bytes_of "request 1") a w in
  let! (buf2, a, w) := await_now a w in
  let! (bytes2, a, w) := put_freeze buf2 (bytes_of "request 2") a w in
  let! (t, a, w) := (if early then
      let! (x, a, w) := waiter_poll None a w in
      match x with inr reg => Ret (Some reg, a, w) | inl _ => Panic end
    else Ret (None, a, w)) in
  let! (_, a, w) := drop_bytes bytes1 a w in
  let! (x, a, w) := waiter_poll t a w in
  match x with
  | inr _ => OutOfFuel
  | inl result =>
      let! bs := as_bytes result w in
      let! (_, a, w) := drop_bytes bytes2 a w in
      let! (_, a, w) := drop_bytes result a w in
      Ret (bs, fixed_metrics (af_inner a))
  end.
End mains.

(** ** Running them *)

Definition demo_put {P : Profile} : @put_impl list_bytes := put_default (B := list_bytes) (R := ArenaRef).

(** 47 bytes are sent; one allocation, one free, nothing left live. *)
Example fixed_buffer_runs :
  fixed_buffer_main (P := dev) (PF := demo_platform) (GA := demo_alloc) (demo_put (P := dev)) =
  Ret (47, mkFixedArenaMetrics 1 0 1 1 0 (64 * 4096) 0).
Proof. vm_compute. reflexivity. Qed.

(** The buffers have 256 and 65536 bytes; 12 splits lead to the first and none
    more to the second block, and dropping both merges everything again. *)
Example buddy_buffer_runs :
  buddy_buffer_main (P := dev) (PF := demo_platform) (GA := demo_alloc) (demo_put (P := dev)) =
  Ret (256, 65536, mkBuddyArenaMetrics 2 0 0 2 0 1048576 65792 12 0 524288,
       mkBuddyArenaMetrics 2 0 2 2 0 1048576 0 12 12 1048576).
Proof. vm_compute. reflexivity. Qed.

(** The small payload stays in the arena; the large one spills to the heap and
    gives its slot back. *)
Example spill_buffer_runs :
  spill_buffer_main (P := dev) (PF := demo_platform) (GA := demo_alloc) (demo_put (P := dev)) =
  Ret (512, 2048, mkFixedArenaMetrics 2 0 1 1 1 (32 * 1024) 1024).
Proof. vm_compute. reflexivity. Qed.

(** The payload behind the header is what was written. *)
Example hazmat_fixed_raw_runs :
  hazmat_fixed_raw_main (P := dev) (PF := demo_platform) (GA := demo_alloc) = Ret (bytes_of "hello").
Proof. vm_compute. reflexivity. Qed.

(** Exact geometry shows the whole block, nearest geometry what was asked for. *)
Example hazmat_buddy_raw_runs :
  hazmat_buddy_raw_main (P := dev) (PF := demo_platform) (GA := demo_alloc) (λ size align, 2 ^ 30) =
  Ret (512, 300, bytes_of "buddy").
Proof. vm_compute. reflexivity. Qed.

(** Whether the task waits or comes later, it gets the slot of the first request
    and everything is returned; a task that waits has one failed attempt. *)
Example async_alloc_runs early :
  async_alloc_main (P := dev) (PF := demo_platform) (GA := demo_alloc) (N := list_notify) (demo_put (P := dev)) early =
  Ret (bytes_of "waited for this", mkFixedArenaMetrics 3 (if early then 1 else 0) 3 3 0 512 0).
Proof. destruct early; vm_compute; reflexivity. Qed.
